(* ===== verification/_CoqProject ===== *)
-Q . S2P
Prelude.v
Rust.v
Text.v
Order.v
Civil.v
Encoding.v
Errors.v
Keys.v
KeyRing.v
KeyLifecycle.v
AuditEvents.v
Access.v
Limits.v
Guard.v
Host.v
Settings.v
Trail.v
TrailVerify.v
TrailRecord.v
TrailProperties.v
Json.v
KeyCache.v
Por.v
PorProperties.v
Conformance.v
RealmKeys.v
ExchangeMap.v
ExchangeMapProperties.v
Exchange.v
ExchangeProperties.v
Realms.v
Config.v
ConfigRules.v
ConfigLayers.v
ConfigProperties.v
Volume.v
ConfigFile.v
ConfigFileProperties.v
Witness.v
Provision.v
Secrets.v
App.v
AppProperties.v
Metrics.v
Exposition.v
KeyService.v
KeyFetch.v
Documents.v
Requests.v
Surface.v
Material.v
Reload.v
ReloadProperties.v
Operations.v
Storage.v
Command.v
PublicService.v
JsonMap.v
Sha256.v
TrustLab.v
TrustLabProperties.v
TrustLabService.v
AuditCommand.v
Sections.v
Landing.v
Signals.v
