(* ===== verification/Prelude.v ===== *)
(** * PIC-X, a continuity authority: a verification development

    PIC-X (the Rust workspace under [src/crates]) runs realms. A realm exchanges an OAuth access
    token for a PIC Token, advances PIC Tokens that workloads present, signs both with a key
    ring it rotates itself, and writes every grant and refusal to an audit trail that is chained
    and sealed. Around the realms a server reads its configuration from a file, the environment and
    the command line, prepares its volume, starts its services in order, guards its listeners,
    publishes the documents of every realm, measures itself, and stops within a budget. This
    library models those parts and proves what they promise.

    ** How the parts interact

    The token endpoint reads a form, verifies the source token against the key set cached for
    its identity provider, maps its claims to invariants, and issues through the realm's signer;
    or it checks a candidate, validates the executor-profile evidence it carries against the key
    sets cached for the realm's attesters, and runs settlement with the realm's own checkpoint,
    evidence and conformance checks. The signer and the checkpoint check use a key manager; the
    directory ring is one, and the key service advances every ring of a deployment. Every answer
    passes the audit sink; the file trail is one. The composition root turns a validated
    configuration into realms with rings, trails and secrets of their own, and the public surface
    serves each of them under its own path. Where two parts meet there is a class:
    [KeyManager], [PublishesWhatItSigns], [AuditSink], [Pseudonymizer], [AttesterKeySource],
    [RecordStore], [LayerLaws], [Ord].

    ** Files and the code they model

    Foundations:
    - [Prelude]: [result] and [let?] for Rust's [Result] and [?]; [M] and [let!] for code that
      mutates state and can fail (a failure keeps the state reached); [preserves], reflection
      and inversion tactics, the hint database [picx].
    - [Rust], [Text]: what the code uses of the language and its library: integer widths, casts
      and checked or saturating arithmetic, bytes, UTF-8, [str] operations, decimal and hex text,
      characters and trimming; [Order]: [Ord] and sorting; [Json], [JsonMap]: [serde_json] values,
      their maps in order of keys, and a text of them that reads back; [Sha256]: the digest of
      FIPS 180-4, executable, so that witnesses hash for real.
    - [Civil] ([pic-x-std/src/audit/civil.rs]), [Encoding] ([pic-x-std/src/keys/encoding.rs]),
      [Errors] ([pic-x-core/src/error.rs]).

    Keys and records:
    - [Keys] ([pic-x-core/src/keys.rs], [pic-x-std/src/keys.rs]): the key contract and the
      directory ring. [Manager] is the directory and the memory of [DirectoryKeyManager];
      [maintain], [directory_sign], [directory_public_keys], [export] are its methods, file
      system calls included; any of those calls may fail. [KeyRing], [KeyLifecycle]: its theorems.
    - [KeyService] ([pic-x-std/src/keys/service.rs]): the loop over all rings and their gauges.
    - [AuditEvents] ([pic-x-core/src/audit.rs], [redact.rs], [pseudonym.rs],
      [pic-x-std/src/audit.rs], [pseudonym.rs]): events, subjects, masks, pseudonyms, and the
      sinks in memory and in the log.
    - [Trail] ([pic-x-std/src/audit/file.rs]): the file sink (its state is [Trail], the files of
      the directory and the open day) and [verify]; a write may fail and leave part of a line.
      [TrailVerify], [TrailRecord], [TrailProperties]: the verifier, the writer, both together.

    The realm:
    - [KeyCache] ([pic-x-realm/src/attester_keys.rs], [idp_keys.rs]): the two key-set caches;
      [KeyFetch] ([key_fetch.rs]): the request behind them, with its deadlines.
    - [Por] ([por.rs]), [PorProperties]: SD-JWT evidence; [Conformance] ([conformance.rs]);
      [RealmKeys] ([checkpoints.rs], [RealmTokenSigner] of [exchange.rs]).
    - [ExchangeMap], [Exchange] ([exchange.rs], the profile types of [pic-x-core/src/realm.rs]):
      forms, claims, rules, expiry; and the handlers [exchange], [exchange_initial] and [advance]
      over a [World] of clock, random source, ring and sink. [ExchangeMapProperties],
      [ExchangeProperties]: their theorems.
    - [Documents] ([routes.rs], [WellKnownService::router] of [service.rs]): the documents and the
      table of routes; [PublicService] (the rest of [service.rs]): the caches a token endpoint
      shares with the task that refreshes them, and the surface as a service; [Landing]
      ([landing] of [routes.rs]): how the page of a realm is filled.

    The surfaces:
    - [Access] ([pic-x-core/src/peer.rs], [pic-x-transport/src/gate.rs],
      [pic-x-admin/src/authorization.rs], [AuditRecorder] of [pic-x-core/src/server.rs]).
    - [Limits] ([pic-x-core/src/limits.rs]); [Guard] ([pic-x-transport/src/guard.rs]): the
      acceptor as atomic steps of interleaved connections, and the guarded stream over time.
    - [Requests] ([pic-x-transport/src/request.rs], [measure.rs]): the names of requests and the
      measuring of how they end; [Surface] ([surface.rs]): the layers around the handlers of a listener.
    - [Material] ([material.rs], [digest.rs], [identity.rs]): certificates, keys and lists, and what is
      built of them; [Reload], [ReloadProperties] ([reload.rs], [Listener::start] and [Surface::stop]
      of [surface.rs]): listeners, watchers and the signal, over a disk that changes under them.
    - [Metrics] ([pic-x-core/src/metrics.rs], [pic-x-std/src/metrics.rs]), [Exposition]
      ([pic-x-telemetry/src/exposition.rs]): the registry and its text.
    - [Operations] ([pic-x-telemetry/src/probes.rs], [service.rs], [pic-x-admin/src/service.rs],
      [api.rs]): the probes, the administrative surface and its guard.
    - [Storage] ([pic-x-core/src/storage.rs], [pic-x-std/src/storage.rs]): the record store.

    The server:
    - [Settings] (the readers of [pic-x-core/src/config.rs], [logging.rs], [tls.rs], [secrets.rs]);
      [Realms] ([realm.rs]); [Config], [ConfigRules] ([config.rs]): layers, realms, validation;
      [ConfigLayers], [ConfigProperties]: their theorems; [ConfigFile], [ConfigFileProperties]
      ([config_file.rs], [App::config_for]): the file and what comes of it; [Sections]
      ([config_section.rs], the sections of [config.rs] and [app.rs]): the typed sections a build adds.
    - [Volume]: the part of [std::fs] the next three use; [Witness]
      ([pic-x-server/src/witness.rs]); [Provision] ([pic-x-std/src/provision.rs]); [Secrets]
      ([pic-x-std/src/secrets.rs]).
    - [Host] ([pic-x-core/src/server.rs], [pic-x-server/src/host.rs]): starting and stopping.
    - [Command] ([pic-x-server/src/command.rs], [banner.rs]): the command line.
    - [App], [AppProperties] ([pic-x-server/src/app.rs], [src/main.rs]): the composition root;
      [AuditCommand] ([src/main.rs]): the commands that verify a trail and export keys offline;
      [Signals] ([pic-x-server/src/signal.rs], the levels of [logging.rs]): what a signal does.

    The demonstration:
    - [TrustLab], [TrustLabProperties], [TrustLabService] ([trust-lab/src/main.rs]): the issuer of
      executor profiles that the walkthrough runs beside a deployment: its keys, its endpoints,
      and the SD-JWT credentials it signs; and what the realm of [Por] makes of them.

    ** What the theorems show

    - Key ring: every directory reachable by passes and signatures is sound (one active key,
      fresh names, a private half behind every key that may sign); a pass moves each key only
      along the guarded lifecycle, terminates, and is atomic when it fails; keys are published
      before they sign. One loop advances every ring, each isolated from the others.
    - Audit trail: every orderly history of records, shutdowns and restarts yields files that
      verify; the head of a verified trail attests to every record, and a seal to its prefix, up
      to a collision of the digest. Principals are never rendered in the clear; a version of the
      pseudonymisation key names one key for the life of a volume. A trail the offline command
      accepts with a key set holds, up to each seal, what the server had written when it made it.
    - Evidence and keys: accepted evidence is genuine, its claims are exact, remembering an
      answer changes none; the caches serve the last good set, within the stale window, and are
      what the refresh task fetched; a fetch is bounded. What the lab issues and a workload
      presents is accepted by the realm, with the claims that were asked for.
    - Endpoint: at most one record per request and no token without its record; first tokens
      come from verified sources; authority is exactly what the rules emit; an advancement is
      bound to its lineage, key and expiry; a realm recognises its own checkpoints. The two
      workers of the walkthrough are accepted, with the claims the lab publishes for them.
    - Surfaces: administration is permitted and recorded or does nothing; the acceptor keeps
      its bounds under every interleaving and drains; every realm is served as itself and no
      operations ring is published; a snapshot is the summary of what was measured and its text
      reads back, whatever the labels hold; every request is answered in time, named and counted, whatever
      its handler does; a listener is exactly what its settings and files say, no reload breaks it, and a
      watcher follows its files.
    - Configuration: which files load and what they say; later layers win; validation accepts
      exactly the stated rules; realms share no name, path or directory; every value fits its type;
      a registered section is read back by the extension that registered it.
    - Server: provisioning destroys nothing, secrets stay in their directory, a server is
      composed only of what was validated, services start and stop in order, and a shutdown
      keeps its budget; a request to stop is never lost once it is listened for.
    - Codecs (dates, base64, PEM, DER, forms, allow-list entries) read back what was written.
    - A few theorems state where the code departs from its documentation or its intent.

    ** Choices and bounds

    Integers are [Z]; where the code wraps, saturates or checks, so does the model, and the
    theorems that need a range state it. Record numbers of the trail and counts of observations
    are not wrapped: [u64] numbers end after 2^64 of them. An [f64] is a number of the Standard
    Library's executable IEEE 754, with 53 bits. The activation loop of the ring has as many turns
    as there are entries, and the template loop as many as there are bytes; both are proved enough
    (in [KeyLifecycle], and [render_loop_fuel]). The shortest decimal of a number has at most 17
    digits, which is the fuel of its search. Readers of text that take fuel get the length of the
    text, which each turn shortens. [gmap] stands for Rust's maps where order is not observed;
    ordered maps and sets are lists in order. One request sees one state of the key caches.
    Concurrency is interleaving of atomic steps in [Guard], events in [KeyService] and [Reload], and
    given outcomes of awaited calls with their durations in [Host], [KeyFetch] and [Surface].

    Third-party code is a parameter, held in a record and instantiated in every witness: the
    [ring] and [hmac] crates ([RingCrate]), [serde_json], YAML, [base64], SHA-256 and RSA
    ([PorCrates], the codec of the trail), regular expressions, the protocol crate
    ([PicCrate], [PicConstants]), what the lab calls ([LabCrates]), certificates and TLS ([Pki]), the layers of the web server
    ([TowerLayers]), URLs, the network and the clock. What is assumed of
    them (a signature scheme accepts its own signatures, an encoding is injective, an order is
    total) is a hypothesis of the theorems that need it.

    ** Not modelled

    Lock poisoning outside the store, log lines and the installation of their subscriber, the text
    of the page template and HTTP framing; the handshakes of TLS; the parsing of arguments; the
    generated code of the administrative API; the services a different build registers. *)
From Stdlib Require Export ZArith Lia Bool.
From Stdlib Require Export Strings.Byte.
From stdpp Require Export base tactics list strings gmap sorting.


(** ** Rust's [Result] and the [?] operator *)

Inductive result (A E : Type) : Type :=
| Ok (value : A)
| Err (error : E).
Arguments Ok {A E} value.
Arguments Err {A E} error.

Declare Scope rust_scope.
Delimit Scope rust_scope with rust.

Definition bind_result {A B E} (r : result A E) (k : A -> result B E) : result B E :=
  match r with
  | Ok x => k x
  | Err e => Err e
  end.

Notation "'let?' x ':=' e 'in' k" :=
  (bind_result e (fun x => k))
    (at level 200, x pattern, e at level 100, k at level 200, right associativity) : rust_scope.

(** [Option::ok_or_else]. *)
Definition ok_or {A E} (o : option A) (e : E) : result A E :=
  match o with
  | Some x => Ok x
  | None => Err e
  end.

(** [Result::map_err]. *)
Definition map_err {A E F} (f : E -> F) (r : result A E) : result A F :=
  match r with
  | Ok x => Ok x
  | Err e => Err (f e)
  end.

Definition is_ok {A E} (r : result A E) : bool :=
  match r with
  | Ok _ => true
  | Err _ => false
  end.

Lemma map_err_Ok {A E F} (f : E -> F) (r : result A E) a : map_err f r = Ok a <-> r = Ok a.
Proof. destruct r; simpl; split; intros H; try discriminate H; by injection H as ->. Qed.

Lemma bind_result_Ok {A B E} (r : result A E) (k : A -> result B E) b :
  bind_result r k = Ok b <-> exists a, r = Ok a /\ k a = Ok b.
Proof. destruct r; simpl; naive_solver. Qed.

Lemma bind_result_Err {A B E} (r : result A E) (k : A -> result B E) e :
  bind_result r k = Err e <-> r = Err e \/ exists a, r = Ok a /\ k a = Err e.
Proof. destruct r; simpl; naive_solver. Qed.

Lemma ok_or_Ok {A E} (o : option A) (e : E) a : ok_or o e = Ok a <-> o = Some a.
Proof. destruct o; simpl; naive_solver. Qed.

(** ** State passing with errors

    Code that mutates shared state and can fail keeps the state it reached when it
    fails: a Rust [?] returns early and undoes nothing. *)

Definition M (S E A : Type) : Type := S -> result A E * S.

Definition mret {S E A} (x : A) : M S E A := fun s => (Ok x, s).
Definition mfail {S E A} (e : E) : M S E A := fun s => (Err e, s).
Definition mget {S E} : M S E S := fun s => (Ok s, s).
Definition mmodify {S E} (f : S -> S) : M S E unit := fun s => (Ok tt, f s).
Definition mlift {S E A} (r : result A E) : M S E A := fun s => (r, s).

Definition mbind_st {S E A B} (m : M S E A) (k : A -> M S E B) : M S E B :=
  fun s =>
    match m s with
    | (Ok x, s') => k x s'
    | (Err e, s') => (Err e, s')
    end.

Notation "'let!' x ':=' e 'in' k" :=
  (mbind_st e (fun x => k))
    (at level 200, x pattern, e at level 100, k at level 200, right associativity) : rust_scope.

Lemma mbind_st_Ok {S E A B} (m : M S E A) (k : A -> M S E B) s b s' :
  mbind_st m k s = (Ok b, s') <-> exists a s1, m s = (Ok a, s1) /\ k a s1 = (Ok b, s').
Proof. unfold mbind_st. destruct (m s) as [[a|e] s1]; naive_solver. Qed.

Lemma mbind_st_Err {S E A B} (m : M S E A) (k : A -> M S E B) s e s' :
  mbind_st m k s = (Err e, s') <->
  m s = (Err e, s') \/ exists a s1, m s = (Ok a, s1) /\ k a s1 = (Err e, s').
Proof. unfold mbind_st. destruct (m s) as [[a|e'] s1]; naive_solver. Qed.

Lemma bind_run {S E A B} (m : M S E A) (k : A -> M S E B) s a s1 :
  m s = (Ok a, s1) -> mbind_st m k s = k a s1.
Proof. unfold mbind_st. by intros ->. Qed.

(** A run, from its result. *)
Lemma run_is {A B} (p : A * B) a : fst p = a -> p = (a, snd p).
Proof. destruct p. by intros <-. Qed.

(** ** Boolean reflection and case analysis *)

(** Turns the boolean tests of the modelled code into propositions. *)
Ltac bool_to_prop :=
  repeat match goal with
  | H : (_ && _) = true |- _ => apply andb_true_iff in H; destruct H
  | H : (_ && _) = false |- _ => apply andb_false_iff in H
  | H : (_ || _) = true |- _ => apply orb_true_iff in H
  | H : (_ || _) = false |- _ => apply orb_false_iff in H; destruct H
  | H : negb _ = true |- _ => apply negb_true_iff in H
  | H : negb _ = false |- _ => apply negb_false_iff in H
  | H : (_ <=? _)%Z = true |- _ => apply Z.leb_le in H
  | H : (_ <=? _)%Z = false |- _ => apply Z.leb_gt in H
  | H : (_ <? _)%Z = true |- _ => apply Z.ltb_lt in H
  | H : (_ <? _)%Z = false |- _ => apply Z.ltb_ge in H
  | H : (_ =? _)%Z = true |- _ => apply Z.eqb_eq in H
  | H : (_ =? _)%Z = false |- _ => apply Z.eqb_neq in H
  | H : bool_decide _ = true |- _ => apply bool_decide_eq_true_1 in H
  | H : bool_decide _ = false |- _ => apply bool_decide_eq_false_1 in H
  end.

(** Splits a run of a [let?] or [let!] computation into the runs of its parts. *)
Ltac run_inv :=
  repeat match goal with
  | H : bind_result _ _ = Ok _ |- _ => apply bind_result_Ok in H; destruct H as (? & ? & ?)
  | H : mbind_st _ _ _ = (Ok _, _) |- _ => apply mbind_st_Ok in H; destruct H as (? & ? & ? & ?)
  | H : mret _ _ = (_, _) |- _ => unfold mret in H; simplify_eq
  | H : mfail _ _ = (_, _) |- _ => unfold mfail in H; simplify_eq
  | H : mget _ = (_, _) |- _ => unfold mget in H; simplify_eq
  | H : mmodify _ _ = (_, _) |- _ => unfold mmodify in H; simplify_eq
  | H : mlift _ _ = (_, _) |- _ => unfold mlift in H; simplify_eq
  | H : Ok _ = Ok _ |- _ => injection H as H; try subst
  | H : ok_or _ _ = Ok _ |- _ => apply ok_or_Ok in H
  | H : Err _ = Ok _ |- _ => discriminate H
  end.

Create HintDb picx.

(** ** Checking a finite range by computation *)

Lemma forallb_range (f : Z -> bool) (n : nat) :
  forallb f (map Z.of_nat (seq 0 n)) = true ->
  forall z, (0 <= z < Z.of_nat n)%Z -> f z = true.
Proof.
  intros H z Hz. rewrite forallb_forall in H. apply H.
  apply in_map_iff. exists (Z.to_nat z). split; [lia|]. apply in_seq. lia.
Qed.

(** ** What every run of a computation preserves, whether it succeeds or fails *)

Definition preserves {S E A} (R : S -> S -> Prop) (m : M S E A) : Prop :=
  forall s r s', m s = (r, s') -> R s s'.

Section Preserves.
Context {S E : Type} (R : S -> S -> Prop) `{!PreOrder R}.

Lemma preserves_ret {A} (x : A) : preserves (E := E) R (mret x).
Proof. intros s r s' [= _ <-]. reflexivity. Qed.

Lemma preserves_fail {A} (e : E) : preserves (A := A) R (mfail e).
Proof. intros s r s' [= _ <-]. reflexivity. Qed.

Lemma preserves_get : preserves (E := E) R mget.
Proof. intros s r s' [= _ <-]. reflexivity. Qed.

Lemma preserves_lift {A} (x : result A E) : preserves R (mlift x).
Proof. intros s r s' [= _ <-]. reflexivity. Qed.

Lemma preserves_read {A} (f : S -> result A E) : preserves R (fun s => (f s, s)).
Proof. intros s r s' [= _ <-]. reflexivity. Qed.

Lemma preserves_modify (f : S -> S) : (forall s, R s (f s)) -> preserves (E := E) R (mmodify f).
Proof. intros H s r s' [= _ <-]. apply H. Qed.

Lemma preserves_bind {A B} (m : M S E A) (k : A -> M S E B) :
  preserves R m -> (forall x, preserves R (k x)) -> preserves R (mbind_st m k).
Proof.
  intros Hm Hk s r s'. unfold mbind_st. destruct (m s) as [[x|e] s1] eqn:E1.
  - intros H. etrans; [by eapply Hm | by eapply Hk].
  - intros [= _ <-]. by eapply Hm.
Qed.
End Preserves.

#[export] Hint Resolve preserves_ret preserves_fail preserves_get preserves_lift preserves_read
  preserves_bind : picx.

(** Reduces preservation by a compound computation to preservation by its primitive steps. *)
Ltac preserve_steps :=
  repeat match goal with
  | |- preserves _ (mbind_st _ _) => apply preserves_bind; [done || exact _ | | intros ?]
  | |- preserves _ (mret _) => apply preserves_ret; exact _
  | |- preserves _ (mfail _) => apply preserves_fail; exact _
  | |- preserves _ mget => apply preserves_get; exact _
  | |- preserves _ (mlift _) => apply preserves_lift; exact _
  | |- preserves _ (fun s => (_ s, s)) => apply preserves_read; exact _
  | |- preserves _ (let '(_, _) := ?x in _) => destruct x
  | |- preserves _ (match ?x with _ => _ end) => destruct x
  | |- preserves _ (if ?x then _ else _) => destruct x
  end; try solve [eauto with picx].
