(* ===== verification/Rust.v ===== *)
(** * The parts of Rust's language and standard library the program uses

    Fixed-width integers, byte strings, UTF-8, and the [str] operations the sources
    call, each with the behaviour the Rust reference documents. *)
From S2P Require Import Prelude.
Local Open Scope Z_scope.

(** ** Integers at their width *)

Definition U64_MAX : Z := 2 ^ 64 - 1.
Definition U32_MAX : Z := 2 ^ 32 - 1.
Definition I64_MAX : Z := 2 ^ 63 - 1.
Definition I64_MIN : Z := - 2 ^ 63.

Definition is_u64 (x : Z) : Prop := 0 <= x <= U64_MAX.
Definition is_i64 (x : Z) : Prop := I64_MIN <= x <= I64_MAX.

(** [x as u32], [x as i64]. *)
Definition as_u32 (x : Z) : Z := x mod 2 ^ 32.
Definition as_i64 (x : Z) : Z := (x + 2 ^ 63) mod 2 ^ 64 - 2 ^ 63.

(** [u64::saturating_add], [u64::saturating_sub]. *)
Definition saturating_add (a b : Z) : Z := Z.min (a + b) U64_MAX.
Definition saturating_sub (a b : Z) : Z := Z.max (a - b) 0.

(** [i64::checked_add]. *)
Definition checked_add_i64 (a b : Z) : option Z :=
  if (I64_MIN <=? a + b) && (a + b <=? I64_MAX) then Some (a + b) else None.

Lemma as_i64_id x : is_i64 x -> as_i64 x = x.
Proof.
  unfold is_i64, as_i64, I64_MIN, I64_MAX. intros H.
  rewrite Z.mod_small; lia.
Qed.

Lemma as_i64_range x : is_i64 (as_i64 x).
Proof.
  unfold is_i64, as_i64, I64_MIN, I64_MAX.
  pose proof (Z.mod_pos_bound (x + 2 ^ 63) (2 ^ 64) ltac:(lia)). lia.
Qed.

Lemma checked_add_i64_Some a b c :
  checked_add_i64 a b = Some c <-> c = a + b /\ is_i64 (a + b).
Proof.
  unfold checked_add_i64, is_i64.
  destruct (_ && _) eqn:E; bool_to_prop; split; intros; simplify_eq; try lia.
  f_equal. lia.
Qed.

(** ** Bytes *)

Definition u8 (b : byte) : Z := Z.of_N (Byte.to_N b).

(** [z as u8]. *)
Definition byte_of_Z (z : Z) : byte := default x00 (Byte.of_N (Z.to_N (z mod 256))).

Lemma u8_range b : 0 <= u8 b < 256.
Proof. unfold u8. pose proof (Byte.to_N_bounded b). lia. Qed.

Lemma u8_byte_of_Z z : u8 (byte_of_Z z) = z mod 256.
Proof.
  unfold u8, byte_of_Z.
  pose proof (Z.mod_pos_bound z 256 ltac:(lia)).
  destruct (Byte.of_N (Z.to_N (z mod 256))) as [b|] eqn:E.
  - apply Byte.to_of_N in E. simpl. rewrite E. lia.
  - apply Byte.of_N_None_iff in E. lia.
Qed.

Lemma u8_inj a b : u8 a = u8 b -> a = b.
Proof.
  unfold u8. intros H%N2Z.inj.
  pose proof (Byte.of_to_N a) as Ha. pose proof (Byte.of_to_N b) as Hb.
  rewrite H in Ha. congruence.
Qed.

Lemma byte_of_Z_u8 b : byte_of_Z (u8 b) = b.
Proof. apply u8_inj. rewrite u8_byte_of_Z. apply Z.mod_small, u8_range. Qed.

#[global] Instance byte_eq_dec : EqDecision byte.
Proof. intros a b. destruct (Byte.byte_eq_dec a b); [left|right]; done. Defined.

(** ** Strings: a [str] is the byte sequence of its UTF-8 encoding *)

Definition bytes_of (s : string) : list byte := String.list_byte_of_string s.
Definition string_of (bs : list byte) : string := String.string_of_list_byte bs.

Lemma bytes_of_string_of bs : bytes_of (string_of bs) = bs.
Proof. apply String.list_byte_of_string_of_list_byte. Qed.

Lemma string_of_bytes_of s : string_of (bytes_of s) = s.
Proof. apply String.string_of_list_byte_of_string. Qed.

#[global] Instance bytes_of_inj : Inj (=) (=) bytes_of.
Proof. intros s t H. by rewrite <- (string_of_bytes_of s), H, string_of_bytes_of. Qed.

Lemma bytes_of_app s t : bytes_of (s +:+ t) = bytes_of s ++ bytes_of t.
Proof.
  unfold bytes_of, String.list_byte_of_string. rewrite <- map_app. f_equal.
  induction s as [|c s IH]; [done|].
  change (c :: String.list_ascii_of_string (s +:+ t)
          = c :: String.list_ascii_of_string s ++ String.list_ascii_of_string t).
  by f_equal.
Qed.

Lemma string_of_app a b : string_of (a ++ b) = string_of a +:+ string_of b.
Proof.
  rewrite <- (string_of_bytes_of (string_of a +:+ string_of b)).
  by rewrite bytes_of_app, !bytes_of_string_of.
Qed.

(** [str::len], in bytes. *)
Definition str_len (s : string) : Z := Z.of_nat (length (bytes_of s)).

Definition is_empty (s : string) : bool := bool_decide (s = "").

(** *** UTF-8 *)

Definition cont (b : byte) : bool := (128 <=? u8 b) && (u8 b <? 192).
Definition between (lo hi : Z) (b : byte) : bool := (lo <=? u8 b) && (u8 b <=? hi).

(** The code points of a byte sequence, or nothing when it is not UTF-8; the ranges are
    the ones [std::str::from_utf8] accepts (no overlong form, no surrogate). *)
Fixpoint utf8_decode (bs : list byte) : option (list Z) :=
  match bs with
  | [] => Some []
  | a :: r1 =>
    if u8 a <? 128 then cons (u8 a) <$> utf8_decode r1
    else match r1 with
    | [] => None
    | b :: r2 =>
      if between 194 223 a && cont b
      then cons ((u8 a - 192) * 64 + (u8 b - 128)) <$> utf8_decode r2
      else match r2 with
      | [] => None
      | c :: r3 =>
        if ((between 224 224 a && between 160 191 b)
            || (between 225 236 a && cont b)
            || (between 237 237 a && between 128 159 b)
            || (between 238 239 a && cont b)) && cont c
        then cons ((u8 a - 224) * 4096 + (u8 b - 128) * 64 + (u8 c - 128)) <$> utf8_decode r3
        else match r3 with
        | [] => None
        | d :: r4 =>
          if ((between 240 240 a && between 144 191 b)
              || (between 241 243 a && cont b)
              || (between 244 244 a && between 128 143 b)) && cont c && cont d
          then cons ((u8 a - 240) * 262144 + (u8 b - 128) * 4096 + (u8 c - 128) * 64 + (u8 d - 128))
                 <$> utf8_decode r4
          else None
        end
      end
    end
  end.

(** [String::from_utf8] and [str::from_utf8]. *)
Definition from_utf8 (bs : list byte) : option string :=
  match utf8_decode bs with
  | Some _ => Some (string_of bs)
  | None => None
  end.

(** [str::chars]: every [str] is UTF-8, so the default is never used on one. *)
Definition chars (s : string) : list Z := default [] (utf8_decode (bytes_of s)).

(** The bytes of one code point. *)
Definition utf8_encode_char (c : Z) : list byte :=
  if c <? 128 then [byte_of_Z c]
  else if c <? 2048 then [byte_of_Z (192 + c / 64); byte_of_Z (128 + c mod 64)]
  else if c <? 65536 then
    [byte_of_Z (224 + c / 4096); byte_of_Z (128 + (c / 64) mod 64); byte_of_Z (128 + c mod 64)]
  else
    [byte_of_Z (240 + c / 262144); byte_of_Z (128 + (c / 4096) mod 64);
     byte_of_Z (128 + (c / 64) mod 64); byte_of_Z (128 + c mod 64)].

(** [Iterator<Item = char>::collect::<String>()]. *)
Definition of_chars (cs : list Z) : string := string_of (concat (map utf8_encode_char cs)).

Definition is_ascii_byte (b : byte) : bool := u8 b <? 128.

Lemma utf8_decode_ascii bs :
  Forall (fun b => is_ascii_byte b = true) bs -> utf8_decode bs = Some (map u8 bs).
Proof.
  induction 1 as [|b bs Hb _ IH]; [done|]. simpl.
  unfold is_ascii_byte in Hb. rewrite Hb. by rewrite IH.
Qed.

(** ** Splitting and searching *)

(** [slice::split] by a predicate: one more piece than there are separators. *)
Fixpoint split_list {A} (p : A -> bool) (l : list A) : list (list A) :=
  match l with
  | [] => [[]]
  | x :: r =>
    if p x then [] :: split_list p r
    else match split_list p r with
         | [] => [[x]]
         | w :: ws => (x :: w) :: ws
         end
  end.

Lemma split_list_none {A} (p : A -> bool) l :
  Forall (fun x => p x = false) l -> split_list p l = [l].
Proof. induction 1 as [|x l Hx _ IH]; [done|]. simpl. by rewrite Hx, IH. Qed.

Lemma split_list_app {A} (p : A -> bool) w x r :
  Forall (fun x => p x = false) w -> p x = true ->
  split_list p (w ++ x :: r) = w :: split_list p r.
Proof.
  intros Hw Hx. induction Hw as [|y w Hy _ IH]; simpl; [by rewrite Hx|].
  by rewrite Hy, IH.
Qed.

Lemma split_list_nonempty {A} (p : A -> bool) l : split_list p l <> [].
Proof. destruct l as [|x l]; simpl; [done|]. destruct (p x); [done|]. by destruct (split_list p l). Qed.

(** [str::split] by an ASCII character. *)
Definition split (c : byte) (s : string) : list string :=
  map string_of (split_list (fun b => bool_decide (b = c)) (bytes_of s)).

Fixpoint split_once_list {A} (p : A -> bool) (l : list A) : option (list A * list A) :=
  match l with
  | [] => None
  | x :: r => if p x then Some ([], r)
              else match split_once_list p r with
                   | Some (a, b) => Some (x :: a, b)
                   | None => None
                   end
  end.

(** [str::split_once] by an ASCII character. *)
Definition split_once (c : byte) (s : string) : option (string * string) :=
  match split_once_list (fun b => bool_decide (b = c)) (bytes_of s) with
  | Some (a, b) => Some (string_of a, string_of b)
  | None => None
  end.

Fixpoint strip_prefix_list (p l : list byte) : option (list byte) :=
  match p, l with
  | [], _ => Some l
  | a :: p', b :: l' => if bool_decide (a = b) then strip_prefix_list p' l' else None
  | _ :: _, [] => None
  end.

(** [str::strip_prefix], [str::strip_suffix], [str::starts_with], [str::ends_with]. *)
Definition strip_prefix (p s : string) : option string :=
  string_of <$> strip_prefix_list (bytes_of p) (bytes_of s).
Definition strip_suffix (p s : string) : option string :=
  (fun r => string_of (rev r)) <$> strip_prefix_list (rev (bytes_of p)) (rev (bytes_of s)).
Definition starts_with (p s : string) : bool := bool_decide (is_Some (strip_prefix p s)).
Definition ends_with (p s : string) : bool := bool_decide (is_Some (strip_suffix p s)).

Lemma strip_prefix_list_Some p l r : strip_prefix_list p l = Some r <-> l = p ++ r.
Proof.
  revert l. induction p as [|a p IH]; intros l; simpl; [naive_solver|].
  destruct l as [|b l]; [naive_solver|].
  case_bool_decide as E; [subst; rewrite IH; naive_solver|naive_solver].
Qed.

(** ** Numbers as text *)

Definition digit (d : Z) : byte := byte_of_Z (48 + d).

Fixpoint dec_digits (fuel : nat) (n : Z) (acc : list byte) : list byte :=
  match fuel with
  | O => acc
  | S f => let acc' := digit (n mod 10) :: acc in
           if n <? 10 then acc' else dec_digits f (n / 10) acc'
  end.

(** The decimal digits of a number that is not negative; one digit per bit is enough fuel. *)
Definition dec (n : Z) : list byte := dec_digits (S (Z.to_nat (Z.log2 n))) n [].

Definition zeroes (n : nat) : list byte := repeat x30 n.

(** [{:0w}] of an integer: the sign first, then zeroes, then the digits. *)
Definition pad (w : nat) (n : Z) : list byte :=
  if n <? 0
  then x2d :: zeroes (w - 1 - length (dec (- n))) ++ dec (- n)
  else zeroes (w - length (dec n)) ++ dec n.

Definition is_digit (b : byte) : bool := between 48 57 b.

Fixpoint parse_digits (acc : Z) (bs : list byte) : option Z :=
  match bs with
  | [] => Some acc
  | b :: r => if is_digit b then parse_digits (acc * 10 + (u8 b - 48)) r else None
  end.

Definition parse_unsigned (bs : list byte) : option Z :=
  match bs with
  | [] => None
  | _ => parse_digits 0 bs
  end.

Definition in_range (lo hi : Z) (o : option Z) : option Z :=
  match o with
  | Some n => if (lo <=? n) && (n <=? hi) then Some n else None
  | None => None
  end.

Lemma in_range_Some lo hi n : lo <= n <= hi -> in_range lo hi (Some n) = Some n.
Proof. intros. simpl. rewrite !(proj2 (Z.leb_le _ _)); auto; lia. Qed.

(** [str::parse::<uN>] and [str::parse::<i64>]: a leading [+], and for a signed type a
    leading [-], then at least one digit, within the type. *)
Definition parse_uint (hi : Z) (bs : list byte) : option Z :=
  in_range 0 hi
    match bs with
    | x2b :: r => parse_unsigned r
    | _ => parse_unsigned bs
    end.

Definition parse_i64 (bs : list byte) : option Z :=
  in_range I64_MIN I64_MAX
    match bs with
    | x2b :: r => parse_unsigned r
    | x2d :: r => Z.opp <$> parse_unsigned r
    | _ => parse_unsigned bs
    end.

Lemma u8_digit d : 0 <= d < 10 -> u8 (digit d) = 48 + d.
Proof. intros. unfold digit. rewrite u8_byte_of_Z. rewrite Z.mod_small; lia. Qed.

Lemma is_digit_digit d : 0 <= d < 10 -> is_digit (digit d) = true.
Proof.
  intros H. unfold is_digit, between. rewrite u8_digit by done.
  apply andb_true_iff; split; apply Z.leb_le; lia.
Qed.

Lemma dec_digits_all fuel n acc :
  Forall (fun b => is_digit b = true) acc ->
  Forall (fun b => is_digit b = true) (dec_digits fuel n acc).
Proof.
  revert n acc. induction fuel as [|f IH]; intros n acc H; simpl; [done|].
  assert (Forall (fun b => is_digit b = true) (digit (n mod 10) :: acc)).
  { constructor; [|done]. apply is_digit_digit, Z.mod_pos_bound; lia. }
  destruct (n <? 10); auto.
Qed.

Lemma dec_all_digits n : Forall (fun b => is_digit b = true) (dec n).
Proof. apply dec_digits_all. constructor. Qed.

Lemma parse_digits_app acc a b :
  parse_digits acc (a ++ b) =
  match parse_digits acc a with Some x => parse_digits x b | None => None end.
Proof.
  revert acc. induction a as [|x a IH]; intros acc; simpl; [done|].
  by destruct (is_digit x).
Qed.

Lemma parse_dec_digits fuel n acc :
  0 <= n < 10 ^ Z.of_nat fuel -> (0 < fuel)%nat ->
  exists ds, dec_digits fuel n acc = ds ++ acc /\ ds <> [] /\
             parse_digits 0 ds = Some n.
Proof.
  revert n acc. induction fuel as [|f IH]; intros n acc Hn Hf; [lia|].
  cbn [dec_digits].
  assert (Hm : 0 <= n mod 10 < 10) by (apply Z.mod_pos_bound; lia).
  destruct (n <? 10) eqn:E; bool_to_prop.
  - exists [digit (n mod 10)]. split; [done|split; [done|]].
    cbn [parse_digits]. rewrite is_digit_digit, u8_digit by done.
    rewrite Z.mod_small by lia. f_equal. lia.
  - rewrite Nat2Z.inj_succ, Z.pow_succ_r in Hn by lia.
    assert (Hf' : (0 < f)%nat) by (destruct f; [simpl in Hn|]; lia).
    destruct (IH (n / 10) (digit (n mod 10) :: acc)) as (ds & Hds & _ & Hp);
      [split; [apply Z.div_pos; lia | apply Z.div_lt_upper_bound; lia]|done|].
    exists (ds ++ [digit (n mod 10)]). rewrite Hds. split; [by rewrite <- app_assoc|].
    split; [by destruct ds|].
    rewrite parse_digits_app, Hp. cbn [parse_digits].
    rewrite is_digit_digit, u8_digit by done. f_equal.
    pose proof (Z.div_mod n 10). lia.
Qed.

Lemma parse_dec n : 0 <= n -> dec n <> [] /\ parse_digits 0 (dec n) = Some n.
Proof.
  intros Hn. unfold dec.
  destruct (parse_dec_digits (S (Z.to_nat (Z.log2 n))) n []) as (ds & Hds & Hne & Hp);
    [|lia|rewrite Hds, app_nil_r; auto].
  rewrite Nat2Z.inj_succ, Z2Nat.id by apply Z.log2_nonneg.
  split; [done|]. destruct (Z.eq_dec n 0) as [->|Hz]; [done|].
  pose proof (Z.log2_spec n ltac:(lia)) as [_ H].
  eapply Z.lt_le_trans; [exact H|]. apply Z.pow_le_mono_l. lia.
Qed.

Lemma parse_zeroes k bs : parse_digits 0 (zeroes k ++ bs) = parse_digits 0 bs.
Proof. induction k as [|k IH]; [done|]. simpl. exact IH. Qed.

Lemma pad_nonneg w n :
  0 <= n -> pad w n <> [] /\ parse_digits 0 (pad w n) = Some n /\
            Forall (fun b => is_digit b = true) (pad w n).
Proof.
  intros Hn. unfold pad. destruct (n <? 0) eqn:E; bool_to_prop; [lia|].
  destruct (parse_dec n Hn) as [Hne Hp]. split_and!.
  - by destruct (zeroes _), (dec n).
  - by rewrite parse_zeroes.
  - apply Forall_app; split; [|apply dec_all_digits].
    unfold zeroes. induction (w - length (dec n))%nat; simpl; constructor; auto.
Qed.

Lemma digit_not c b : is_digit b = true -> is_digit c = false -> bool_decide (b = c) = false.
Proof. intros Hb Hc. apply bool_decide_eq_false_2. intros ->. congruence. Qed.

Lemma parse_int_digits bs n :
  bs <> [] -> Forall (fun b => is_digit b = true) bs -> parse_digits 0 bs = Some n ->
  parse_i64 bs = in_range I64_MIN I64_MAX (Some n) /\
  forall hi, parse_uint hi bs = in_range 0 hi (Some n).
Proof.
  intros Hne Hd Hp. destruct bs as [|b r]; [done|].
  apply Forall_cons_1 in Hd as [Hb _].
  unfold parse_i64, parse_uint, parse_unsigned. rewrite <- Hp.
  destruct b; try (split; [|intros]; reflexivity); vm_compute in Hb; discriminate.
Qed.

(** ** Chunks, lines, whitespace *)

Fixpoint chunks_fuel {A} (fuel k : nat) (l : list A) : list (list A) :=
  match fuel, l with
  | O, _ | _, [] => []
  | S f, _ => take k l :: chunks_fuel f k (drop k l)
  end.

(** [slice::chunks]; each chunk consumes at least one element, so the length is enough fuel. *)
Definition chunks {A} (k : nat) (l : list A) : list (list A) := chunks_fuel (length l) k l.

Lemma chunks_fuel_enough {A} k (l : list A) f g :
  (0 < k)%nat -> (length l <= f)%nat -> (length l <= g)%nat -> chunks_fuel f k l = chunks_fuel g k l.
Proof.
  intros Hk. revert l g. induction f as [|f IH]; intros l g Hf Hg.
  - destruct l; simpl in *; [by destruct g|lia].
  - destruct l as [|x l]; [by destruct g|]. destruct g as [|g]; [simpl in Hg; lia|].
    cbn [chunks_fuel]. f_equal. pose proof (length_drop (x :: l) k) as Hd.
    simpl in Hf, Hg, Hd. apply IH; lia.
Qed.

Lemma chunks_cons {A} k (l : list A) :
  (0 < k)%nat -> l <> [] -> chunks k l = take k l :: chunks k (drop k l).
Proof.
  intros Hk Hl. destruct l as [|x l]; [done|]. unfold chunks at 1. cbn [chunks_fuel length].
  f_equal. apply chunks_fuel_enough; [done|rewrite length_drop; simpl; lia|done].
Qed.

Lemma concat_chunks {A} k (l : list A) : (0 < k)%nat -> concat (chunks k l) = l.
Proof.
  intros Hk. remember (length l) as n eqn:Hn. revert l Hn.
  induction n as [n IH] using lt_wf_ind. intros l ->.
  destruct l as [|x l]; [done|].
  rewrite chunks_cons by done. cbn [concat].
  rewrite (IH (length (drop k (x :: l)))); [apply take_drop|rewrite length_drop; simpl; lia|done].
Qed.

Lemma chunks_Forall {A} (P : A -> Prop) k l : (0 < k)%nat -> Forall P l -> Forall (Forall P) (chunks k l).
Proof.
  intros Hk. remember (length l) as n eqn:Hn. revert l Hn.
  induction n as [n IH] using lt_wf_ind. intros l -> Hl.
  destruct l as [|x l]; [constructor|].
  rewrite chunks_cons by done. constructor; [by apply Forall_take|].
  eapply IH; [|reflexivity|by apply Forall_drop]. rewrite length_drop. simpl. lia.
Qed.

Definition LF : byte := x0a.
Definition CR : byte := x0d.

Definition strip_cr (line : list byte) : list byte :=
  match rev line with
  | x0d :: r => rev r
  | _ => line
  end.

(** [str::lines]: a line ends at a line feed, which is dropped with a carriage return before
    it; what follows the last line feed is a line only when it is not empty. *)
Fixpoint lines_of_pieces (ps : list (list byte)) : list (list byte) :=
  match ps with
  | [] => []
  | [p] => match p with [] => [] | _ => [p] end
  | p :: ps' => strip_cr p :: lines_of_pieces ps'
  end.

Definition lines (bs : list byte) : list (list byte) :=
  lines_of_pieces (split_list (fun b => bool_decide (b = LF)) bs).

(** [char::is_whitespace]: the Unicode [White_Space] code points. *)
Definition is_whitespace (c : Z) : bool :=
  ((9 <=? c) && (c <=? 13)) || (c =? 32) || (c =? 133) || (c =? 160) || (c =? 5760)
  || ((8192 <=? c) && (c <=? 8202)) || (c =? 8232) || (c =? 8233) || (c =? 8239)
  || (c =? 8287) || (c =? 12288).

Fixpoint drop_while {A} (p : A -> bool) (l : list A) : list A :=
  match l with
  | [] => []
  | x :: r => if p x then drop_while p r else l
  end.

(** [str::trim]. *)
Definition trim (s : string) : string :=
  of_chars (rev (drop_while is_whitespace (rev (drop_while is_whitespace (chars s))))).

(** [str::split_whitespace]. *)
Definition split_whitespace (s : string) : list string :=
  map of_chars (List.filter (fun w => negb (bool_decide (w = []))) (split_list is_whitespace (chars s))).

(** [u8::to_ascii_lowercase], [str::to_ascii_lowercase]. *)
Definition byte_to_ascii_lowercase (b : byte) : byte :=
  if between 65 90 b then byte_of_Z (u8 b + 32) else b.

Definition to_ascii_lowercase (s : string) : string :=
  string_of (map byte_to_ascii_lowercase (bytes_of s)).

(** [format!("{byte:02x}")] over a byte sequence. *)
Definition hex_digit (d : Z) : byte := byte_of_Z (if d <? 10 then 48 + d else 87 + d).
Definition hex_byte (b : byte) : list byte := [hex_digit (u8 b / 16); hex_digit (u8 b mod 16)].
Definition hex (bs : list byte) : string := string_of (concat (map hex_byte bs)).

Lemma hex_digit_inj x y : 0 <= x < 16 -> 0 <= y < 16 -> hex_digit x = hex_digit y -> x = y.
Proof.
  assert (H : forallb (fun x => forallb (fun y =>
             negb (bool_decide (hex_digit x = hex_digit y)) || (x =? y))
             (map Z.of_nat (seq 0 16))) (map Z.of_nat (seq 0 16)) = true) by (vm_compute; reflexivity).
  intros Hx Hy Heq. pose proof (forallb_range _ _ (forallb_range _ _ H x Hx) y Hy) as Hc. simpl in Hc.
  rewrite bool_decide_true in Hc by done. simpl in Hc. lia.
Qed.

Lemma hex_byte_inj a b : hex_byte a = hex_byte b -> a = b.
Proof.
  unfold hex_byte. intros [= H1 H2]. apply u8_inj.
  pose proof (u8_range a) as Ha. pose proof (u8_range b) as Hb.
  apply hex_digit_inj in H1; [|split; [apply Z.div_pos; lia|apply Z.div_lt_upper_bound; lia]..].
  apply hex_digit_inj in H2; [|apply Z.mod_pos_bound; lia..].
  rewrite (Z.div_mod (u8 a) 16), (Z.div_mod (u8 b) 16) by lia. congruence.
Qed.

Lemma hex_inj a b : hex a = hex b -> a = b.
Proof.
  intros H. apply (f_equal bytes_of) in H. unfold hex in H. rewrite !bytes_of_string_of in H.
  revert b H. induction a as [|x a IH]; intros [|y b] H; simpl in H; try done.
  injection H as H1 H2 H3. f_equal; [|auto]. apply hex_byte_inj. unfold hex_byte. congruence.
Qed.

Lemma hex_length bs : length (bytes_of (hex bs)) = (2 * length bs)%nat.
Proof.
  unfold hex. rewrite bytes_of_string_of. induction bs; simpl in *; [done|]. lia.
Qed.
