(* ===== verification/Text.v ===== *)
(** * UTF-8 and trimmed text

    The encoding and the decoding of [Rust] are inverse on scalar values, so what [str::trim]
    returns is read again character by character; and the further [str] operations the
    configuration and the peer lists use. *)
From S2P Require Import Prelude Rust.
Local Open Scope Z_scope.

(** A Unicode scalar value: a Rust [char]. *)
Definition is_scalar (c : Z) : Prop := 0 <= c < 55296 \/ 57344 <= c < 1114112.

(** A Rust [str]: its bytes are UTF-8. *)
Definition is_utf8 (s : string) : Prop := is_Some (utf8_decode (bytes_of s)).

#[global] Instance is_utf8_dec s : Decision (is_utf8 s).
Proof. unfold is_utf8. apply _. Defined.

(** ** Decoding what was encoded, and back *)

Ltac solve_div := Z.to_euclidean_division_equations; lia.

Lemma between_true lo hi b : lo <= u8 b <= hi -> between lo hi b = true.
Proof. intros H. unfold between. apply andb_true_iff. split; apply Z.leb_le; lia. Qed.

Lemma between_false lo hi b : u8 b < lo \/ hi < u8 b -> between lo hi b = false.
Proof. intros H. unfold between. apply andb_false_iff. rewrite !Z.leb_gt. lia. Qed.

Lemma between_spec lo hi b : between lo hi b = true -> lo <= u8 b <= hi.
Proof. unfold between. intros H. bool_to_prop. lia. Qed.

Lemma cont_between b : cont b = between 128 191 b.
Proof.
  unfold cont, between. f_equal. destruct (Z.ltb_spec (u8 b) 192), (Z.leb_spec (u8 b) 191); lia.
Qed.

Lemma byte_of_Z_is b z : 0 <= z < 256 -> u8 b = z -> b = byte_of_Z z.
Proof. intros Hz Hb. apply u8_inj. rewrite u8_byte_of_Z, Z.mod_small; lia. Qed.

Lemma u8_byte_small z : 0 <= z < 256 -> u8 (byte_of_Z z) = z.
Proof. intros. rewrite u8_byte_of_Z. apply Z.mod_small. lia. Qed.

(** Replaces the bytes of an encoding by their values and decides the tests of the decoder. *)
Ltac known_bytes :=
  repeat match goal with
  | |- context [u8 (byte_of_Z ?z)] => rewrite (u8_byte_small z) by solve_div
  end.

Ltac compare_bytes :=
  rewrite ?cont_between; unfold between; known_bytes;
  repeat match goal with
  | |- context [Z.leb ?a ?b] => destruct (Z.leb_spec a b); cbn [andb orb]; try solve [exfalso; solve_div]
  | |- context [Z.ltb ?a ?b] => destruct (Z.ltb_spec a b); cbn [andb orb]; try solve [exfalso; solve_div]
  end; solve [reflexivity | exfalso; solve_div].

Ltac decide_test :=
  match goal with |- context [if ?t then _ else _] =>
    first [replace t with true by (symmetry; compare_bytes)
          | replace t with false by (symmetry; compare_bytes)]
  end.

Lemma utf8_decode_encode_char c r :
  is_scalar c -> utf8_decode (utf8_encode_char c ++ r) = cons c <$> utf8_decode r.
Proof.
  intros Hc. unfold is_scalar in Hc. unfold utf8_encode_char.
  destruct (Z.ltb_spec c 128); [|destruct (Z.ltb_spec c 2048); [|destruct (Z.ltb_spec c 65536)]];
    cbn [app utf8_decode]; repeat decide_test; known_bytes; f_equal; f_equal; solve_div.
Qed.

(** Reads the ranges of the bytes off the tests that held. *)
Ltac read_tests :=
  repeat match goal with
  | H : (_ && _) = true |- _ => apply andb_true_iff in H; destruct H
  | H : (_ || _) = true |- _ => apply orb_true_iff in H; destruct H
  | H : between _ _ _ = true |- _ => apply between_spec in H
  | H : cont _ = true |- _ => rewrite cont_between in H
  end.

(** Reads one decoded character back into the bytes it came from. *)
Ltac decoded r :=
  match goal with |- cons ?c <$> utf8_decode r = Some _ -> _ =>
    let Hd := fresh in
    destruct (utf8_decode r) eqn:Hd; intros; simplify_eq/=; read_tests;
    eexists c, r, _; (split_and!; [|unfold is_scalar; lia|reflexivity|done|lia]);
    unfold utf8_encode_char; repeat decide_test; cbn [app]; repeat f_equal;
    apply byte_of_Z_is; solve_div
  end.

Ltac test_of := match goal with |- context [if ?t then _ else _] => destruct t eqn:? end.

(** One step of the decoder: a scalar value and the bytes that encode it. *)
Lemma utf8_decode_step a r cs :
  utf8_decode (a :: r) = Some cs ->
  exists c r' cs', a :: r = utf8_encode_char c ++ r' /\ is_scalar c /\
    cs = c :: cs' /\ utf8_decode r' = Some cs' /\ (length r' < length (a :: r))%nat.
Proof.
  cbn [utf8_decode]. pose proof (u8_range a).
  destruct (Z.ltb_spec (u8 a) 128); [decoded r|].
  destruct r as [|b r]; [done|]. pose proof (u8_range b).
  test_of; [decoded r|].
  destruct r as [|c r]; [done|]. pose proof (u8_range c).
  test_of; [decoded r|].
  destruct r as [|d r]; [done|]. pose proof (u8_range d).
  test_of; [decoded r|done].
Qed.

Lemma utf8_encode_decode bs cs :
  utf8_decode bs = Some cs -> concat (map utf8_encode_char cs) = bs /\ Forall is_scalar cs.
Proof.
  remember (length bs) as n eqn:Hn. revert bs cs Hn.
  induction n as [n IH] using lt_wf_ind. intros [|a r] cs -> H; [by simplify_eq/=|].
  apply utf8_decode_step in H as (c & r' & cs' & Heq & Hc & -> & Hr & Hlt).
  destruct (IH (length r') Hlt r' cs' eq_refl Hr) as [Hr' Hs]. rewrite Heq. cbn [map concat].
  rewrite Hr'. split; [done|by constructor].
Qed.

Lemma utf8_decode_encode cs :
  Forall is_scalar cs -> utf8_decode (concat (map utf8_encode_char cs)) = Some cs.
Proof.
  induction 1 as [|c cs Hc _ IH]; [done|]. cbn [map concat].
  by rewrite utf8_decode_encode_char, IH.
Qed.

Lemma utf8_decode_app a b cs :
  Forall is_scalar cs -> a = concat (map utf8_encode_char cs) ->
  utf8_decode (a ++ b) = app cs <$> utf8_decode b.
Proof.
  intros Hs ->. induction Hs as [|c cs Hc _ IH]; simpl; [by destruct (utf8_decode b)|].
  rewrite <- app_assoc, utf8_decode_encode_char, IH by done. by destruct (utf8_decode b).
Qed.

Lemma chars_of_chars cs : Forall is_scalar cs -> chars (of_chars cs) = cs.
Proof.
  intros H. unfold chars, of_chars. by rewrite bytes_of_string_of, utf8_decode_encode.
Qed.

Lemma of_chars_chars s : is_utf8 s -> of_chars (chars s) = s.
Proof.
  intros [cs H]. unfold chars, of_chars. rewrite H. simpl.
  apply utf8_encode_decode in H as [-> _]. apply string_of_bytes_of.
Qed.

Lemma chars_scalar s : is_utf8 s -> Forall is_scalar (chars s).
Proof. intros [cs H]. unfold chars. rewrite H. by apply utf8_encode_decode in H as [_ Hs]. Qed.

Lemma of_chars_utf8 cs : Forall is_scalar cs -> is_utf8 (of_chars cs).
Proof.
  intros H. unfold is_utf8, of_chars. rewrite bytes_of_string_of, utf8_decode_encode by done. eauto.
Qed.

Lemma of_chars_app a b : of_chars (a ++ b) = of_chars a +:+ of_chars b.
Proof. unfold of_chars. by rewrite map_app, concat_app, string_of_app. Qed.

Lemma is_utf8_app s t : is_utf8 s -> is_utf8 t -> is_utf8 (s +:+ t).
Proof.
  intros Hs Ht. rewrite <- (of_chars_chars s), <- (of_chars_chars t), <- of_chars_app by done.
  apply of_chars_utf8, Forall_app. split; by apply chars_scalar.
Qed.

Lemma chars_app s t : is_utf8 s -> is_utf8 t -> chars (s +:+ t) = chars s ++ chars t.
Proof.
  intros Hs Ht. rewrite <- (of_chars_chars s) at 1 by done. rewrite <- (of_chars_chars t) at 1 by done.
  rewrite <- of_chars_app, chars_of_chars; [done|]. apply Forall_app. split; by apply chars_scalar.
Qed.

(** ** Trimming *)

Lemma drop_while_Forall {A} (P : A -> Prop) p (l : list A) : Forall P l -> Forall P (drop_while p l).
Proof. induction 1; simpl; [constructor|]. destruct (p x); [done|]. by constructor. Qed.

Lemma drop_while_head {A} (p : A -> bool) (l : list A) :
  match drop_while p l with [] => True | x :: _ => p x = false end.
Proof. induction l as [|x l IH]; simpl; [done|]. by destruct (p x) eqn:E. Qed.

Lemma drop_while_id {A} (p : A -> bool) (l : list A) :
  match l with [] => True | x :: _ => p x = false end -> drop_while p l = l.
Proof. destruct l; simpl; [done|]. by intros ->. Qed.

Lemma drop_while_suffix {A} (p : A -> bool) (l : list A) : exists w, l = w ++ drop_while p l.
Proof.
  induction l as [|x l [w IH]]; simpl; [by exists []|].
  destruct (p x); [exists (x :: w); simpl; by f_equal|by exists []].
Qed.

(** The characters [str::trim] keeps. *)
Definition trim_chars (cs : list Z) : list Z :=
  rev (drop_while is_whitespace (rev (drop_while is_whitespace cs))).

(** Text with no white space at either end. *)
Definition trimmed (cs : list Z) : Prop :=
  (match cs with [] => True | c :: _ => is_whitespace c = false end) /\
  (match rev cs with [] => True | c :: _ => is_whitespace c = false end).

Lemma trim_chars_trimmed cs : trimmed (trim_chars cs).
Proof.
  unfold trim_chars, trimmed. rewrite rev_involutive. split; [|apply drop_while_head].
  set (m := drop_while is_whitespace cs). pose proof (drop_while_head is_whitespace cs) as Hm.
  fold m in Hm. destruct (drop_while_suffix is_whitespace (rev m)) as [w Hw].
  apply (f_equal (@rev Z)) in Hw. rewrite rev_involutive, rev_app_distr in Hw.
  destruct (rev (drop_while _ (rev m))) as [|c l]; [done|]. rewrite Hw in Hm. exact Hm.
Qed.

Lemma trim_chars_id cs : trimmed cs -> trim_chars cs = cs.
Proof.
  intros [H1 H2]. unfold trim_chars. rewrite (drop_while_id _ cs H1), (drop_while_id _ (rev cs) H2).
  apply rev_involutive.
Qed.

Lemma trim_chars_Forall P cs : Forall P cs -> Forall P (trim_chars cs).
Proof. intros H. apply Forall_rev, drop_while_Forall, Forall_rev, drop_while_Forall, H. Qed.

Lemma trim_is s : trim s = of_chars (trim_chars (chars s)).
Proof. reflexivity. Qed.

Lemma trim_utf8 s : is_utf8 s -> is_utf8 (trim s).
Proof. intros H. rewrite trim_is. by apply of_chars_utf8, trim_chars_Forall, chars_scalar. Qed.

Lemma chars_trim s : is_utf8 s -> chars (trim s) = trim_chars (chars s).
Proof. intros H. rewrite trim_is. by apply chars_of_chars, trim_chars_Forall, chars_scalar. Qed.

Lemma trim_trim s : is_utf8 s -> trim (trim s) = trim s.
Proof.
  intros H. rewrite trim_is, chars_trim, trim_chars_id by (done || apply trim_chars_trimmed). done.
Qed.

Lemma trim_id s : is_utf8 s -> trimmed (chars s) -> trim s = s.
Proof. intros H Ht. rewrite trim_is, trim_chars_id by done. by apply of_chars_chars. Qed.

(** A prefix that starts with a visible character stays in front of trimmed text. *)
Lemma trim_prefixed p s :
  is_utf8 p -> is_utf8 s -> trim s = s -> s <> "" ->
  match chars p with [] => False | c :: _ => is_whitespace c = false end ->
  trim (p +:+ s) = p +:+ s.
Proof.
  intros Hp Hs Ht Hne Hc. apply trim_id; [by apply is_utf8_app|]. rewrite chars_app by done.
  pose proof (trim_chars_trimmed (chars s)) as [_ H2]. rewrite <- chars_trim, Ht in H2 by done.
  split; [by destruct (chars p)|]. rewrite rev_app_distr.
  destruct (rev (chars s)) as [|c l] eqn:E; [|done].
  apply (f_equal (@rev Z)) in E. rewrite rev_involutive in E. simpl in E.
  exfalso. apply Hne. rewrite <- (of_chars_chars s), E by done. reflexivity.
Qed.

(** ** Further [str] operations *)

(** [[str]::join]. *)
Definition join (sep : string) (l : list string) : string := String.concat sep l.

(** [str::eq_ignore_ascii_case]. *)
Definition eq_ignore_ascii_case (s t : string) : bool :=
  bool_decide (to_ascii_lowercase s = to_ascii_lowercase t).

(** [str::replace(c, "")] for a character. *)
Definition remove_char (c : Z) (s : string) : string :=
  of_chars (List.filter (fun d => negb (d =? c)) (chars s)).

(** [char::is_ascii_hexdigit]. *)
Definition is_ascii_hexdigit (c : Z) : bool :=
  ((48 <=? c) && (c <=? 57)) || ((65 <=? c) && (c <=? 70)) || ((97 <=? c) && (c <=? 102)).

Lemma strip_prefix_Some p s r : strip_prefix p s = Some r <-> s = p +:+ r.
Proof.
  unfold strip_prefix. split.
  - intros H. apply fmap_Some in H as (l & Hl & ->). apply strip_prefix_list_Some in Hl.
    rewrite <- (string_of_bytes_of s), Hl, string_of_app. by rewrite string_of_bytes_of.
  - intros ->. apply fmap_Some. exists (bytes_of r). rewrite bytes_of_app, string_of_bytes_of.
    split; [by apply strip_prefix_list_Some|done].
Qed.

Lemma strip_prefix_prefixed p r : strip_prefix p (p +:+ r) = Some r.
Proof. by apply strip_prefix_Some. Qed.

(** *** Text of ASCII characters *)

Definition is_ascii_char (c : Z) : Prop := 0 <= c < 128.

(** [char::to_ascii_lowercase]. *)
Definition char_to_ascii_lowercase (c : Z) : Z := if (65 <=? c) && (c <=? 90) then c + 32 else c.

Lemma ascii_scalar cs : Forall is_ascii_char cs -> Forall is_scalar cs.
Proof. intros H. eapply Forall_impl; [exact H|]. unfold is_ascii_char, is_scalar. intros; simpl in *; lia. Qed.

Lemma bytes_of_ascii_chars cs : Forall is_ascii_char cs -> bytes_of (of_chars cs) = map byte_of_Z cs.
Proof.
  intros H. unfold of_chars. rewrite bytes_of_string_of.
  induction H as [|c cs Hc _ IH]; [done|]. cbn [map concat]. rewrite IH.
  unfold utf8_encode_char, is_ascii_char in *. by rewrite (proj2 (Z.ltb_lt _ _)) by lia.
Qed.

Lemma str_len_ascii_chars cs : Forall is_ascii_char cs -> str_len (of_chars cs) = Z.of_nat (length cs).
Proof. intros H. unfold str_len. by rewrite bytes_of_ascii_chars, length_map. Qed.

Lemma lowercase_ascii_chars cs :
  Forall is_ascii_char cs -> to_ascii_lowercase (of_chars cs) = of_chars (map char_to_ascii_lowercase cs).
Proof.
  intros H. unfold to_ascii_lowercase. rewrite bytes_of_ascii_chars by done.
  assert (Hl : Forall is_ascii_char (map char_to_ascii_lowercase cs)).
  { apply Forall_map. eapply Forall_impl; [exact H|]. intros c Hc. cbn.
    unfold is_ascii_char, char_to_ascii_lowercase in *. destruct (_ && _) eqn:E; bool_to_prop; lia. }
  rewrite <- (string_of_bytes_of (of_chars (map _ cs))), bytes_of_ascii_chars by done. f_equal.
  rewrite !map_map. apply map_ext_Forall. eapply Forall_impl; [exact H|]. intros c Hc. cbn.
  unfold is_ascii_char in Hc. unfold byte_to_ascii_lowercase, char_to_ascii_lowercase, between.
  rewrite !u8_byte_small by lia. by destruct (_ && _).
Qed.

(** Hexadecimal digits are ASCII, are not white space, and stay digits in lower case. *)
Lemma hexdigit_facts c :
  is_ascii_hexdigit c = true ->
  is_ascii_char c /\ is_whitespace c = false /\ c <> 58 /\
  is_ascii_hexdigit (char_to_ascii_lowercase c) = true /\
  char_to_ascii_lowercase (char_to_ascii_lowercase c) = char_to_ascii_lowercase c.
Proof.
  intros H. assert (Ha : is_ascii_char c).
  { unfold is_ascii_hexdigit in H. unfold is_ascii_char. bool_to_prop.
    destruct H as [H|H]; bool_to_prop; [destruct H; bool_to_prop|]; lia. }
  assert (Hall : forallb (fun c => negb (is_ascii_hexdigit c) ||
     (negb (is_whitespace c) && negb (c =? 58) && is_ascii_hexdigit (char_to_ascii_lowercase c)
      && (char_to_ascii_lowercase (char_to_ascii_lowercase c) =? char_to_ascii_lowercase c)))
     (map Z.of_nat (seq 0 128)) = true) by (vm_compute; reflexivity).
  pose proof (forallb_range _ _ Hall c Ha) as Hc. cbn beta in Hc. rewrite H in Hc. cbn [negb orb] in Hc.
  bool_to_prop. done.
Qed.

Lemma trimmed_no_whitespace cs : Forall (fun c => is_whitespace c = false) cs -> trimmed cs.
Proof.
  intros H. split; [by destruct H|]. apply Forall_rev in H. by destruct H.
Qed.

Lemma filter_keep_all {A} (p : A -> bool) l : Forall (fun x => p x = true) l -> List.filter p l = l.
Proof. induction 1 as [|x l Hx _ IH]; simpl; [done|]. by rewrite Hx, IH. Qed.
