(* ===== verification/Order.v ===== *)
(** * Orders ([Ord] of strings, pairs and vectors, and sorting)

    A comparison is total, antisymmetric and transitive, which is all a sort needs: [sort_by] puts
    a list in ascending order of a key, and lists that are permutations of each other sort to the
    same list when the key tells their elements apart. *)
From Stdlib Require Import OrderedTypeEx.
From stdpp Require Import sorting.
From S2P Require Import Prelude Rust.

Class Ord {A} (cmp : A -> A -> comparison) : Prop := {
  cmp_eq a b : cmp a b = Eq <-> a = b;
  cmp_opp a b : cmp a b = CompOpp (cmp b a);
  cmp_lt_trans a b c : cmp a b = Lt -> cmp b c = Lt -> cmp a c = Lt
}.

Definition cmp_pair {A B} (ca : A -> A -> comparison) (cb : B -> B -> comparison) (x y : A * B) : comparison :=
  match ca (fst x) (fst y) with Eq => cb (snd x) (snd y) | o => o end.

Fixpoint cmp_list {A} (ca : A -> A -> comparison) (x y : list A) : comparison :=
  match x, y with
  | [], [] => Eq
  | [], _ :: _ => Lt
  | _ :: _, [] => Gt
  | a :: x, b :: y => match ca a b with Eq => cmp_list ca x y | o => o end
  end.

(** The relation a sort puts its elements in. *)
Definition ascending {A B} (cmp : B -> B -> comparison) (key : A -> B) (a b : A) : Prop := cmp (key a) (key b) <> Gt.

Global Instance ascending_dec {A B} (cmp : B -> B -> comparison) (key : A -> B) a b : Decision (ascending cmp key a b).
Proof. unfold ascending. destruct (cmp _ _); [left|left|right]; congruence. Defined.

Global Instance string_ord : Ord String.compare.
Proof.
  split; [apply String_as_OT.cmp_eq|apply String_as_OT.cmp_antisym|].
  intros a b c. change String.compare with String_as_OT.cmp. rewrite !String_as_OT.cmp_lt. apply String_as_OT.lt_trans.
Qed.

Lemma cmp_refl `{Ord A cmp} a : cmp a a = Eq.
Proof. by apply cmp_eq. Qed.

(** A comparison that is [Lt] or [Eq] composes with one that is [Lt]. *)
Ltac ord_cases :=
  repeat match goal with
  | [H : Ord ?c, E : ?c ?a ?b = Eq |- _] => apply (cmp_eq (cmp:=c)) in E; try subst
  | [H : Ord ?c |- context [?c ?a ?a]] => rewrite (cmp_refl (cmp:=c))
  | [H : Ord ?c, _ : context [?c ?a ?a] |- _] => rewrite (cmp_refl (cmp:=c)) in *
  end.

Global Instance pair_ord {A B} ca cb `{@Ord A ca, @Ord B cb} : Ord (cmp_pair ca cb).
Proof.
  split; unfold cmp_pair.
  - intros [a b] [a' b']; simpl. destruct (ca a a') eqn:E; ord_cases.
    + rewrite cmp_eq. naive_solver.
    + split; [done|]. intros [= -> ->]. by rewrite cmp_refl in E.
    + split; [done|]. intros [= -> ->]. by rewrite cmp_refl in E.
  - intros [a b] [a' b']; simpl. rewrite (cmp_opp a a'). destruct (ca a' a); simpl; [apply cmp_opp|done..].
  - intros [a b] [a' b'] [a'' b'']; simpl. destruct (ca a a') eqn:E, (ca a' a'') eqn:E'; try done; ord_cases; try (rewrite ?E, ?E'; done).
    + apply cmp_lt_trans.
    + by rewrite (cmp_lt_trans _ _ _ E E').
Qed.

Global Instance list_ord {A} ca `{@Ord A ca} : Ord (cmp_list ca).
Proof.
  split.
  - induction a as [|a x IH]; intros [|b y]; simpl; [done..|]. destruct (ca a b) eqn:E; ord_cases.
    + rewrite IH. naive_solver.
    + split; [done|]. intros [= -> ->]. by rewrite cmp_refl in E.
    + split; [done|]. intros [= -> ->]. by rewrite cmp_refl in E.
  - induction a as [|a x IH]; intros [|b y]; simpl; [done..|]. rewrite (cmp_opp a b). destruct (ca b a); simpl; [apply IH|done..].
  - induction a as [|a x IH]; intros [|b y] [|c z]; simpl; [done..|].
    destruct (ca a b) eqn:E, (ca b c) eqn:E'; try done; ord_cases; try (rewrite ?E, ?E'; done).
    + apply IH.
    + by rewrite (cmp_lt_trans _ _ _ E E').
Qed.

Section Sorted.
  Context {A B} (cmp : B -> B -> comparison) `{!Ord cmp} (key : A -> B).

Global Instance ascending_total : Total (ascending cmp key).
Proof. intros a b. unfold ascending. rewrite (cmp_opp (key b)). destruct (cmp (key a) (key b)); simpl; [left|left|right]; done. Qed.

Global Instance ascending_transitive : Transitive (ascending cmp key).
Proof.
  intros a b c. unfold ascending. destruct (cmp (key a) (key b)) eqn:E, (cmp (key b) (key c)) eqn:E'; try done; intros _ _.
  - apply cmp_eq in E. by rewrite E, E'.
  - apply cmp_eq in E. by rewrite E, E'.
  - apply cmp_eq in E'. by rewrite <- E', E.
  - by rewrite (cmp_lt_trans _ _ _ E E').
Qed.

Lemma ascending_antisymm a b : ascending cmp key a b -> ascending cmp key b a -> key a = key b.
Proof. unfold ascending. rewrite (cmp_opp (key b)). intros ??. apply cmp_eq. by destruct (cmp _ _). Qed.

(** [slice::sort_by_key]. *)
Definition sort_by (l : list A) : list A := merge_sort (ascending cmp key) l.

Lemma sort_by_perm l : sort_by l ≡ₚ l.
Proof. apply merge_sort_Permutation. Qed.

Lemma sort_by_sorted l : StronglySorted (ascending cmp key) (sort_by l).
Proof. apply StronglySorted_merge_sort; apply _. Qed.

Lemma sort_by_unique l l' : (forall a b, key a = key b -> a = b) -> l ≡ₚ l' -> sort_by l = sort_by l'.
Proof.
  intros Hk Hl. apply (StronglySorted_unique_strong (ascending cmp key)); [|apply sort_by_sorted..|by rewrite !sort_by_perm].
  intros a b _ _ H1 H2. by apply Hk, ascending_antisymm.
Qed.

(** Distinct keys in ascending order climb. *)
Lemma ascending_strict l :
  NoDup (map key l) -> StronglySorted (ascending cmp key) l -> StronglySorted (fun a b => cmp (key a) (key b) = Lt) l.
Proof.
  induction l as [|a l IH]; simpl; intros Hn Hs; constructor; apply StronglySorted_inv in Hs as [Hs Ha]; apply NoDup_cons in Hn as [Hi Hn]; [by apply IH|].
  rewrite Forall_forall in Ha |- *. intros b Hb. specialize (Ha b Hb). unfold ascending in Ha. destruct (cmp (key a) (key b)) eqn:E; try done.
  apply cmp_eq in E. destruct Hi. rewrite E. by apply list_elem_of_fmap_2.
Qed.
End Sorted.
