(* ===== verification/Civil.v ===== *)
(** * UTC calendar arithmetic ([crates/pic-x-std/src/audit/civil.rs])

    Day numbers, dates and their text. The arithmetic is Rust's [i64] arithmetic, whose
    [/] truncates toward zero ([Z.quot]) and whose [div_euclid]/[rem_euclid] by a
    positive number are [Z.div]/[Z.modulo]. Every intermediate value of these functions
    stays within [i64] for every day an [i64] timestamp falls on, since a day number is
    at most [2^63 / 86400] in absolute value and each step scales it by less than 400. *)
From S2P Require Import Prelude Rust.
Local Open Scope Z_scope.
Local Open Scope rust_scope.

Definition DAY : Z := 86400.
Definition EPOCH_SHIFT : Z := 719468.

Record Date := mkDate { year : Z; month : Z; day : Z }.

#[global] Instance date_eq_dec : EqDecision Date.
Proof. solve_decision. Defined.

Definition to_iso (d : Date) : string :=
  string_of (pad 4 (year d) ++ [x2d] ++ pad 2 (month d) ++ [x2d] ++ pad 2 (day d)).

(** [Date::from_iso]: the pieces between dashes, each parsed at its own width. *)
Definition from_iso (text : string) : option Date :=
  match split_list (fun b => bool_decide (b = x2d)) (bytes_of text) with
  | y :: m :: d :: rest =>
    match parse_i64 y, parse_uint U32_MAX m, parse_uint U32_MAX d with
    | Some y, Some m, Some d =>
      if negb (bool_decide (rest = []))
         || negb ((1 <=? m) && (m <=? 12)) || negb ((1 <=? d) && (d <=? 31))
      then None
      else Some (mkDate y m d)
    | _, _, _ => None
    end
  | _ => None
  end.

Definition day_of (seconds : Z) : Z := seconds / DAY.

Definition date_of (days : Z) : Date :=
  let shifted := days + EPOCH_SHIFT in
  let era := Z.quot (if 0 <=? shifted then shifted else shifted - 146096) 146097 in
  let day_of_era := shifted - era * 146097 in
  let year_of_era :=
    Z.quot (day_of_era - Z.quot day_of_era 1460 + Z.quot day_of_era 36524
            - Z.quot day_of_era 146096) 365 in
  let year := year_of_era + era * 400 in
  let day_of_year :=
    day_of_era - (365 * year_of_era + Z.quot year_of_era 4 - Z.quot year_of_era 100) in
  let shifted_month := Z.quot (5 * day_of_year + 2) 153 in
  let day := as_u32 (day_of_year - Z.quot (153 * shifted_month + 2) 5 + 1) in
  let month := as_u32 (if shifted_month <? 10 then shifted_month + 3 else shifted_month - 9) in
  mkDate (if month <=? 2 then year + 1 else year) month day.

Definition days_of (date : Date) : Z :=
  let year := if month date <=? 2 then year date - 1 else year date in
  let era := Z.quot (if 0 <=? year then year else year - 399) 400 in
  let year_of_era := year - era * 400 in
  let shifted_month := if 2 <? month date then month date - 3 else month date + 9 in
  let day_of_year := Z.quot (153 * shifted_month + 2) 5 + day date - 1 in
  let day_of_era :=
    year_of_era * 365 + Z.quot year_of_era 4 - Z.quot year_of_era 100 + day_of_year in
  era * 146097 + day_of_era - EPOCH_SHIFT.

Definition to_rfc3339 (seconds : Z) : string :=
  let date := date_of (day_of seconds) in
  let time := seconds mod DAY in
  string_of (bytes_of (to_iso date) ++ [x54] ++ pad 2 (Z.quot time 3600) ++ [x3a]
             ++ pad 2 (Z.quot (Z.rem time 3600) 60) ++ [x3a] ++ pad 2 (Z.rem time 60) ++ [x5a]).

(** ** The Gregorian calendar, as a specification *)

Definition leap (y : Z) : bool :=
  (y mod 4 =? 0) && (negb (y mod 100 =? 0) || (y mod 400 =? 0)).

Definition days_in_month (y m : Z) : Z :=
  if m =? 2 then (if leap y then 29 else 28)
  else if (m =? 4) || (m =? 6) || (m =? 9) || (m =? 11) then 30 else 31.

Definition valid_date (d : Date) : Prop :=
  1 <= month d <= 12 /\ 1 <= day d <= days_in_month (year d) (month d).

(** The day after a date. *)
Definition next_day (d : Date) : Date :=
  if day d <? days_in_month (year d) (month d) then mkDate (year d) (month d) (day d + 1)
  else if month d <? 12 then mkDate (year d) (month d + 1) 1
  else mkDate (year d + 1) 1 1.

(** ** Division on the ranges that occur *)

Lemma quot_div a b : 0 <= a -> 0 < b -> Z.quot a b = a / b.
Proof. intros. by apply Z.quot_div_nonneg. Qed.

(** The truncating division the sources write with a correction is floor division. *)
Lemma quot_floor x n : 0 < n -> Z.quot (if 0 <=? x then x else x - (n - 1)) n = x / n.
Proof.
  intros Hn. destruct (0 <=? x) eqn:E; bool_to_prop; [by apply quot_div|].
  rewrite <- (Z.opp_involutive (x - (n - 1))), Z.quot_opp_l by lia.
  rewrite quot_div by lia.
  apply (Z.div_unique _ _ _ (x mod n + 0) ) ; [|].
  all: pose proof (Z.mod_pos_bound x n Hn); pose proof (Z.div_mod x n ltac:(lia)).
  - lia.
  - assert (Hq : - (x - (n - 1)) / n = - (x / n)).
    { symmetry. apply (Z.div_unique_pos _ _ _ (n - 1 - x mod n)); lia. }
    rewrite Hq. lia.
Qed.

(** ** The March-based year *)

(** Days of an era before its year [y], and the year the code computes from a day. *)
Definition year_start (y : Z) : Z := 365 * y + y / 4 - y / 100.
Definition year_of_era_of (doe : Z) : Z :=
  (doe - doe / 1460 + doe / 36524 - doe / 146096) / 365.

Lemma year_of_era_mono a b :
  0 <= a <= b -> b < 146097 -> year_of_era_of a <= year_of_era_of b.
Proof. intros. unfold year_of_era_of. apply Z.div_le_mono; [lia|]. Z.div_mod_to_equations. lia. Qed.

Definition year_check (y : Z) : bool :=
  (year_of_era_of (year_start y) =? y) && (year_of_era_of (year_start (y + 1) - (if y =? 399 then 0 else 1)) =? y).

Lemma year_check_all y : 0 <= y < 400 -> year_check y = true.
Proof. apply (forallb_range year_check 400). vm_compute. reflexivity. Qed.

(** The year the code computes is the one whose days include the given one. *)
Lemma year_of_era_spec doe :
  0 <= doe < 146097 ->
  let y := year_of_era_of doe in
  0 <= y <= 399 /\ year_start y <= doe < year_start (y + 1) + (if y =? 399 then 1 else 0).
Proof.
  intros Hd y.
  assert (Hy : 0 <= y <= 399).
  { split; [change 0 with (year_of_era_of 0) | change 399 with (year_of_era_of 146096)];
      apply year_of_era_mono; lia. }
  split; [done|].
  assert (Hs : forall k, 0 <= k -> k <= 400 -> 0 <= year_start k <= 146096).
  { intros. unfold year_start. Z.div_mod_to_equations. lia. }
  split.
  - destruct (Z_le_gt_dec (year_start y) doe) as [|Hlt]; [done|exfalso].
    destruct (Z.eq_dec y 0) as [Hz|Hz]; [rewrite Hz in Hlt; change (year_start 0) with 0 in Hlt; lia|].
    pose proof (year_check_all (y - 1) ltac:(lia)) as Hc. unfold year_check in Hc.
    rewrite Z.sub_add in Hc. bool_to_prop.
    destruct (y - 1 =? 399) eqn:E; bool_to_prop; [lia|].
    pose proof (year_of_era_mono doe (year_start y - 1) ltac:(lia)
                  ltac:(pose proof (Hs y); lia)).
    fold y in H1. lia.
  - destruct (y =? 399) eqn:E; bool_to_prop.
    + rewrite E. change (year_start (399 + 1)) with 146096. lia.
    + destruct (Z_lt_le_dec doe (year_start (y + 1))) as [|Hge]; [lia|exfalso].
      pose proof (year_check_all (y + 1) ltac:(lia)) as Hc. unfold year_check in Hc. bool_to_prop.
      pose proof (year_of_era_mono (year_start (y + 1)) doe
                    ltac:(pose proof (Hs (y + 1)); lia) ltac:(lia)).
      fold y in H1. lia.
Qed.

(** ** The March-based month *)

Definition month_start (sm : Z) : Z := (153 * sm + 2) / 5.
Definition month_of_doy (doy : Z) : Z := (5 * doy + 2) / 153.

Definition month_check (doy : Z) : bool :=
  let sm := month_of_doy doy in
  (0 <=? sm) && (sm <=? 11) && (month_start sm <=? doy)
  && ((sm =? 11) || (doy <? month_start (sm + 1))).

Lemma month_of_doy_spec doy :
  0 <= doy < 366 ->
  let sm := month_of_doy doy in
  0 <= sm <= 11 /\ month_start sm <= doy /\ (sm = 11 \/ doy < month_start (sm + 1)).
Proof.
  intros H. pose proof (forallb_range month_check 366 ltac:(vm_compute; reflexivity) doy H) as Hc.
  unfold month_check in Hc. bool_to_prop. split_and!; try done.
  destruct_or!; bool_to_prop; auto.
Qed.

(** A month and a day of the month determine the day of the year the code started from. *)
Lemma month_of_doy_unique sm d :
  0 <= sm <= 11 -> 1 <= d -> (sm = 11 -> d <= 29) -> month_start sm + d - 1 < month_start (sm + 1) \/ sm = 11 ->
  month_of_doy (month_start sm + d - 1) = sm.
Proof.
  intros Hs Hd H11 Hu.
  unfold month_of_doy, month_start in *.
  assert (sm = 0 \/ sm = 1 \/ sm = 2 \/ sm = 3 \/ sm = 4 \/ sm = 5 \/ sm = 6 \/ sm = 7
          \/ sm = 8 \/ sm = 9 \/ sm = 10 \/ sm = 11) as Hc by lia.
  destruct_or!; subst sm; Z.div_mod_to_equations; lia.
Qed.

(** ** The functions in closed form *)

Lemma as_u32_small x : 0 <= x < 2 ^ 32 -> as_u32 x = x.
Proof. intros. unfold as_u32. by apply Z.mod_small. Qed.

Lemma date_of_eq n :
  let era := (n + EPOCH_SHIFT) / 146097 in
  let doe := (n + EPOCH_SHIFT) mod 146097 in
  let y := year_of_era_of doe in
  let doy := doe - year_start y in
  let sm := month_of_doy doy in
  0 <= y <= 399 /\ 0 <= doy <= 365 /\
  date_of n = mkDate (y + era * 400 + (if sm <? 10 then 0 else 1))
                     (if sm <? 10 then sm + 3 else sm - 9) (doy - month_start sm + 1).
Proof.
  intros era doe y doy sm.
  assert (Hd : 0 <= doe < 146097) by (apply Z.mod_pos_bound; lia).
  destruct (year_of_era_spec doe Hd) as [Hy Hys]. fold y in Hy, Hys.
  assert (Hdoy : 0 <= doy <= 365).
  { unfold doy. clearbody y. clear doy sm. unfold year_start in *.
    destruct (y =? 399) eqn:E; bool_to_prop; Z.div_mod_to_equations; lia. }
  destruct (month_of_doy_spec doy ltac:(lia)) as (Hsm & Hms & Hmu). fold sm in Hsm, Hms, Hmu.
  split; [done|split; [done|]].
  unfold date_of. pose proof (quot_floor (n + EPOCH_SHIFT) 146097 ltac:(lia)) as Hq.
  change (146097 - 1) with 146096 in Hq. rewrite Hq. fold era.
  replace (n + EPOCH_SHIFT - era * 146097) with doe
    by (unfold doe, era; rewrite Z.mod_eq by lia; lia).
  rewrite !(quot_div doe) by lia.
  rewrite (quot_div (doe - doe / 1460 + doe / 36524 - doe / 146096))
    by (try lia; clear -Hd; clearbody doe; Z.div_mod_to_equations; lia).
  change ((doe - doe / 1460 + doe / 36524 - doe / 146096) / 365) with y.
  rewrite !(quot_div y) by lia.
  change (365 * y + y / 4 - y / 100) with (year_start y). fold doy.
  rewrite (quot_div (5 * doy + 2)) by lia. change ((5 * doy + 2) / 153) with sm.
  rewrite (quot_div (153 * sm + 2)) by lia. change ((153 * sm + 2) / 5) with (month_start sm).
  assert (0 <= month_start sm <= 365) by lia || (assert (0 <= month_start sm) by (unfold month_start; Z.div_mod_to_equations; lia); lia).
  rewrite (as_u32_small (doy - month_start sm + 1)) by lia.
  destruct (sm <? 10) eqn:E; bool_to_prop; rewrite as_u32_small by lia.
  - destruct (sm + 3 <=? 2) eqn:E2; bool_to_prop; [lia|]. f_equal; lia.
  - destruct (sm - 9 <=? 2) eqn:E2; bool_to_prop; [|lia]. f_equal; lia.
Qed.

Lemma days_of_eq d :
  1 <= month d <= 12 ->
  let y := if month d <=? 2 then year d - 1 else year d in
  let sm := if 2 <? month d then month d - 3 else month d + 9 in
  days_of d = y / 400 * 146097 + year_start (y mod 400) + month_start sm + day d - 1 - EPOCH_SHIFT.
Proof.
  intros Hm y sm. unfold days_of. fold y sm.
  pose proof (quot_floor y 400 ltac:(lia)) as Hq. change (400 - 1) with 399 in Hq. rewrite Hq.
  replace (y - y / 400 * 400) with (y mod 400) by (rewrite Z.mod_eq by lia; lia).
  pose proof (Z.mod_pos_bound y 400 ltac:(lia)).
  assert (0 <= sm) by (unfold sm; destruct (2 <? month d) eqn:E; bool_to_prop; lia).
  rewrite !quot_div by lia. unfold year_start, month_start. lia.
Qed.

(** Day numbers survive the trip through a date. *)
Lemma days_of_date_of_id n : days_of (date_of n) = n.
Proof.
  destruct (date_of_eq n) as (Hy & Hdoy & Heq). rewrite Heq. clear Heq.
  set (era := (n + EPOCH_SHIFT) / 146097) in *. set (doe := (n + EPOCH_SHIFT) mod 146097) in *.
  set (y := year_of_era_of doe) in *. set (doy := doe - year_start y) in *.
  destruct (month_of_doy_spec doy ltac:(lia)) as (Hsm & Hms & Hmu).
  set (sm := month_of_doy doy) in *.
  assert (Hn : n = era * 146097 + doe - EPOCH_SHIFT)
    by (unfold era, doe; rewrite Z.mod_eq by lia; lia).
  rewrite days_of_eq by (simpl; destruct (sm <? 10) eqn:E; bool_to_prop; lia).
  simpl. replace (if (if sm <? 10 then sm + 3 else sm - 9) <=? 2
    then y + era * 400 + (if sm <? 10 then 0 else 1) - 1
    else y + era * 400 + (if sm <? 10 then 0 else 1)) with (y + era * 400)
    by (repeat case_match; bool_to_prop; lia).
  replace (if 2 <? (if sm <? 10 then sm + 3 else sm - 9)
    then (if sm <? 10 then sm + 3 else sm - 9) - 3
    else (if sm <? 10 then sm + 3 else sm - 9) + 9) with sm
    by (repeat case_match; bool_to_prop; lia).
  rewrite Z.div_add, (Z.div_small y), Z.mod_add, (Z.mod_small y) by lia.
  unfold doy in *. lia.
Qed.

(** ** Every date the code produces is a date of the calendar *)

(** The month lengths the March-based table encodes. *)
Lemma month_length_table sm y :
  0 <= sm <= 10 ->
  month_start (sm + 1) - month_start sm =
  days_in_month y (if sm <? 10 then sm + 3 else sm - 9).
Proof.
  intros Hs.
  assert (sm = 0 \/ sm = 1 \/ sm = 2 \/ sm = 3 \/ sm = 4 \/ sm = 5 \/ sm = 6 \/ sm = 7
          \/ sm = 8 \/ sm = 9 \/ sm = 10) as Hc by lia.
  destruct_or!; subst sm; reflexivity.
Qed.

(** The days of a March-based year, by whether the February that ends it is long. *)
Lemma year_length_leap y era :
  0 <= y <= 399 ->
  year_start (y + 1) + (if y =? 399 then 1 else 0) - year_start y =
  if leap (y + era * 400 + 1) then 366 else 365.
Proof.
  intros Hy. unfold leap, year_start.
  destruct (y =? 399) eqn:E, ((y + era * 400 + 1) mod 4 =? 0) eqn:E4,
    ((y + era * 400 + 1) mod 100 =? 0) eqn:E100, ((y + era * 400 + 1) mod 400 =? 0) eqn:E400;
    simpl; bool_to_prop; Z.div_mod_to_equations; lia.
Qed.

Lemma date_of_is_valid n : valid_date (date_of n).
Proof.
  destruct (date_of_eq n) as (Hy & Hdoy & Heq). rewrite Heq. clear Heq.
  set (era := (n + EPOCH_SHIFT) / 146097) in *. set (doe := (n + EPOCH_SHIFT) mod 146097) in *.
  assert (Hd : 0 <= doe < 146097) by (apply Z.mod_pos_bound; lia).
  destruct (year_of_era_spec doe Hd) as [_ Hys].
  set (y := year_of_era_of doe) in *. set (doy := doe - year_start y) in *.
  pose proof (year_length_leap y era Hy) as Hl.
  destruct (month_of_doy_spec doy ltac:(lia)) as (Hsm & Hms & Hmu).
  set (sm := month_of_doy doy) in *.
  unfold valid_date; simpl. split; [destruct (sm <? 10) eqn:E; bool_to_prop; lia|].
  split; [lia|].
  destruct (Z.eq_dec sm 11) as [H11|H11].
  - rewrite H11. change (11 <? 10) with false. cbn [andb].
    change (11 - 9) with 2. unfold days_in_month. change (2 =? 2) with true. cbv iota.
    rewrite H11 in Hms. change (month_start 11) with 337 in *.
    destruct (leap _); unfold doy in *; lia.
  - rewrite <- (month_length_table sm) by lia. destruct Hmu; [lia|]. lia.
Qed.

Lemma year_start_mono a b : 0 <= a <= b -> 0 <= year_start a <= year_start b.
Proof. intros. unfold year_start. Z.div_mod_to_equations. lia. Qed.

(** A day of an era belongs to one year of it. *)
Lemma year_of_era_unique y doy :
  0 <= y <= 399 ->
  0 <= doy < year_start (y + 1) + (if y =? 399 then 1 else 0) - year_start y ->
  0 <= year_start y + doy < 146097 /\ year_of_era_of (year_start y + doy) = y.
Proof.
  intros Hy Hdoy. set (doe := year_start y + doy).
  assert (Hdoe : 0 <= doe < 146097).
  { pose proof (year_start_mono (y + 1) 400 ltac:(lia)) as H. change (year_start 400) with 146096 in H.
    pose proof (year_start_mono y y ltac:(lia)). unfold doe. destruct (y =? 399); lia. }
  split; [done|]. destruct (year_of_era_spec doe Hdoe) as [Hy' Hs'].
  set (y' := year_of_era_of doe) in *. clearbody y'.
  destruct (Z.lt_total y' y) as [Hlt|[|Hlt]]; [exfalso|done|exfalso].
  - pose proof (year_start_mono (y' + 1) y ltac:(lia)). destruct (y' =? 399) eqn:E; bool_to_prop; lia.
  - pose proof (year_start_mono (y + 1) y' ltac:(lia)). destruct (y =? 399) eqn:E; bool_to_prop; lia.
Qed.

(** Where a date of the calendar falls in the March-based year. *)
Lemma valid_date_march d :
  valid_date d ->
  let y := if month d <=? 2 then year d - 1 else year d in
  let sm := if 2 <? month d then month d - 3 else month d + 9 in
  0 <= sm <= 11 /\ (if sm <? 10 then sm + 3 else sm - 9) = month d /\
  y + (if sm <? 10 then 0 else 1) = year d /\ 1 <= day d /\
  (sm = 11 /\ day d <= (if leap (y + 1) then 29 else 28)
   \/ sm <= 10 /\ month_start sm + day d - 1 < month_start (sm + 1)).
Proof.
  intros [Hm Hd] y sm.
  assert (Hsm : 0 <= sm <= 11) by (unfold sm; destruct (2 <? month d) eqn:E; bool_to_prop; lia).
  assert (Hmonth : (if sm <? 10 then sm + 3 else sm - 9) = month d)
    by (unfold sm; repeat case_match; bool_to_prop; lia).
  assert (Hyear : y + (if sm <? 10 then 0 else 1) = year d)
    by (unfold y, sm; repeat case_match; bool_to_prop; lia).
  split_and!; try lia. destruct (Z.eq_dec sm 11) as [H11|H11].
  - left. split; [done|]. rewrite H11 in Hmonth, Hyear.
    change (11 <? 10) with false in *. cbv iota in *. change (11 - 9) with 2 in *.
    rewrite <- Hmonth, <- Hyear in Hd. unfold days_in_month in Hd.
    change (2 =? 2) with true in Hd. cbv iota in Hd. lia.
  - right. pose proof (month_length_table sm (year d) ltac:(lia)) as Ht. rewrite Hmonth in Ht. lia.
Qed.

(** A date of the calendar survives the trip through its day number. *)
Lemma date_of_days_of_id d : valid_date d -> date_of (days_of d) = d.
Proof.
  intros Hv. destruct (valid_date_march d Hv) as (Hsm & Hmonth & Hyear & Hd1 & Hd).
  pose proof (days_of_eq d (proj1 Hv)) as Hdays. cbv zeta in Hdays.
  set (y := if month d <=? 2 then year d - 1 else year d) in *.
  set (sm := if 2 <? month d then month d - 3 else month d + 9) in *. clearbody y sm.
  assert (Hye : 0 <= y mod 400 <= 399) by (pose proof (Z.mod_pos_bound y 400); lia).
  assert (Hyy : y = y mod 400 + y / 400 * 400) by (rewrite Z.mod_eq by lia; lia).
  set (ye := y mod 400) in *. set (era := y / 400) in *.
  pose proof (year_length_leap ye era Hye) as Hl. rewrite <- Hyy in Hl.
  set (doy := month_start sm + day d - 1).
  assert (Hdoy : 0 <= doy < year_start (ye + 1) + (if ye =? 399 then 1 else 0) - year_start ye).
  { rewrite Hl. unfold doy. split; [unfold month_start; Z.div_mod_to_equations; lia|].
    destruct Hd as [[-> Hd]|[Hs Hd]].
    - change (month_start 11) with 337. destruct (leap _); lia.
    - assert (month_start (sm + 1) <= 337) by (unfold month_start; Z.div_mod_to_equations; lia).
      destruct (leap _); lia. }
  destruct (year_of_era_unique ye doy Hye Hdoy) as [Hdoe Hyoe].
  destruct (date_of_eq (days_of d)) as (_ & _ & Heq). rewrite Heq. clear Heq.
  replace (days_of d + EPOCH_SHIFT) with (year_start ye + doy + era * 146097) by (unfold doy; lia).
  rewrite Z.div_add, (Z.div_small (year_start ye + doy)), Z.mod_add,
    (Z.mod_small (year_start ye + doy)), Hyoe by lia.
  replace (year_start ye + doy - year_start ye) with doy by lia.
  assert (Hmd : month_of_doy doy = sm)
    by (apply month_of_doy_unique; try (destruct (leap (y + 1)); lia); lia).
  rewrite Hmd, Hmonth, Z.add_0_l, <- Hyy, Hyear.
  replace (doy - month_start sm + 1) with (day d) by (unfold doy; lia). by destruct d.
Qed.

Lemma next_day_valid d : valid_date d -> valid_date (next_day d).
Proof.
  intros [Hm Hd]. unfold next_day.
  destruct (day d <? _) eqn:E1; [|destruct (month d <? 12) eqn:E2]; bool_to_prop;
    split; simpl; try lia.
  all: unfold days_in_month; repeat case_match; lia.
Qed.

(** The day after a date has the next day number. *)
Lemma days_of_next_day d : valid_date d -> days_of (next_day d) = days_of d + 1.
Proof.
  intros Hv. pose proof (next_day_valid d Hv) as [Hm' _]. destruct Hv as [Hm Hd].
  rewrite !days_of_eq by done. unfold next_day in *.
  destruct (day d <? _) eqn:E1; [simpl; lia|]. bool_to_prop.
  assert (Hlast : day d = days_in_month (year d) (month d)) by lia. rewrite Hlast. clear Hlast Hd E1.
  destruct (month d <? 12) eqn:E2; bool_to_prop; simpl.
  2:{ replace (month d) with 12 by lia. simpl. replace (year d + 1 - 1) with (year d) by lia.
      change (month_start (12 - 3)) with 275. change (month_start (1 + 9)) with 306.
      change (days_in_month (year d) 12) with 31. lia. }
  destruct (Z.eq_dec (month d) 2) as [H2|H2].
  - rewrite H2. change (2 + 1 <=? 2) with false. change (2 <=? 2) with true.
    change (2 <? 2 + 1) with true. change (2 <? 2) with false. cbv iota.
    change (month_start (2 + 1 - 3)) with 0. change (month_start (2 + 9)) with 337.
    unfold days_in_month. change (2 =? 2) with true. cbv iota.
    pose proof (year_length_leap ((year d - 1) mod 400) ((year d - 1) / 400)
                  ltac:(pose proof (Z.mod_pos_bound (year d - 1) 400); lia)) as Hl.
    replace ((year d - 1) mod 400 + (year d - 1) / 400 * 400 + 1) with (year d) in Hl
      by (rewrite Z.mod_eq by lia; lia).
    destruct ((year d - 1) mod 400 =? 399) eqn:E; bool_to_prop.
    + assert (Hdm : year d mod 400 = 0 /\ year d / 400 = (year d - 1) / 400 + 1)
        by (Z.div_mod_to_equations; lia).
      destruct Hdm as [-> ->]. rewrite E in *. change (year_start 0) with 0.
      change (year_start (399 + 1)) with 146096 in Hl. destruct (leap _); lia.
    + assert (Hdm : year d mod 400 = (year d - 1) mod 400 + 1 /\ year d / 400 = (year d - 1) / 400)
        by (Z.div_mod_to_equations; lia).
      destruct Hdm as [-> ->]. destruct (leap _); lia.
  - assert (Hms : month d = 1 \/ 3 <= month d) by lia. destruct Hms as [H1|H3].
    + rewrite H1. change (1 + 1 <=? 2) with true. change (2 <? 1 + 1) with false.
      change (1 <=? 2) with true. change (2 <? 1) with false. cbv iota.
      change (month_start (1 + 1 + 9)) with 337. change (month_start (1 + 9)) with 306.
      change (days_in_month (year d) 1) with 31. lia.
    + pose proof (month_length_table (month d - 3) (year d) ltac:(lia)) as Ht.
      destruct (month d - 3 <? 10) eqn:E; bool_to_prop; [|lia].
      replace (month d - 3 + 3) with (month d) in Ht by lia.
      replace (month d - 3 + 1) with (month d + 1 - 3) in Ht by lia.
      destruct (month d + 1 <=? 2) eqn:E3, (month d <=? 2) eqn:E4, (2 <? month d + 1) eqn:E5,
        (2 <? month d) eqn:E6; bool_to_prop; try lia.
Qed.

(** The text of a date whose year is not negative reads back as that date. *)
Lemma from_iso_to_iso d :
  0 <= year d <= I64_MAX -> 1 <= month d <= 12 -> 1 <= day d <= 31 ->
  from_iso (to_iso d) = Some d.
Proof.
  intros Hy Hm Hd. unfold from_iso, to_iso. rewrite bytes_of_string_of.
  destruct (pad_nonneg 4 (year d) ltac:(lia)) as (Hy1 & Hy2 & Hy3).
  destruct (pad_nonneg 2 (month d) ltac:(lia)) as (Hm1 & Hm2 & Hm3).
  destruct (pad_nonneg 2 (day d) ltac:(lia)) as (Hd1 & Hd2 & Hd3).
  assert (Hno : forall l, Forall (fun b => is_digit b = true) l ->
                Forall (fun b => bool_decide (b = x2d) = false) l).
  { intros l Hl. eapply Forall_impl; [exact Hl|]. intros b Hb. by apply digit_not. }
  simpl. rewrite !split_list_app by (auto; reflexivity). rewrite split_list_none by auto.
  destruct (parse_int_digits _ _ Hy1 Hy3 Hy2) as [-> _].
  destruct (parse_int_digits _ _ Hm1 Hm3 Hm2) as [_ ->].
  destruct (parse_int_digits _ _ Hd1 Hd3 Hd2) as [_ ->].
  rewrite !in_range_Some by (unfold I64_MIN, U32_MAX; lia).
  rewrite (proj2 (andb_true_iff (1 <=? month d) _)) by (rewrite !Z.leb_le; lia).
  rewrite (proj2 (andb_true_iff (1 <=? day d) _)) by (rewrite !Z.leb_le; lia).
  rewrite bool_decide_true by done. by destruct d.
Qed.

(** ** Properties *)

(** [date_of] is the proleptic Gregorian calendar counted from the Unix epoch: day zero is
    the first of January 1970, every day number names a date of the calendar, and the date
    of the next day number is the day after the date of this one. *)
Theorem date_of_is_gregorian :
  date_of 0 = mkDate 1970 1 1 /\
  forall n, valid_date (date_of n) /\ date_of (n + 1) = next_day (date_of n).
Proof.
  split; [reflexivity|]. intros n. split; [apply date_of_is_valid|].
  pose proof (date_of_is_valid n) as Hv.
  assert (Hn : days_of (next_day (date_of n)) = n + 1).
  { rewrite days_of_next_day by done. f_equal. apply days_of_date_of_id. }
  rewrite <- Hn. by apply date_of_days_of_id, next_day_valid.
Qed.

(** Day numbers and dates are in bijection, and the text of a date with a year that is not
    negative reads back as the date. *)
Theorem date_roundtrips :
  (forall n, days_of (date_of n) = n) /\
  (forall d, valid_date d -> date_of (days_of d) = d) /\
  (forall d, valid_date d -> 0 <= year d <= I64_MAX -> from_iso (to_iso d) = Some d).
Proof.
  split_and!; [apply days_of_date_of_id | apply date_of_days_of_id |].
  intros d [Hm Hd] Hy. apply from_iso_to_iso; [done..|].
  split; [lia|]. unfold days_in_month in Hd. repeat case_match; lia.
Qed.

Lemma date_roundtrips_witness :
  valid_date (mkDate 2000 2 29) /\ from_iso (to_iso (mkDate 2000 2 29)) = Some (mkDate 2000 2 29).
Proof.
  assert (Hv : valid_date (mkDate 2000 2 29)) by (split; vm_compute; split; congruence).
  split; [exact Hv|].
  apply (proj2 (proj2 date_roundtrips)); [exact Hv | vm_compute; split; congruence].
Defined.
