(* ===== verification/Encoding.v ===== *)
(** * The base64 and PEM codec ([crates/pic-x-std/src/keys/encoding.rs])

    Encoded text is ASCII, so it is modelled as its bytes; what is decoded is arbitrary
    text, so decoding walks its code points. *)
From S2P Require Import Prelude Rust.
Local Open Scope Z_scope.

Definition STANDARD : list byte :=
  bytes_of "ABCDEFGHIJKLMNOPQRSTUVWXYZabcdefghijklmnopqrstuvwxyz0123456789+/".
Definition URL_SAFE : list byte :=
  bytes_of "ABCDEFGHIJKLMNOPQRSTUVWXYZabcdefghijklmnopqrstuvwxyz0123456789-_".

Definition PEM_WIDTH : nat := 64.
Definition EQUALS : byte := x3d.

Definition nth_byte (l : list byte) (i : nat) : Z := match l !! i with Some b => u8 b | None => 0 end.

(** One character: six bits of the chunk, looked up in the alphabet. *)
Definition encode_sextet (alphabet : list byte) (bits : Z) (index : nat) : byte :=
  let shift := 18 - 6 * Z.of_nat index in
  let sextet := Z.land (Z.shiftr bits shift) 63 in
  default EQUALS (alphabet !! Z.to_nat sextet).

Definition encode_chunk (alphabet : list byte) (pad : bool) (chunk : list byte) : list byte :=
  let bits := Z.lor (Z.lor (Z.shiftl (nth_byte chunk 0) 16) (Z.shiftl (nth_byte chunk 1) 8))
                    (nth_byte chunk 2) in
  let characters := S (length chunk) in
  map (encode_sextet alphabet bits) (seq 0 characters)
  ++ (if pad then repeat EQUALS (4 - characters) else []).

Definition encode (input : list byte) (alphabet : list byte) (pad : bool) : list byte :=
  concat (map (encode_chunk alphabet pad) (chunks 3 input)).

Definition base64url (input : list byte) : string := string_of (encode input URL_SAFE false).
Definition base64 (input : list byte) : list byte := encode input STANDARD true.

(** [alphabet.iter().position(..)]. *)
Definition position (alphabet : list byte) (b : byte) : option Z :=
  match list_find (fun e => e = b) alphabet with
  | Some (i, _) => Some (Z.of_nat i)
  | None => None
  end.

(** The loop of [decode_with]; [character as u8] keeps the low eight bits of the code point. *)
Fixpoint decode_loop (alphabet : list byte) (accumulator bits : Z) (input : list Z)
  : option (list byte) :=
  match input with
  | [] => Some []
  | character :: rest =>
    if character =? u8 EQUALS then Some []
    else match position alphabet (byte_of_Z character) with
    | None => None
    | Some value =>
      let accumulator := as_u32 (Z.lor (Z.shiftl accumulator 6) value) in
      let bits := bits + 6 in
      if 8 <=? bits then
        let bits := bits - 8 in
        cons (byte_of_Z (Z.land (Z.shiftr accumulator bits) 255))
          <$> decode_loop alphabet accumulator bits rest
      else decode_loop alphabet accumulator bits rest
    end
  end.

Definition decode_with (input : list Z) (alphabet : list byte) : option (list byte) :=
  decode_loop alphabet 0 0 input.

Definition decode (input : list Z) : option (list byte) := decode_with input STANDARD.

Definition from_base64url (input : string) : option (list byte) :=
  decode_with (chars input) URL_SAFE.

Definition DASHES : list byte := repeat x2d 5.

Definition pem (label : string) (der : list byte) : string :=
  string_of
    (DASHES ++ bytes_of "BEGIN " ++ bytes_of label ++ DASHES ++ [LF]
     ++ concat (map (fun line => line ++ [LF]) (chunks PEM_WIDTH (base64 der)))
     ++ DASHES ++ bytes_of "END " ++ bytes_of label ++ DASHES ++ [LF]).

Definition is_armour (line : list byte) : bool :=
  match strip_prefix_list DASHES line with Some _ => true | None => false end.

Definition from_pem (text : string) : option (list byte) :=
  let body :=
    List.filter (fun c => negb (is_whitespace c))
      (concat (map (fun line => chars (string_of line))
                 (List.filter (fun line => negb (is_armour line)) (lines (bytes_of text))))) in
  decode body.

(** ** Bits as arithmetic *)

Lemma lor_shiftl_add a k b : 0 <= b < 2 ^ k -> 0 <= k -> Z.lor (Z.shiftl a k) b = a * 2 ^ k + b.
Proof.
  intros Hb Hk. rewrite <- Z.shiftl_mul_pow2 by done.
  destruct (Z.eq_dec b 0) as [->|Hz]; [by rewrite Z.lor_0_r, Z.add_0_r|].
  symmetry. apply Z.add_nocarry_lor.
  apply Z.bits_inj'. intros i Hi. rewrite Z.land_spec, Z.bits_0.
  destruct (Z_lt_le_dec i k); [by rewrite Z.shiftl_spec_low|].
  rewrite (Z.bits_above_log2 b), andb_false_r; [done|lia|].
  apply Z.lt_le_trans with k; [apply Z.log2_lt_pow2; lia|done].
Qed.

Lemma land_shiftr_mod x k n : 0 <= k -> 0 <= n -> Z.land (Z.shiftr x k) (Z.ones n) = x / 2 ^ k mod 2 ^ n.
Proof. intros. by rewrite Z.land_ones, Z.shiftr_div_pow2. Qed.

(** The 24 bits of a chunk, missing bytes read as zero. *)
Definition chunk_bits (a b c : Z) : Z := a * 65536 + b * 256 + c.

Lemma chunk_bits_lor a b c :
  0 <= a < 256 -> 0 <= b < 256 -> 0 <= c < 256 ->
  Z.lor (Z.lor (Z.shiftl a 16) (Z.shiftl b 8)) c = chunk_bits a b c.
Proof.
  intros. change 16 with (8 + 8). rewrite <- Z.shiftl_shiftl by lia. rewrite <- Z.shiftl_lor.
  rewrite lor_shiftl_add by lia. rewrite lor_shiftl_add by lia. unfold chunk_bits. lia.
Qed.

(** What an alphabet has to be for its own output to read back. *)
Definition alphabet_ok (alphabet : list byte) : bool :=
  forallb (fun s =>
    match alphabet !! Z.to_nat s with
    | Some e => bool_decide (position alphabet e = Some s) && (u8 e <? 128)
                && negb (u8 e =? u8 EQUALS) && negb (is_whitespace (u8 e))
    | None => false
    end) (map Z.of_nat (seq 0 64)).

Lemma alphabet_lookup alphabet s :
  alphabet_ok alphabet = true -> 0 <= s < 64 ->
  exists e, alphabet !! Z.to_nat s = Some e /\ position alphabet e = Some s /\
            u8 e < 128 /\ u8 e <> u8 EQUALS /\ is_whitespace (u8 e) = false.
Proof.
  intros Ha Hs. pose proof (forallb_range _ 64 Ha s Hs) as H. simpl in H.
  destruct (alphabet !! Z.to_nat s) as [e|]; [|discriminate]. bool_to_prop. eauto 10.
Qed.

Section Alphabet.
Context (alphabet : list byte) (Halpha : alphabet_ok alphabet = true).

(** The character for six bits, and reading it back. *)
Lemma encode_sextet_spec bits i :
  0 <= bits -> (i < 4)%nat ->
  let s := bits / 2 ^ (18 - 6 * Z.of_nat i) mod 64 in
  let e := encode_sextet alphabet bits i in
  position alphabet e = Some s /\ u8 e < 128 /\ u8 e <> u8 EQUALS /\ is_whitespace (u8 e) = false.
Proof using Halpha.
  intros Hb Hi s e. unfold e, encode_sextet.
  change 63 with (Z.ones 6). rewrite land_shiftr_mod by lia. change (2 ^ 6) with 64. fold s.
  destruct (alphabet_lookup alphabet s Halpha) as (x & Hx & Hrest);
    [apply Z.mod_pos_bound; lia|]. by rewrite Hx.
Qed.

(** One step of the decoder on a character of the alphabet. *)
Lemma decode_step e s acc bits rest :
  position alphabet e = Some s -> u8 e <> u8 EQUALS -> 0 <= s < 64 -> 0 <= bits < 8 ->
  decode_loop alphabet acc bits (u8 e :: rest) =
  let acc' := (acc * 64 + s) mod 2 ^ 32 in
  if 2 <=? bits
  then cons (byte_of_Z (acc' / 2 ^ (bits - 2) mod 256))
         <$> decode_loop alphabet acc' (bits - 2) rest
  else decode_loop alphabet acc' (bits + 6) rest.
Proof using Type.
  intros Hp He Hs Hb. cbn [decode_loop].
  destruct (u8 e =? u8 EQUALS) eqn:E; bool_to_prop; [done|].
  rewrite byte_of_Z_u8, Hp. unfold as_u32. rewrite lor_shiftl_add by lia.
  change (2 ^ 6) with 64.
  destruct (8 <=? bits + 6) eqn:E8, (2 <=? bits) eqn:E2; bool_to_prop; try lia; [|done].
  change 255 with (Z.ones 8). rewrite land_shiftr_mod by lia.
  replace (bits + 6 - 8) with (bits - 2) by lia. done.
Qed.

Lemma decode_step0 e s acc rest :
  position alphabet e = Some s -> u8 e <> u8 EQUALS -> 0 <= s < 64 ->
  decode_loop alphabet acc 0 (u8 e :: rest)
  = decode_loop alphabet ((acc * 64 + s) mod 2 ^ 32) 6 rest.
Proof using Type. intros. by erewrite decode_step by (eauto || lia). Qed.

(** Steps at six, four and two pending bits emit a byte and leave two bits fewer. *)
Lemma decode_emit e s acc bits b rest :
  position alphabet e = Some s -> u8 e <> u8 EQUALS -> 0 <= s < 64 -> 2 <= bits < 8 ->
  (acc * 64 + s) mod 2 ^ 32 / 2 ^ (bits - 2) mod 256 = u8 b ->
  decode_loop alphabet acc bits (u8 e :: rest)
  = cons b <$> decode_loop alphabet ((acc * 64 + s) mod 2 ^ 32) (bits - 2) rest.
Proof using Type.
  intros Hp He Hs Hb Hu. erewrite decode_step by (eauto || lia). cbv zeta.
  destruct (2 <=? bits) eqn:E; bool_to_prop; [|lia]. by rewrite Hu, byte_of_Z_u8.
Qed.

Lemma decode_padding acc bits k : decode_loop alphabet acc bits (map u8 (repeat EQUALS k)) = Some [].
Proof using Type. by destruct k. Qed.
End Alphabet.

(** The arithmetic of one chunk: the accumulator holds the sextets in its low bits,
    whatever it held before. *)
Definition sextet (n : Z) (i : nat) : Z := n / 2 ^ (18 - 6 * Z.of_nat i) mod 64.
Definition push (acc s : Z) : Z := (acc * 64 + s) mod 2 ^ 32.

Lemma sextet_eqs n :
  sextet n 0 = n / 262144 mod 64 /\ sextet n 1 = n / 4096 mod 64 /\
  sextet n 2 = n / 64 mod 64 /\ sextet n 3 = n mod 64.
Proof. unfold sextet. split_and!; [done..|]. change (18 - 6 * Z.of_nat 3) with 0. by rewrite Z.div_1_r. Qed.

Lemma chunk_arith acc a b c :
  0 <= a < 256 -> 0 <= b < 256 -> 0 <= c < 256 ->
  let n := chunk_bits a b c in
  let acc2 := push (push acc (sextet n 0)) (sextet n 1) in
  let acc3 := push acc2 (sextet n 2) in
  acc2 / 16 mod 256 = a /\ acc3 / 4 mod 256 = b /\ push acc3 (sextet n 3) / 1 mod 256 = c.
Proof.
  intros Ha Hb Hc n acc2 acc3.
  destruct (sextet_eqs n) as (E0 & E1 & E2 & E3). unfold acc3, acc2. rewrite E0, E1, E2, E3.
  unfold push, n, chunk_bits. clear -Ha Hb Hc.
  split_and!; Z.div_mod_to_equations; lia.
Qed.

Section Roundtrip.
Context (alphabet : list byte) (Halpha : alphabet_ok alphabet = true).

Lemma encode_sextet_ok n i :
  0 <= n -> (i < 4)%nat ->
  position alphabet (encode_sextet alphabet n i) = Some (sextet n i) /\
  u8 (encode_sextet alphabet n i) <> u8 EQUALS /\ 0 <= sextet n i < 64.
Proof using Halpha.
  intros Hn Hi. destruct (encode_sextet_spec alphabet Halpha n i Hn Hi) as (? & _ & ? & _).
  split_and!; try done; apply Z.mod_pos_bound; lia.
Qed.

(** A whole chunk followed by anything: three bytes are emitted and no bit is pending. *)
Lemma decode_chunk3 pad a b c acc rest :
  exists acc', decode_loop alphabet acc 0 (map u8 (encode_chunk alphabet pad [a; b; c]) ++ rest)
               = (fun out => a :: b :: c :: out) <$> decode_loop alphabet acc' 0 rest.
Proof using Halpha.
  unfold encode_chunk, nth_byte. cbn [lookup list_lookup length].
  replace (if pad then repeat EQUALS (4 - 4) else []) with (@nil byte) by (by destruct pad).
  pose proof (u8_range a). pose proof (u8_range b). pose proof (u8_range c).
  rewrite chunk_bits_lor by lia. set (n := chunk_bits (u8 a) (u8 b) (u8 c)).
  assert (Hn : 0 <= n) by (unfold n, chunk_bits; lia).
  destruct (chunk_arith acc (u8 a) (u8 b) (u8 c)) as (Ea & Eb & Ec); [lia..|]. fold n in Ea, Eb, Ec.
  destruct (encode_sextet_ok n 0 Hn ltac:(lia)) as (P0 & N0 & R0).
  destruct (encode_sextet_ok n 1 Hn ltac:(lia)) as (P1 & N1 & R1).
  destruct (encode_sextet_ok n 2 Hn ltac:(lia)) as (P2 & N2 & R2).
  destruct (encode_sextet_ok n 3 Hn ltac:(lia)) as (P3 & N3 & R3).
  cbn [seq map app].
  rewrite (decode_step0 _ _ _ _ _ P0 N0 R0).
  rewrite (decode_emit _ _ _ _ 6 a _ P1 N1 R1) by (lia || exact Ea).
  rewrite (decode_emit _ _ _ _ (6 - 2) b _ P2 N2 R2) by (lia || exact Eb).
  rewrite (decode_emit _ _ _ _ (6 - 2 - 2) c _ P3 N3 R3) by (lia || exact Ec).
  eexists. change (6 - 2 - 2 - 2) with 0. rewrite <- !option_fmap_compose. reflexivity.
Qed.

(** The last chunk, when it is short. *)
Lemma decode_chunk2 pad a b acc :
  decode_loop alphabet acc 0 (map u8 (encode_chunk alphabet pad [a; b])) = Some [a; b].
Proof using Halpha.
  unfold encode_chunk, nth_byte. cbn [lookup list_lookup length].
  pose proof (u8_range a). pose proof (u8_range b).
  rewrite chunk_bits_lor by lia. set (n := chunk_bits (u8 a) (u8 b) 0).
  assert (Hn : 0 <= n) by (unfold n, chunk_bits; lia).
  destruct (chunk_arith acc (u8 a) (u8 b) 0) as (Ea & Eb & _); [lia..|]. fold n in Ea, Eb.
  destruct (encode_sextet_ok n 0 Hn ltac:(lia)) as (P0 & N0 & R0).
  destruct (encode_sextet_ok n 1 Hn ltac:(lia)) as (P1 & N1 & R1).
  destruct (encode_sextet_ok n 2 Hn ltac:(lia)) as (P2 & N2 & R2).
  cbn [seq map app].
  rewrite (decode_step0 _ _ _ _ _ P0 N0 R0).
  rewrite (decode_emit _ _ _ _ 6 a _ P1 N1 R1) by (lia || exact Ea).
  rewrite (decode_emit _ _ _ _ (6 - 2) b _ P2 N2 R2) by (lia || exact Eb).
  destruct pad; [rewrite decode_padding|]; done.
Qed.

Lemma decode_chunk1 pad a acc :
  decode_loop alphabet acc 0 (map u8 (encode_chunk alphabet pad [a])) = Some [a].
Proof using Halpha.
  unfold encode_chunk, nth_byte. cbn [lookup list_lookup length].
  pose proof (u8_range a).
  rewrite chunk_bits_lor by lia. set (n := chunk_bits (u8 a) 0 0).
  assert (Hn : 0 <= n) by (unfold n, chunk_bits; lia).
  destruct (chunk_arith acc (u8 a) 0 0) as (Ea & _); [lia..|]. fold n in Ea.
  destruct (encode_sextet_ok n 0 Hn ltac:(lia)) as (P0 & N0 & R0).
  destruct (encode_sextet_ok n 1 Hn ltac:(lia)) as (P1 & N1 & R1).
  cbn [seq map app].
  rewrite (decode_step0 _ _ _ _ _ P0 N0 R0).
  rewrite (decode_emit _ _ _ _ 6 a _ P1 N1 R1) by (lia || exact Ea).
  destruct pad; [rewrite decode_padding|]; done.
Qed.

Lemma decode_encode pad input acc :
  decode_loop alphabet acc 0 (map u8 (encode input alphabet pad)) = Some input.
Proof using Halpha.
  unfold encode. revert acc. remember (length input) as n eqn:Hn. revert input Hn.
  induction n as [n IH] using lt_wf_ind. intros input -> acc.
  destruct input as [|a [|b [|c input]]]; [done|..].
  - rewrite chunks_cons by (lia || done). simpl. rewrite app_nil_r. apply decode_chunk1.
  - rewrite chunks_cons by (lia || done). simpl. rewrite app_nil_r. apply decode_chunk2.
  - rewrite chunks_cons by (lia || done).
    change (take 3 (a :: b :: c :: input)) with [a; b; c].
    change (drop 3 (a :: b :: c :: input)) with input.
    cbn [map concat]. rewrite map_app.
    edestruct (decode_chunk3 pad a b c acc) as [acc' ->].
    rewrite (IH (length input)); [done|simpl; lia|done].
Qed.

(** Every byte the encoder writes is an alphabet character or padding. *)
Definition encoded_byte (e : byte) : Prop :=
  u8 e < 128 /\ is_whitespace (u8 e) = false /\ (e = EQUALS \/ e ∈ alphabet).

Lemma encode_bytes pad input : Forall encoded_byte (encode input alphabet pad).
Proof using Halpha.
  unfold encode. apply Forall_concat, Forall_map, Forall_forall. intros chunk Hc.
  assert (Hlen : (length chunk <= 3)%nat).
  { assert (Hall : Forall (fun c => (length c <= 3)%nat) (chunks 3 input)).
    { clear. unfold chunks. generalize (length input) as f. intros f. revert input.
      induction f as [|f IH]; intros [|x l]; simpl; constructor; auto.
      destruct l as [|? [|? ?]]; simpl; lia. }
    rewrite Forall_forall in Hall. by apply Hall. }
  unfold encode_chunk. apply Forall_app. split.
  - apply Forall_map, Forall_forall. intros i Hi%elem_of_seq.
    destruct (encode_sextet_spec alphabet Halpha
      (Z.lor (Z.lor (Z.shiftl (nth_byte chunk 0) 16) (Z.shiftl (nth_byte chunk 1) 8)) (nth_byte chunk 2))
      i) as (Hp & ? & _ & ?).
    { unfold nth_byte. rewrite !Z.lor_nonneg, !Z.shiftl_nonneg.
      repeat case_match; pose proof u8_range; naive_solver. }
    { lia. }
    split_and!; try done. right. unfold position in Hp.
    destruct (list_find _ alphabet) as [[j x]|] eqn:E; [|done].
    apply list_find_Some in E as (El & -> & _). by apply list_elem_of_lookup_2 in El.
  - destruct pad; [|constructor]. apply Forall_forall. intros x Hx.
    apply list_elem_of_In, repeat_spec in Hx as ->. split_and!; [done..|by left].
Qed.
End Roundtrip.

Lemma standard_ok : alphabet_ok STANDARD = true.
Proof. vm_compute. reflexivity. Qed.

Lemma url_safe_ok : alphabet_ok URL_SAFE = true.
Proof. vm_compute. reflexivity. Qed.

Lemma chars_ascii bs : Forall (fun b => u8 b < 128) bs -> chars (string_of bs) = map u8 bs.
Proof.
  intros H. unfold chars. rewrite bytes_of_string_of, utf8_decode_ascii; [done|].
  eapply Forall_impl; [exact H|]. intros b Hb. by apply Z.ltb_lt.
Qed.

Lemma from_base64url_encode input : from_base64url (base64url input) = Some input.
Proof.
  unfold from_base64url, base64url, decode_with. rewrite chars_ascii.
  - apply decode_encode, url_safe_ok.
  - eapply Forall_impl; [apply encode_bytes, url_safe_ok|]. intros b Hb. apply Hb.
Qed.

(** ** PEM *)

Definition terminated (ls : list (list byte)) : list byte := concat (map (fun l => l ++ [LF]) ls).

Definition plain_line (l : list byte) : Prop :=
  Forall (fun b => bool_decide (b = LF) = false) l /\ strip_cr l = l.

Lemma lines_terminated ls : Forall plain_line ls -> lines (terminated ls) = ls.
Proof.
  unfold lines, terminated. induction 1 as [|l ls [Hl Hcr] _ IH]; [done|].
  cbn [map concat]. rewrite <- app_assoc. simpl. rewrite split_list_app by done.
  pose proof (split_list_nonempty (fun b => bool_decide (b = LF)) (concat (map (fun l => l ++ [LF]) ls))) as Hne.
  destruct (split_list _ (concat _)) as [|p ps]; [done|].
  cbn [lines_of_pieces]. rewrite Hcr. f_equal. exact IH.
Qed.

Lemma strip_cr_last l b : b <> CR -> strip_cr (l ++ [b]) = l ++ [b].
Proof. intros Hb. unfold strip_cr. rewrite rev_app_distr. simpl. by destruct b. Qed.

Lemma strip_cr_no_cr l : Forall (fun b => b <> CR) l -> strip_cr l = l.
Proof.
  intros H. destruct l as [|x l _] using rev_ind; [done|].
  apply strip_cr_last. apply Forall_app in H as [_ H]. by apply Forall_cons_1 in H as [H _].
Qed.

Lemma not_whitespace_plain l :
  Forall (fun b => is_whitespace (u8 b) = false) l -> plain_line l.
Proof.
  intros H. split.
  - eapply Forall_impl; [exact H|]. intros b Hb. apply bool_decide_eq_false_2. by intros ->.
  - apply strip_cr_no_cr. eapply Forall_impl; [exact H|]. intros b Hb ->. done.
Qed.

Lemma is_armour_dashes l : is_armour (DASHES ++ l) = true.
Proof. unfold is_armour. by rewrite (proj2 (strip_prefix_list_Some DASHES (DASHES ++ l) l)). Qed.

Lemma standard_no_dash e : encoded_byte STANDARD e -> e <> x2d.
Proof.
  intros (_ & _ & [->|Hin]); [done|]. intros ->.
  apply (bool_decide_eq_true_2 (x2d ∈ STANDARD)) in Hin. vm_compute in Hin. discriminate.
Qed.

Lemma body_line_not_armour l : Forall (encoded_byte STANDARD) l -> is_armour l = false.
Proof.
  intros H. unfold is_armour. destruct l as [|b l]; [done|].
  apply Forall_cons_1 in H as [Hb _]. apply standard_no_dash in Hb. simpl.
  by rewrite bool_decide_false.
Qed.

Lemma filter_all {A} (p : A -> bool) l : Forall (fun x => p x = true) l -> List.filter p l = l.
Proof. induction 1 as [|x l Hx _ IH]; simpl; [done|]. by rewrite Hx, IH. Qed.

Lemma pem_text label der :
  bytes_of (pem label der) =
  terminated ((DASHES ++ bytes_of "BEGIN " ++ bytes_of label ++ DASHES)
              :: chunks PEM_WIDTH (base64 der)
              ++ [DASHES ++ bytes_of "END " ++ bytes_of label ++ DASHES]).
Proof.
  unfold pem, terminated. rewrite bytes_of_string_of. cbn [map concat].
  rewrite map_app, concat_app. cbn [map concat]. rewrite app_nil_r, <- !app_assoc. done.
Qed.

Lemma armour_line_plain l :
  Forall (fun b => bool_decide (b = LF) = false) l -> plain_line (l ++ DASHES).
Proof.
  intros H. split; [apply Forall_app; split; [done|repeat constructor]|].
  change DASHES with (repeat x2d 4 ++ [x2d]). rewrite app_assoc. by apply strip_cr_last.
Qed.

Lemma from_pem_pem label der :
  Forall (fun b => bool_decide (b = LF) = false) (bytes_of label) ->
  from_pem (pem label der) = Some der.
Proof.
  intros Hl. unfold from_pem. rewrite pem_text.
  pose proof (encode_bytes STANDARD standard_ok true der) as Hb. fold (base64 der) in Hb.
  pose proof (chunks_Forall _ PEM_WIDTH _ ltac:(unfold PEM_WIDTH; lia) Hb) as Hc.
  rewrite lines_terminated.
  2:{ rewrite !(app_assoc DASHES), !(app_assoc (DASHES ++ _)).
      constructor; [|apply Forall_app; split; [|constructor; [|constructor]]].
      1,3: apply armour_line_plain, Forall_app; split; [repeat constructor|done].
      eapply Forall_impl; [exact Hc|]. intros l Hbl. apply not_whitespace_plain.
      eapply Forall_impl; [exact Hbl|]. intros e He. apply He. }
  cbn [List.filter]. rewrite is_armour_dashes. cbn [negb].
  rewrite List.filter_app. cbn [List.filter]. rewrite is_armour_dashes. cbn [negb]. rewrite app_nil_r.
  rewrite (filter_all (fun line => negb (is_armour line))).
  2:{ eapply Forall_impl; [exact Hc|]. intros l Hbl. by rewrite body_line_not_armour. }
  rewrite (map_ext_Forall _ (map u8)).
  2:{ eapply Forall_impl; [exact Hc|]. intros l Hbl. apply chars_ascii.
      eapply Forall_impl; [exact Hbl|]. intros e He. apply He. }
  rewrite <- concat_map, concat_chunks by (unfold PEM_WIDTH; lia).
  rewrite filter_all.
  - apply decode_encode, standard_ok.
  - apply Forall_map. eapply Forall_impl; [exact Hb|]. intros e (_ & He & _). by rewrite He.
Qed.

(** ** Properties *)

(** What the codec writes reads back byte for byte: base64url, and PEM under any label
    without a line break. *)
Theorem encoding_roundtrip :
  (forall input, from_base64url (base64url input) = Some input) /\
  (forall label der, Forall (fun b => bool_decide (b = LF) = false) (bytes_of label) ->
                     from_pem (pem label der) = Some der).
Proof. split; [apply from_base64url_encode | apply from_pem_pem]. Qed.

Lemma encoding_roundtrip_witness :
  Forall (fun b => bool_decide (b = LF) = false) (bytes_of "PRIVATE KEY") /\
  from_pem (pem "PRIVATE KEY" (repeat x07 100)) = Some (repeat x07 100).
Proof.
  assert (H : Forall (fun b => bool_decide (b = LF) = false) (bytes_of "PRIVATE KEY"))
    by repeat constructor.
  split; [exact H | apply (proj2 encoding_roundtrip); exact H].
Defined.

(** The decoder compares only the low eight bits of each code point with the alphabet, so
    text that is not base64 at all, such as one whose first character is U+0141 where an
    [A] (U+0041) would be, is decoded to the same bytes instead of being refused. *)
Theorem decoder_accepts_foreign_code_points :
  let foreign := of_chars [321; 81; 73; 68] in
  foreign <> "AQID" /\ from_base64url foreign = from_base64url "AQID" /\
  from_base64url "AQID" = Some [x01; x02; x03].
Proof. split_and!; vm_compute; congruence. Qed.
