(* ===== verification/Errors.v ===== *)
(** * The typed errors of the contracts ([crates/pic-x-core/src/error.rs])

    A [Cause] is a boxed error; what the program observes of one is the text it prints. *)
From S2P Require Import Prelude.

Definition Cause : Type := string.

Inductive StorageError :=
| StorageNotFound (key : string)
| StorageUnavailable (cause : Cause)
| StorageBackend (cause : Cause).

Inductive SecretError :=
| SecretNotFound (reference : string)
| SecretDenied (reference : string)
| SecretUnavailable (cause : Cause)
| SecretBackend (cause : Cause).

Inductive KeyError :=
| KeyNotReady (detail : string)
| KeyUnavailable (cause : Cause)
| KeyBackend (cause : Cause).

Inductive AuditError :=
| AuditUnavailable (cause : Cause)
| AuditBackend (cause : Cause).

Definition storage_is_retryable (e : StorageError) : bool :=
  match e with StorageUnavailable _ => true | _ => false end.
Definition secret_is_retryable (e : SecretError) : bool :=
  match e with SecretUnavailable _ => true | _ => false end.
Definition key_is_retryable (e : KeyError) : bool :=
  match e with KeyUnavailable _ | KeyNotReady _ => true | KeyBackend _ => false end.
Definition audit_is_retryable (e : AuditError) : bool :=
  match e with AuditUnavailable _ => true | AuditBackend _ => false end.

Definition show_storage_error (e : StorageError) : string :=
  match e with
  | StorageNotFound key => "no record under `" +:+ key +:+ "`"
  | StorageUnavailable cause => "the record store is unavailable: " +:+ cause
  | StorageBackend cause => "the record store failed: " +:+ cause
  end.

Definition show_secret_error (e : SecretError) : string :=
  match e with
  | SecretNotFound reference => "no secret named `" +:+ reference +:+ "`"
  | SecretDenied reference => "access to the secret `" +:+ reference +:+ "` was denied"
  | SecretUnavailable cause => "the secret store is unavailable: " +:+ cause
  | SecretBackend cause => "the secret store failed: " +:+ cause
  end.

Definition show_key_error (e : KeyError) : string :=
  match e with
  | KeyNotReady detail => "no key is signing yet: " +:+ detail
  | KeyUnavailable cause => "the key store is unavailable: " +:+ cause
  | KeyBackend cause => "the key store failed: " +:+ cause
  end.

Definition show_audit_error (e : AuditError) : string :=
  match e with
  | AuditUnavailable cause => "the audit destination is unavailable: " +:+ cause
  | AuditBackend cause => "the audit destination failed: " +:+ cause
  end.

(** What can stop a service from coming up or going down. *)
Inductive ServiceError :=
| AddressInUse (address : string)
| ServiceConfiguration (detail : string)
| ServiceFailed (cause : Cause).

Definition show_service_error (e : ServiceError) : string :=
  match e with
  | AddressInUse address => address +:+ " is already in use"
  | ServiceConfiguration detail => detail
  | ServiceFailed cause => cause
  end.

(** [cause], which is also what [source] returns: the error underneath, when there is one. *)
Definition storage_cause (e : StorageError) : option Cause :=
  match e with StorageUnavailable cause | StorageBackend cause => Some cause | StorageNotFound _ => None end.
Definition secret_cause (e : SecretError) : option Cause :=
  match e with SecretUnavailable cause | SecretBackend cause => Some cause | SecretNotFound _ | SecretDenied _ => None end.
Definition key_cause (e : KeyError) : option Cause :=
  match e with KeyUnavailable cause | KeyBackend cause => Some cause | KeyNotReady _ => None end.
Definition audit_cause (e : AuditError) : option Cause :=
  match e with AuditUnavailable cause | AuditBackend cause => Some cause end.
Definition service_cause (e : ServiceError) : option Cause :=
  match e with ServiceFailed cause => Some cause | AddressInUse _ | ServiceConfiguration _ => None end.

(** An answer is not an outage: what is worth retrying is the store that did not answer, and the
    answers that say something is absent or denied are neither retried nor blamed on a cause. *)
Lemma absence_is_not_an_outage :
  (forall e, storage_cause e = None -> storage_is_retryable e = false) /\
  (forall e, secret_cause e = None -> secret_is_retryable e = false) /\
  (forall e, key_cause e = None -> key_is_retryable e = true) /\
  (forall e, audit_is_retryable e = true -> exists cause, audit_cause e = Some cause).
Proof. split_and!; intros []; simpl; try done. by eexists. Qed.
