(* ===== verification/Keys.v ===== *)
(** * The key contract and the key ring on disk
    ([crates/pic-x-core/src/keys.rs], [crates/pic-x-std/src/keys.rs])

    [Jwk], [Signature], [Maintenance] and the [KeyManager] contract come from the core crate;
    the rest is the directory-backed ring: [ring.json] and one PEM file per key on disk, the
    parsed signers in memory, and the operations on them in the order the code performs
    their effects. The [ring] crate's cryptography is a parameter. *)
From S2P Require Import Prelude Rust Errors Encoding.
Local Open Scope Z_scope.
Local Open Scope rust_scope.

(** ** The contract *)

Inductive KeyState := Published | Active | Retired | Archived.

#[global] Instance key_state_eq_dec : EqDecision KeyState.
Proof. solve_decision. Defined.

Definition key_state_as_str (s : KeyState) : string :=
  match s with
  | Published => "published"
  | Active => "active"
  | Retired => "retired"
  | Archived => "archived"
  end.

Definition is_published (s : KeyState) : bool := true.

Record Jwk := mkJwk {
  jwk_kid : string; jwk_kty : string; jwk_crv : option string; jwk_x : string;
  jwk_y : option string; jwk_alg : string; jwk_usage : string }.

#[global] Instance jwk_eq_dec : EqDecision Jwk.
Proof. solve_decision. Defined.

Definition jwk_okp (kid curve algorithm x : string) : Jwk :=
  mkJwk kid "OKP" (Some curve) x None algorithm "sig".
Definition jwk_ec (kid curve algorithm x y : string) : Jwk :=
  mkJwk kid "EC" (Some curve) x (Some y) algorithm "sig".

Record Signature := mkSignature {
  signature_key_id : string; signature_algorithm : string; signature_bytes : list byte }.

Record Maintenance := mkMaintenance {
  published : nat; activated : nat; retired : nat; archived : nat; forgotten : nat }.

Definition maintenance_default : Maintenance := mkMaintenance 0 0 0 0 0.

Definition maintenance_is_empty (m : Maintenance) : bool :=
  bool_decide (published m = 0%nat) && bool_decide (activated m = 0%nat)
  && bool_decide (retired m = 0%nat) && bool_decide (archived m = 0%nat)
  && bool_decide (forgotten m = 0%nat).

(** The [KeyManager] trait: what signing and verifying code asks of a key manager. *)
Class KeyManager (K : Type) := {
  public_keys : K -> result (list Jwk) KeyError;
  active_key_id : K -> result string KeyError;
  key_sign : list byte -> M K KeyError Signature }.

(** ** Algorithms *)

Definition CURVE : string := "Ed25519".
Definition ALGORITHM : string := "EdDSA".
Definition P256_CURVE : string := "P-256".
Definition P256_ALGORITHM : string := "ES256".

Inductive RingAlgorithm := Ed25519 | Es256.

#[global] Instance ring_algorithm_eq_dec : EqDecision RingAlgorithm.
Proof. solve_decision. Defined.

Definition jose (a : RingAlgorithm) : string :=
  match a with Ed25519 => ALGORITHM | Es256 => P256_ALGORITHM end.
Definition curve (a : RingAlgorithm) : string :=
  match a with Ed25519 => CURVE | Es256 => P256_CURVE end.

Definition parse_ring_algorithm (value : string) : result RingAlgorithm string :=
  if bool_decide (value = "EdDSA") || bool_decide (value = "Ed25519") then Ok Ed25519
  else if bool_decide (value = "ES256") || bool_decide (value = "P-256") then Ok Es256
  else Err ("unsupported signing algorithm `" +:+ value
            +:+ "`: this build signs with EdDSA or ES256").

(** The [ring] crate, as this component uses it: PKCS#8 generation from the [n]-th draw of the
    system's random source, parsing, the public half, signing, and SHA-256. *)
Record RingCrate := mkRingCrate {
  Ed25519KeyPair : Type;
  EcdsaKeyPair : Type;
  ed_generate_pkcs8 : nat -> option (list byte);
  ec_generate_pkcs8 : nat -> option (list byte);
  ed_from_pkcs8 : list byte -> option Ed25519KeyPair;
  ec_from_pkcs8 : list byte -> option EcdsaKeyPair;
  ed_public_key : Ed25519KeyPair -> list byte;
  ec_public_key : EcdsaKeyPair -> list byte;
  ed_sign : Ed25519KeyPair -> list byte -> list byte;
  ec_sign : nat -> EcdsaKeyPair -> list byte -> option (list byte);
  sha256 : list byte -> list byte }.

(** How long each key spends in each state, in whole seconds ([Duration::as_secs]). *)
Record KeyPolicy := mkKeyPolicy {
  publish_ahead : Z; rotate_every : Z; retain : Z; verify_retain : Z }.

Record Entry := mkEntry {
  kid : string; state : KeyState; algorithm : RingAlgorithm; public_key : string;
  created_at : Z; activated_at : option Z; retired_at : option Z }.

Record Ring := mkRing { version : Z; keys : list Entry }.

(** [Ring::default()]. *)
Definition ring_default : Ring := mkRing 0 [].

(** What a read of [ring.json] finds. *)
Inductive RingFile :=
| RingAbsent
| RingUnreadable (cause : Cause)
| RingGarbled (cause : Cause)
| RingHolds (ring : Ring).

Definition PEM_LABEL : string := "PRIVATE KEY".

(** Splits a SEC1 uncompressed P-256 point, given as base64url, into its coordinates. *)
Definition split_p256_point (public_key : string) : string * string :=
  match from_base64url public_key with
  | None => ("", "")
  | Some point =>
    if negb (bool_decide (length point = 65%nat)) || negb (bool_decide (head point = Some x04))
    then ("", "")
    else (base64url (take 32 (drop 1 point)), base64url (take 32 (drop 33 point)))
  end.

Definition to_jwk (e : Entry) : Jwk :=
  match algorithm e with
  | Ed25519 => jwk_okp (kid e) CURVE ALGORITHM (public_key e)
  | Es256 => let '(x, y) := split_p256_point (public_key e) in
             jwk_ec (kid e) P256_CURVE P256_ALGORITHM x y
  end.

Definition quoted (s : string) : string := string_of [x22] +:+ s +:+ string_of [x22].

(** The text whose SHA-256 names a key (RFC 7638). *)
Definition thumbprint_input (a : RingAlgorithm) (public_key : string) : string :=
  match a with
  | Ed25519 =>
    "{" +:+ quoted "crv" +:+ ":" +:+ quoted CURVE +:+ "," +:+ quoted "kty" +:+ ":" +:+ quoted "OKP"
    +:+ "," +:+ quoted "x" +:+ ":" +:+ quoted public_key +:+ "}"
  | Es256 =>
    let '(x, y) := split_p256_point public_key in
    "{" +:+ quoted "crv" +:+ ":" +:+ quoted P256_CURVE +:+ "," +:+ quoted "kty" +:+ ":" +:+ quoted "EC"
    +:+ "," +:+ quoted "x" +:+ ":" +:+ quoted x +:+ "," +:+ quoted "y" +:+ ":" +:+ quoted y +:+ "}"
  end.

Section Directory.
Context (C : RingCrate).

Definition thumbprint (a : RingAlgorithm) (public_key : string) : string :=
  base64url (sha256 C (bytes_of (thumbprint_input a public_key))).

(** ** Private keys *)

Inductive SigningPair :=
| PairEd25519 (kp : Ed25519KeyPair C)
| PairEs256 (kp : EcdsaKeyPair C).

Definition from_pkcs8 (a : RingAlgorithm) (pkcs8 : list byte) : result SigningPair KeyError :=
  match a with
  | Ed25519 =>
    match ed_from_pkcs8 C pkcs8 with
    | Some kp => Ok (PairEd25519 kp)
    | None => Err (KeyBackend "reading a key")
    end
  | Es256 =>
    match ec_from_pkcs8 C pkcs8 with
    | Some kp => Ok (PairEs256 kp)
    | None => Err (KeyBackend "reading a key")
    end
  end.

Definition pair_public_key (p : SigningPair) : list byte :=
  match p with
  | PairEd25519 kp => ed_public_key C kp
  | PairEs256 kp => ec_public_key C kp
  end.

Definition pair_algorithm (p : SigningPair) : RingAlgorithm :=
  match p with PairEd25519 _ => Ed25519 | PairEs256 _ => Es256 end.

(** ** The manager

    [ops] counts the calls to the operating system and [io] says which of them succeed, so
    a run is a function of its environment; [draws] counts uses of the random source. *)
Record Manager := mkManager {
  ring_file : RingFile;
  key_files : gmap string string;
  signers : gmap string SigningPair;
  draws : nat;
  ops : nat }.

Record Settings := mkSettings {
  directory : string;
  policy : KeyPolicy;
  ring_algorithm : RingAlgorithm;
  io : nat -> bool }.

Context (cfg : Settings).

Definition K (A : Type) : Type := M Manager KeyError A.

Definition set_ring_file (f : RingFile) (m : Manager) : Manager :=
  mkManager f (key_files m) (signers m) (draws m) (ops m).
Definition set_key_files (f : gmap string string) (m : Manager) : Manager :=
  mkManager (ring_file m) f (signers m) (draws m) (ops m).
Definition set_signers (s : gmap string SigningPair) (m : Manager) : Manager :=
  mkManager (ring_file m) (key_files m) s (draws m) (ops m).

(** One call to the operating system: the error [e] when it does not succeed. *)
Definition os (e : KeyError) : K unit := fun m =>
  ((if io cfg (ops m) then Ok tt else Err e),
   mkManager (ring_file m) (key_files m) (signers m) (draws m) (S (ops m))).

(** One use of the random source. *)
Definition draw : K nat := fun m =>
  (Ok (draws m), mkManager (ring_file m) (key_files m) (signers m) (S (draws m)) (ops m)).

Definition key_path (kid : string) : string := directory cfg +:+ "/" +:+ kid +:+ ".pem".
Definition ring_path : string := directory cfg +:+ "/ring.json".

(** [read_ring_in]. *)
Definition read_ring (m : Manager) : result Ring KeyError :=
  match ring_file m with
  | RingHolds ring => Ok ring
  | RingGarbled cause => Err (KeyBackend ("reading the key ring at " +:+ ring_path +:+ ": " +:+ cause))
  | RingAbsent => Ok ring_default
  | RingUnreadable cause => Err (KeyUnavailable cause)
  end.

Definition read_ring_m : K Ring := fun m => (read_ring m, m).

(** Writes the staged file, then renames it over the ring. *)
Definition write_ring (ring : Ring) : K unit :=
  let! _ := os (KeyBackend ("writing " +:+ ring_path +:+ ".tmp")) in
  let! _ := os (KeyBackend ("replacing " +:+ ring_path)) in
  mmodify (set_ring_file (RingHolds ring)).

Definition generate_pkcs8 (n : nat) : result (list byte) KeyError :=
  ok_or (match ring_algorithm cfg with
         | Ed25519 => ed_generate_pkcs8 C n
         | Es256 => ec_generate_pkcs8 C n
         end) (KeyBackend "generating a key").

Definition create (now : Z) (signing : bool) : K Entry :=
  let! _ := os (KeyBackend ("creating " +:+ directory cfg)) in
  let! _ := os (KeyBackend ("restricting " +:+ directory cfg)) in
  let! n := draw in
  let! pkcs8 := mlift (generate_pkcs8 n) in
  let! kp := mlift (from_pkcs8 (ring_algorithm cfg) pkcs8) in
  let public_key := base64url (pair_public_key kp) in
  let kid := thumbprint (ring_algorithm cfg) public_key in
  let! _ := os (KeyBackend ("writing " +:+ key_path kid)) in
  let! _ := mmodify (fun m => set_key_files (<[kid := pem PEM_LABEL pkcs8]> (key_files m)) m) in
  let! _ := os (KeyBackend ("restricting " +:+ key_path kid)) in
  mret {| kid := kid;
          state := if signing then Active else Published;
          algorithm := ring_algorithm cfg;
          public_key := public_key;
          created_at := now;
          activated_at := if signing then Some now else None;
          retired_at := None |}.

Definition find_entry (k : string) (entries : list Entry) : option Entry :=
  List.find (fun e => bool_decide (kid e = k)) entries.

(** The parsed private key for [kid]: cached, or read from its PEM file. *)
Definition signer (k : string) : K SigningPair :=
  let! m := mget in
  match signers m !! k with
  | Some kp => mret kp
  | None =>
    match key_files m !! k with
    | None => mfail (KeyNotReady ("the ring names the key `" +:+ k +:+ "` but " +:+ key_path k
                                  +:+ " is not there"))
    | Some text =>
      let! _ := os (KeyUnavailable ("reading " +:+ key_path k)) in
      let! pkcs8 := mlift (ok_or (from_pem text) (KeyBackend (key_path k +:+ " is not a PEM private key"))) in
      let! ring := read_ring_m in
      let a := match find_entry k (keys ring) with
               | Some e => algorithm e
               | None => ring_algorithm cfg
               end in
      let! kp := mlift (from_pkcs8 a pkcs8) in
      let! _ := mmodify (fun m => set_signers (<[k := kp]> (signers m)) m) in
      mret kp
    end
  end.

(** Drops the cached signer and the file; a file that is already gone is not an error. *)
Definition forget (k : string) : K unit :=
  let! _ := mmodify (fun m => set_signers (delete k (signers m)) m) in
  let! m := mget in
  match key_files m !! k with
  | None => mret tt
  | Some _ =>
    let! _ := os (KeyBackend ("removing the key `" +:+ k +:+ "`")) in
    mmodify (fun m => set_key_files (delete k (key_files m)) m)
  end.

Definition directory_public_keys (m : Manager) : result (list Jwk) KeyError :=
  let? ring := read_ring m in
  Ok (map to_jwk (keys ring)).

Definition is_active (e : Entry) : bool := bool_decide (state e = Active).

Definition directory_active_key_id (m : Manager) : result string KeyError :=
  let? ring := read_ring m in
  match List.find is_active (keys ring) with
  | Some e => Ok (kid e)
  | None => Err (KeyNotReady ("no key in " +:+ directory cfg +:+ " is active yet"))
  end.

(** ECDSA draws entropy for each signature; EdDSA does not. *)
Definition pair_sign (p : SigningPair) (payload : list byte) : K (list byte) :=
  match p with
  | PairEd25519 kp => mret (ed_sign C kp payload)
  | PairEs256 kp =>
    let! n := draw in
    mlift (ok_or (ec_sign C n kp payload) (KeyBackend "signing"))
  end.

Definition directory_sign (payload : list byte) : K Signature :=
  let! key_id := (fun m => (directory_active_key_id m, m)) in
  let! p := signer key_id in
  let! bytes := pair_sign p payload in
  mret (mkSignature key_id (jose (pair_algorithm p)) bytes).

(** ** The lifecycle *)

Definition seconds_ahead : Z := publish_ahead (policy cfg).
Definition seconds_rotating : Z := rotate_every (policy cfg).
Definition seconds_retained : Z := retain (policy cfg).
Definition seconds_verify_retained : Z := Z.max (verify_retain (policy cfg)) (retain (policy cfg)).

Definition set_state (s : KeyState) (e : Entry) : Entry :=
  mkEntry (kid e) s (algorithm e) (public_key e) (created_at e) (activated_at e) (retired_at e).

Definition retire_entry (now : Z) (e : Entry) : Entry :=
  if is_active e
  then mkEntry (kid e) Retired (algorithm e) (public_key e) (created_at e) (activated_at e) (Some now)
  else e.

Definition activate_entry (now : Z) (e : Entry) : Entry :=
  mkEntry (kid e) Active (algorithm e) (public_key e) (created_at e) (Some now) (retired_at e).

Definition count_active (es : list Entry) : nat := length (List.filter is_active es).

Definition add_published (n : nat) (r : Maintenance) : Maintenance :=
  mkMaintenance (published r + n) (activated r) (retired r) (archived r) (forgotten r).
Definition add_activated (n : nat) (r : Maintenance) : Maintenance :=
  mkMaintenance (published r) (activated r + n) (retired r) (archived r) (forgotten r).
Definition add_retired (n : nat) (r : Maintenance) : Maintenance :=
  mkMaintenance (published r) (activated r) (retired r + n) (archived r) (forgotten r).
Definition add_archived (n : nat) (r : Maintenance) : Maintenance :=
  mkMaintenance (published r) (activated r) (retired r) (archived r + n) (forgotten r).
Definition add_forgotten (n : nat) (r : Maintenance) : Maintenance :=
  mkMaintenance (published r) (activated r) (retired r) (archived r) (forgotten r + n).

(** [Iterator::min_by_key]: the first of the least. *)
Fixpoint min_by_created (es : list Entry) : option Entry :=
  match es with
  | [] => None
  | e :: r => match min_by_created r with
              | Some b => Some (if created_at b <? created_at e then b else e)
              | None => Some e
              end
  end.

Definition is_due (now : Z) (e : Entry) : bool :=
  bool_decide (state e = Published)
  && (saturating_add (created_at e) seconds_ahead <=? now).

Definition next_due (now : Z) (es : list Entry) : option string :=
  kid <$> min_by_created (List.filter (is_due now) es).

(** [iter_mut().find(..)] and an update of what it found: the first entry named [k]. *)
Fixpoint update_first (k : string) (f : Entry -> Entry) (es : list Entry) : list Entry :=
  match es with
  | [] => []
  | e :: r => if bool_decide (kid e = k) then f e :: r else e :: update_first k f r
  end.

(** One turn of the activation loop: everything active retires, the due key signs. *)
Definition hand_over (now : Z) (k : string) (es : list Entry) : list Entry :=
  update_first k (activate_entry now) (map (retire_entry now) es).

(** The activation loop; [None] when the fuel does not suffice. *)
Fixpoint activate_due (fuel : nat) (now : Z) (es : list Entry) (r : Maintenance)
  : option (list Entry * Maintenance) :=
  match next_due now es with
  | None => Some (es, r)
  | Some k =>
    match fuel with
    | O => None
    | S f => activate_due f now (hand_over now k es)
               (add_activated 1 (add_retired (count_active es) r))
    end
  end.

(** The two ways a key may be at the end of its life. *)
Definition has_archive_phase : bool := seconds_retained <? seconds_verify_retained.

Definition retention_over (now : Z) (e : Entry) : bool :=
  match retired_at e with
  | None => false
  | Some t => bool_decide (state e = Retired) && (saturating_add t seconds_retained <=? now)
  end.

Definition verification_over (now : Z) (e : Entry) : bool :=
  match retired_at e with
  | None => false
  | Some t => bool_decide (state e = Archived) && (saturating_add t seconds_verify_retained <=? now)
  end.

Definition to_archive (now : Z) (es : list Entry) : list string :=
  map kid (List.filter (fun e => retention_over now e && has_archive_phase) es).

Definition to_forget (now : Z) (es : list Entry) : list string :=
  map kid (List.filter (fun e => (retention_over now e && negb has_archive_phase)
                                 || verification_over now e) es).

Fixpoint forget_all (ks : list string) : K unit :=
  match ks with
  | [] => mret tt
  | k :: r => let! _ := forget k in forget_all r
  end.

Definition successor_due (now : Z) (es : list Entry) : bool :=
  match List.find is_active es with
  | Some e => match activated_at e with
              | Some t => saturating_sub (saturating_add t seconds_rotating) seconds_ahead <=? now
              | None => false
              end
  | None => false
  end.

Definition has_state (s : KeyState) (es : list Entry) : bool :=
  existsb (fun e => bool_decide (state e = s)) es.

(** The first key of an empty ring signs at once. *)
Definition first_key (now : Z) (es : list Entry) (r : Maintenance) : K (list Entry * Maintenance) :=
  if bool_decide (es = [])
  then let! e := create now true in
       mret (es ++ [e], add_activated 1 (add_published 1 r))
  else mret (es, r).

(** A ring whose active key is of another algorithm gets an active key of this one. *)
Definition migrate (now : Z) (es : list Entry) (r : Maintenance) : K (list Entry * Maintenance) :=
  let active_is_current :=
    existsb (fun e => is_active e && bool_decide (algorithm e = ring_algorithm cfg)) es in
  if negb active_is_current && negb (bool_decide (es = []))
  then let! e := create now true in
       mret (map (retire_entry now) es ++ [e],
             add_activated 1 (add_published 1 (add_retired (count_active es) r)))
  else mret (es, r).

Definition publish_successor (now : Z) (es : list Entry) (r : Maintenance)
  : K (list Entry * Maintenance) :=
  if successor_due now es && negb (has_state Published es)
  then let! e := create now false in
       mret (es ++ [e], add_published 1 r)
  else mret (es, r).

(** The end of a key's life: private halves deleted, then the entries updated. *)
Definition expire_keys (now : Z) (es : list Entry) (r : Maintenance) : K (list Entry * Maintenance) :=
  let archive := to_archive now es in
  let forget := to_forget now es in
  let! _ := forget_all (archive ++ forget) in
  let archived_es :=
    map (fun e => if bool_decide (kid e ∈ archive) then set_state Archived e else e) es in
  let n := length (List.filter (fun e => bool_decide (kid e ∈ archive)) es) in
  mret (List.filter (fun e => negb (bool_decide (kid e ∈ forget))) archived_es,
        add_forgotten (length forget) (add_archived n r)).

(** [maintain]: every key that is due moves to its next state. [None] is a loop that did not
    end within [length es] turns, which never happens. *)
Definition maintain (now : Z) : M Manager KeyError (option Maintenance) :=
  let! ring := read_ring_m in
  let! (es, r) := first_key now (keys ring) maintenance_default in
  let! (es, r) := migrate now es r in
  match activate_due (length es) now es r with
  | None => mret None
  | Some (es, r) =>
    let! (es, r) := publish_successor now es r in
    let! (es, r) := expire_keys now es r in
    let! _ := (if negb (maintenance_is_empty r) then write_ring (mkRing (version ring) es)
               else mret tt) in
    mret (Some r)
  end.

(** [export]: the public halves of a ring on disk as a JWKS document, which [serde_json]
    renders. *)
Definition export (to_string_pretty : list Jwk -> string) (m : Manager) : result string KeyError :=
  let? ring := read_ring m in
  Ok (to_string_pretty (map to_jwk (keys ring))).

(** The directory-backed ring is a key manager. *)
#[export] Instance directory_key_manager : KeyManager Manager :=
  {| public_keys := directory_public_keys;
     active_key_id := directory_active_key_id;
     key_sign := directory_sign |}.
End Directory.

(** [verify_signature], over the Ed25519 verification of the [ring] crate. *)
Definition verify_signature (ed_verify : list byte -> list byte -> list byte -> bool)
    (jwk : Jwk) (payload signature : list byte) : bool :=
  if negb (bool_decide (jwk_kty jwk = "OKP")) || negb (bool_decide (jwk_crv jwk = Some CURVE))
     || negb (bool_decide (jwk_alg jwk = ALGORITHM))
  then false
  else match from_base64url (jwk_x jwk) with
       | None => false
       | Some public => ed_verify public payload signature
       end.
