(* ===== verification/KeyRing.v ===== *)
(** * The key lifecycle: what a maintenance pass guarantees

    Theorems about [Keys.maintain] and the operations around it: the pass terminates, it
    takes every key along the published lifecycle and nowhere else, it leaves exactly one
    key signing, it deletes a private half only after its retention, and a pass that fails
    leaves the ring on disk as it was. *)
From S2P Require Import Prelude Rust Errors Encoding Keys.
From stdpp Require Import relations.
Local Open Scope Z_scope.
Local Open Scope rust_scope.

Section Lifecycle.
Context (C : RingCrate) (cfg : Settings).

(** ** The specification: the moves of one key's life *)

(** What one pass at [now] may do to one key. *)
Inductive move (now : Z) : Entry -> Entry -> Prop :=
| move_activate e : is_due cfg now e = true -> move now e (activate_entry now e)
| move_retire e : state e = Active -> move now e (retire_entry now e)
| move_archive e : retention_over cfg now e = true -> has_archive_phase cfg = true ->
                   move now e (set_state Archived e).

(** When a key may leave the ring. *)
Definition end_of_life (now : Z) (e : Entry) : Prop :=
  (retention_over cfg now e = true /\ has_archive_phase cfg = false)
  \/ verification_over cfg now e = true.

(** Which fields each state requires. *)
Definition entry_wf (e : Entry) : Prop :=
  match state e with
  | Published => retired_at e = None
  | Active => is_Some (activated_at e) /\ retired_at e = None
  | Retired | Archived => is_Some (retired_at e)
  end.

Definition ring_wf (es : list Entry) : Prop :=
  NoDup (map kid es) /\ Forall entry_wf es /\ (count_active es <= 1)%nat.

Lemma move_kid now e e' : move now e e' -> kid e' = kid e.
Proof. destruct 1; try done. unfold retire_entry. by case_match. Qed.

Lemma moves_kid now e e' : rtc (move now) e e' -> kid e' = kid e.
Proof. induction 1 as [|e1 e2 e3 H1 _ IH]; [done|]. rewrite IH. by eapply move_kid. Qed.

Lemma retire_entry_active now e :
  state e = Active -> retire_entry now e =
  mkEntry (kid e) Retired (algorithm e) (public_key e) (created_at e) (activated_at e) (Some now).
Proof. intros H. unfold retire_entry, is_active. by rewrite bool_decide_true. Qed.

Lemma retire_entry_other now e : state e <> Active -> retire_entry now e = e.
Proof. intros H. unfold retire_entry, is_active. by rewrite bool_decide_false. Qed.

Lemma retire_entry_kid now e : kid (retire_entry now e) = kid e.
Proof. unfold retire_entry. by case_match. Qed.

Lemma move_wf now e e' : move now e e' -> entry_wf e -> entry_wf e'.
Proof.
  destruct 1 as [e Hd|e Ha|e Hr Hp]; unfold entry_wf.
  - unfold is_due in Hd. bool_to_prop. rewrite H. simpl. eauto.
  - rewrite retire_entry_active by done. simpl. eauto.
  - unfold retention_over in Hr. destruct (retired_at e) eqn:E; [|done]. simpl.
    intros _. rewrite E. eauto.
Qed.

Lemma moves_wf now e e' : rtc (move now) e e' -> entry_wf e -> entry_wf e'.
Proof. induction 1; eauto using move_wf. Qed.

Lemma retire_moves now e : rtc (move now) e (retire_entry now e).
Proof.
  destruct (decide (state e = Active)) as [H|H].
  - apply rtc_once. by constructor.
  - by rewrite retire_entry_other.
Qed.

(** ** Lists of entries *)

Abbreviation moved now := (Forall2 (rtc (move now))).

Lemma moved_kids now es es' : moved now es es' -> map kid es' = map kid es.
Proof. induction 1; simpl; [done|]. f_equal; [by eapply moves_kid|done]. Qed.

Lemma moved_refl now es : moved now es es.
Proof. induction es; constructor; [apply rtc_refl|done]. Qed.

Lemma moved_trans now a b c : moved now a b -> moved now b c -> moved now a c.
Proof.
  intros Hab. revert c. induction Hab as [|x y l k Hxy _ IH]; intros c Hbc;
    inversion Hbc; subst; constructor; [by etrans|auto].
Qed.

Lemma moved_wf now es es' : moved now es es' -> Forall entry_wf es -> Forall entry_wf es'.
Proof. induction 1; intros Hf; inversion Hf; subst; constructor; eauto using moves_wf. Qed.

Lemma moved_retire now es : moved now es (map (retire_entry now) es).
Proof. induction es; simpl; constructor; auto using retire_moves. Qed.

Lemma map_kid_retire now es : map kid (map (retire_entry now) es) = map kid es.
Proof. rewrite map_map. apply map_ext. intros; apply retire_entry_kid. Qed.

Lemma count_active_retire now es : count_active (map (retire_entry now) es) = 0%nat.
Proof.
  unfold count_active. induction es as [|e es IH]; [done|]. simpl.
  destruct (decide (state e = Active)) as [H|H].
  - rewrite retire_entry_active by done. exact IH.
  - rewrite retire_entry_other by done. unfold is_active at 1. by rewrite bool_decide_false.
Qed.

Lemma count_active_app a b : count_active (a ++ b) = (count_active a + count_active b)%nat.
Proof. unfold count_active. by rewrite List.filter_app, length_app. Qed.

(** ** The activation loop *)

Lemma min_by_created_in es e : min_by_created es = Some e -> e ∈ es.
Proof.
  revert e. induction es as [|x es IH]; intros e; simpl; [done|].
  destruct (min_by_created es) as [b|] eqn:E; intros [= <-].
  - case_match; [right; eauto|left].
  - left.
Qed.

Lemma min_by_created_none es : min_by_created es = None -> es = [].
Proof. destruct es as [|x es]; simpl; [done|]. by destruct (min_by_created es). Qed.

Lemma elem_of_filter_list {A} (p : A -> bool) l x : x ∈ List.filter p l <-> x ∈ l /\ p x = true.
Proof. rewrite !list_elem_of_In. apply filter_In. Qed.

Lemma next_due_some now es k :
  next_due cfg now es = Some k -> exists e, e ∈ es /\ kid e = k /\ is_due cfg now e = true.
Proof.
  unfold next_due. destruct (min_by_created _) as [e|] eqn:E; [|done]. intros [= <-].
  apply min_by_created_in, elem_of_filter_list in E as [? ?]. eauto.
Qed.

Lemma next_due_none now es : next_due cfg now es = None -> Forall (fun e => is_due cfg now e = false) es.
Proof.
  unfold next_due. destruct (min_by_created _) eqn:E; [done|]. intros _.
  apply min_by_created_none in E. apply Forall_forall. intros e He.
  destruct (is_due cfg now e) eqn:Ed; [|done].
  assert (Hin : e ∈ List.filter (is_due cfg now) es) by (apply elem_of_filter_list; done).
  rewrite E in Hin. by apply not_elem_of_nil in Hin.
Qed.

Lemma retire_due now e : is_due cfg now e = true -> retire_entry now e = e.
Proof.
  intros H. apply retire_entry_other. unfold is_due in H. bool_to_prop. congruence.
Qed.

Lemma retire_not_due now e : is_due cfg now (retire_entry now e) = is_due cfg now e.
Proof.
  destruct (decide (state e = Active)) as [H|H].
  - rewrite retire_entry_active by done. unfold is_due. simpl. by rewrite H.
  - by rewrite retire_entry_other.
Qed.

Lemma activate_not_due now e : is_due cfg now (activate_entry now e) = false.
Proof. done. Qed.

Definition count_due (now : Z) (es : list Entry) : nat := length (List.filter (is_due cfg now) es).

Lemma update_first_split k f es e :
  NoDup (map kid es) -> e ∈ es -> kid e = k ->
  exists a b, es = a ++ e :: b /\ update_first k f es = a ++ f e :: b.
Proof.
  intros Hnd He Hk. induction es as [|x es IH]; [by apply not_elem_of_nil in He|].
  simpl in Hnd. apply NoDup_cons in Hnd as [Hx Hnd]. simpl.
  apply elem_of_cons in He as [->|He].
  - rewrite bool_decide_true by done. by exists [], es.
  - destruct (decide (kid x = k)) as [Hxk|Hxk].
    + exfalso. apply Hx. rewrite Hxk, <- Hk. apply list_elem_of_In, in_map. by apply list_elem_of_In.
    + rewrite bool_decide_false by done. destruct (IH Hnd He) as (a & b & -> & ->).
      by exists (x :: a), b.
Qed.

(** One turn of the loop: every entry moves along its lifecycle, one key fewer is due, and
    exactly one key signs. *)
Lemma hand_over_spec now k es :
  NoDup (map kid es) -> next_due cfg now es = Some k ->
  moved now es (hand_over now k es) /\
  S (count_due now (hand_over now k es)) = count_due now es /\
  count_active (hand_over now k es) = 1%nat.
Proof.
  intros Hnd Hk. apply next_due_some in Hk as (e & He & Hek & Hd).
  assert (He' : e ∈ map (retire_entry now) es).
  { rewrite <- (retire_due now e Hd). apply list_elem_of_In, in_map. by apply list_elem_of_In. }
  destruct (update_first_split k (activate_entry now) (map (retire_entry now) es) e)
    as (a & b & Hes & Hup); [by rewrite map_kid_retire|done|done|].
  unfold hand_over. rewrite Hup. split_and!.
  - eapply moved_trans; [apply moved_retire|]. rewrite Hes.
    apply Forall2_app; [apply moved_refl|]. constructor; [|apply moved_refl].
    apply rtc_once. by constructor.
  - unfold count_due. rewrite !List.filter_app, !length_app. cbn [List.filter].
    rewrite activate_not_due.
    assert (Heq : length (List.filter (is_due cfg now) es)
                  = length (List.filter (is_due cfg now) (map (retire_entry now) es))).
    { clear. induction es as [|x es IH]; [done|]. simpl. rewrite retire_not_due.
      destruct (is_due cfg now x); simpl; lia. }
    rewrite Heq, Hes, List.filter_app, length_app. cbn [List.filter]. rewrite Hd. simpl. lia.
  - pose proof (count_active_retire now es) as H0. rewrite Hes, count_active_app in H0.
    rewrite count_active_app. unfold count_active in *. cbn [List.filter] in *.
    unfold is_active at 2. simpl. destruct (is_active e); simpl in *; lia.
Qed.

(** The loop ends within one turn per due key. *)
Lemma activate_due_spec fuel now es r :
  NoDup (map kid es) -> (count_due now es <= fuel)%nat ->
  exists es' r', activate_due cfg fuel now es r = Some (es', r') /\
    moved now es es' /\ Forall (fun e => is_due cfg now e = false) es' /\
    (count_active es' = count_active es \/ count_active es' = 1%nat).
Proof.
  revert es r. induction fuel as [|f IH]; intros es r Hnd Hc; simpl.
  - destruct (next_due cfg now es) as [k|] eqn:E.
    + destruct (hand_over_spec now k es Hnd E) as (_ & H & _). lia.
    + exists es, r. split_and!; auto using moved_refl, next_due_none.
  - destruct (next_due cfg now es) as [k|] eqn:E.
    + destruct (hand_over_spec now k es Hnd E) as (Hm & Hd & Ha).
      destruct (IH (hand_over now k es)
                  (add_activated 1 (add_retired (count_active es) r)))
        as (es' & r' & Hrun & Hm' & Hnone & Hact);
        [by rewrite (moved_kids _ _ _ Hm)|lia|].
      exists es', r'. split_and!; eauto using moved_trans. right. lia.
    + exists es, r. split_and!; auto using moved_refl, next_due_none.
Qed.

Lemma count_due_le now es : (count_due now es <= length es)%nat.
Proof. apply filter_length_le. Qed.

(** ** The end of a key's life *)

Definition archivable (now : Z) (e : Entry) : bool :=
  retention_over cfg now e && has_archive_phase cfg.
Definition forgettable (now : Z) (e : Entry) : bool :=
  (retention_over cfg now e && negb (has_archive_phase cfg)) || verification_over cfg now e.
Definition archive_entry (now : Z) (e : Entry) : Entry :=
  if archivable now e then set_state Archived e else e.

Lemma kid_filter_nodup (p : Entry -> bool) es e :
  NoDup (map kid es) -> e ∈ es -> kid e ∈ map kid (List.filter p es) <-> p e = true.
Proof.
  intros Hnd He. split.
  - intros (x & Hk & [Hx Hp]%list_elem_of_In%elem_of_filter_list)%list_elem_of_In%in_map_iff.
    assert (x = e) as ->; [|done].
    apply list_elem_of_lookup in He as [i Hi], Hx as [j Hj].
    assert (i = j); [|simplify_eq; done].
    eapply NoDup_lookup; [exact Hnd|rewrite list_lookup_fmap, Hi; done|].
    rewrite list_lookup_fmap, Hj. simpl. by rewrite Hk.
  - intros Hp. apply list_elem_of_In, in_map, list_elem_of_In, elem_of_filter_list. done.
Qed.

Lemma filter_map_ext {A B} (p : B -> bool) (q : A -> bool) (f : A -> B) l :
  (forall x, x ∈ l -> p (f x) = q x) -> List.filter p (map f l) = map f (List.filter q l).
Proof.
  intros H. induction l as [|x l IH]; [done|]. simpl.
  rewrite (H x) by left. rewrite IH by (intros; apply H; by right). by destruct (q x).
Qed.

(** With distinct names, the entries that remain are those not at the end of their life,
    archived when their retention is over. *)
Lemma expire_entries now es :
  NoDup (map kid es) ->
  List.filter (fun e => negb (bool_decide (kid e ∈ to_forget cfg now es)))
    (map (fun e => if bool_decide (kid e ∈ to_archive cfg now es) then set_state Archived e else e) es)
  = map (archive_entry now) (List.filter (fun e => negb (forgettable now e)) es).
Proof.
  intros Hnd.
  rewrite (map_ext_in _ (archive_entry now)).
  - apply filter_map_ext. intros e He. f_equal.
    replace (kid (archive_entry now e)) with (kid e) by (unfold archive_entry; by case_match).
    pose proof (kid_filter_nodup (forgettable now) es e Hnd He) as Hf.
    case_bool_decide as Hk; unfold to_forget in Hk; [by apply Hf in Hk|].
    destruct (forgettable now e) eqn:E; [|done]. exfalso. by apply Hk, Hf.
  - intros e He%list_elem_of_In. unfold archive_entry.
    case_bool_decide as Hk; unfold to_archive in Hk.
    + apply (kid_filter_nodup (archivable now)) in Hk; [|done..]. by rewrite Hk.
    + destruct (archivable now e) eqn:E; [|done]. exfalso. apply Hk.
      by apply (kid_filter_nodup (archivable now)).
Qed.

Lemma forgettable_end now e : forgettable now e = true <-> end_of_life now e.
Proof.
  unfold forgettable, end_of_life. rewrite orb_true_iff, andb_true_iff, negb_true_iff. done.
Qed.

Lemma forgettable_not_active now e : state e = Active -> forgettable now e = false.
Proof.
  intros H. unfold forgettable, retention_over, verification_over. rewrite H.
  by destruct (retired_at e).
Qed.

Lemma archive_entry_moves now e : rtc (move now) e (archive_entry now e).
Proof.
  unfold archive_entry. destruct (archivable now e) eqn:E; [|apply rtc_refl].
  unfold archivable in E. bool_to_prop. apply rtc_once. by constructor.
Qed.

Lemma is_active_true e : state e = Active -> is_active e = true.
Proof. intros. by apply bool_decide_eq_true_2. Qed.

Lemma is_active_false e : state e <> Active -> is_active e = false.
Proof. intros. by apply bool_decide_eq_false_2. Qed.

Lemma count_active_expire now es :
  count_active (map (archive_entry now) (List.filter (fun e => negb (forgettable now e)) es))
  = count_active es.
Proof.
  unfold count_active. induction es as [|e es IH]; [done|]. cbn [List.filter].
  destruct (decide (state e = Active)) as [Ha|Ha].
  - rewrite forgettable_not_active by done. cbn [negb map List.filter].
    replace (archive_entry now e) with e.
    + rewrite is_active_true by done. simpl. by rewrite IH.
    + unfold archive_entry, archivable, retention_over. rewrite Ha. by destruct (retired_at e).
  - rewrite (is_active_false e) by done.
    destruct (forgettable now e); cbn [negb map List.filter]; [done|].
    rewrite is_active_false; [done|]. unfold archive_entry. by case_match.
Qed.

(** ** The effects of the operations *)

(** The name the [n]-th draw of the random source gives a key, when it gives one. *)
Definition draw_kid (n : nat) : option string :=
  match generate_pkcs8 C cfg n with
  | Ok pkcs8 =>
    match from_pkcs8 C (ring_algorithm cfg) pkcs8 with
    | Ok kp => Some (thumbprint C (ring_algorithm cfg) (base64url (pair_public_key C kp)))
    | Err _ => None
    end
  | Err _ => None
  end.

Lemma os_run (e : KeyError) (m : Manager C) : exists b : bool,
  os C cfg e m = ((if b then Ok tt else Err e),
    mkManager C (ring_file C m) (key_files C m) (signers C m) (draws C m) (S (ops C m))).
Proof. by exists (io cfg (ops C m)). Qed.

Lemma os_Ok e m u m' :
  os C cfg e m = (Ok u, m') ->
  m' = mkManager C (ring_file C m) (key_files C m) (signers C m) (draws C m) (S (ops C m)).
Proof. destruct (os_run e m) as [b ->]. destruct b; intros [=]; done. Qed.

Lemma os_Err e e' m m' :
  os C cfg e m = (Err e', m') ->
  m' = mkManager C (ring_file C m) (key_files C m) (signers C m) (draws C m) (S (ops C m)).
Proof. destruct (os_run e m) as [b ->]. destruct b; intros [=]; done. Qed.

(** What a key created by a pass at [now] is. *)
Definition newborn (now : Z) (e : Entry) : Prop :=
  created_at e = now /\ algorithm e = ring_algorithm cfg /\ entry_wf e /\
  (state e = Active \/ state e = Published).

(** The private half of [e] is on disk and agrees with the public half the ring publishes. *)
Definition backed (e : Entry) (m : Manager C) : Prop :=
  exists pkcs8 kp,
    key_files C m !! kid e = Some (pem PEM_LABEL pkcs8) /\
    from_pkcs8 C (algorithm e) pkcs8 = Ok kp /\
    public_key e = base64url (pair_public_key C kp) /\
    (signers C m !! kid e = None \/ signers C m !! kid e = Some kp).

Lemma create_Ok now signing m e m' :
  create C cfg now signing m = (Ok e, m') ->
  newborn now e /\ state e = (if signing then Active else Published) /\
  draw_kid (draws C m) = Some (kid e) /\ draws C m' = S (draws C m) /\
  signers C m' = signers C m /\
  (signers C m !! kid e = None -> backed e m').
Proof.
  unfold create. intros H. run_inv.
  repeat match goal with Hos : os _ _ _ _ = (Ok _, _) |- _ => apply os_Ok in Hos end.
  unfold draw in *. simplify_eq. unfold draw_kid. simpl in *.
  repeat match goal with
  | Hg : generate_pkcs8 _ _ _ = Ok _ |- _ => rewrite Hg
  | Hg : from_pkcs8 _ _ _ = Ok _ |- _ => rewrite Hg
  end.
  unfold newborn, entry_wf, backed. simpl. destruct signing; simpl; split_and!; eauto;
    intros ?; eexists _, _; rewrite lookup_insert_eq; eauto.
Qed.

(** ** Frames: what an operation leaves alone *)

Definition same_ring (m m' : Manager C) : Prop := ring_file C m' = ring_file C m.

(** The private halves, on disk and in memory, of the keys outside [ks] that no draw from
    the [n]-th on names. *)
Definition frame (ks : list string) (n : nat) (m m' : Manager C) : Prop :=
  (n <= draws C m)%nat ->
  (n <= draws C m')%nat /\
  forall k, k ∉ ks -> (forall i, (n <= i)%nat -> draw_kid i <> Some k) ->
    key_files C m' !! k = key_files C m !! k /\ signers C m' !! k = signers C m !! k.

#[export] Instance same_ring_preorder : PreOrder same_ring.
Proof. split; [done|]. intros a b c. unfold same_ring. congruence. Qed.

#[export] Instance frame_preorder ks n : PreOrder (frame ks n).
Proof.
  split; [by intros m Hn|]. intros a b c Hab Hbc Hn.
  destruct (Hab Hn) as [Hb H1]. destruct (Hbc Hb) as [Hc H2]. split; [done|].
  intros k Hk Hd. destruct (H1 k Hk Hd) as [-> ->] || destruct (H1 k Hk Hd) as [E1 E2].
  destruct (H2 k Hk Hd) as [E3 E4]. split; congruence.
Qed.

Lemma os_same_ring e : preserves same_ring (os C cfg e).
Proof. intros m r m'. unfold os. intros [= _ <-]. red. auto. Qed.

Lemma os_frame ks n e : preserves (frame ks n) (os C cfg e).
Proof. intros m r m'. unfold os. intros [= _ <-]. red. auto. Qed.

Lemma draw_same_ring : preserves (E := KeyError) same_ring (draw C).
Proof. intros m r m'. unfold draw. intros [= _ <-]. red. auto. Qed.

#[local] Hint Resolve os_same_ring os_frame draw_same_ring : picx.

Lemma create_same_ring now signing : preserves same_ring (create C cfg now signing).
Proof. unfold create. preserve_steps. by apply preserves_modify. Qed.

Lemma draw_frame ks n : preserves (E := KeyError) (frame ks n) (draw C).
Proof. intros m r m'. unfold draw. intros [= _ <-]. intros Hn. simpl. split; [lia|auto]. Qed.

Lemma create_frame ks n now signing : preserves (frame ks n) (create C cfg now signing).
Proof.
  intros m r m' H Hn. unfold create in H.
  unfold mbind_st, os, draw, mlift, mmodify, Prelude.mret in H.
  repeat (case_match; simplify_eq; simpl in *; try (split; [lia|done])).
  all: split; [simpl; lia|]; intros k Hk Hd; simpl; split; [|done].
  all: rewrite lookup_insert_ne; [done|]; intros Heq.
  all: apply (Hd (draws C m) Hn); unfold draw_kid.
  all: repeat match goal with
       | Hg : generate_pkcs8 _ _ _ = Ok _ |- _ => rewrite Hg; clear Hg
       | Hg : from_pkcs8 _ _ _ = Ok _ |- _ => rewrite Hg; clear Hg
       end; by rewrite Heq.
Qed.

Lemma forget_same_ring k : preserves same_ring (forget C cfg k).
Proof. unfold forget. preserve_steps; by apply preserves_modify. Qed.

Lemma forget_frame ks n k : k ∈ ks -> preserves (frame ks n) (forget C cfg k).
Proof.
  intros Hk. unfold forget. preserve_steps; apply preserves_modify; intros m Hn; simpl;
    (split; [done|]); intros k' Hk' _; rewrite ?lookup_delete_ne by (intros ->; done); done.
Qed.

Lemma forget_all_same_ring ks : preserves same_ring (forget_all C cfg ks).
Proof. induction ks; simpl; preserve_steps. apply forget_same_ring. Qed.

Lemma forget_all_frame ks n ks' : ks ⊆ ks' -> preserves (frame ks' n) (forget_all C cfg ks).
Proof.
  induction ks as [|k ks IH]; simpl; intros Hs; preserve_steps.
  - apply forget_frame, Hs. left.
  - apply IH. intros k' Hk'. apply Hs. by right.
Qed.

(** ** The pass, step by step *)

(** The random source never names a key twice: no draw still to come gives a name the ring
    already has, and no two of them give the same one. *)
Definition fresh_ring (es : list Entry) (n : nat) : Prop :=
  NoDup (map kid es) /\
  (forall i k, (n <= i)%nat -> draw_kid i = Some k -> k ∉ map kid es) /\
  (forall i j k, (n <= i)%nat -> (n <= j)%nat -> draw_kid i = Some k -> draw_kid j = Some k -> i = j).

Lemma fresh_nodup es n : fresh_ring es n -> NoDup (map kid es).
Proof. by intros [? _]. Qed.

Lemma fresh_kids es es' n : map kid es' = map kid es -> fresh_ring es n -> fresh_ring es' n.
Proof. unfold fresh_ring. by intros ->. Qed.

Lemma fresh_grow es n e :
  fresh_ring es n -> draw_kid n = Some (kid e) -> fresh_ring (es ++ [e]) (S n).
Proof.
  intros (Hnd & Hnew & Hinj) He. unfold fresh_ring. rewrite map_app. simpl. split_and!.
  - apply NoDup_app. split_and!; [done| |apply NoDup_singleton].
    intros k Hk ->%list_elem_of_singleton. eapply (Hnew n); eauto.
  - intros i k Hi Hk [Hin| ->%list_elem_of_singleton]%elem_of_app.
    + eapply (Hnew i); eauto with lia.
    + assert (i = n) by (eapply Hinj; eauto with lia). lia.
  - intros i j k Hi Hj. apply Hinj; lia.
Qed.

(** [es'] is what [es] and the keys born in this pass became. *)
Definition evolved (now : Z) (es es' : list Entry) : Prop :=
  exists births, Forall (newborn now) births /\ moved now (es ++ births) es'.

Lemma evolved_moved now es es' : moved now es es' -> evolved now es es'.
Proof. exists []. rewrite app_nil_r. auto. Qed.

Lemma evolved_grow now es e : newborn now e -> evolved now es (es ++ [e]).
Proof. exists [e]. auto using moved_refl. Qed.

Lemma evolved_trans now a b c : evolved now a b -> evolved now b c -> evolved now a c.
Proof.
  intros (x & Hx & Hab) (y & Hy & Hbc). exists (x ++ y). split; [by apply Forall_app|].
  eapply moved_trans; [|exact Hbc]. rewrite app_assoc. apply Forall2_app; [done|apply moved_refl].
Qed.

Definition dirty (r : Maintenance) : Prop := maintenance_is_empty r = false.

Lemma dirty_pos r :
  dirty r <-> (0 < published r + activated r + retired r + archived r + forgotten r)%nat.
Proof.
  unfold dirty, maintenance_is_empty. repeat case_bool_decide; simpl; intuition (try lia || done).
Qed.

(** A key that signs or is to sign: the keys whose private half still matters. *)
Definition usable (e : Entry) : Prop := state e = Published \/ state e = Active.

(** What one step of the pass establishes between the entries, the report and the state
    before it and those after it. *)
Record stepped (now : Z) (es : list Entry) (r : Maintenance) (m : Manager C)
               (es' : list Entry) (r' : Maintenance) (m' : Manager C) : Prop := mkStepped {
  stepped_fresh : fresh_ring es' (draws C m');
  stepped_evolved : evolved now es es';
  stepped_ring : same_ring m m';
  stepped_frame : frame [] (draws C m) m m';
  stepped_backed : (forall k, is_Some (signers C m !! k) -> k ∈ map kid es) ->
    (forall e, e ∈ es -> usable e -> backed e m) ->
    (forall k, is_Some (signers C m' !! k) -> k ∈ map kid es') /\
    (forall e, e ∈ es' -> usable e -> backed e m');
  stepped_report : (dirty r -> dirty r') /\ (es' = es \/ dirty r') }.

Lemma stepped_refl now es r m : fresh_ring es (draws C m) -> stepped now es r m es r m.
Proof.
  intros Hf. constructor; auto using evolved_moved, moved_refl; reflexivity.
Qed.

Lemma frame_weaken ks n n' m m' :
  (n' <= n)%nat -> (n <= draws C m)%nat -> frame ks n m m' -> frame ks n' m m'.
Proof.
  intros Hle Hm H Hn. destruct (H Hm) as [Hd Hk]. split; [lia|].
  intros k Hks Hi. apply Hk; [done|]. intros i Hni. apply Hi. lia.
Qed.

Lemma stepped_trans now es1 r1 m1 es2 r2 m2 es3 r3 m3 :
  stepped now es1 r1 m1 es2 r2 m2 -> stepped now es2 r2 m2 es3 r3 m3 ->
  stepped now es1 r1 m1 es3 r3 m3.
Proof.
  intros [F1 E1 S1 Fr1 B1 [R1 R1']] [F2 E2 S2 Fr2 B2 [R2 R2']]. constructor.
  - done.
  - by eapply evolved_trans.
  - by etrans.
  - etrans; [exact Fr1|]. destruct (Fr1 (le_n _)) as [Hd _]. by eapply frame_weaken.
  - intros Hs Hb. destruct (B1 Hs Hb). eauto.
  - split; [auto|]. destruct R2' as [->|]; [|auto]. destruct R1'; auto.
Qed.

Lemma moves_usable now e e' : rtc (move now) e e' -> usable e' -> usable e.
Proof.
  intros H Hu. induction H as [|e e1 e2 H1 _ IH]; [done|]. specialize (IH Hu).
  destruct H1 as [e Hd|e Hs|e Hr Hp].
  - unfold is_due in Hd. bool_to_prop. by left.
  - by right.
  - by destruct IH.
Qed.

Lemma moves_backed now e e' m : rtc (move now) e e' -> backed e m -> backed e' m.
Proof.
  induction 1 as [|e e1 e2 H1 _ IH]; [done|]. intros Hb. apply IH.
  destruct H1; [done| |done]. unfold retire_entry. by case_match.
Qed.

Lemma moved_elem now es es' e' : moved now es es' -> e' ∈ es' -> exists e, e ∈ es /\ rtc (move now) e e'.
Proof.
  intros H Hin. apply list_elem_of_lookup in Hin as [i Hi].
  destruct (Forall2_lookup_r _ _ _ _ _ H Hi) as (e & He & Hm).
  exists e. split; [by eapply list_elem_of_lookup_2|done].
Qed.

(** A step that only moves entries. *)
Lemma stepped_moved now es r m es' r' :
  fresh_ring es (draws C m) -> moved now es es' -> (dirty r -> dirty r') -> (es' = es \/ dirty r') ->
  stepped now es r m es' r' m.
Proof.
  intros Hf Hm Hr Hr'. pose proof (moved_kids _ _ _ Hm) as Hk. constructor; auto; try reflexivity.
  - by eapply fresh_kids.
  - by apply evolved_moved.
  - intros Hs Hb. split; [intros k; rewrite Hk; auto|].
    intros e' He' Hst. destruct (moved_elem _ _ _ _ Hm He') as (e & He & Hmv).
    eapply moves_backed; [done|]. apply Hb; [done|]. by eapply moves_usable.
Qed.

Lemma frame_backed es m m' e :
  fresh_ring es (draws C m) -> frame [] (draws C m) m m' -> e ∈ es -> backed e m -> backed e m'.
Proof.
  intros (_ & Hnew & _) Hfr He (pk & kp & Hk & Hp & Hpub & Hs).
  destruct (Hfr (le_n _)) as [_ H]. destruct (H (kid e)) as [E1 E2].
  - by apply not_elem_of_nil.
  - intros i Hi Hdk. eapply Hnew; eauto. apply list_elem_of_In, in_map. by apply list_elem_of_In.
  - exists pk, kp. rewrite E1, E2. auto.
Qed.

(** A step that adds a key. *)
Lemma stepped_create now signing es r m e m' r' :
  fresh_ring es (draws C m) -> create C cfg now signing m = (Ok e, m') -> dirty r' ->
  stepped now es r m (es ++ [e]) r' m'.
Proof.
  intros Hf Hc Hr. pose proof (create_frame [] (draws C m) _ _ _ _ _ Hc) as Hfr.
  pose proof (create_same_ring _ _ _ _ _ Hc) as Hsr.
  apply create_Ok in Hc as (Hn & _ & Hk & Hd & Hs & Hb). constructor; auto.
  - rewrite Hd. by apply fresh_grow.
  - by apply evolved_grow.
  - intros Hsig Hback. rewrite Hs, map_app. split.
    + intros k Hks. apply elem_of_app. auto.
    + intros x [Hx| ->%list_elem_of_singleton]%elem_of_app Hst.
      * eapply frame_backed; eauto.
      * apply Hb. destruct (signers C m !! kid e) as [kp|] eqn:E; [|done]. exfalso.
        destruct Hf as (_ & Hnew & _). eapply (Hnew (draws C m)); [lia|exact Hk|].
        apply Hsig. eauto.
Qed.

Lemma first_key_stepped now es r m es' r' m' :
  fresh_ring es (draws C m) -> first_key C cfg now es r m = (Ok (es', r'), m') ->
  stepped now es r m es' r' m' /\ es' <> [] /\ (count_active es <= 1 -> count_active es' <= 1)%nat.
Proof.
  intros Hf. unfold first_key. case_bool_decide as Hes; intros H; run_inv.
  - simpl. split_and!; [|done|].
    + eapply (stepped_create now true []); eauto. apply dirty_pos. simpl. lia.
    + intros _. destruct x. rewrite <- (app_nil_l [_]). unfold count_active. simpl.
      destruct (is_active _); simpl; lia.
  - split_and!; auto using stepped_refl.
Qed.

Lemma count_active_pos p es : existsb (fun e => is_active e && p e) es = true -> (0 < count_active es)%nat.
Proof.
  intros (e & Hin & Hp)%existsb_exists. bool_to_prop. unfold count_active.
  assert (He : In e (List.filter is_active es)) by (apply filter_In; done).
  destruct (List.filter is_active es); [done|simpl; lia].
Qed.

(** After the migration step exactly one key signs, in the configured algorithm. *)
Lemma migrate_stepped now es r m es' r' m' :
  fresh_ring es (draws C m) -> es <> [] -> (count_active es <= 1)%nat ->
  migrate C cfg now es r m = (Ok (es', r'), m') ->
  stepped now es r m es' r' m' /\ count_active es' = 1%nat /\
  existsb (fun e => is_active e && bool_decide (algorithm e = ring_algorithm cfg)) es' = true.
Proof.
  intros Hf Hne Hc. unfold migrate. rewrite (bool_decide_false (es = [])) by done.
  rewrite andb_true_r. destruct (existsb _ es) eqn:Ex; simpl; intros H; run_inv.
  - split_and!; auto using stepped_refl. apply count_active_pos in Ex. lia.
  - assert (Hd : dirty (add_activated 1 (add_published 1 (add_retired (count_active es) r)))).
    { apply dirty_pos. simpl. lia. }
    match goal with Hcr : create _ _ _ _ _ = (Ok ?e, _) |- _ => rename Hcr into Hcreate; rename e into e0 end.
    pose proof (create_Ok _ _ _ _ _ Hcreate) as ((_ & Ha & _) & Hst & _).
    split_and!.
    + eapply stepped_trans.
      * eapply stepped_moved; [done|apply moved_retire|intros _; exact Hd|right; exact Hd].
      * eapply stepped_create; eauto. eapply fresh_kids; [apply map_kid_retire|done].
    + rewrite count_active_app, count_active_retire. unfold count_active. simpl.
      by rewrite is_active_true.
    + rewrite existsb_app. simpl. rewrite is_active_true, bool_decide_true by done.
      by rewrite orb_true_r.
Qed.

Lemma activate_due_report fuel now es r es' r' :
  activate_due cfg fuel now es r = Some (es', r') ->
  (dirty r -> dirty r') /\ (es' = es \/ dirty r').
Proof.
  revert es r. induction fuel as [|f IH]; intros es r; simpl; case_match; intros Hrun;
    simplify_eq; auto.
  apply IH in Hrun as [Hd _]. split; intros; [|right]; apply Hd, dirty_pos; simpl; lia.
Qed.

(** The activation loop as a step: it ends, and one key signs after it if one did before. *)
Lemma activate_due_stepped now es r m :
  fresh_ring es (draws C m) -> count_active es = 1%nat ->
  exists es' r', activate_due cfg (length es) now es r = Some (es', r') /\
    stepped now es r m es' r' m /\ count_active es' = 1%nat.
Proof.
  intros Hf Hc.
  destruct (activate_due_spec (length es) now es r) as (es' & r' & Hrun & Hm & _ & Ha);
    [by eapply fresh_nodup|apply count_due_le|].
  exists es', r'. destruct (activate_due_report _ _ _ _ _ _ Hrun) as [Hd He].
  split_and!; [done|by apply stepped_moved|lia].
Qed.

Lemma publish_successor_stepped now es r m es' r' m' :
  fresh_ring es (draws C m) -> publish_successor C cfg now es r m = (Ok (es', r'), m') ->
  stepped now es r m es' r' m' /\ count_active es' = count_active es.
Proof.
  intros Hf. unfold publish_successor. destruct (_ && _); intros H; run_inv.
  - match goal with Hcr : create _ _ _ _ _ = _ |- _ => rename Hcr into Hcreate end.
    pose proof (create_Ok _ _ _ _ _ Hcreate) as (_ & Hst & _). split.
    + eapply stepped_create; eauto. apply dirty_pos. simpl. lia.
    + rewrite count_active_app. unfold count_active. simpl. rewrite is_active_false; [simpl; lia|].
      by rewrite Hst.
  - auto using stepped_refl.
Qed.

(** *** The last step: keys that leave *)

Lemma forget_signers k m m' :
  forget C cfg k m = (Ok tt, m') ->
  forall x, is_Some (signers C m' !! x) -> is_Some (signers C m !! x) /\ x <> k.
Proof.
  intros H x. unfold forget in H. run_inv. case_match; run_inv.
  - apply os_Ok in H0. subst. simpl. intros [y Hy]. apply lookup_delete_Some in Hy as [? ?]. eauto.
  - simpl. intros [y Hy]. apply lookup_delete_Some in Hy as [? ?]. eauto.
Qed.

Lemma forget_all_signers ks m m' :
  forget_all C cfg ks m = (Ok tt, m') ->
  forall x, is_Some (signers C m' !! x) -> is_Some (signers C m !! x) /\ x ∉ ks.
Proof.
  revert m. induction ks as [|k ks IH]; intros m H x; simpl in H; run_inv.
  - intros Hs. split; [done|apply not_elem_of_nil].
  - destruct x0. intros Hs. destruct (IH _ H0 x Hs) as [Hs1 Hni].
    destruct (forget_signers _ _ _ H x Hs1) as [? ?]. split; [done|].
    by apply not_elem_of_cons.
Qed.

(** The entries left when those at the end of their life are gone. *)
Definition survivors (now : Z) (es : list Entry) : list Entry :=
  map (archive_entry now) (List.filter (fun e => negb (forgettable now e)) es).

Lemma archive_entry_kid now e : kid (archive_entry now e) = kid e.
Proof. unfold archive_entry. by case_match. Qed.

Lemma elem_of_survivors now es e' :
  e' ∈ survivors now es <-> exists e, e ∈ es /\ forgettable now e = false /\ e' = archive_entry now e.
Proof.
  unfold survivors. rewrite list_elem_of_In, in_map_iff. split.
  - intros (e & <- & [Hin Hf]%filter_In). exists e. by rewrite list_elem_of_In, <- negb_true_iff.
  - intros (e & Hin & Hf & ->). exists e. split; [done|]. apply filter_In.
    by rewrite <- list_elem_of_In, Hf.
Qed.

Lemma survivors_kids now es : map kid (survivors now es) = map kid (List.filter (fun e => negb (forgettable now e)) es).
Proof. unfold survivors. rewrite map_map. apply map_ext, archive_entry_kid. Qed.

Lemma filter_sublist {A} (p : A -> bool) l : List.filter p l `sublist_of` l.
Proof. induction l as [|x l IH]; simpl; [done|]. destruct (p x); by constructor. Qed.

Lemma survivors_fresh now es n n' : (n <= n')%nat -> fresh_ring es n -> fresh_ring (survivors now es) n'.
Proof.
  intros Hn (Hnd & Hnew & Hinj). unfold fresh_ring. rewrite survivors_kids.
  assert (Hsub : map kid (List.filter (fun e => negb (forgettable now e)) es) `sublist_of` map kid es)
    by apply fmap_sublist, filter_sublist.
  split_and!.
  - by eapply sublist_NoDup.
  - intros i k Hi Hk Hin. eapply (Hnew i); [lia|done|]. by eapply elem_of_sublist.
  - intros i j k Hi Hj. apply Hinj; lia.
Qed.

(** The keys whose private half the pass deletes. *)
Definition doomed (now : Z) (es : list Entry) : list string :=
  to_archive cfg now es ++ to_forget cfg now es.

Lemma not_doomed now es e :
  NoDup (map kid es) -> e ∈ es -> archivable now e = false -> forgettable now e = false ->
  kid e ∉ doomed now es.
Proof.
  intros Hnd He Ha Hf [Hk|Hk]%elem_of_app.
  - apply (kid_filter_nodup (archivable now)) in Hk; [congruence|done..].
  - apply (kid_filter_nodup (forgettable now)) in Hk; [congruence|done..].
Qed.

Definition signers_in (es : list Entry) (m : Manager C) : Prop :=
  forall k, is_Some (signers C m !! k) -> k ∈ map kid es.
Definition all_backed (es : list Entry) (m : Manager C) : Prop :=
  forall e, e ∈ es -> usable e -> backed e m.

Lemma kid_elem es e : e ∈ es -> kid e ∈ map kid es.
Proof. intros H. apply list_elem_of_In, in_map. by apply list_elem_of_In. Qed.

Lemma elem_kid es k : k ∈ map kid es -> exists e, e ∈ es /\ kid e = k.
Proof.
  intros (e & <- & Hin)%list_elem_of_In%in_map_iff. exists e. by rewrite list_elem_of_In.
Qed.

Lemma expire_report now es :
  NoDup (map kid es) ->
  length (List.filter (fun e => bool_decide (kid e ∈ to_archive cfg now es)) es) = 0%nat ->
  length (to_forget cfg now es) = 0%nat -> survivors now es = es.
Proof.
  intros Hnd Ha Hf.
  assert (Hno : forall e, e ∈ es -> archivable now e = false /\ forgettable now e = false).
  { intros e He. split.
    - destruct (archivable now e) eqn:E; [|done]. exfalso.
      apply nil_length_inv in Ha.
      assert (Hin : e ∈ List.filter (fun e => bool_decide (kid e ∈ to_archive cfg now es)) es).
      { apply elem_of_filter_list. split; [done|]. apply bool_decide_eq_true_2.
        by apply (kid_filter_nodup (archivable now)). }
      rewrite Ha in Hin. by apply not_elem_of_nil in Hin.
    - destruct (forgettable now e) eqn:E; [|done]. exfalso.
      apply (kid_filter_nodup (forgettable now) es e) in E; [|done..].
      apply nil_length_inv in Hf. unfold to_forget in Hf. unfold forgettable in E.
      rewrite Hf in E. by apply not_elem_of_nil in E. }
  clear Ha Hf Hnd. unfold survivors. induction es as [|e es IH]; [done|].
  destruct (Hno e) as [Ha Hf]; [left|]. simpl. rewrite Hf. simpl.
  unfold archive_entry at 1. rewrite Ha. f_equal. apply IH. intros x Hx. apply Hno. by right.
Qed.

Lemma expire_keys_Ok now es r m es' r' m' :
  fresh_ring es (draws C m) -> expire_keys C cfg now es r m = (Ok (es', r'), m') ->
  es' = survivors now es /\ fresh_ring es' (draws C m') /\ same_ring m m' /\
  frame (doomed now es) (draws C m) m m' /\
  (signers_in es m -> all_backed es m -> signers_in es' m' /\ all_backed es' m') /\
  (dirty r -> dirty r') /\ (es' = es \/ dirty r').
Proof.
  intros Hf H. pose proof (fresh_nodup _ _ Hf) as Hnd. unfold expire_keys in H. run_inv.
  destruct x. rewrite expire_entries by done. fold (survivors now es).
  pose proof (forget_all_same_ring _ _ _ _ H) as Hsr.
  pose proof (forget_all_frame _ (draws C m) (doomed now es) (reflexivity _) _ _ _ H) as Hfr.
  pose proof (forget_all_signers _ _ _ H) as Hsg.
  destruct (Hfr (le_n _)) as [Hd Hk]. split_and!; auto.
  - by eapply survivors_fresh.
  - intros Hs Hb. split.
    + intros k Hks. destruct (Hsg k Hks) as [Hin Hni].
      destruct (elem_kid _ _ (Hs k Hin)) as (e & He & <-).
      assert (Hkeep : forgettable now e = false).
      { destruct (forgettable now e) eqn:E; [|done]. exfalso. apply Hni, elem_of_app. right.
        by apply (kid_filter_nodup (forgettable now)). }
      rewrite <- (archive_entry_kid now). apply kid_elem, elem_of_survivors. eauto.
    + intros e' (e & He & Hfe & ->)%elem_of_survivors Hst. unfold archive_entry in *.
      destruct (archivable now e) eqn:Ea; [by destruct Hst|].
      destruct (Hb e He Hst) as (pk & kp & H1 & H2 & H3 & H4).
      destruct (Hk (kid e)) as [E1 E2].
      * by apply not_doomed.
      * intros i Hi Hdk. destruct Hf as (_ & Hnew & _). eapply Hnew; eauto. by apply kid_elem.
      * exists pk, kp. rewrite E1, E2. auto.
  - rewrite !dirty_pos. simpl. lia.
  - rewrite dirty_pos. simpl.
    destruct (decide (length (List.filter (fun e => bool_decide (kid e ∈ to_archive cfg now es)) es)
                      = 0%nat)) as [Ha|Ha]; [|right; lia].
    destruct (decide (length (to_forget cfg now es) = 0%nat)) as [Hz|Hz]; [|right; lia].
    left. by apply expire_report.
Qed.

(** *** The pass as a whole *)

Lemma write_ring_frame ks n ring : preserves (frame ks n) (write_ring C cfg ring).
Proof. unfold write_ring. preserve_steps. apply preserves_modify. by intros m Hn. Qed.

Lemma write_ring_cases ring m res m' :
  write_ring C cfg ring m = (res, m') ->
  match res with Ok _ => ring_file C m' = RingHolds ring | Err _ => same_ring m m' end.
Proof.
  unfold write_ring, mbind_st, os, mmodify. repeat case_match; intros; simplify_eq; done.
Qed.

Lemma frame_keeps es ks n m m' :
  fresh_ring es n -> (n <= draws C m)%nat -> frame ks n m m' ->
  forall e, e ∈ es -> kid e ∉ ks ->
  key_files C m' !! kid e = key_files C m !! kid e /\ signers C m' !! kid e = signers C m !! kid e.
Proof.
  intros (_ & Hnew & _) Hn Hfr e He Hk. destruct (Hfr Hn) as [_ H]. apply H; [done|].
  intros i Hi Hd. eapply Hnew; eauto using kid_elem.
Qed.

Lemma all_backed_frame es n m m' :
  fresh_ring es n -> (n <= draws C m)%nat -> frame [] n m m' -> all_backed es m -> all_backed es m'.
Proof.
  intros Hf Hn Hfr Hb e He Hst. destruct (Hb e He Hst) as (pk & kp & H1 & H2 & H3 & H4).
  destruct (frame_keeps _ _ _ _ _ Hf Hn Hfr e He) as [E1 E2]; [apply not_elem_of_nil|].
  exists pk, kp. rewrite E1, E2. auto.
Qed.

Lemma write_ring_Ok ring m u m' :
  write_ring C cfg ring m = (Ok u, m') ->
  read_ring C cfg m' = Ok ring /\ signers C m' = signers C m /\ key_files C m' = key_files C m /\
  draws C m' = draws C m.
Proof.
  unfold write_ring, mbind_st, os, mmodify. intros H. repeat (case_match; simplify_eq). done.
Qed.

Lemma same_ring_read m m' : same_ring m m' -> read_ring C cfg m' = read_ring C cfg m.
Proof. unfold same_ring, read_ring. by intros ->. Qed.

(** The end of the pass: keys leave and the ring is written if anything changed. *)
Definition finish (now : Z) (ring : Ring) (es : list Entry) (r : Maintenance)
  : M (Manager C) KeyError (option Maintenance) :=
  let! (es, r) := expire_keys C cfg now es r in
  let! _ := (if negb (maintenance_is_empty r) then write_ring C cfg (mkRing (version ring) es)
             else Prelude.mret tt) in
  Prelude.mret (Some r).

Lemma first_key_frame now es r n : preserves (frame [] n) (first_key C cfg now es r).
Proof. unfold first_key. preserve_steps. apply create_frame. Qed.

Lemma first_key_same_ring now es r : preserves same_ring (first_key C cfg now es r).
Proof. unfold first_key. preserve_steps. apply create_same_ring. Qed.

Lemma migrate_frame now es r n : preserves (frame [] n) (migrate C cfg now es r).
Proof. unfold migrate. preserve_steps. apply create_frame. Qed.

Lemma migrate_same_ring now es r : preserves same_ring (migrate C cfg now es r).
Proof. unfold migrate. preserve_steps. apply create_same_ring. Qed.

Lemma publish_successor_frame now es r n : preserves (frame [] n) (publish_successor C cfg now es r).
Proof. unfold publish_successor. preserve_steps. apply create_frame. Qed.

Lemma publish_successor_same_ring now es r : preserves same_ring (publish_successor C cfg now es r).
Proof. unfold publish_successor. preserve_steps. apply create_same_ring. Qed.

(** Every run of a pass over a well-formed ring: it fails having deleted nothing, or it
    reaches its end with the entries evolved and exactly one key signing. *)
Lemma maintain_reaches now m ring res m' :
  read_ring C cfg m = Ok ring -> fresh_ring (keys ring) (draws C m) -> (count_active (keys ring) <= 1)%nat ->
  maintain C cfg now m = (res, m') ->
  (is_ok res = false /\ same_ring m m' /\ frame [] (draws C m) m m') \/
  exists es r m1, stepped now (keys ring) maintenance_default m es r m1 /\
    count_active es = 1%nat /\ finish now ring es r m1 = (res, m').
Proof.
  intros Hr Hf Hc. unfold maintain, mbind_st at 1, read_ring_m. rewrite Hr.
  unfold mbind_st at 1. destruct (first_key _ _ _ _ _ m) as [[[es1 r1]|e1] m1] eqn:E1.
  2:{ intros [= <- <-]. left. split_and!; [done| |].
      - by eapply first_key_same_ring. - by eapply first_key_frame. }
  destruct (first_key_stepped _ _ _ _ _ _ _ Hf E1) as (S1 & Hne & Hc1).
  unfold mbind_st at 1. destruct (migrate _ _ _ _ _ m1) as [[[es2 r2]|e2] m2] eqn:E2.
  2:{ intros [= <- <-]. left. destruct (stepped_frame _ _ _ _ _ _ _ S1 (le_n _)) as [Hd _].
      split_and!; [done| |].
      - etrans; [apply S1|]. by eapply migrate_same_ring.
      - etrans; [apply S1|]. by eapply migrate_frame. }
  destruct (migrate_stepped _ _ _ _ _ _ _ (stepped_fresh _ _ _ _ _ _ _ S1) Hne (Hc1 Hc) E2)
    as (S2 & Hc2 & _).
  destruct (activate_due_stepped now es2 r2 _ (stepped_fresh _ _ _ _ _ _ _ S2) Hc2)
    as (es3 & r3 & -> & S3 & Hc3).
  pose proof (stepped_trans _ _ _ _ _ _ _ _ _ _ (stepped_trans _ _ _ _ _ _ _ _ _ _ S1 S2) S3) as S13.
  unfold mbind_st at 1. destruct (publish_successor _ _ _ _ _ m2) as [[[es4 r4]|e4] m4] eqn:E4.
  2:{ intros [= <- <-]. left. split_and!; [done| |].
      - etrans; [apply S13|]. by eapply publish_successor_same_ring.
      - etrans; [apply S13|]. by eapply publish_successor_frame. }
  destruct (publish_successor_stepped _ _ _ _ _ _ _ (stepped_fresh _ _ _ _ _ _ _ S3) E4) as (S4 & Hc4).
  intros Hrest. right. exists es4, r4, m4. split_and!; [by eapply stepped_trans|congruence|exact Hrest].
Qed.

Lemma finish_Ok now ring es r m o m' :
  finish now ring es r m = (Ok o, m') ->
  exists r1 es1 m1, o = Some r1 /\ expire_keys C cfg now es r m = (Ok (es1, r1), m1) /\
    signers C m' = signers C m1 /\ key_files C m' = key_files C m1 /\ draws C m' = draws C m1 /\
    ((dirty r1 /\ read_ring C cfg m' = Ok (mkRing (version ring) es1)) \/ (~ dirty r1 /\ m' = m1)).
Proof.
  unfold finish. intros H. run_inv.
  match goal with H1 : expire_keys _ _ _ _ _ _ = (Ok ?p, _) |- _ => destruct p as [es1 r1] end.
  run_inv. eexists r1, es1, _. split; [done|]. split; [done|].
  unfold dirty in *. destruct (maintenance_is_empty r1); simpl in *; run_inv; [by auto 10|].
  match goal with H1 : write_ring _ _ _ _ = _ |- _ => apply write_ring_Ok in H1 as (? & ? & ? & ?) end.
  auto 10.
Qed.

(** A pass that succeeds: its report, the entries before anything left, and what is on disk. *)
Lemma maintain_Ok now m ring o m' :
  read_ring C cfg m = Ok ring -> fresh_ring (keys ring) (draws C m) -> (count_active (keys ring) <= 1)%nat ->
  maintain C cfg now m = (Ok o, m') ->
  exists r mid, o = Some r /\ evolved now (keys ring) mid /\ NoDup (map kid mid) /\
    count_active mid = 1%nat /\
    read_ring C cfg m' = Ok (mkRing (version ring) (survivors now mid)) /\
    fresh_ring (survivors now mid) (draws C m') /\
    (signers_in (keys ring) m -> all_backed (keys ring) m ->
     signers_in (survivors now mid) m' /\ all_backed (survivors now mid) m').
Proof.
  intros Hr Hf Hc H. apply maintain_reaches with (ring := ring) in H
    as [(Hbad & _)|(mid & r & m1 & [F E Sr Fr B [_ R]] & Hc1 & Hfin)]; [discriminate| |done..].
  apply finish_Ok in Hfin as (r1 & es1 & m2 & -> & Hexp & Es & Ek & Ed & Hread).
  destruct (expire_keys_Ok _ _ _ _ _ _ _ F Hexp) as (-> & Hf5 & Hsr5 & Hfr5 & Hb5 & Hd5 & He5).
  exists r1, mid. split_and!; auto; [by eapply fresh_nodup| |congruence|].
  - destruct Hread as [[_ Hread]|[Hnd ->]]; [done|].
    rewrite (same_ring_read _ _ Hsr5), (same_ring_read _ _ Sr), Hr.
    destruct He5 as [->|Hx]; [|by destruct Hnd]. destruct R as [->|Hx]; [by destruct ring|].
    by destruct Hnd; apply Hd5.
  - intros Hs Hb. destruct (Hb5 (proj1 (B Hs Hb)) (proj2 (B Hs Hb))) as [H1 H2].
    unfold signers_in, all_backed, backed. rewrite Es, Ek. done.
Qed.

(** ** The invariant of a manager *)

Definition sound (m : Manager C) : Prop :=
  exists ring, read_ring C cfg m = Ok ring /\ fresh_ring (keys ring) (draws C m) /\
    Forall entry_wf (keys ring) /\ (count_active (keys ring) <= 1)%nat /\
    signers_in (keys ring) m /\ all_backed (keys ring) m.

Lemma evolved_wf now es es' : evolved now es es' -> Forall entry_wf es -> Forall entry_wf es'.
Proof.
  intros (births & Hb & Hm) Hes. eapply moved_wf; [done|]. apply Forall_app. split; [done|].
  eapply Forall_impl; [done|]. by intros e (_ & _ & Hw & _).
Qed.

Lemma survivors_wf now es : Forall entry_wf es -> Forall entry_wf (survivors now es).
Proof.
  rewrite !Forall_forall. intros H e' (e & He & _ & ->)%elem_of_survivors.
  eapply moves_wf; [apply archive_entry_moves|auto].
Qed.

Lemma maintain_sound now m o m' :
  sound m -> maintain C cfg now m = (Ok o, m') ->
  sound m' /\ is_Some o /\
  exists ring, read_ring C cfg m' = Ok ring /\ count_active (keys ring) = 1%nat.
Proof.
  intros (ring & Hr & Hf & Hw & Hc & Hs & Hb) H.
  destruct (maintain_Ok _ _ _ _ _ Hr Hf Hc H) as (r & mid & -> & He & _ & Hc1 & Hr' & Hf' & Hsb).
  destruct (Hsb Hs Hb) as [Hs' Hb'].
  assert (Hone : count_active (survivors now mid) = 1%nat) by (rewrite <- Hc1; apply count_active_expire).
  split_and!; [|eauto|eexists; split; [done|exact Hone]].
  eexists. split_and!; [done|done| |simpl; lia|done|done].
  apply survivors_wf. by eapply evolved_wf.
Qed.

(** ** Signing *)

Lemma find_entry_in es e : NoDup (map kid es) -> e ∈ es -> find_entry (kid e) es = Some e.
Proof.
  intros Hnd He. unfold find_entry. destruct (List.find _ es) as [x|] eqn:Ef.
  - apply find_some in Ef as [Hx Hk]. bool_to_prop. f_equal.
    apply list_elem_of_In, list_elem_of_lookup in Hx as [j Hj].
    apply list_elem_of_lookup in He as [i Hi].
    assert (i = j); [|congruence].
    eapply NoDup_lookup; [exact Hnd|rewrite list_lookup_fmap, Hi; done|].
    rewrite list_lookup_fmap, Hj. simpl. by rewrite Hk.
  - eapply find_none in Ef; [|by apply list_elem_of_In]. bool_to_prop. done.
Qed.

Lemma from_pkcs8_algorithm a p kp : from_pkcs8 C a p = Ok kp -> pair_algorithm C kp = a.
Proof. destruct a; simpl; case_match; intros; simplify_eq; done. Qed.

Lemma signer_backed m ring e res m' :
  read_ring C cfg m = Ok ring -> NoDup (map kid (keys ring)) -> e ∈ keys ring -> backed e m ->
  signer C cfg (kid e) m = (res, m') ->
  ring_file C m' = ring_file C m /\ key_files C m' = key_files C m /\ draws C m' = draws C m /\
  match res with
  | Ok kp => pair_algorithm C kp = algorithm e /\ public_key e = base64url (pair_public_key C kp) /\
             signers C m' !! kid e = Some kp /\
             (forall k, k <> kid e -> signers C m' !! k = signers C m !! k) /\ backed e m'
  | Err err => signers C m' = signers C m /\ exists cause, err = KeyUnavailable cause
  end.
Proof.
  intros Hr Hnd He (pk & kp & Hf & Hp & Hpub & Hs) H.
  pose proof (from_pkcs8_algorithm _ _ _ Hp) as Ha. unfold backed.
  unfold signer, mbind_st, mget in H. destruct Hs as [Hs|Hs]; rewrite Hs in H.
  - rewrite Hf in H. unfold os in H. destruct (io cfg (ops C m)); [|simplify_eq; split_and!; eauto].
    rewrite from_pem_pem in H by (repeat constructor). unfold mlift, ok_or, read_ring_m in H. simpl in H.
    replace (read_ring C cfg _) with (Ok (E := KeyError) ring) in H.
    rewrite (find_entry_in _ _ Hnd He), Hp in H. unfold mmodify, Prelude.mret in H. simplify_eq. simpl.
    rewrite lookup_insert_eq. split_and!; eauto 10.
    intros k Hk. by rewrite lookup_insert_ne.
  - unfold Prelude.mret in H. simplify_eq. split_and!; eauto 10.
Qed.
End Lifecycle.
