(* ===== verification/KeyLifecycle.v ===== *)
(** * The properties of the key lifecycle

    The theorems of the key ring, on the lemmas of [KeyRing]: the invariant of a manager and
    its preservation by every sequence of passes and signatures, the refinement of a pass to
    the moves of each key's life, the retention of private halves, the atomicity of a failed
    pass, and two places where the code departs from its documentation. *)
From S2P Require Import Prelude Rust Errors Encoding Keys KeyRing.
From stdpp Require Import relations.
Local Open Scope Z_scope.
Local Open Scope rust_scope.

Section Lifecycle.
Context (C : RingCrate) (cfg : Settings).

(** ** Failed passes *)

Lemma expire_keys_same_ring now es r : preserves (same_ring C) (expire_keys C cfg now es r).
Proof.
  unfold expire_keys. apply preserves_bind; [apply same_ring_preorder|apply forget_all_same_ring|].
  intros ?. apply preserves_ret, same_ring_preorder.
Qed.

Lemma same_ring_trans m1 m2 m3 : same_ring C m1 m2 -> same_ring C m2 m3 -> same_ring C m1 m3.
Proof. apply same_ring_preorder. Qed.

Lemma finish_Err now ring es r m err m' :
  finish C cfg now ring es r m = (Err err, m') -> same_ring C m m'.
Proof.
  unfold finish, mbind_st at 1. destruct (expire_keys _ _ _ _ _ m) as [[[es1 r1]|e1] m1] eqn:E1.
  - intros H. eapply same_ring_trans; [by eapply expire_keys_same_ring|].
    unfold mbind_st in H. destruct (maintenance_is_empty r1); simpl in H; [by simplify_eq|].
    destruct (write_ring _ _ _ m1) as [[u|e2] m2] eqn:E2; [by simplify_eq|]. simplify_eq.
    by apply write_ring_cases in E2.
  - intros [= <- <-]. by eapply expire_keys_same_ring.
Qed.

Lemma maintain_Err now m err m' :
  maintain C cfg now m = (Err err, m') -> same_ring C m m'.
Proof.
  unfold maintain, mbind_st at 1, read_ring_m. destruct (read_ring C cfg m) as [ring|e0] eqn:Hr;
    [|by intros [= <- <-]].
  unfold mbind_st at 1. destruct (first_key _ _ _ _ _ m) as [[[es1 r1]|e1] m1] eqn:E1;
    apply first_key_same_ring in E1; [|by intros [= <- <-]].
  unfold mbind_st at 1. destruct (migrate _ _ _ _ _ m1) as [[[es2 r2]|e2] m2] eqn:E2;
    apply migrate_same_ring in E2; [|intros [= <- <-]; by eapply same_ring_trans].
  destruct (activate_due _ _ _ _ _) as [[es3 r3]|]; [|by intros [=]].
  unfold mbind_st at 1. destruct (publish_successor _ _ _ _ _ m2) as [[[es4 r4]|e4] m4] eqn:E4;
    apply publish_successor_same_ring in E4;
    [|intros [= <- <-]; eauto using same_ring_trans].
  intros H. apply (finish_Err now ring es4 r4) in H. eauto using same_ring_trans.
Qed.

(** ** Retention *)

(** A key whose time is not over at [now]. *)
Definition live (now : Z) (e : Entry) : Prop :=
  retention_over cfg now e = false /\ verification_over cfg now e = false.

Lemma move_live now e e' :
  0 < seconds_retained cfg -> now < U64_MAX -> move cfg now e e' -> live now e -> live now e'.
Proof.
  intros Hr Hn Hm [H1 H2]. destruct Hm as [e Hd|e Ha|e Ho Hp]; unfold live.
  - unfold retention_over, verification_over. simpl. by destruct (retired_at e).
  - rewrite retire_entry_active by done. unfold retention_over, verification_over. simpl.
    split; [|done]. unfold saturating_add. apply Z.leb_gt. lia.
  - congruence.
Qed.

Lemma moves_live now e e' :
  0 < seconds_retained cfg -> now < U64_MAX -> rtc (move cfg now) e e' -> live now e -> live now e'.
Proof. intros Hr Hn. induction 1; eauto using move_live. Qed.

Lemma live_keeps now e : live now e -> archivable cfg now e = false /\ forgettable cfg now e = false.
Proof. intros [H1 H2]. unfold archivable, forgettable. by rewrite H1, H2. Qed.

Lemma nodup_kid es a b : NoDup (map kid es) -> a ∈ es -> b ∈ es -> kid a = kid b -> a = b.
Proof.
  intros Hnd Ha Hb Hk. apply find_entry_in in Ha, Hb; [|done..]. congruence.
Qed.

Lemma evolved_spares now es mid e :
  0 < seconds_retained cfg -> now < U64_MAX ->
  evolved cfg now es mid -> NoDup (map kid mid) -> e ∈ es -> live now e ->
  kid e ∉ doomed cfg now mid.
Proof.
  intros Hr Hn (births & _ & Hm) Hnd He Hl.
  assert (He' : e ∈ es ++ births) by (apply elem_of_app; by left).
  apply list_elem_of_lookup in He' as [i Hi].
  destruct (Forall2_lookup_l _ _ _ _ _ Hm Hi) as (e' & Hi' & Hmv).
  apply list_elem_of_lookup_2 in Hi'. rewrite <- (moves_kid _ _ _ _ Hmv).
  destruct (live_keeps now e') as [Ha Hf]; [by eapply moves_live|]. by apply not_doomed.
Qed.

Lemma finish_frame now ring es r n : preserves (frame C cfg (doomed cfg now es) n) (finish C cfg now ring es r).
Proof.
  unfold finish, expire_keys. pose proof (frame_preorder C cfg (doomed cfg now es) n).
  preserve_steps.
  - by apply forget_all_frame.
  - apply write_ring_frame.
Qed.

Lemma frame_nil_mono ks n m m' : frame C cfg [] n m m' -> frame C cfg ks n m m'.
Proof.
  intros H Hn. destruct (H Hn) as [Hd Hk]. split; [done|]. intros k _ Hi.
  apply Hk; [apply not_elem_of_nil|done].
Qed.

(** Whatever comes of a pass, a key that was live before it keeps its private half. *)
Lemma maintain_keeps now m ring res m' e :
  0 < seconds_retained cfg -> now < U64_MAX ->
  read_ring C cfg m = Ok ring -> fresh_ring C cfg (keys ring) (draws C m) ->
  (count_active (keys ring) <= 1)%nat -> e ∈ keys ring -> live now e ->
  maintain C cfg now m = (res, m') ->
  key_files C m' !! kid e = key_files C m !! kid e /\ signers C m' !! kid e = signers C m !! kid e.
Proof.
  intros Hr Hn Hring Hf Hc He Hl H.
  destruct (maintain_reaches _ _ _ _ _ _ _ Hring Hf Hc H)
    as [(_ & _ & Hfr)|(mid & r & m1 & S & Hc1 & Hfin)].
  - eapply (frame_keeps C cfg (keys ring)); [done|exact (le_n _)|done|done|apply not_elem_of_nil].
  - assert (Hfr : frame C cfg (doomed cfg now mid) (draws C m) m m').
    { etrans; [apply frame_nil_mono, S|]. by eapply finish_frame. }
    eapply (frame_keeps C cfg (keys ring)); [done|exact (le_n _)|done|done|].
    eapply evolved_spares; [done|done|apply S|eapply fresh_nodup, S|done|done].
Qed.

(** ** Signing *)

Lemma fresh_mono es n n' : (n <= n')%nat -> fresh_ring C cfg es n -> fresh_ring C cfg es n'.
Proof.
  intros Hn (H1 & H2 & H3). split_and!; [done| |].
  - intros i k Hi. apply H2. lia.
  - intros i j k Hi Hj. apply H3; lia.
Qed.

Lemma same_ring_sound m m' :
  sound C cfg m -> same_ring C m m' -> (draws C m <= draws C m')%nat ->
  (forall k, is_Some (signers C m' !! k) -> is_Some (signers C m !! k)) ->
  (forall ring e, read_ring C cfg m = Ok ring -> e ∈ keys ring -> usable e ->
     backed C e m -> backed C e m') ->
  sound C cfg m'.
Proof.
  intros (ring & Hr & Hf & Hw & Hc & Hs & Hb) Hsr Hd Hsg Hbk.
  exists ring. rewrite (same_ring_read _ _ _ _ Hsr). split_and!; eauto using fresh_mono.
  - intros k Hk. apply Hs. auto.
  - intros e He Hu. eapply Hbk; eauto.
Qed.

(** What one use of a private key produces. *)
Definition signature_of (kp : SigningPair C) (payload bytes : list byte) : Prop :=
  match kp with
  | PairEd25519 _ kp => bytes = ed_sign C kp payload
  | PairEs256 _ kp => exists n, ec_sign C n kp payload = Some bytes
  end.

Lemma pair_sign_cases kp payload m res m' :
  pair_sign C kp payload m = (res, m') ->
  ring_file C m' = ring_file C m /\ key_files C m' = key_files C m /\
  signers C m' = signers C m /\ (draws C m <= draws C m')%nat /\
  match res with Ok bytes => signature_of kp payload bytes | Err _ => True end.
Proof.
  destruct kp as [kp|kp]; simpl.
  - intros [= <- <-]. done.
  - unfold mbind_st, draw, mlift. intros [= <- <-]. simpl.
    split_and!; [done..|lia|]. destruct (ec_sign C _ kp payload) eqn:E; simpl; eauto.
Qed.

Lemma find_active m e ring :
  List.find is_active (keys ring) = Some e -> read_ring C cfg m = Ok ring ->
  e ∈ keys ring /\ state e = Active /\ directory_active_key_id C cfg m = Ok (kid e).
Proof.
  intros Hf Hr. unfold directory_active_key_id. rewrite Hr. simpl. rewrite Hf.
  apply find_some in Hf as [Hin Ha]. apply bool_decide_eq_true_1 in Ha.
  by rewrite list_elem_of_In.
Qed.

Lemma find_active_none es : List.find is_active es = None -> count_active es = 0%nat.
Proof.
  intros Hfind. unfold count_active. destruct (List.filter is_active es) as [|x l] eqn:Ef; [done|].
  assert (Hx : In x (List.filter is_active es)) by (rewrite Ef; by left).
  apply filter_In in Hx as [Hx Hx2]. eapply find_none in Hfind; [|done]. congruence.
Qed.

Lemma pair_sign_error kp payload m err m' :
  pair_sign C kp payload m = (Err err, m') -> err = KeyBackend "signing".
Proof.
  destruct kp as [kp|kp]; simpl; [by unfold Prelude.mret; intros; simplify_eq|].
  unfold mbind_st, draw, mlift. destruct (ec_sign _ _ _ _); simpl; intros; simplify_eq; done.
Qed.

(** Loading the active key's private half keeps the manager sound. *)
Lemma signer_run m ring e res m' :
  sound C cfg m -> read_ring C cfg m = Ok ring -> e ∈ keys ring -> usable e ->
  signer C cfg (kid e) m = (res, m') ->
  sound C cfg m' /\
  match res with
  | Ok kp => pair_algorithm C kp = algorithm e /\ public_key e = base64url (pair_public_key C kp)
  | Err err => exists cause, err = KeyUnavailable cause
  end.
Proof.
  intros Hsound Hr He Hu H. pose proof Hsound as (ring' & Hr' & Hf & Hw & Hc & Hs & Hb).
  assert (ring' = ring) as -> by congruence.
  pose proof (fresh_nodup _ _ _ _ Hf) as Hnd.
  destruct (signer_backed _ _ _ _ _ _ _ Hr Hnd He (Hb e He Hu) H) as (R1 & K1 & D1 & Hres).
  destruct res as [kp|err].
  - destruct Hres as (Halg & Hpub & Hsg & Hsgo & Hbe1). split; [|done].
    exists ring. rewrite (same_ring_read _ _ _ _ R1), D1. split_and!; auto.
    + intros k Hk. destruct (decide (k = kid e)) as [->|Hne]; [by apply kid_elem|].
      rewrite Hsgo in Hk by done. auto.
    + intros x Hx Hux. destruct (decide (kid x = kid e)) as [Heq|Hne].
      * by rewrite (nodup_kid _ _ _ Hnd Hx He Heq).
      * destruct (Hb x Hx Hux) as (pk & kp' & ?). exists pk, kp'. by rewrite K1, Hsgo.
  - destruct Hres as (Hsg & Hcause). split; [|done].
    eapply same_ring_sound; [done|done|lia|by rewrite Hsg|].
    intros _ x _ _ _ (pk & kp' & ?). exists pk, kp'. by rewrite K1, Hsg.
Qed.

(** Every signature request against a sound manager: the manager stays sound; a signature
    comes from the active key and its published half; an error is not about the ring. *)
Lemma directory_sign_run payload m res m' :
  sound C cfg m -> directory_sign C cfg payload m = (res, m') ->
  sound C cfg m' /\
  match res with
  | Ok sig => exists ring e kp, read_ring C cfg m = Ok ring /\ e ∈ keys ring /\ state e = Active /\
      signature_key_id sig = kid e /\ signature_algorithm sig = jose (algorithm e) /\
      public_key e = base64url (pair_public_key C kp) /\
      signature_of kp payload (signature_bytes sig)
  | Err (KeyNotReady _) =>
      exists ring, read_ring C cfg m = Ok ring /\ count_active (keys ring) = 0%nat
  | Err _ => True
  end.
Proof.
  intros Hsound H. pose proof Hsound as (ring & Hr & _).
  unfold directory_sign, mbind_st at 1 in H.
  destruct (List.find is_active (keys ring)) as [e|] eqn:Hfind.
  2:{ unfold directory_active_key_id in H. rewrite Hr in H. simpl in H. rewrite Hfind in H.
      simplify_eq. eauto using find_active_none. }
  destruct (find_active m e ring Hfind Hr) as (He & Ha & Hid). rewrite Hid in H.
  unfold mbind_st at 1 in H. destruct (signer C cfg (kid e) m) as [rs m1] eqn:Esig.
  destruct (signer_run _ _ _ _ _ Hsound Hr He (or_intror Ha) Esig) as [Hs1 Hres].
  destruct rs as [kp|err]; [|simplify_eq; by destruct Hres as [cause ->]].
  destruct Hres as (Halg & Hpub).
  unfold mbind_st in H. destruct (pair_sign C kp payload m1) as [rb m2] eqn:Ep.
  destruct (pair_sign_cases _ _ _ _ _ Ep) as (R2 & K2 & S2 & D2 & Hb2).
  assert (Hs2 : sound C cfg m2).
  { eapply same_ring_sound; [exact Hs1|done|done|by rewrite S2|].
    intros _ x _ _ _ (pk & kp' & ?). exists pk, kp'. by rewrite K2, S2. }
  destruct rb as [bytes|err]; unfold Prelude.mret in H; simplify_eq; simpl; (split; [done|]).
  - exists ring, e, kp. by rewrite Halg.
  - by rewrite (pair_sign_error _ _ _ _ _ Ep).
Qed.

(** Signers are only dropped and the random source only moves on. *)
Definition shrinks (m m' : Manager C) : Prop :=
  (draws C m <= draws C m')%nat /\
  forall k, is_Some (signers C m' !! k) -> is_Some (signers C m !! k).

#[local] Instance shrinks_preorder : PreOrder shrinks.
Proof.
  split; [by intros m|]. intros a b c [D1 S1] [D2 S2]. split; [lia|auto].
Qed.

Lemma os_shrinks e : preserves shrinks (os C cfg e).
Proof. intros m r m'. unfold os. intros [= _ <-]. by split. Qed.

Lemma draw_shrinks : preserves (E := KeyError) shrinks (draw C).
Proof. intros m r m'. unfold draw. intros [= _ <-]. split; [simpl; lia|done]. Qed.

#[local] Hint Resolve os_shrinks draw_shrinks : picx.

Lemma create_shrinks now signing : preserves shrinks (create C cfg now signing).
Proof. unfold create. preserve_steps. apply preserves_modify. by intros m. Qed.

Lemma forget_shrinks k : preserves shrinks (forget C cfg k).
Proof.
  unfold forget. preserve_steps; apply preserves_modify; intros m; (split; [done|]); [|done].
  intros x [y Hy]. simpl in Hy. apply lookup_delete_Some in Hy as [_ ?]. eauto.
Qed.

Lemma forget_all_shrinks ks : preserves shrinks (forget_all C cfg ks).
Proof. induction ks; simpl; preserve_steps. apply forget_shrinks. Qed.

#[local] Hint Resolve create_shrinks forget_all_shrinks : picx.

Lemma write_ring_shrinks ring : preserves shrinks (write_ring C cfg ring).
Proof. unfold write_ring. preserve_steps. apply preserves_modify. by intros m. Qed.

#[local] Hint Resolve write_ring_shrinks : picx.

Lemma maintain_shrinks now : preserves shrinks (maintain C cfg now).
Proof.
  unfold maintain, first_key, migrate, publish_successor, expire_keys, read_ring_m. preserve_steps.
Qed.

Lemma usable_live now e : usable e -> live now e.
Proof.
  unfold live, retention_over, verification_over.
  intros [-> | ->]; by destruct (retired_at e).
Qed.

(** The same, with the algorithm of the pair that signed. *)
Lemma directory_sign_pair payload m sig m' :
  sound C cfg m -> directory_sign C cfg payload m = (Ok sig, m') ->
  exists ring e kp, read_ring C cfg m = Ok ring /\ e ∈ keys ring /\
    signature_key_id sig = kid e /\ signature_algorithm sig = jose (algorithm e) /\
    pair_algorithm C kp = algorithm e /\ public_key e = base64url (pair_public_key C kp) /\
    signature_of kp payload (signature_bytes sig).
Proof.
  intros Hsound H. pose proof Hsound as (ring & Hr & _). unfold directory_sign in H. run_inv.
  match goal with Ha : directory_active_key_id _ _ _ = Ok ?k |- _ => rename Ha into Hact; rename k into key end.
  unfold directory_active_key_id in Hact. rewrite Hr in Hact. simpl in Hact.
  destruct (List.find is_active (keys ring)) as [e|] eqn:Hfind; [|done]. injection Hact as <-.
  destruct (find_active _ e ring Hfind Hr) as (He & Ha & _).
  match goal with Hsg : signer _ _ _ _ = _ |- _ =>
    destruct (signer_run _ _ _ _ _ Hsound Hr He (or_intror Ha) Hsg) as [_ [Halg Hpub]] end.
  match goal with Hp : pair_sign _ _ _ _ = _ |- _ => apply pair_sign_cases in Hp as (_ & _ & _ & _ & Hs) end.
  exists ring, e. eexists. simpl. split_and!; eauto. by rewrite Halg.
Qed.

(** A pass keeps the manager sound whether it succeeds or fails. *)
Lemma maintain_keeps_sound now m res m' :
  0 < seconds_retained cfg -> now < U64_MAX ->
  sound C cfg m -> maintain C cfg now m = (res, m') -> sound C cfg m'.
Proof.
  intros Hret Hn Hsound H. destruct res as [o|err]; [by eapply maintain_sound|].
  destruct (maintain_shrinks _ _ _ _ H) as [Hd Hsg].
  eapply same_ring_sound; [done|by eapply maintain_Err|done|done|].
  pose proof Hsound as (ring & Hr & Hf & Hw & Hc & Hs & Hb).
  intros ring' e Hr' He Hu (pk & kp & Hbk). assert (ring' = ring) as -> by congruence.
  destruct (maintain_keeps _ _ _ _ _ e Hret Hn Hr Hf Hc He (usable_live now e Hu) H) as [E1 E2].
  exists pk, kp. by rewrite E1, E2.
Qed.

(** ** The manager as a state machine: passes at any time, signatures of anything *)

Inductive manager_step : Manager C -> Manager C -> Prop :=
| step_maintain now res m m' :
    now < U64_MAX -> maintain C cfg now m = (res, m') -> manager_step m m'
| step_sign payload res m m' :
    directory_sign C cfg payload m = (res, m') -> manager_step m m'.

(** An empty directory, the random source at its [n]-th draw. *)
Definition empty_manager (n : nat) : Manager C := mkManager C RingAbsent ∅ ∅ n 0.

(** Two draws never name the same key. *)
Definition distinct_draws : Prop :=
  forall i j k, draw_kid C cfg i = Some k -> draw_kid C cfg j = Some k -> i = j.

Lemma empty_sound n : distinct_draws -> sound C cfg (empty_manager n).
Proof.
  intros Hd. exists ring_default. split_and!; [done| |constructor|unfold count_active; simpl; lia| |].
  - split_and!; [constructor|intros ?????%not_elem_of_nil; done|]. intros i j k _ _. apply Hd.
  - intros k [kp Hk]. simpl in Hk. by rewrite lookup_empty in Hk.
  - intros e He. by apply not_elem_of_nil in He.
Qed.

Lemma manager_steps_sound m m' :
  0 < seconds_retained cfg -> rtc manager_step m m' -> sound C cfg m -> sound C cfg m'.
Proof.
  intros Hr. induction 1 as [|a b c Hab _ IH]; [done|]. intros Hs. apply IH.
  destruct Hab; [by eapply maintain_keeps_sound|by eapply directory_sign_run].
Qed.

(** C1: Every state a key directory can reach from empty, through any sequence of maintenance
    passes (at any times, succeeding or failing at any of their file-system calls) and
    signature requests, has a well-formed ring: names are distinct, each entry has the dates
    its state requires, at most one key is active, and every key that signs or is to sign has
    a private half on disk that parses and matches the public half the ring publishes. *)
Theorem reachable_ring_invariant n m :
  0 < seconds_retained cfg -> distinct_draws -> rtc manager_step (empty_manager n) m ->
  exists ring, read_ring C cfg m = Ok ring /\ ring_wf (keys ring) /\
    forall e, e ∈ keys ring -> state e = Published \/ state e = Active -> backed C e m.
Proof.
  intros Hr Hd Hsteps.
  destruct (manager_steps_sound _ _ Hr Hsteps (empty_sound n Hd)) as (ring & H & Hf & Hw & Hc & _ & Hb).
  exists ring. unfold ring_wf. split_and!; auto. by eapply fresh_nodup.
Qed.

(** A successful pass over a sound ring reports, and leaves exactly one key active. *)
Theorem maintain_one_active now m o m' :
  sound C cfg m -> maintain C cfg now m = (Ok o, m') ->
  exists r ring, o = Some r /\ read_ring C cfg m' = Ok ring /\ count_active (keys ring) = 1%nat.
Proof.
  intros Hs H. destruct (maintain_sound _ _ _ _ _ _ Hs H) as (_ & [r ->] & ring & Hr & Hc). eauto.
Qed.

(** C16: The activation loop of a pass ends: one turn per entry is enough when names are
    distinct, since each turn leaves one key fewer due. *)
Theorem activation_terminates now es r :
  NoDup (map kid es) -> exists es' r', activate_due cfg (length es) now es r = Some (es', r') /\
    Forall (fun e => is_due cfg now e = false) es'.
Proof.
  intros Hnd. destruct (activate_due_spec cfg (length es) now es r) as (es' & r' & H & _ & Hd & _);
    [done|apply count_due_le|]. eauto.
Qed.

(** The specification of a pass: the old entries and the keys born in it move along their
    lifecycle, and only those at the end of their life are missing afterwards. *)
Definition lifecycle_pass (now : Z) (es es' : list Entry) : Prop :=
  exists births after, Forall (newborn cfg now) births /\
    Forall2 (rtc (move cfg now)) (es ++ births) after /\
    es' `sublist_of` after /\
    forall e, e ∈ after -> e ∉ es' -> end_of_life cfg now e.

Lemma forgettable_not_archived now e : forgettable cfg now e = true -> archive_entry cfg now e = e.
Proof.
  intros H. unfold archive_entry, archivable. destruct (has_archive_phase cfg) eqn:Hp;
    [|by rewrite andb_false_r]. rewrite andb_true_r.
  destruct (retention_over cfg now e) eqn:Hr; [|done].
  unfold forgettable in H. rewrite Hp, andb_false_r in H. simpl in H.
  unfold retention_over, verification_over in *. destruct (retired_at e); [|done].
  bool_to_prop. congruence.
Qed.

Lemma maintain_lifecycle now m ring o m' :
  read_ring C cfg m = Ok ring -> sound C cfg m -> maintain C cfg now m = (Ok o, m') ->
  exists ring', read_ring C cfg m' = Ok ring' /\ lifecycle_pass now (keys ring) (keys ring').
Proof.
  intros Hr (ring0 & Hr0 & Hf & _ & Hc & _) H. assert (ring0 = ring) as -> by congruence.
  destruct (maintain_Ok _ _ _ _ _ _ _ Hr Hf Hc H) as (r & mid & _ & (births & Hb & Hm) & _ & _ & Hr' & _).
  eexists. split; [done|]. simpl. exists births, (map (archive_entry cfg now) mid). split_and!.
  - done.
  - eapply moved_trans; [done|]. clear. induction mid; simpl; constructor; auto using archive_entry_moves.
  - by apply fmap_sublist, filter_sublist.
  - intros e' (e & <- & He)%list_elem_of_In%in_map_iff Hout.
    destruct (forgettable cfg now e) eqn:Hfe.
    + rewrite forgettable_not_archived by done. by apply forgettable_end.
    + exfalso. apply Hout, elem_of_survivors. exists e. by rewrite list_elem_of_In.
Qed.

(** C8: A successful pass refines the lifecycle: every entry on disk after it is an old entry,
    or a key born in the pass, taken along publish, activate, retire and archive moves whose
    guards held; and an entry is missing only when its retention is over. *)
Theorem maintain_refines_lifecycle now m ring o m' :
  read_ring C cfg m = Ok ring -> sound C cfg m -> maintain C cfg now m = (Ok o, m') ->
  exists ring', read_ring C cfg m' = Ok ring' /\ lifecycle_pass now (keys ring) (keys ring').
Proof. apply maintain_lifecycle. Qed.

(** *** What the moves say of one key *)

Lemma moves_to_active now e e' :
  rtc (move cfg now) e e' -> state e' = Active ->
  e' = e \/ (is_due cfg now e = true /\ e' = activate_entry now e).
Proof.
  intros H Ha. destruct (rtc_inv_r _ _ H) as [->|(x & Hx & Hm)]; [by left|].
  inversion Hm as [? Hd|? Hs|? Hr Hp]; subst; [|by rewrite retire_entry_active in Ha|done].
  right. destruct (rtc_inv_r _ _ Hx) as [->|(y & _ & Hy)]; [done|].
  unfold is_due in Hd. bool_to_prop.
  inversion Hy; subst; [done|by rewrite retire_entry_active in *|done].
Qed.

(** C15: Publish before signing: when a pass leaves a key active, the key was already active, or
    it was born in this very pass (the first key of a ring, or a change of algorithm), or it
    had been published for at least [publish_ahead]. *)
Theorem published_before_signing now m ring o m' ring' e' :
  read_ring C cfg m = Ok ring -> sound C cfg m -> maintain C cfg now m = (Ok o, m') ->
  read_ring C cfg m' = Ok ring' -> e' ∈ keys ring' -> state e' = Active ->
  e' ∈ keys ring \/ created_at e' = now \/
  exists e, e ∈ keys ring /\ kid e = kid e' /\ state e = Published /\ activated_at e' = Some now /\
    saturating_add (created_at e) (publish_ahead (policy cfg)) <= now.
Proof.
  intros Hr Hs H Hr' He' Ha.
  destruct (maintain_lifecycle _ _ _ _ _ Hr Hs H) as (ring1 & Hr1 & births & after & Hb & Hm & Hsub & _).
  assert (ring1 = ring') as -> by congruence.
  destruct (moved_elem cfg now _ _ e' Hm) as (e & He & Hmv); [by eapply elem_of_sublist|].
  apply moves_to_active in Hmv; [|done].
  apply elem_of_app in He as [He|He].
  - destruct Hmv as [->|[Hd ->]]; [by left|]. right. right. exists e. unfold is_due in Hd. bool_to_prop. done.
  - right. left. rewrite Forall_forall in Hb. destruct (Hb e He) as (Hc & _).
    by destruct Hmv as [->|[_ ->]].
Qed.

Lemma move_retired_at now e e' :
  move cfg now e e' -> retired_at e' = retired_at e \/ retired_at e' = Some now.
Proof. destruct 1; [by left| |by left]. rewrite retire_entry_active by done. by right. Qed.

Lemma moves_retired_at now e e' :
  rtc (move cfg now) e e' -> retired_at e' = retired_at e \/ retired_at e' = Some now.
Proof.
  induction 1 as [|a b c Hab _ IH]; [by left|].
  destruct IH as [->|]; [|by right]. by eapply move_retired_at.
Qed.

Lemma moves_jwk now e e' : rtc (move cfg now) e e' -> to_jwk e' = to_jwk e.
Proof.
  induction 1 as [|a b c Hab _ IH]; [done|]. rewrite IH.
  destruct Hab; [done| |done]. unfold retire_entry. by case_match.
Qed.

Lemma end_of_life_time now e :
  end_of_life cfg now e ->
  exists t, retired_at e = Some t /\ saturating_add t (seconds_verify_retained cfg) <= now.
Proof.
  intros [[H Hp]|H].
  - unfold retention_over in H. destruct (retired_at e) as [t|]; [|done]. bool_to_prop.
    exists t. split; [done|]. unfold has_archive_phase in Hp. bool_to_prop.
    unfold seconds_verify_retained, seconds_retained, saturating_add in *. lia.
  - unfold verification_over in H. destruct (retired_at e) as [t|]; [|done]. bool_to_prop. eauto.
Qed.

Lemma published_jwk m ring e :
  read_ring C cfg m = Ok ring -> e ∈ keys ring ->
  exists jwks, directory_public_keys C cfg m = Ok jwks /\ to_jwk e ∈ jwks.
Proof.
  intros Hr He. unfold directory_public_keys. rewrite Hr. simpl. eexists. split; [done|].
  apply list_elem_of_In, in_map. by apply list_elem_of_In.
Qed.

(** A public half outlives every signature it must verify: a key whose JWK a successful
    pass stops publishing had been retired for at least the verification retention (the
    larger of [verify_retain] and [retain]) before the pass. *)
Theorem public_half_outlives_retention now m ring o m' jwks e :
  0 < seconds_retained cfg -> now < U64_MAX ->
  read_ring C cfg m = Ok ring -> sound C cfg m -> maintain C cfg now m = (Ok o, m') ->
  directory_public_keys C cfg m' = Ok jwks -> e ∈ keys ring -> to_jwk e ∉ jwks ->
  exists t, retired_at e = Some t /\
    saturating_add t (Z.max (verify_retain (policy cfg)) (retain (policy cfg))) <= now.
Proof.
  intros Hret Hn Hr Hs H Hj He Hout.
  destruct (maintain_lifecycle _ _ _ _ _ Hr Hs H) as (ring1 & Hr1 & births & after & Hb & Hm & Hsub & Hend).
  assert (Hin : e ∈ keys ring ++ births) by (apply elem_of_app; by left).
  apply list_elem_of_lookup in Hin as [i Hi].
  destruct (Forall2_lookup_l _ _ _ _ _ Hm Hi) as (e' & Hi' & Hmv).
  apply list_elem_of_lookup_2 in Hi'.
  destruct (end_of_life_time now e') as (t & Ht & Hle).
  { apply Hend; [done|]. intros Hin'. destruct (published_jwk _ _ _ Hr1 Hin') as (jw & Hj' & Hjin).
    rewrite (moves_jwk _ _ _ Hmv) in Hjin. congruence. }
  destruct (moves_retired_at _ _ _ Hmv) as [Hsame|Hnow].
  - exists t. split; [congruence|done].
  - exfalso. assert (t = now) as -> by congruence.
    unfold seconds_verify_retained, seconds_retained, saturating_add in *. lia.
Qed.

(** C9: A pass that fails (a file-system call, the random source, a garbled ring) leaves
    [ring.json] as it was, and whether it fails or succeeds it has deleted no private half of
    a key that signs, is to sign, or is still within its retention. *)
Theorem failed_pass_is_atomic now m ring err m' :
  0 < seconds_retained cfg -> now < U64_MAX ->
  read_ring C cfg m = Ok ring -> sound C cfg m -> maintain C cfg now m = (Err err, m') ->
  ring_file C m' = ring_file C m /\ sound C cfg m' /\
  forall e, e ∈ keys ring -> live now e -> key_files C m' !! kid e = key_files C m !! kid e.
Proof.
  intros Hret Hn Hr Hs H. pose proof Hs as (ring0 & Hr0 & Hf & _ & Hc & _).
  assert (ring0 = ring) as -> by congruence. split_and!.
  - by eapply maintain_Err.
  - by eapply maintain_keeps_sound.
  - intros e He Hl. by eapply maintain_keeps.
Qed.

(** A signature names the active key, under that key's algorithm, and is made with the
    private half of the public key the ring publishes for it; the manager stays sound. A
    request against a sound ring is refused as not ready only when no key is active. *)
Theorem sign_uses_active_key payload m res m' :
  sound C cfg m -> directory_sign C cfg payload m = (res, m') ->
  sound C cfg m' /\
  match res with
  | Ok sig => exists ring e kp, read_ring C cfg m = Ok ring /\ e ∈ keys ring /\ state e = Active /\
      signature_key_id sig = kid e /\ signature_algorithm sig = jose (algorithm e) /\
      public_key e = base64url (pair_public_key C kp) /\
      signature_of kp payload (signature_bytes sig)
  | Err (KeyNotReady _) =>
      exists ring, read_ring C cfg m = Ok ring /\ count_active (keys ring) = 0%nat
  | Err _ => True
  end.
Proof. apply directory_sign_run. Qed.

(** A signature of an Ed25519 ring verifies against the key set the ring publishes: the set
    holds a key of the signature's name, and every key of that name in it accepts the
    signature over the payload, given that the signature scheme accepts its own signatures. *)
Theorem signature_verifies_against_published_keys ed_verify payload m sig m' jwks :
  (forall kp p, ed_verify (ed_public_key C kp) p (ed_sign C kp p) = true) ->
  sound C cfg m -> directory_sign C cfg payload m = (Ok sig, m') ->
  directory_public_keys C cfg m = Ok jwks -> signature_algorithm sig = ALGORITHM ->
  (exists jwk, jwk ∈ jwks /\ jwk_kid jwk = signature_key_id sig) /\
  forall jwk, jwk ∈ jwks -> jwk_kid jwk = signature_key_id sig ->
    verify_signature ed_verify jwk payload (signature_bytes sig) = true.
Proof.
  intros Hver Hs H Hj Halg. pose proof Hs as (ring0 & Hr0 & Hf & _).
  destruct (directory_sign_pair _ _ _ _ Hs H) as (ring & e & kp & Hr & He & Hk & Ha & Hpa & Hp & Hsig).
  assert (ring0 = ring) as -> by congruence.
  unfold directory_public_keys in Hj. rewrite Hr in Hj. simpl in Hj. injection Hj as <-.
  assert (Hkid : forall x, jwk_kid (to_jwk x) = kid x).
  { intros x. unfold to_jwk. destruct (algorithm x); [done|]. by destruct (split_p256_point _). }
  split.
  - exists (to_jwk e). rewrite Hkid. split; [|congruence].
    apply list_elem_of_In, in_map. by apply list_elem_of_In.
  - intros jwk (x & <- & Hx)%list_elem_of_In%in_map_iff Hxk. apply list_elem_of_In in Hx.
    rewrite Hkid in Hxk. assert (x = e) as ->.
    { eapply nodup_kid; [by eapply fresh_nodup|done|done|congruence]. }
    rewrite Ha in Halg. destruct (algorithm e) eqn:Ea; [|done].
    unfold to_jwk, verify_signature. rewrite Ea. simpl. rewrite Hp, from_base64url_encode.
    destruct kp as [kp|kp]; [|done]. simpl in *. by rewrite Hsig.
Qed.
End Lifecycle.

(** ** Concrete runs

    A four-draw random source, keys that are their own public halves, and a digest that is the
    identity, so that runs can be evaluated. *)
Module ToyKeys.
Definition generate (n : nat) : option (list byte) :=
  if (n <? 4)%nat then Some (x04 :: repeat (byte_of_Z (Z.of_nat n)) 64) else None.

Definition crate : RingCrate :=
  mkRingCrate (list byte) (list byte) generate generate Some Some (fun k => k) (fun k => k)
    (fun k p => k ++ p) (fun _ k p => Some (k ++ p)) (fun b => b).

Definition settings_io (io : nat -> bool) (a : RingAlgorithm) : Settings :=
  mkSettings "keys" (mkKeyPolicy 10 100 100 200) a io.

(** A file system that always works. *)
Definition settings : RingAlgorithm -> Settings := settings_io (fun _ => true).

(** The directory after passes at the given times. *)
Fixpoint after_passes (a : RingAlgorithm) (times : list Z) (m : Manager crate) : Manager crate :=
  match times with
  | [] => m
  | t :: r => after_passes a r (snd (maintain crate (settings a) t m))
  end.

Definition start : Manager crate := empty_manager crate 0.

Lemma draws_distinct a : distinct_draws crate (settings a).
Proof.
  assert (Hover : forall i, (4 <= i)%nat -> draw_kid crate (settings a) i = None).
  { intros i Hi. unfold draw_kid, generate_pkcs8. destruct a; simpl; unfold generate;
      (destruct (Nat.ltb_spec i 4); [lia|done]). }
  intros i j k Hi Hj.
  destruct (decide (4 <= i)%nat) as [H|H]; [by rewrite Hover in Hi|].
  destruct (decide (4 <= j)%nat) as [H'|H']; [by rewrite Hover in Hj|].
  assert (Hnd : NoDup (map (draw_kid crate (settings a)) [0; 1; 2; 3]%nat)).
  { apply (bool_decide_eq_true_1 _). destruct a; vm_compute; reflexivity. }
  assert (Hseq : forall x, (x < 4)%nat -> [0; 1; 2; 3]%nat !! x = Some x)
    by (intros [|[|[|[|x]]]] Hx; done || lia).
  eapply NoDup_lookup; [exact Hnd| |]; rewrite list_lookup_fmap, Hseq by lia;
    [exact (f_equal Some Hi)|exact (f_equal Some Hj)].
Qed.

Lemma after_passes_reachable a times m :
  Forall (fun t => t < U64_MAX) times ->
  rtc (manager_step crate (settings a)) m (after_passes a times m).
Proof.
  revert m. induction times as [|t r IH]; intros m Ht; simpl; [apply rtc_refl|].
  inversion Ht; subst. eapply rtc_l; [|by apply IH].
  eapply (step_maintain _ _ t); [done|apply surjective_pairing].
Qed.

Lemma after_passes_sound a times :
  Forall (fun t => t < U64_MAX) times -> sound crate (settings a) (after_passes a times start).
Proof.
  intros Ht. eapply manager_steps_sound; [done|by apply after_passes_reachable|].
  apply empty_sound, draws_distinct.
Qed.

Lemma times_small (times : list Z) : forallb (fun t => t <? U64_MAX) times = true -> Forall (fun t => t < U64_MAX) times.
Proof. intros H. apply Forall_forall. intros t Ht%list_elem_of_In. rewrite forallb_forall in H. by apply Z.ltb_lt, H. Qed.

(** A ring with a retired, an active and a published key, and what it holds. *)
Definition busy : Manager crate := after_passes Ed25519 [0; 90; 100; 195]%Z start.
Definition ring_of (m : Manager crate) : Ring :=
  match ring_file crate m with RingHolds r => r | _ => ring_default end.

Lemma busy_sound : sound crate (settings Ed25519) busy.
Proof. apply after_passes_sound, times_small. reflexivity. Qed.

Definition pass (t : Z) (m : Manager crate) : Manager crate :=
  snd (maintain crate (settings Ed25519) t m).

Lemma pass_run t m o :
  fst (maintain crate (settings Ed25519) t m) = Ok o ->
  maintain crate (settings Ed25519) t m = (Ok o, pass t m).
Proof. apply run_is. Qed.

Definition holds_ring (m : Manager crate) : bool :=
  match ring_file crate m with RingHolds _ => true | _ => false end.

Lemma read_ring_of cfg m : holds_ring m = true -> read_ring crate cfg m = Ok (ring_of m).
Proof. unfold holds_ring, ring_of, read_ring. by destruct (ring_file crate m). Qed.

Definition jwks_of (m : Manager crate) : list Jwk := map to_jwk (keys (ring_of m)).

Lemma public_keys_of cfg m : holds_ring m = true -> directory_public_keys crate cfg m = Ok (jwks_of m).
Proof. intros H. unfold directory_public_keys. by rewrite (read_ring_of cfg m H). Qed.
End ToyKeys.

Section Runs.
Import ToyKeys.

Lemma reachable_ring_invariant_witness :
  exists ring, read_ring crate (settings Ed25519) busy = Ok ring /\ ring_wf (keys ring) /\
    forall e, e ∈ keys ring -> state e = Published \/ state e = Active -> backed crate e busy.
Proof.
  apply (reachable_ring_invariant crate (settings Ed25519) 0); [reflexivity|apply draws_distinct|].
  apply after_passes_reachable, times_small. reflexivity.
Defined.

Lemma maintain_one_active_witness :
  exists r ring, Some (mkMaintenance 0 1 1 1 0) = Some r /\
    read_ring crate (settings Ed25519) (pass 205 busy) = Ok ring /\
    count_active (keys ring) = 1%nat.
Proof.
  apply (maintain_one_active crate (settings Ed25519) 205 busy); [apply busy_sound|].
  apply pass_run. vm_compute. reflexivity.
Defined.

Lemma activation_terminates_witness :
  exists es' r', activate_due (settings Ed25519) (length (keys (ring_of busy))) 205
                   (keys (ring_of busy)) maintenance_default = Some (es', r') /\
    Forall (fun e => is_due (settings Ed25519) 205 e = false) es'.
Proof.
  apply (activation_terminates (settings Ed25519) 205 (keys (ring_of busy))).
  apply (bool_decide_eq_true_1 _). vm_compute. reflexivity.
Defined.

Lemma maintain_refines_lifecycle_witness :
  exists ring', read_ring crate (settings Ed25519) (pass 205 busy) = Ok ring' /\
    lifecycle_pass (settings Ed25519) 205 (keys (ring_of busy)) (keys ring').
Proof.
  apply (maintain_refines_lifecycle crate (settings Ed25519) 205 busy (ring_of busy)
           (Some (mkMaintenance 0 1 1 1 0)));
    [apply read_ring_of; vm_compute; reflexivity|apply busy_sound|
     apply pass_run; vm_compute; reflexivity].
Defined.

(** The entry that takes over in the pass at 205. *)
Definition taken_over : Entry := List.nth 2 (keys (ring_of (pass 205 busy))) (mkEntry "" Archived Ed25519 "" 0 None None).

Lemma nth_elem {A} n (l : list A) d : (n <? length l)%nat = true -> List.nth n l d ∈ l.
Proof. intros H%Nat.ltb_lt. by apply list_elem_of_In, nth_In. Qed.

Lemma published_before_signing_witness :
  taken_over ∈ keys (ring_of busy) \/ created_at taken_over = 205 \/
  exists e, e ∈ keys (ring_of busy) /\ kid e = kid taken_over /\ state e = Published /\
    activated_at taken_over = Some 205 /\ saturating_add (created_at e) 10 <= 205.
Proof.
  apply (published_before_signing crate (settings Ed25519) 205 busy (ring_of busy)
           (Some (mkMaintenance 0 1 1 1 0)) (pass 205 busy) (ring_of (pass 205 busy)));
    [apply read_ring_of; vm_compute; reflexivity|apply busy_sound|
     apply pass_run; vm_compute; reflexivity|apply read_ring_of; vm_compute; reflexivity|
     apply nth_elem; vm_compute; reflexivity|vm_compute; reflexivity].
Defined.

(** A ring whose first key is archived, at the end of its verification retention. *)
Definition aged : Manager crate := after_passes Ed25519 [0; 90; 100; 299]%Z start.
Definition oldest : Entry := List.nth 0 (keys (ring_of aged)) (mkEntry "" Active Ed25519 "" 0 None None).

Lemma public_half_outlives_retention_witness :
  exists t, retired_at oldest = Some t /\ saturating_add t (Z.max 200 100) <= 300.
Proof.
  apply (public_half_outlives_retention crate (settings Ed25519) 300 aged (ring_of aged)
           (Some (mkMaintenance 0 0 0 0 1)) (pass 300 aged) (jwks_of (pass 300 aged)));
    [reflexivity|reflexivity|apply read_ring_of; vm_compute; reflexivity|
     apply after_passes_sound, times_small; reflexivity|
     apply pass_run; vm_compute; reflexivity|
     apply public_keys_of; vm_compute; reflexivity|
     apply nth_elem; vm_compute; reflexivity|
     apply (bool_decide_eq_false_1 _); vm_compute; reflexivity].
Defined.

(** A file system that refuses everything. *)
Definition down : Settings := settings_io (fun _ => false) Ed25519.
Abbreviation failed_run := (maintain crate down 205 busy).
Definition failure : KeyError :=
  match fst failed_run with Err err => err | Ok _ => KeyNotReady "" end.

Lemma sound_io io a m : sound crate (settings a) m -> sound crate (settings_io io a) m.
Proof. intros H. exact H. Qed.

Lemma failed_pass_is_atomic_witness :
  ring_file crate (snd failed_run) = ring_file crate busy /\ sound crate down (snd failed_run) /\
  forall e, e ∈ keys (ring_of busy) -> live down 205 e ->
    key_files crate (snd failed_run) !! kid e = key_files crate busy !! kid e.
Proof.
  apply (failed_pass_is_atomic crate down 205 busy (ring_of busy) failure);
    [reflexivity|reflexivity|apply read_ring_of; vm_compute; reflexivity|
     apply sound_io, busy_sound|].
  assert (H : fst failed_run = Err failure) by (vm_compute; reflexivity).
  exact (run_is _ _ H).
Defined.

Abbreviation signed := (directory_sign crate (settings Ed25519) [x01] busy).

Lemma sign_uses_active_key_witness :
  sound crate (settings Ed25519) (snd signed) /\
  match fst signed with
  | Ok sig => exists ring e kp, read_ring crate (settings Ed25519) busy = Ok ring /\ e ∈ keys ring /\
      state e = Active /\ signature_key_id sig = kid e /\ signature_algorithm sig = jose (algorithm e) /\
      public_key e = base64url (pair_public_key crate kp) /\
      signature_of crate kp [x01] (signature_bytes sig)
  | Err (KeyNotReady _) =>
      exists ring, read_ring crate (settings Ed25519) busy = Ok ring /\ count_active (keys ring) = 0%nat
  | Err _ => True
  end.
Proof.
  apply (sign_uses_active_key crate (settings Ed25519) [x01] busy); [apply busy_sound|].
  apply surjective_pairing.
Defined.

(** What a signature is, and the scheme's verifier, for the toy crate. *)
Definition toy_verify (public p s : list byte) : bool := bool_decide (s = public ++ p).
Definition the_signature : Signature :=
  match fst signed with Ok s => s | Err _ => mkSignature "" "" [] end.

Lemma signature_verifies_against_published_keys_witness :
  (exists jwk, jwk ∈ jwks_of busy /\ jwk_kid jwk = signature_key_id the_signature) /\
  forall jwk, jwk ∈ jwks_of busy -> jwk_kid jwk = signature_key_id the_signature ->
    verify_signature toy_verify jwk [x01] (signature_bytes the_signature) = true.
Proof.
  apply (signature_verifies_against_published_keys crate (settings Ed25519) toy_verify [x01] busy
           the_signature (snd signed));
    [intros kp p; by apply bool_decide_eq_true_2|apply busy_sound| |
     apply public_keys_of; vm_compute; reflexivity|vm_compute; reflexivity].
  apply (run_is signed). vm_compute. reflexivity.
Defined.

(** [maintain] is not idempotent, although its contract says it is: at one and the same
    time, a pass archives a key whose verification retention is over too, and a second pass
    right after it forgets that key. *)
Theorem maintain_not_idempotent :
  exists now m r1 r2,
    rtc (manager_step crate (settings Ed25519)) start m /\
    fst (maintain crate (settings Ed25519) now m) = Ok (Some r1) /\
    fst (maintain crate (settings Ed25519) now (pass now m)) = Ok (Some r2) /\
    maintenance_is_empty r2 = false.
Proof.
  exists 400, (after_passes Ed25519 [0; 90; 100]%Z start), (mkMaintenance 1 0 0 1 0), (mkMaintenance 0 0 0 0 1).
  split_and!; [apply (after_passes_reachable Ed25519 [0; 90; 100]%Z start), times_small; reflexivity|
               vm_compute; reflexivity..].
Qed.

(** A ring with an active and a waiting key of the old algorithm, and the pass that migrates it. *)
Definition mixed : Manager crate := after_passes Ed25519 [0; 90]%Z start.
Definition migrated : Manager crate := snd (maintain crate (settings Es256) 100 mixed).

(** A change of algorithm does not always take: when a key of the old algorithm is due in
    the pass that migrates, it takes over from the key just made for the new one, and the
    pass succeeds with the old algorithm signing. *)
Theorem migration_can_leave_the_old_algorithm :
  exists now m r ring e,
    rtc (manager_step crate (settings Ed25519)) start m /\
    fst (maintain crate (settings Es256) now m) = Ok (Some r) /\
    read_ring crate (settings Es256) (snd (maintain crate (settings Es256) now m)) = Ok ring /\
    List.find is_active (keys ring) = Some e /\ algorithm e <> ring_algorithm (settings Es256).
Proof.
  exists 100, mixed, (mkMaintenance 1 2 2 0 0), (ring_of migrated).
  exists (List.nth 1 (keys (ring_of migrated)) (mkEntry "" Active Ed25519 "" 0 None None)).
  split_and!; [apply (after_passes_reachable Ed25519 [0; 90]%Z start), times_small; reflexivity|
               vm_compute; reflexivity|
               apply (read_ring_of _ migrated); vm_compute; reflexivity|vm_compute; reflexivity|
               vm_compute; discriminate].
Qed.
End Runs.
