(* ===== verification/AuditEvents.v ===== *)
(** * The audit contract, masking and pseudonyms
    ([crates/pic-x-core/src/audit.rs], [redact.rs], [pseudonym.rs];
    [crates/pic-x-std/src/audit.rs], [pseudonym.rs])

    What an event is, how its subject is rendered under a privacy policy, and the sinks that
    keep it in memory or in the log stream. The HMAC of the [hmac] crate is a parameter. *)
From S2P Require Import Prelude Rust Errors.
Local Open Scope Z_scope.
Local Open Scope rust_scope.

(** ** Masking *)

Definition MASK : string := "********".
Definition MAX_TAIL : nat := 4.

Record Masked := mkMasked { masked_value : string; masked_tail : nat }.

Definition masked_full (value : string) : Masked := mkMasked value 0.

Definition masked_with_tail (value : string) (keep : nat) : Masked :=
  let keep := Nat.min keep MAX_TAIL in
  let characters := length (chars value) in
  mkMasked value (if (keep <? characters)%nat then keep else 0%nat).

Definition masked_render (m : Masked) : string :=
  if (masked_tail m =? 0)%nat then MASK
  else MASK +:+ of_chars (drop (length (chars (masked_value m)) - masked_tail m) (chars (masked_value m))).

(** ** Pseudonyms *)

(** The [Pseudonymizer] trait. *)
Class Pseudonymizer (P : Type) := {
  key_version : P -> string;
  pseudonymize : P -> string -> string }.

Definition TOKEN_BYTES : nat := 16.

Record HmacPseudonymizer := mkHmac { hmac_key : list byte; hmac_key_version : string }.

Section Hmac.
(** HMAC-SHA256 of the [hmac] crate: [None] when it refuses the key. *)
Context (hmac_sha256 : list byte -> list byte -> option (list byte)).

Definition hmac_pseudonymize (p : HmacPseudonymizer) (value : string) : string :=
  match hmac_sha256 (hmac_key p) (bytes_of value) with
  | None => hmac_key_version p +:+ ":invalid-key"
  | Some digest => hmac_key_version p +:+ ":" +:+ hex (take TOKEN_BYTES digest)
  end.

#[export] Instance HmacPseudonymizer_instance : Pseudonymizer HmacPseudonymizer :=
  {| key_version := hmac_key_version; pseudonymize := hmac_pseudonymize |}.
End Hmac.

(** ** Events *)

Inductive AuditDestination := DestTracing | DestFile.

Definition destination_as_str (d : AuditDestination) : string :=
  match d with DestTracing => "tracing" | DestFile => "file" end.

Definition parse_destination (value : string) : result AuditDestination string :=
  let v := to_ascii_lowercase (trim value) in
  if bool_decide (v = "tracing") || bool_decide (v = "log") || bool_decide (v = "") then Ok DestTracing
  else if bool_decide (v = "file") || bool_decide (v = "directory") then Ok DestFile
  else Err ("`" +:+ v +:+ "` is not an audit destination: expected one of tracing, file").

Inductive Sensitivity := Public | Pseudonymous | Personal.

#[global] Instance sensitivity_eq_dec : EqDecision Sensitivity.
Proof. solve_decision. Defined.

Definition sensitivity_as_str (s : Sensitivity) : string :=
  match s with Public => "public" | Pseudonymous => "pseudonymous" | Personal => "personal" end.

Inductive Subject :=
| System (value : string)
| Principal (value : string)
| Continuity (value : string)
| Capability (value : string)
| Anonymous.

Definition subject_value (s : Subject) : option string :=
  match s with
  | System v | Principal v | Continuity v | Capability v => Some v
  | Anonymous => None
  end.

Definition sensitivity (s : Subject) : Sensitivity :=
  match s with
  | System _ | Anonymous => Public
  | Continuity _ | Capability _ => Pseudonymous
  | Principal _ => Personal
  end.

Definition is_personal (s : Subject) : bool := bool_decide (sensitivity s = Personal).

Definition kind (s : Subject) : string :=
  match s with
  | System _ => "system"
  | Principal _ => "principal"
  | Continuity _ => "continuity"
  | Capability _ => "capability"
  | Anonymous => "anonymous"
  end.

(** [Display]. *)
Definition subject_display (s : Subject) : string :=
  match s with
  | System v | Continuity v | Capability v => v
  | Principal v => masked_render (masked_full v)
  | Anonymous => "-"
  end.

Definition render {P} `{Pseudonymizer P} (s : Subject) (policy : option P) : string :=
  match s, policy with
  | Principal v, Some p => pseudonymize p v
  | _, _ => subject_display s
  end.

Record AuditEvent := mkAuditEvent {
  event_action : string;
  event_subject : Subject;
  event_target : option string;
  event_continuity_id : option string;
  event_continuity_position : option Z }.

Definition event_new (action : string) (s : Subject) : AuditEvent := mkAuditEvent action s None None None.
Definition event_on (t : string) (e : AuditEvent) : AuditEvent :=
  mkAuditEvent (event_action e) (event_subject e) (Some t) (event_continuity_id e) (event_continuity_position e).
Definition with_continuity_id (c : string) (e : AuditEvent) : AuditEvent :=
  mkAuditEvent (event_action e) (event_subject e) (event_target e) (Some c) (event_continuity_position e).
Definition at_continuity_position (n : Z) (e : AuditEvent) : AuditEvent :=
  mkAuditEvent (event_action e) (event_subject e) (event_target e) (event_continuity_id e) (Some n).

(** ** The sinks *)

(** The [AuditSink] trait: what recording code asks of a destination. *)
Class AuditSink (S P : Type) := {
  sink_name : string;
  sink_record : AuditEvent -> option P -> M S AuditError unit;
  sink_shutdown : M S AuditError unit }.

(** The sink that keeps [(action, rendered subject)] pairs in memory, oldest first. *)
Definition RecordingAuditSink : Type := list (string * string).

Definition recording_record {P} `{Pseudonymizer P} (e : AuditEvent) (policy : option P)
  : M RecordingAuditSink AuditError unit :=
  mmodify (fun events => events ++ [(event_action e, render (event_subject e) policy)]).

#[export] Instance recording_sink {P} `{Pseudonymizer P} : AuditSink RecordingAuditSink P :=
  {| sink_name := "recording"; sink_record := recording_record; sink_shutdown := mret tt |}.

(** The sink that emits one record of named fields per event into the log stream. *)
Record TracingAuditSink := mkTracing {
  tracing_service_name : string; tracing_service_version : string;
  tracing_stream : list (list (string * string)) }.

Definition field (name : string) (v : option string) : list (string * string) :=
  match v with Some x => [(name, x)] | None => [] end.

Definition tracing_fields {P} `{Pseudonymizer P} (s : TracingAuditSink) (e : AuditEvent)
  (policy : option P) : list (string * string) :=
  [("event.name", "audit"); ("service.name", tracing_service_name s);
   ("service.version", tracing_service_version s); ("audit.action", event_action e);
   ("audit.subject", render (event_subject e) policy);
   ("audit.subject.kind", kind (event_subject e));
   ("audit.subject.sensitivity", sensitivity_as_str (sensitivity (event_subject e)))]
  ++ field "audit.target" (event_target e)
  ++ field "audit.continuity.id" (event_continuity_id e)
  ++ field "audit.continuity.position" ((fun n => string_of (dec n)) <$> event_continuity_position e).

Definition tracing_record {P} `{Pseudonymizer P} (e : AuditEvent) (policy : option P)
  : M TracingAuditSink AuditError unit :=
  mmodify (fun s => mkTracing (tracing_service_name s) (tracing_service_version s)
                      (tracing_stream s ++ [tracing_fields s e policy])).

#[export] Instance tracing_sink {P} `{Pseudonymizer P} : AuditSink TracingAuditSink P :=
  {| sink_name := "tracing"; sink_record := tracing_record; sink_shutdown := mret tt |}.

(** ** Properties *)

Lemma hmac_token_shape hmac p v d :
  hmac (hmac_key p) (bytes_of v) = Some d -> length d = 32%nat ->
  str_len (hmac_pseudonymize hmac p v) = str_len (hmac_key_version p) + 33.
Proof.
  intros H Hd. unfold hmac_pseudonymize, str_len. rewrite H, !bytes_of_app, !length_app, hex_length,
    length_take, Hd. simpl. lia.
Qed.

(** C17: A person never reaches a sink in the clear: without a policy every principal is rendered
    as the same eight characters; under the HMAC policy it is rendered as a token that names
    the key version, whose length does not depend on the person, and which two people share
    only when the truncated MACs of their identifiers agree; and the kind and the sensitivity
    of the record are the same for every principal. *)
Theorem principals_are_never_rendered
    (hmac_sha256 : list byte -> list byte -> option (list byte)) (p : HmacPseudonymizer) (v w : string) :
  (forall k m, exists d, hmac_sha256 k m = Some d /\ length d = 32%nat) ->
  let P := HmacPseudonymizer_instance hmac_sha256 in
  render (Principal v) (None (A := HmacPseudonymizer)) = MASK /\
  str_len (render (Principal v) (Some p)) = str_len (hmac_key_version p) + 33 /\
  (render (Principal v) (Some p) = render (Principal w) (Some p) <->
   take TOKEN_BYTES <$> hmac_sha256 (hmac_key p) (bytes_of v)
   = take TOKEN_BYTES <$> hmac_sha256 (hmac_key p) (bytes_of w)) /\
  kind (Principal v) = kind (Principal w) /\ is_personal (Principal v) = true.
Proof.
  intros Hmac P. destruct (Hmac (hmac_key p) (bytes_of v)) as (dv & Hv & Lv).
  destruct (Hmac (hmac_key p) (bytes_of w)) as (dw & Hw & Lw). split_and!; try reflexivity.
  - simpl. by eapply hmac_token_shape.
  - simpl. unfold hmac_pseudonymize. rewrite Hv, Hw. simpl. split.
    + intros H. apply (f_equal bytes_of) in H. rewrite !bytes_of_app in H.
      apply app_inv_head in H. simpl in H. injection H as H.
      f_equal. apply hex_inj. rewrite <- (string_of_bytes_of (hex (take _ dv))),
        <- (string_of_bytes_of (hex (take _ dw))). by f_equal.
    + intros [= H]. by rewrite H.
Qed.

Lemma principals_are_never_rendered_witness :
  render (H := HmacPseudonymizer_instance (fun _ _ => Some (repeat x07 32)))
    (Principal "alice") (None (A := HmacPseudonymizer)) = MASK.
Proof.
  apply (principals_are_never_rendered (fun _ _ => Some (repeat x07 32)) (mkHmac [x01] "v1") "alice" "bob").
  intros k m. exists (repeat x07 32). split; reflexivity.
Defined.

(** A mask that keeps a tail reveals the tail and nothing else: at most four characters, fewer
    than the value has, and none at all otherwise; two values with the same tail, each longer
    than it, render alike whatever their lengths. *)
Theorem masked_tail_reveals_only_the_tail (v w : string) (keep : nat) :
  (exists n, (n <= MAX_TAIL)%nat /\ (n < length (chars v) \/ n = 0)%nat /\
     masked_render (masked_with_tail v keep)
     = MASK +:+ of_chars (drop (length (chars v) - n) (chars v)) \/
     masked_render (masked_with_tail v keep) = MASK) /\
  ((Nat.min keep MAX_TAIL < length (chars v))%nat -> (Nat.min keep MAX_TAIL < length (chars w))%nat ->
   drop (length (chars v) - Nat.min keep MAX_TAIL) (chars v)
   = drop (length (chars w) - Nat.min keep MAX_TAIL) (chars w) ->
   masked_render (masked_with_tail v keep) = masked_render (masked_with_tail w keep)).
Proof.
  unfold masked_render, masked_with_tail. simpl. split.
  - set (k := Nat.min keep MAX_TAIL). destruct (Nat.ltb_spec k (length (chars v))) as [H|H].
    + exists k. destruct (Nat.eqb_spec k 0); [by right|]. left. split_and!; [lia|by left|done].
    + exists 0%nat. by right.
  - intros Hv Hw Heq. rewrite (proj2 (Nat.ltb_lt _ _) Hv), (proj2 (Nat.ltb_lt _ _) Hw), Heq.
    by destruct (_ =? 0)%nat.
Qed.

Lemma masked_tail_reveals_only_the_tail_witness :
  masked_render (masked_with_tail "account-1234567890" 12) = masked_render (masked_with_tail "x7890" 12).
Proof.
  apply (masked_tail_reveals_only_the_tail "account-1234567890" "x7890" 12);
    vm_compute; [lia|lia|reflexivity].
Defined.
