(* ===== verification/Access.v ===== *)
(** * Who may call: peers, the gate of a surface, the policy of administration

    [crates/pic-x-core/src/peer.rs] (what a client certificate asserted, and the entries of an
    allow list), [crates/pic-x-transport/src/gate.rs] (the layer that reads the list),
    [crates/pic-x-admin/src/authorization.rs] (the policy of the administration interface) and
    [AuditRecorder] of [crates/pic-x-core/src/server.rs] (the audit sink that policy writes to). *)
From S2P Require Import Prelude Rust Text Errors AuditEvents.
Local Open Scope Z_scope.
Local Open Scope rust_scope.

(** ** Peers *)

Record PeerIdentity := mkPeer {
  peer_subject : string;
  peer_common_name : option string;
  peer_fingerprint : string;
  peer_serial : string }.

(** [Option::filter] over text that is not empty. *)
Definition non_empty_text (o : option string) : option string :=
  match o with Some s => if is_empty s then None else Some s | None => None end.

(** [PeerIdentity::label]. *)
Definition label (p : PeerIdentity) : string :=
  let name := match non_empty_text (peer_common_name p) with
              | Some n => Some n
              | None => Some (peer_subject p)
              end in
  default (peer_fingerprint p) (non_empty_text name).

(** An entry of an allow list. *)
Inductive AllowedPeer :=
| AllowCommonName (name : string)
| AllowSubject (subject : string)
| AllowFingerprint (fingerprint : string).

#[global] Instance allowed_peer_eq_dec : EqDecision AllowedPeer.
Proof. solve_decision. Defined.

(** [AllowedPeer::matches]. *)
Definition matches (entry : AllowedPeer) (peer : PeerIdentity) : bool :=
  match entry with
  | AllowCommonName name => bool_decide (peer_common_name peer = Some name)
  | AllowSubject subject => bool_decide (peer_subject peer = subject)
  | AllowFingerprint fingerprint => eq_ignore_ascii_case (peer_fingerprint peer) fingerprint
  end.

(** [AllowedPeer::kind]. *)
Definition allowed_kind (entry : AllowedPeer) : string :=
  match entry with
  | AllowCommonName _ => "cn"
  | AllowSubject _ => "dn"
  | AllowFingerprint _ => "sha256"
  end.

(** [PeerIdentity::is_allowed_by]. *)
Definition is_allowed_by (peer : PeerIdentity) (allowed : list AllowedPeer) : bool :=
  existsb (fun entry => matches entry peer) allowed.

Definition EMPTY_ENTRY : string := "an empty entry names no peer".

Definition non_empty (value : string) : result string string :=
  let value := trim value in
  if is_empty value then Err EMPTY_ENTRY else Ok value.

(** [AllowedPeer::from_str]. *)
Definition allowed_from_str (value : string) : result AllowedPeer string :=
  let value := trim value in
  if is_empty value then Err EMPTY_ENTRY
  else match strip_prefix "cn:" value with
  | Some name => let? n := non_empty name in Ok (AllowCommonName n)
  | None =>
    match strip_prefix "dn:" value with
    | Some subject => let? s := non_empty subject in Ok (AllowSubject s)
    | None =>
      match strip_prefix "sha256:" value with
      | Some fingerprint =>
        let fingerprint := remove_char 58 (trim fingerprint) in
        if negb (str_len fingerprint =? 64) || negb (forallb is_ascii_hexdigit (chars fingerprint))
        then Err ("`" +:+ fingerprint +:+ "` is not a SHA-256 fingerprint: expected 64 hexadecimal characters")
        else Ok (AllowFingerprint (to_ascii_lowercase fingerprint))
      | None => Ok (AllowCommonName value)
      end
    end
  end.

(** [AllowedPeer]'s [Display]. *)
Definition allowed_display (entry : AllowedPeer) : string :=
  match entry with
  | AllowCommonName name => "cn:" +:+ name
  | AllowSubject subject => "dn:" +:+ subject
  | AllowFingerprint fingerprint => "sha256:" +:+ fingerprint
  end.

(** ** The gate of a surface *)

Record Response := mkResponse {
  response_status : Z;
  response_headers : list (string * string);
  response_body : string }.

(** [gate.rs]'s [refused]. *)
Definition refused : Response :=
  mkResponse 403 [("content-type", "text/plain; charset=utf-8")]
    ("this surface does not answer this peer" +:+ string_of [LF]).

Section Gate.
(** A request carries the identity the acceptor attached to its connection, when there is one;
    the inner service runs over the state of the application. *)
Context {Request W : Type} (identity : Request -> option PeerIdentity)
  (inner : Request -> W -> Response * W).

(** [PeerGated::call]. *)
Definition gate_call (allow : list AllowedPeer) (request : Request) (w : W) : Response * W :=
  match identity request with
  | Some peer => if is_allowed_by peer allow then inner request w else (refused, w)
  | None => (refused, w)
  end.
End Gate.

(** ** Recording *)

(** [AuditRecorder]: the policy applied to every event; the sink it shares is the state its
    methods run over. *)
Record AuditRecorder (P : Type) := mkRecorder { recorder_policy : option P }.
Arguments mkRecorder {P}.
Arguments recorder_policy {P}.

Section Recorder.
Context {A P : Type} `{!AuditSink A P}.

Definition recorder_record (r : AuditRecorder P) (action : string) (subject : Subject)
  : M A AuditError unit :=
  sink_record (event_new action subject) (recorder_policy r).

Definition record_on (r : AuditRecorder P) (action : string) (subject : Subject) (target : string)
  : M A AuditError unit :=
  sink_record (event_on target (event_new action subject)) (recorder_policy r).
End Recorder.

(** ** Administration *)

Definition PERMISSION_DENIED : string := "7".
Definition UNAVAILABLE : string := "14".

Record Authorization (P : Type) := mkAuthorization {
  allowed : list AllowedPeer;
  development : bool;
  recorder : option (AuditRecorder P) }.
Arguments mkAuthorization {P}.
Arguments allowed {P}.
Arguments development {P}.
Arguments recorder {P}.

(** [Authorization::permits]. *)
Definition permits {P} (policy : Authorization P) (peer : option PeerIdentity) : bool :=
  match peer with
  | None => false
  | Some peer =>
    match allowed policy with
    | [] => development policy
    | _ => is_allowed_by peer (allowed policy)
    end
  end.

(** [authorization.rs]'s [status]: the answer a gRPC client reads as a status. *)
Definition grpc_status (code message : string) : Response :=
  mkResponse 200 [("content-type", "application/grpc"); ("grpc-status", code);
                  ("grpc-message", message)] "".

Definition refuse : Response :=
  grpc_status PERMISSION_DENIED "this client may not administer this deployment".

Definition unrecordable : Response :=
  grpc_status UNAVAILABLE
    "this deployment cannot record what you asked it to do, so it did not do it".

Section Authorize.
Context {A P Request W : Type} `{!AuditSink A P}
  (identity : Request -> option PeerIdentity) (path : Request -> string)
  (next : Request -> W -> Response * W).

(** [authorization.rs]'s [record]: whether the trail now says so. *)
Definition record_decision (policy : Authorization P) (action principal target : string) (a : A)
  : bool * A :=
  match recorder policy with
  | None => (true, a)
  | Some r =>
    match record_on r action (Principal principal) target a with
    | (Ok _, a') => (true, a')
    | (Err _, a') => (false, a')
    end
  end.

(** The label of the peer, or a dash for a client that presented no certificate. *)
Definition peer_label (peer : option PeerIdentity) : string :=
  match peer with Some p => label p | None => "-" end.

(** [authorization.rs]'s [authorize]. *)
Definition authorize (policy : Authorization P) (request : Request) (s : A * W) : Response * (A * W) :=
  let '(a, w) := s in
  let peer := identity request in
  let target := path request in
  if permits policy peer then
    match record_decision policy "admin.request" (peer_label peer) target a with
    | (true, a') => let '(response, w') := next request w in (response, (a', w'))
    | (false, a') => (unrecordable, (a', w))
    end
  else
    let '(_, a') := record_decision policy "admin.refused" (peer_label peer) target a in
    (refuse, (a', w)).
End Authorize.

(** ** Properties *)

Lemma hex_fingerprint_reads_back cs :
  Forall (fun c => is_ascii_hexdigit c = true) cs -> length cs = 64%nat ->
  let f := of_chars (map char_to_ascii_lowercase cs) in
  allowed_from_str ("sha256:" +:+ f) = Ok (AllowFingerprint f).
Proof.
  intros Hx Hlen f.
  assert (Hl : Forall (fun c => is_ascii_hexdigit c = true) (map char_to_ascii_lowercase cs)).
  { apply Forall_map. eapply Forall_impl; [exact Hx|]. intros c Hc. cbn. by apply hexdigit_facts. }
  set (ls := map char_to_ascii_lowercase cs) in *.
  assert (Ha : Forall is_ascii_char ls) by (eapply Forall_impl; [exact Hl|]; intros; by apply hexdigit_facts).
  assert (Hs : Forall is_scalar ls) by by apply ascii_scalar.
  assert (Hu : is_utf8 f) by by apply of_chars_utf8.
  assert (Hc : chars f = ls) by by apply chars_of_chars.
  assert (Ht : trim f = f).
  { apply trim_id; [done|]. rewrite Hc. apply trimmed_no_whitespace.
    eapply Forall_impl; [exact Hl|]. intros; by apply hexdigit_facts. }
  assert (Hlf : length ls = 64%nat) by (unfold ls; by rewrite length_map).
  assert (Hne : f <> "").
  { intros Hf. rewrite Hf in Hc. by rewrite <- Hc in Hlf. }
  unfold allowed_from_str. rewrite trim_prefixed; [|vm_compute; eauto|done..].
  assert (is_empty ("sha256:" +:+ f) = false) as -> by (apply bool_decide_eq_false_2; done).
  replace (strip_prefix "cn:" ("sha256:" +:+ f)) with (None (A := string)) by reflexivity.
  replace (strip_prefix "dn:" ("sha256:" +:+ f)) with (None (A := string)) by reflexivity.
  rewrite strip_prefix_prefixed, Ht. unfold remove_char. rewrite Hc, filter_keep_all.
  2:{ eapply Forall_impl; [exact Hl|]. intros c Hd. cbn. apply negb_true_iff, Z.eqb_neq.
      by apply hexdigit_facts. }
  fold f. rewrite Hc. unfold f. rewrite str_len_ascii_chars, Hlf by done.
  rewrite (proj2 (forallb_forall _ _)); [|by apply List.Forall_forall].
  cbn [negb orb Z.eqb Z.of_nat]. rewrite lowercase_ascii_chars by done. cbn. do 3 f_equal.
  unfold ls. rewrite map_map. apply map_ext_Forall. eapply Forall_impl; [exact Hx|].
  intros c Hd. cbn. by apply hexdigit_facts.
Qed.

Lemma non_empty_Ok v n :
  is_utf8 v -> non_empty v = Ok n -> is_utf8 n /\ trim n = n /\ n <> "".
Proof.
  unfold non_empty, is_empty. intros Hv. case_bool_decide as E; [done|]. intros [= <-].
  split_and!; [by apply trim_utf8|by apply trim_trim|done].
Qed.

Lemma non_empty_trimmed n : trim n = n -> n <> "" -> non_empty n = Ok n.
Proof. intros Ht Hn. unfold non_empty, is_empty. rewrite Ht. by rewrite bool_decide_false. Qed.

(** A prefixed name reads back: what follows [cn:] or [dn:] is taken as it is. *)
Lemma prefixed_reads_back n :
  is_utf8 n -> trim n = n -> n <> "" ->
  allowed_from_str ("cn:" +:+ n) = Ok (AllowCommonName n) /\
  allowed_from_str ("dn:" +:+ n) = Ok (AllowSubject n).
Proof.
  intros Hu Ht Hn. unfold allowed_from_str.
  rewrite (trim_prefixed "cn:"), (trim_prefixed "dn:") by (done || (vm_compute; by eauto)).
  unfold is_empty. rewrite !bool_decide_false by done. rewrite !strip_prefix_prefixed.
  replace (strip_prefix "cn:" ("dn:" +:+ n)) with (None (A := string)) by reflexivity.
  by rewrite (non_empty_trimmed n).
Qed.

Lemma utf8_strip_prefix p s r : Forall is_ascii_char (map u8 (bytes_of p)) ->
  strip_prefix p s = Some r -> is_utf8 s -> is_utf8 r.
Proof.
  intros Hp Hs [cs Hu]. apply strip_prefix_Some in Hs as ->. rewrite bytes_of_app in Hu.
  unfold is_utf8. generalize dependent cs. induction (bytes_of p) as [|b l IH]; intros cs Hu; [by eexists|].
  apply Forall_cons_1 in Hp as [Hb Hp]. unfold is_ascii_char in Hb.
  cbn [app utf8_decode] in Hu. rewrite (proj2 (Z.ltb_lt _ _)) in Hu by lia.
  destruct (utf8_decode (l ++ bytes_of r)) as [cs'|] eqn:E; [|done]. by eapply IH.
Qed.

Lemma remove_char_utf8 c s : is_utf8 s ->
  exists cs, remove_char c s = of_chars cs /\ Forall is_scalar cs.
Proof.
  intros Hs. eexists. split; [reflexivity|]. apply chars_scalar in Hs.
  apply List.Forall_forall. intros x [Hx _]%filter_In. by eapply List.Forall_forall in Hs.
Qed.

(** An entry of an allow list reads back: whatever text it was parsed from, printing it and
    parsing it again gives the same entry, so a list can be copied from what the program
    prints; and no entry is empty. *)
Theorem allowed_entry_reads_back (v : string) (e : AllowedPeer) :
  is_utf8 v -> allowed_from_str v = Ok e ->
  allowed_from_str (allowed_display e) = Ok e /\
  match e with AllowCommonName n | AllowSubject n | AllowFingerprint n => n <> "" end.
Proof.
  intros Hv. unfold allowed_from_str at 1. apply trim_utf8 in Hv as Ht.
  unfold is_empty at 1. case_bool_decide as Hne; [done|].
  assert (Hname : forall w n, is_utf8 w -> non_empty w = Ok n ->
    (allowed_from_str (allowed_display (AllowCommonName n)) = Ok (AllowCommonName n) /\ n <> "") /\
    (allowed_from_str (allowed_display (AllowSubject n)) = Ok (AllowSubject n) /\ n <> "")).
  { intros w n Hw Hn. apply non_empty_Ok in Hn as (Hu & Hn & Hne'); [|done].
    by destruct (prefixed_reads_back n Hu Hn Hne'). }
  destruct (strip_prefix "cn:" _) as [n|] eqn:E1.
  { intros H. apply bind_result_Ok in H as (m & Hm & [= <-]).
    refine (proj1 (Hname _ _ _ Hm)). refine (utf8_strip_prefix _ _ _ _ E1 Ht). by repeat constructor. }
  destruct (strip_prefix "dn:" _) as [n|] eqn:E2.
  { intros H. apply bind_result_Ok in H as (m & Hm & [= <-]).
    refine (proj2 (Hname _ _ _ Hm)). refine (utf8_strip_prefix _ _ _ _ E2 Ht). by repeat constructor. }
  destruct (strip_prefix "sha256:" _) as [f|] eqn:E3.
  - assert (Hf : is_utf8 f) by (refine (utf8_strip_prefix _ _ _ _ E3 Ht); by repeat constructor).
    apply trim_utf8, (remove_char_utf8 58) in Hf as (cs & -> & Hs).
    rewrite chars_of_chars by done. destruct (_ || _) eqn:E; [done|]. intros [= <-]. bool_to_prop.
    assert (Hx : Forall (fun c => is_ascii_hexdigit c = true) cs)
      by (apply List.Forall_forall; by apply forallb_forall).
    assert (Ha : Forall is_ascii_char cs) by (eapply Forall_impl; [exact Hx|]; intros; by apply hexdigit_facts).
    rewrite str_len_ascii_chars in * by done. rewrite lowercase_ascii_chars by done. split.
    + apply hex_fingerprint_reads_back; [done|lia].
    + destruct cs as [|c cs]; [simpl in *; lia|]. intros Hbad. apply (f_equal bytes_of) in Hbad.
      rewrite <- lowercase_ascii_chars in Hbad by done. unfold to_ascii_lowercase in Hbad.
      by rewrite bytes_of_string_of, bytes_of_ascii_chars in Hbad.
  - intros [= <-]. refine (proj1 (Hname (trim v) _ Ht _)). apply non_empty_trimmed; [by apply trim_trim|done].
Qed.

Lemma allowed_entry_reads_back_witness :
  allowed_from_str " cn: local operator " = Ok (AllowCommonName "local operator") /\
  allowed_from_str "cn:local operator" = Ok (AllowCommonName "local operator").
Proof.
  assert (H : allowed_from_str " cn: local operator " = Ok (AllowCommonName "local operator"))
    by (vm_compute; reflexivity).
  split; [exact H|]. refine (proj1 (allowed_entry_reads_back _ _ _ H)). by eexists.
Defined.

(** What an entry says of a certificate, without the parsing conventions. *)
Definition names (entry : AllowedPeer) (peer : PeerIdentity) : Prop :=
  match entry with
  | AllowCommonName name => peer_common_name peer = Some name
  | AllowSubject subject => peer_subject peer = subject
  | AllowFingerprint f => to_ascii_lowercase (peer_fingerprint peer) = to_ascii_lowercase f
  end.

Lemma matches_names entry peer : matches entry peer = true <-> names entry peer.
Proof. destruct entry; simpl; apply bool_decide_eq_true. Qed.

Lemma is_allowed_by_spec peer allow :
  is_allowed_by peer allow = true <-> exists entry, entry ∈ allow /\ names entry peer.
Proof.
  unfold is_allowed_by. rewrite existsb_exists. setoid_rewrite matches_names.
  by setoid_rewrite list_elem_of_In.
Qed.

Lemma is_allowed_by_refused peer allow :
  is_allowed_by peer allow = false -> forall entry, entry ∈ allow -> ~ names entry peer.
Proof. intros H entry He Hn. apply not_true_iff_false in H. apply H, is_allowed_by_spec. eauto. Qed.

(** A surface with an allow list answers only the peers the list names: the application runs
    exactly when the connection carried an identity that some entry of the list names; every
    other request, one without an identity included, is told 403 and leaves the application's
    state as it was. *)
Theorem gate_answers_only_named_peers {Request W : Type} (identity : Request -> option PeerIdentity)
    (inner : Request -> W -> Response * W) (allow : list AllowedPeer) (request : Request) (w : W) :
  (exists peer entry, identity request = Some peer /\ entry ∈ allow /\ names entry peer /\
     gate_call identity inner allow request w = inner request w) \/
  ((forall peer entry, identity request = Some peer -> entry ∈ allow -> ~ names entry peer) /\
   gate_call identity inner allow request w = (refused, w) /\ response_status refused = 403).
Proof.
  unfold gate_call. destruct (identity request) as [peer|]; [|by right].
  destruct (is_allowed_by peer allow) eqn:E.
  - left. apply is_allowed_by_spec in E as (entry & He & Hn). by exists peer, entry.
  - right. split; [|done]. intros ? entry [= <-]. by apply is_allowed_by_refused.
Qed.

(** Who the policy of the administration interface lets through. *)
Definition may_administer {P} (policy : Authorization P) (peer : PeerIdentity) : Prop :=
  (allowed policy = [] /\ development policy = true) \/
  exists entry, entry ∈ allowed policy /\ names entry peer.

Lemma permits_spec {P} (policy : Authorization P) peer :
  permits policy peer = true <-> exists p, peer = Some p /\ may_administer policy p.
Proof.
  destruct peer as [p|]; simpl; [|naive_solver].
  transitivity (may_administer policy p); [|naive_solver]. unfold may_administer.
  destruct (allowed policy) as [|x l] eqn:E.
  - split; [by left|]. intros [[_ H]|(e & He & _)]; [done|]. by apply elem_of_nil in He.
  - rewrite is_allowed_by_spec. naive_solver.
Qed.

Section AuthorizeProperties.
Context {A P Request W : Type} `{!AuditSink A P}
  (identity : Request -> option PeerIdentity) (path : Request -> string)
  (next : Request -> W -> Response * W).

(** The event of a decision, and what offering it to the recorder of the policy does: a policy
    without a recorder records nothing and holds nothing up. *)
Definition decision_event (action : string) (peer : option PeerIdentity) (request : Request) : AuditEvent :=
  event_on (path request) (event_new action (Principal (peer_label peer))).

Definition offered (policy : Authorization P) (e : AuditEvent) (a : A) (r : result unit AuditError) (a' : A) : Prop :=
  match recorder policy with
  | None => r = Ok tt /\ a' = a
  | Some rec => sink_record e (recorder_policy rec) a = (r, a')
  end.

Lemma record_decision_spec policy action peer request a b a' :
  record_decision policy action (peer_label peer) (path request) a = (b, a') ->
  exists r, offered policy (decision_event action peer request) a r a' /\ b = is_ok r.
Proof.
  unfold record_decision, offered, record_on, decision_event. destruct (recorder policy) as [rec|].
  - destruct (sink_record _ _ a) as [[[]|e] a1]; intros [= <- <-]; eauto.
  - intros [= <- <-]. by exists (Ok tt).
Qed.

(** How a call ends: it ran, its record failed, or its peer was not let through. *)
Lemma authorize_cases (policy : Authorization P) (request : Request)
    (a a' : A) (w w' : W) (response : Response) :
  authorize identity path next policy request (a, w) = (response, (a', w')) ->
  let peer := identity request in
  (exists p, peer = Some p /\ may_administer policy p /\
     offered policy (decision_event "admin.request" peer request) a (Ok tt) a' /\
     next request w = (response, w')) \/
  (exists p e, peer = Some p /\ may_administer policy p /\
     offered policy (decision_event "admin.request" peer request) a (Err e) a' /\
     response = unrecordable /\ w' = w) \/
  ((forall p, peer = Some p -> ~ may_administer policy p) /\
     (exists r, offered policy (decision_event "admin.refused" peer request) a r a') /\
     response = refuse /\ w' = w).
Proof.
  unfold authorize. cbv zeta. destruct (permits policy (identity request)) eqn:E.
  - apply permits_spec in E as (p & Hp & Hm).
    destruct (record_decision _ _ _ _ _) as [b a1] eqn:Er.
    apply record_decision_spec in Er as ([[]|e] & Ho & ->); simpl.
    + destruct (next request w) as [resp w1] eqn:En. intros [= <- <- <-]. left. eauto.
    + intros [= <- <- <-]. right. left. exists p, e. auto.
  - destruct (record_decision _ _ _ _ _) as [b a1] eqn:Er.
    apply record_decision_spec in Er as (r & Ho & _). intros [= <- <- <-]. right. right.
    split_and!; eauto. intros p Hp Hm. apply not_true_iff_false in E. apply E, permits_spec. eauto.
Qed.

(** No administrative work without a permitted peer and its record. A call either runs the
    application, and then the peer is one the policy lets through (a name on the list, or, only
    in development and only with no list written, any certificate) and the record of that call
    was already in the trail; or it leaves the application as it was and answers UNAVAILABLE
    because that record could not be written; or it answers PERMISSION_DENIED, the peer is not
    let through, and the refusal was offered to the trail under the same name. *)
Theorem administration_is_permitted_and_recorded (policy : Authorization P) (request : Request)
    (a a' : A) (w w' : W) (response : Response) :
  authorize identity path next policy request (a, w) = (response, (a', w')) ->
  let peer := identity request in
  (exists p, peer = Some p /\ may_administer policy p /\
     offered policy (decision_event "admin.request" peer request) a (Ok tt) a' /\
     next request w = (response, w')) \/
  (exists p e, peer = Some p /\ may_administer policy p /\
     offered policy (decision_event "admin.request" peer request) a (Err e) a' /\
     response = unrecordable /\ w' = w) \/
  ((forall p, peer = Some p -> ~ may_administer policy p) /\
     (exists r, offered policy (decision_event "admin.refused" peer request) a r a') /\
     response = refuse /\ w' = w).
Proof. apply authorize_cases. Qed.
End AuthorizeProperties.

(** A policy over the sink in memory, with a clear-text pseudonymiser, and a service that counts. *)
#[local] Instance plain_pseudonymizer : Pseudonymizer unit :=
  {| key_version := fun _ => "none"; pseudonymize := fun _ v => v |}.

Definition example_policy : Authorization unit :=
  mkAuthorization [AllowCommonName "operator"] false (Some (mkRecorder (Some tt))).

Definition example_operator : PeerIdentity := mkPeer "CN=operator" (Some "operator") "ab" "01".

Lemma administration_is_permitted_and_recorded_witness :
  authorize (A := RecordingAuditSink) (P := unit) (fun r => r) (fun _ => "/pic.Admin/Rotate")
    (fun (_ : option PeerIdentity) n => (mkResponse 200 [] "done", S n)) example_policy
    (Some example_operator) ([], 0%nat)
  = (mkResponse 200 [] "done", ([("admin.request", "operator")], 1%nat)) /\
  may_administer example_policy example_operator.
Proof.
  match goal with |- ?e /\ _ => assert (Hrun : e) by reflexivity end. split; [exact Hrun|].
  destruct (administration_is_permitted_and_recorded _ _ _ _ _ _ _ _ _ _ Hrun)
    as [(p & Hp & Hm & _)|[(p & e & _ & _ & _ & _ & Hw)|(_ & _ & _ & Hw)]];
    [by injection Hp as <-|discriminate Hw..].
Defined.
