(* ===== verification/Limits.v ===== *)
(** * What a surface refuses to spend on one client ([crates/pic-x-core/src/limits.rs])

    The bounds of a surface with their defaults, addresses and blocks of addresses. A duration is
    a number of seconds. [std::net]'s address parser is modelled as the standard library
    documents it: dotted IPv4 without leading zeroes, RFC 4291 IPv6 with one [::] and an optional
    IPv4 tail. *)
From S2P Require Import Prelude Rust Text.
Local Open Scope Z_scope.
Local Open Scope rust_scope.

(** ** Addresses *)

(** [std::net::IpAddr], as the number its octets spell. *)
Inductive IpAddr := V4 (bits : Z) | V6 (bits : Z).

#[global] Instance ip_addr_eq_dec : EqDecision IpAddr.
Proof. solve_decision. Defined.

#[global] Instance ip_addr_countable : Countable IpAddr.
Proof.
  apply (inj_countable' (fun a => match a with V4 n => inl n | V6 n => inr n end)
           (fun s => match s with inl n => V4 n | inr n => V6 n end)).
  by intros [].
Defined.

Definition ip_valid (a : IpAddr) : Prop :=
  match a with V4 n => 0 <= n < 2 ^ 32 | V6 n => 0 <= n < 2 ^ 128 end.

(** *** The parser of [std::net] *)

(** A parser that gives back what it did not read. *)
Definition Parser (A : Type) : Type := list byte -> option (A * list byte).

Definition given_char (c : byte) : Parser unit := fun bs =>
  match bs with b :: r => if bool_decide (b = c) then Some (tt, r) else None | [] => None end.

(** [char::to_digit]. *)
Definition to_digit (radix : Z) (b : byte) : option Z :=
  let d := if between 48 57 b then Some (u8 b - 48)
           else if between 97 122 b then Some (u8 b - 87)
           else if between 65 90 b then Some (u8 b - 55) else None in
  match d with Some n => if n <? radix then Some n else None | None => None end.

(** The digits at the front: their value, how many they are, and the rest. *)
Fixpoint digits_of (radix acc : Z) (count : nat) (bs : list byte) : Z * nat * list byte :=
  match bs with
  | b :: r =>
    match to_digit radix b with
    | Some d => digits_of radix (acc * radix + d) (S count) r
    | None => (acc, count, bs)
    end
  | [] => (acc, count, bs)
  end.

(** [Parser::read_number]: at least one digit, at most [max], no leading zero unless allowed,
    within the type. *)
Definition read_number (radix : Z) (max : nat) (zero_prefix : bool) (limit : Z) : Parser Z := fun bs =>
  let leading_zero := match bs with x30 :: _ => true | _ => false end in
  let '(n, count, rest) := digits_of radix 0 0 bs in
  if (max <? count)%nat then None
  else if (count =? 0)%nat then None
  else if negb zero_prefix && leading_zero && (1 <? count)%nat then None
  else if n <=? limit then Some (n, rest) else None.

(** [Parser::read_separator]. *)
Definition separated {A} (sep : byte) (index : nat) (p : Parser A) : Parser A := fun bs =>
  match index with
  | O => p bs
  | S _ => match given_char sep bs with Some (_, r) => p r | None => None end
  end.

Definition DOT : byte := x2e.
Definition COLON : byte := x3a.

Fixpoint read_octets (count index : nat) (acc : Z) : Parser Z := fun bs =>
  match count with
  | O => Some (acc, bs)
  | S n =>
    match separated DOT index (read_number 10 3 false 255) bs with
    | Some (octet, r) => read_octets n (S index) (acc * 256 + octet) r
    | None => None
    end
  end.

Definition read_ipv4_addr : Parser Z := read_octets 4 0 0.

(** [read_groups]: the groups read, whether they end in an IPv4 address, and the rest. *)
Fixpoint read_groups (left : nat) (index : nat) (bs : list byte) : list Z * bool * list byte :=
  match left with
  | O => ([], false, bs)
  | S n =>
    let embedded := if (1 <=? n)%nat then separated COLON index read_ipv4_addr bs else None in
    match embedded with
    | Some (a, r) => ([a / 65536; a mod 65536], true, r)
    | None =>
      match separated COLON index (read_number 16 4 true 65535) bs with
      | Some (g, r) => let '(gs, v4, r') := read_groups n (S index) r in (g :: gs, v4, r')
      | None => ([], false, bs)
      end
    end
  end.

Definition of_groups (gs : list Z) : Z := fold_left (fun acc g => acc * 65536 + g) gs 0.

Definition read_ipv6_addr : Parser Z := fun bs =>
  let '(head, head_ipv4, r) := read_groups 8 0 bs in
  if (length head =? 8)%nat then Some (of_groups head, r)
  else if head_ipv4 then None
  else match given_char COLON r with
  | None => None
  | Some (_, r1) =>
    match given_char COLON r1 with
    | None => None
    | Some (_, r2) =>
      let '(tail, _, r3) := read_groups (8 - (length head + 1)) 0 r2 in
      Some (of_groups (head ++ repeat 0 (8 - length head - length tail) ++ tail), r3)
    end
  end.

(** [IpAddr::from_str]: IPv4 first, then IPv6, and nothing left over. *)
Definition ip_from_str (s : string) : option IpAddr :=
  let bs := bytes_of s in
  let parsed := match read_ipv4_addr bs with
                | Some (a, r) => Some (V4 a, r)
                | None => match read_ipv6_addr bs with Some (a, r) => Some (V6 a, r) | None => None end
                end in
  match parsed with Some (a, []) => Some a | _ => None end.

(** ** Blocks of addresses *)

Record PeerBlock := mkBlock { block_address : IpAddr; block_prefix : Z }.

#[global] Instance peer_block_eq_dec : EqDecision PeerBlock.
Proof. solve_decision. Defined.

(** [uN::MAX << (N - width)], or no bit at all for a prefix of nothing. *)
Definition prefix_mask (n width : Z) : Z :=
  if width =? 0 then 0 else Z.shiftl (2 ^ n - 1) (n - width) mod 2 ^ n.

(** [PeerBlock::contains]. *)
Definition contains (block : PeerBlock) (address : IpAddr) : bool :=
  match block_address block, address with
  | V4 b, V4 candidate =>
    Z.land b (prefix_mask 32 (block_prefix block)) =? Z.land candidate (prefix_mask 32 (block_prefix block))
  | V6 b, V6 candidate =>
    Z.land b (prefix_mask 128 (block_prefix block)) =? Z.land candidate (prefix_mask 128 (block_prefix block))
  | _, _ => false
  end.

Record InvalidPeerBlock := mkInvalidBlock { invalid_written : string; invalid_detail : string }.

Definition address_width (a : IpAddr) : Z := match a with V4 _ => 32 | V6 _ => 128 end.

(** [PeerBlock::from_str]. *)
Definition block_from_str (written : string) : result PeerBlock InvalidPeerBlock :=
  let written := trim written in
  let '(address, prefix) := match split_once x2f written with
                            | Some (a, p) => (a, Some p)
                            | None => (written, None)
                            end in
  let? address := ok_or (ip_from_str address)
    (mkInvalidBlock written "the address part is not an IP address") in
  let width := address_width address in
  let? prefix := match prefix with
    | None => Ok width
    | Some prefix =>
      let? prefix := ok_or (parse_uint 255 (bytes_of prefix))
        (mkInvalidBlock written "the prefix is not a number") in
      if width <? prefix then Err (mkInvalidBlock written "the prefix is wider than the address")
      else Ok prefix
    end in
  Ok (mkBlock address prefix).

Definition invalid_block_display (e : InvalidPeerBlock) : string :=
  "`" +:+ invalid_written e +:+ "` is not an address or an address block: " +:+ invalid_detail e.

(** ** The bounds *)

Definition DEFAULT_CONNECTIONS : Z := 1024.
Definition DEFAULT_CONNECTIONS_PER_PEER : Z := 256.
Definition DEFAULT_WRITE_STALL_TIMEOUT : Z := 30.
Definition DEFAULT_CONCURRENT_REQUESTS : Z := 256.
Definition DEFAULT_REQUEST_TIMEOUT : Z := 30.
Definition DEFAULT_HANDSHAKE_TIMEOUT : Z := 10.
Definition DEFAULT_HEADER_TIMEOUT : Z := 10.
Definition DEFAULT_BODY_BYTES : Z := 1024 * 1024.
Definition DEFAULT_HEADER_BYTES : Z := 64 * 1024.

Record Limits := mkLimits {
  connections : Z;
  connections_per_peer : Z;
  peer_exempt : list PeerBlock;
  concurrent_requests : Z;
  request_timeout : Z;
  handshake_timeout : Z;
  header_timeout : Z;
  body_bytes : Z;
  header_bytes : Z;
  connection_lifetime : option Z;
  write_stall_timeout : Z }.

(** [Limits::default]. *)
Definition default_limits : Limits :=
  mkLimits DEFAULT_CONNECTIONS DEFAULT_CONNECTIONS_PER_PEER [] DEFAULT_CONCURRENT_REQUESTS
    DEFAULT_REQUEST_TIMEOUT DEFAULT_HANDSHAKE_TIMEOUT DEFAULT_HEADER_TIMEOUT DEFAULT_BODY_BYTES
    DEFAULT_HEADER_BYTES None DEFAULT_WRITE_STALL_TIMEOUT.

(** [Limits::is_peer_exempt]. *)
Definition is_peer_exempt (l : Limits) (address : IpAddr) : bool :=
  existsb (fun block => contains block address) (peer_exempt l).

(** ** Properties *)

Definition block_wf (b : PeerBlock) : Prop :=
  ip_valid (block_address b) /\ 0 <= block_prefix b <= address_width (block_address b).

Example parse_blocks :
  map (fun s => match block_from_str s with Ok b => Some b | Err _ => None end)
    ["10.7.0.4"; " 10.0.0.0/8 "; "::1"; "fd00::/8"; "::ffff:1.2.3.4"; "1:2:3:4:5:6:7::"; "010.0.0.1";
     "10.0.0.0/33"; "1.2.3"; "1::2::3"; "::/129"; "0.0.0.0/0"; "1:2:3:4:5:6:7:8:9"]
  = [Some (mkBlock (V4 (10 * 2 ^ 24 + 7 * 2 ^ 16 + 4)) 32); Some (mkBlock (V4 (10 * 2 ^ 24)) 8);
     Some (mkBlock (V6 1) 128); Some (mkBlock (V6 (0xfd * 2 ^ 120)) 8);
     Some (mkBlock (V6 (0xffff * 2 ^ 32 + 0x01020304)) 128);
     Some (mkBlock (V6 (0x00010002000300040005000600070000)) 128); None; None; None; None; None;
     Some (mkBlock (V4 0) 0); None].
Proof. vm_compute. reflexivity. Qed.

(** *** What the parser returns is in range *)

Lemma digits_of_nonneg radix acc count bs n c r :
  0 <= radix -> 0 <= acc -> digits_of radix acc count bs = (n, c, r) -> 0 <= n.
Proof.
  intros Hr. revert acc count. induction bs as [|b bs IH]; intros acc count Ha; simpl; [naive_solver|].
  destruct (to_digit radix b) as [d|] eqn:E; [|naive_solver]. apply IH.
  unfold to_digit in E. pose proof (u8_range b).
  destruct (between 48 57 b) eqn:E1; [apply between_spec in E1|];
    [|destruct (between 97 122 b) eqn:E2; [apply between_spec in E2|];
      [|destruct (between 65 90 b) eqn:E3; [apply between_spec in E3|done]]];
    destruct (_ <? radix); simplify_eq; nia.
Qed.

Lemma read_number_range radix max zp limit bs n r :
  0 <= radix -> read_number radix max zp limit bs = Some (n, r) -> 0 <= n <= limit.
Proof.
  intros Hr. unfold read_number. cbv zeta. destruct (digits_of radix 0 0 bs) as [[m c] rest] eqn:E.
  apply digits_of_nonneg in E; [|lia..].
  intros H. destruct (max <? c)%nat, (c =? 0)%nat; [done..|].
  match type of H with (if ?t then _ else _) = _ => destruct t; [done|] end.
  destruct (Z.leb_spec m limit); naive_solver.
Qed.

Lemma separated_Some {A} sep index (p : Parser A) bs x r :
  separated sep index p bs = Some (x, r) -> exists bs', p bs' = Some (x, r).
Proof. destruct index; simpl; [eauto|]. destruct (given_char sep bs) as [[[] r']|]; [eauto|done]. Qed.

Lemma read_octets_range count index acc bs a r :
  0 <= acc -> read_octets count index acc bs = Some (a, r) ->
  acc * 256 ^ Z.of_nat count <= a < (acc + 1) * 256 ^ Z.of_nat count.
Proof.
  revert index acc bs. induction count as [|n IH]; intros index acc bs Ha; cbn [read_octets].
  - intros [= <- <-]. simpl. lia.
  - destruct (separated _ _ _ _) as [[o r']|] eqn:E; [|done].
    apply separated_Some in E as [bs' E]. apply read_number_range in E; [|lia].
    intros H. apply IH in H; [|lia]. rewrite Nat2Z.inj_succ, Z.pow_succ_r by lia.
    assert (0 < 256 ^ Z.of_nat n) by (apply Z.pow_pos_nonneg; lia). nia.
Qed.

Lemma read_ipv4_range bs a r : read_ipv4_addr bs = Some (a, r) -> 0 <= a < 2 ^ 32.
Proof. intros H. apply read_octets_range in H; [|lia]. simpl in H. lia. Qed.

Lemma read_groups_range left index bs gs v4 r :
  read_groups left index bs = (gs, v4, r) ->
  (length gs <= left)%nat /\ Forall (fun g => 0 <= g <= 65535) gs.
Proof.
  revert index bs gs v4 r. induction left as [|n IH]; intros index bs gs v4 r; cbn [read_groups]; cbv zeta.
  { intros [= <- <- <-]. by split. }
  destruct (if (1 <=? n)%nat then separated COLON index read_ipv4_addr bs else None) as [[a r']|] eqn:E.
  - destruct (Nat.leb_spec 1 n); [|done]. apply separated_Some in E as [bs' E].
    apply read_ipv4_range in E. intros [= <- <- <-]. split; [simpl; lia|].
    repeat constructor; Z.to_euclidean_division_equations; lia.
  - destruct (separated COLON index (read_number _ _ _ _) bs) as [[g r']|] eqn:Eg.
    + destruct (read_groups n (S index) r') as [[gs' v4'] r''] eqn:Er. intros H. simplify_eq.
      apply IH in Er as [Hl Hf]. apply separated_Some in Eg. destruct Eg as [bs' Eg].
      apply read_number_range in Eg; [|lia]. split; [simpl; lia|by constructor].
    + intros [= <- <- <-]. split; [simpl; lia|constructor].
Qed.

Lemma of_groups_range gs : Forall (fun g => 0 <= g <= 65535) gs ->
  0 <= of_groups gs < 65536 ^ Z.of_nat (length gs).
Proof.
  intros H. unfold of_groups.
  assert (Hacc : forall acc, 0 <= acc ->
    acc * 65536 ^ Z.of_nat (length gs) <= fold_left (fun acc g => acc * 65536 + g) gs acc
      < (acc + 1) * 65536 ^ Z.of_nat (length gs)).
  { induction H as [|g l Hg _ IH]; intros acc Ha; [simpl; lia|].
    cbn [fold_left length]. rewrite Nat2Z.inj_succ, Z.pow_succ_r by lia.
    specialize (IH (acc * 65536 + g)).
    assert (0 < 65536 ^ Z.of_nat (length l)) by (apply Z.pow_pos_nonneg; lia). nia. }
  specialize (Hacc 0). lia.
Qed.

Lemma read_ipv6_range bs a r : read_ipv6_addr bs = Some (a, r) -> 0 <= a < 2 ^ 128.
Proof.
  unfold read_ipv6_addr. destruct (read_groups 8 0 bs) as [[head v4] r0] eqn:E.
  apply read_groups_range in E as [Hl Hf].
  assert (H8 : forall gs, Forall (fun g => 0 <= g <= 65535) gs -> length gs = 8%nat ->
               0 <= of_groups gs < 2 ^ 128).
  { intros gs Hg He. apply of_groups_range in Hg. rewrite He in Hg. simpl in Hg. lia. }
  destruct (Nat.eqb_spec (length head) 8) as [He|He]; [intros [= <- <-]; auto|].
  destruct v4; [done|]. destruct (given_char _ r0) as [[_ r1]|]; [|done].
  destruct (given_char _ r1) as [[_ r2]|]; [|done].
  destruct (read_groups _ 0 r2) as [[tail ?] r3] eqn:Et. intros [= <- <-].
  apply read_groups_range in Et as [Ht Hft]. apply H8.
  - apply Forall_app. split; [done|]. apply Forall_app. split; [|done].
    apply Forall_forall. intros x Hx. apply list_elem_of_In, repeat_spec in Hx. lia.
  - rewrite !length_app, repeat_length. lia.
Qed.

Lemma ip_from_str_valid s a : ip_from_str s = Some a -> ip_valid a.
Proof.
  unfold ip_from_str. destruct (read_ipv4_addr (bytes_of s)) as [[n r]|] eqn:E4.
  - destruct r; [|done]. intros [= <-]. by apply read_ipv4_range in E4.
  - destruct (read_ipv6_addr (bytes_of s)) as [[n r]|] eqn:E6; [|done].
    destruct r; [|done]. intros [= <-]. by apply read_ipv6_range in E6.
Qed.

Lemma block_from_str_wf s b : block_from_str s = Ok b -> block_wf b.
Proof.
  unfold block_from_str. cbv zeta. 
  set (pair := match split_once _ _ with Some _ => _ | None => _ end). destruct pair as [addr pfx].
  intros H. run_inv. apply ip_from_str_valid in H. split; [done|]. simpl.
  assert (0 <= address_width x) by (destruct x; simpl; lia).
  destruct pfx as [p|]; run_inv; [|simplify_eq; lia].
  destruct (_ <? _) eqn:E; [done|]. run_inv. simplify_eq. bool_to_prop.
  unfold parse_uint, in_range in *. repeat case_match; simplify_eq; bool_to_prop; lia.
Qed.

(** *** A mask keeps exactly the first bits *)

Lemma mask_equal n p a b :
  0 <= p <= n -> 0 <= a < 2 ^ n -> 0 <= b < 2 ^ n ->
  (Z.land a (prefix_mask n p) =? Z.land b (prefix_mask n p)) = true <->
  forall i, n - p <= i < n -> Z.testbit a i = Z.testbit b i.
Proof.
  intros Hp Ha Hb. rewrite Z.eqb_eq.
  assert (Hm : forall i, 0 <= i -> Z.testbit (prefix_mask n p) i = (n - p <=? i) && (i <? n)).
  { intros i Hi. unfold prefix_mask. destruct (Z.eqb_spec p 0) as [->|Hp0].
    - rewrite Z.bits_0. symmetry. apply andb_false_iff. rewrite Z.leb_gt, Z.ltb_ge. lia.
    - rewrite Z.testbit_mod_pow2 by lia. rewrite Z.shiftl_spec by lia.
      rewrite andb_comm. replace (2 ^ n - 1) with (Z.ones n) by (rewrite Z.ones_equiv; lia).
      destruct (Z.ltb_spec i n); [|by rewrite !andb_false_r]. rewrite !andb_true_r.
      destruct (Z.leb_spec (n - p) i); [apply Z.ones_spec_low|apply Z.testbit_neg_r]; lia. }
  split.
  - intros H i Hi. apply (f_equal (fun z => Z.testbit z i)) in H.
    rewrite !Z.land_spec, Hm in H by lia.
    rewrite (proj2 (Z.leb_le _ _)), (proj2 (Z.ltb_lt _ _)), !andb_true_r in H by lia. done.
  - intros H. apply Z.bits_inj'. intros i Hi. rewrite !Z.land_spec, Hm by lia.
    destruct (Z.leb_spec (n - p) i), (Z.ltb_spec i n); simpl; rewrite ?andb_false_r, ?andb_true_r; auto.
Qed.

(** A block of addresses means what it says: whatever text it was read from, its address is an
    IPv4 or IPv6 address and its prefix fits in it (so the shift of the mask is in range); and it
    contains exactly the addresses of its own family that agree with it on the first [prefix]
    bits. *)
Theorem block_contains_its_prefix (s : string) (b : PeerBlock) (a : IpAddr) :
  block_from_str s = Ok b -> ip_valid a ->
  block_wf b /\
  (contains b a = true <->
   address_width a = address_width (block_address b) /\
   forall i, address_width a - block_prefix b <= i < address_width a ->
     match block_address b, a with
     | V4 x, V4 y | V6 x, V6 y => Z.testbit x i = Z.testbit y i
     | _, _ => False
     end).
Proof.
  intros Hb Ha. apply block_from_str_wf in Hb as [Hv Hp]. split; [by split|]. unfold contains.
  destruct b as [[x|x] p], a as [y|y]; simpl in *; [|naive_solver lia..|]; rewrite mask_equal by lia; naive_solver.
Qed.

Lemma block_contains_its_prefix_witness :
  block_from_str "10.0.0.0/8" = Ok (mkBlock (V4 (10 * 2 ^ 24)) 8) /\
  contains (mkBlock (V4 (10 * 2 ^ 24)) 8) (V4 (10 * 2 ^ 24 + 77)) = true.
Proof.
  assert (H : block_from_str "10.0.0.0/8" = Ok (mkBlock (V4 (10 * 2 ^ 24)) 8)) by (vm_compute; reflexivity).
  split; [exact H|].
  apply (block_contains_its_prefix _ _ (V4 (10 * 2 ^ 24 + 77)) H); [simpl; lia|]. split; [reflexivity|].
  intros i Hi. cbn in Hi.
  assert (Hc : i = 24 \/ i = 25 \/ i = 26 \/ i = 27 \/ i = 28 \/ i = 29 \/ i = 30 \/ i = 31) by lia.
  repeat (destruct Hc as [->|Hc]; [reflexivity|]). by subst i.
Defined.
