(* ===== verification/Guard.v ===== *)
(** * Bounding the sockets of a surface ([crates/pic-x-transport/src/guard.rs])

    [LimitedAcceptor] hands each connection a permit of the pool, a place in the count of its
    address, and a place in the gauge; each is given back by a destructor. Accepting tasks run at
    the same time, so the acceptor is a shared state whose operations are the atomic ones of the
    code (the semaphore, the counters, the map under its lock), and the system is a transition
    system over connections that interleaves them. [accept] is the code of one task on its own.
    The second part is [Guarded], the stream, with its lifetime and its write-stall bound. *)
From S2P Require Import Prelude Rust Limits.
Local Open Scope Z_scope.
Local Open Scope rust_scope.

(** ** The acceptor *)

Record PeerHeld := mkPeerHeld { peer_held : Z; peer_warned : bool }.

(** What the acceptor reports: [REFUSED] by scope, [ACCEPTED], and the gauge [CONNECTIONS]. *)
Inductive Measure := CountRefused (scope : string) | CountAccepted | SetConnections (held : Z).

(** What every clone of the acceptor shares. *)
Record LimitedAcceptor := mkAcceptor {
  permits : Z;
  peers : gmap IpAddr PeerHeld;
  peers_poisoned : bool;
  saturated : bool;
  held : Z;
  measures : list Measure }.

Definition with_permits (n : Z) (s : LimitedAcceptor) : LimitedAcceptor :=
  mkAcceptor n (peers s) (peers_poisoned s) (saturated s) (held s) (measures s).
Definition with_peers (m : gmap IpAddr PeerHeld) (s : LimitedAcceptor) : LimitedAcceptor :=
  mkAcceptor (permits s) m (peers_poisoned s) (saturated s) (held s) (measures s).
Definition poison (s : LimitedAcceptor) : LimitedAcceptor :=
  mkAcceptor (permits s) (peers s) true (saturated s) (held s) (measures s).

(** [io::Error]: its kind and its text. *)
Record IoError := mkIoError { io_kind : string; io_text : string }.

Section Acceptor.
Context (limits : Limits).

(** [LimitedAcceptor::new]. *)
Definition acceptor_new : LimitedAcceptor := mkAcceptor (connections limits) ∅ false false 0 [].

(** [Semaphore::try_acquire_owned], and the drop of what it returned. *)
Definition try_acquire (s : LimitedAcceptor) : option LimitedAcceptor :=
  if 0 <? permits s then Some (with_permits (permits s - 1) s) else None.
Definition drop_permit (s : LimitedAcceptor) : LimitedAcceptor := with_permits (permits s + 1) s.

(** [LimitedAcceptor::admit_peer]: the address to take off the count when the connection ends. *)
Definition admit_peer (address : option IpAddr) (s : LimitedAcceptor)
  : result (option IpAddr) unit * LimitedAcceptor :=
  let bound := connections_per_peer limits in
  match address with
  | None => (Ok None, s)
  | Some address =>
    if (bound =? 0) || is_peer_exempt limits address then (Ok None, s)
    else if peers_poisoned s then (Err tt, s)
    else
      let entry := default (mkPeerHeld 0 false) (peers s !! address) in
      if bound <=? peer_held entry
      then (Err tt, with_peers (<[address := mkPeerHeld (peer_held entry) true]> (peers s)) s)
      else (Ok (Some address),
            with_peers (<[address := mkPeerHeld (peer_held entry + 1) (peer_warned entry)]> (peers s)) s)
  end.

(** [PeerReleased::drop]. *)
Definition drop_peer_released (address : IpAddr) (s : LimitedAcceptor) : LimitedAcceptor :=
  if peers_poisoned s then s
  else match peers s !! address with
  | None => s
  | Some entry =>
    let left := saturating_sub (peer_held entry) 1 in
    if left =? 0 then with_peers (delete address (peers s)) s
    else with_peers (<[address := mkPeerHeld left (peer_warned entry)]> (peers s)) s
  end.

(** The refusal of a full pool, the refusal of a full address, and the admission. *)
Definition refuse_pool (s : LimitedAcceptor) : LimitedAcceptor :=
  mkAcceptor (permits s) (peers s) (peers_poisoned s) true (held s) (measures s ++ [CountRefused "pool"]).
Definition refuse_peer (s : LimitedAcceptor) : LimitedAcceptor :=
  mkAcceptor (permits s) (peers s) (peers_poisoned s) (saturated s) (held s)
    (measures s ++ [CountRefused "peer"]).
Definition count_accepted (s : LimitedAcceptor) : LimitedAcceptor :=
  mkAcceptor (permits s) (peers s) (peers_poisoned s) false (held s + 1)
    (measures s ++ [CountAccepted; SetConnections (held s + 1)]).

(** [Released::drop]. *)
Definition drop_released (s : LimitedAcceptor) : LimitedAcceptor :=
  mkAcceptor (permits s) (peers s) (peers_poisoned s) (saturated s) (held s - 1)
    (measures s ++ [SetConnections (held s - 1)]).

Definition POOL_FULL : IoError :=
  mkIoError "ConnectionRefused" "the surface is holding as many connections as it is allowed to".
Definition PEER_FULL : IoError :=
  mkIoError "ConnectionRefused"
    "this address is holding as many connections as one address is allowed to".

(** [LimitedAcceptor::accept], run by one task alone: [handshake] is what the acceptor underneath
    answers. The guards of an open connection are its permit, its place in the gauge and the
    address it counts for. *)
Definition accept (address : option IpAddr) (handshake : option IoError) (s : LimitedAcceptor)
  : result (option IpAddr) IoError * LimitedAcceptor :=
  match try_acquire s with
  | None => (Err POOL_FULL, refuse_pool s)
  | Some s1 =>
    match admit_peer address s1 with
    | (Err _, s2) => (Err PEER_FULL, drop_permit (refuse_peer s2))
    | (Ok peer, s2) =>
      let s3 := count_accepted s2 in
      match handshake with
      | None => (Ok peer, s3)
      | Some e =>
        let s4 := drop_released (drop_permit s3) in
        (Err e, match peer with Some a => drop_peer_released a s4 | None => s4 end)
      end
    end
  end.

(** ** Connections side by side *)

Inductive Phase := Arrived | Permitted | PeerAdmitted | Handshaking | Open | Dropping.

#[global] Instance phase_eq_dec : EqDecision Phase.
Proof. solve_decision. Defined.

(** A connection: where it comes from, how far it got, and the guards it holds. *)
Record Connection := mkConnection {
  from : option IpAddr;
  phase : Phase;
  has_permit : bool;
  counted : bool;
  peer_guard : option IpAddr }.

Record System := mkSystem { acceptor : LimitedAcceptor; live : gmap nat Connection }.

Inductive Event :=
| Arrive (id : nat) (address : option IpAddr)
| TakePermit (id : nat)
| AdmitPeer (id : nat)
| Count (id : nat)
| Handshake (id : nat)
| End (id : nat)
| DropPermit (id : nat)
| DropReleased (id : nat)
| DropPeer (id : nat)
| Poison.

Definition put (id : nat) (c : Connection) (s : LimitedAcceptor) (sys : System) : System :=
  mkSystem s (<[id := c]> (live sys)).

(** One atomic step; [None] when the step is not this connection's next one. Between the permit and
    the count nothing waits, so a task can be stopped only from [Handshaking] on; guards are
    dropped in any order. *)
Definition fire (e : Event) (sys : System) : option System :=
  let s := acceptor sys in
  match e with
  | Poison => Some (mkSystem (poison s) (live sys))
  | Arrive id address =>
    match live sys !! id with
    | Some _ => None
    | None => Some (put id (mkConnection address Arrived false false None) s sys)
    end
  | TakePermit id =>
    match live sys !! id with
    | Some (mkConnection address Arrived p c g) =>
      match try_acquire s with
      | Some s' => Some (put id (mkConnection address Permitted true c g) s' sys)
      | None => Some (put id (mkConnection address Dropping p c g) (refuse_pool s) sys)
      end
    | _ => None
    end
  | AdmitPeer id =>
    match live sys !! id with
    | Some (mkConnection address Permitted p c _) =>
      match admit_peer address s with
      | (Ok g, s') => Some (put id (mkConnection address PeerAdmitted p c g) s' sys)
      | (Err _, s') => Some (put id (mkConnection address Dropping p c None) (refuse_peer s') sys)
      end
    | _ => None
    end
  | Count id =>
    match live sys !! id with
    | Some (mkConnection address PeerAdmitted p _ g) =>
      Some (put id (mkConnection address Handshaking p true g) (count_accepted s) sys)
    | _ => None
    end
  | Handshake id =>
    match live sys !! id with
    | Some (mkConnection address Handshaking p c g) =>
      Some (put id (mkConnection address Open p c g) s sys)
    | _ => None
    end
  | End id =>
    match live sys !! id with
    | Some (mkConnection address (Handshaking | Open) p c g) =>
      Some (put id (mkConnection address Dropping p c g) s sys)
    | _ => None
    end
  | DropPermit id =>
    match live sys !! id with
    | Some (mkConnection address Dropping true c g) =>
      Some (put id (mkConnection address Dropping false c g) (drop_permit s) sys)
    | _ => None
    end
  | DropReleased id =>
    match live sys !! id with
    | Some (mkConnection address Dropping p true g) =>
      Some (put id (mkConnection address Dropping p false g) (drop_released s) sys)
    | _ => None
    end
  | DropPeer id =>
    match live sys !! id with
    | Some (mkConnection address Dropping p c (Some a)) =>
      Some (put id (mkConnection address Dropping p c None) (drop_peer_released a s) sys)
    | _ => None
    end
  end.

Fixpoint fire_all (es : list Event) (sys : System) : option System :=
  match es with
  | [] => Some sys
  | e :: es' => match fire e sys with Some sys' => fire_all es' sys' | None => None end
  end.

Inductive reachable : System -> Prop :=
| reachable_new : reachable (mkSystem acceptor_new ∅)
| reachable_fire sys e sys' : reachable sys -> fire e sys = Some sys' -> reachable sys'.
End Acceptor.

(** ** The stream of an open connection *)

Inductive Poll (A : Type) : Type := Ready (value : A) | Pending.
Arguments Ready {A} value.
Arguments Pending {A}.

(** [Guarded], without the guards it only holds: the instant its lifetime ends, how long a write may
    make no progress, and the instant the armed timer fires. *)
Record Guarded (I : Type) := mkGuarded {
  inner : I;
  deadline : option Z;
  stall : Z;
  stalled : option Z }.
Arguments mkGuarded {I}.
Arguments inner {I}.
Arguments deadline {I}.
Arguments stall {I}.
Arguments stalled {I}.

Definition LIFETIME_OVER : IoError := mkIoError "TimedOut" "the connection reached its configured lifetime".
Definition STOPPED_READING : IoError := mkIoError "TimedOut" "the peer stopped reading its response".

Section Stream.
(** The stream underneath. *)
Context {I : Type}
  (inner_read : I -> Poll (result (list byte) IoError) * I)
  (inner_write : list byte -> I -> Poll (result Z IoError) * I)
  (inner_write_vectored : list (list byte) -> I -> Poll (result Z IoError) * I)
  (inner_flush inner_shutdown : I -> Poll (result unit IoError) * I).

(** What [accept] wraps the stream in. *)
Definition guarded_new (limits : Limits) (now : Z) (i : I) : Guarded I :=
  mkGuarded i ((fun lifetime => now + lifetime) <$> connection_lifetime limits)
    (write_stall_timeout limits) None.

Definition with_inner {A} (g : Guarded I) (r : A * I) : A * Guarded I :=
  (fst r, mkGuarded (snd r) (deadline g) (stall g) (stalled g)).

(** [Guarded::expired]. *)
Definition expired (now : Z) (g : Guarded I) : option IoError :=
  match deadline g with
  | None => None
  | Some d => if now <? d then None else Some LIFETIME_OVER
  end.

Definition poll_read (now : Z) (g : Guarded I) : Poll (result (list byte) IoError) * Guarded I :=
  match expired now g with
  | Some e => (Ready (Err e), g)
  | None => with_inner g (inner_read (inner g))
  end.

Definition poll_write (now : Z) (bytes : list byte) (g : Guarded I) : Poll (result Z IoError) * Guarded I :=
  match expired now g with
  | Some e => (Ready (Err e), g)
  | None =>
    match inner_write bytes (inner g) with
    | (Ready r, i) => (Ready r, mkGuarded i (deadline g) (stall g) None)
    | (Pending, i) =>
      let timer := default (now + stall g) (stalled g) in
      let g' := mkGuarded i (deadline g) (stall g) (Some timer) in
      if timer <=? now then (Ready (Err STOPPED_READING), g') else (Pending, g')
    end
  end.

Definition poll_flush (g : Guarded I) : Poll (result unit IoError) * Guarded I :=
  with_inner g (inner_flush (inner g)).
Definition poll_shutdown (g : Guarded I) : Poll (result unit IoError) * Guarded I :=
  with_inner g (inner_shutdown (inner g)).

(** The vectored write takes the slices to the stream underneath as they are. *)
Definition poll_write_vectored (slices : list (list byte)) (g : Guarded I)
  : Poll (result Z IoError) * Guarded I :=
  with_inner g (inner_write_vectored slices (inner g)).

(** A writer that keeps asking: the answers to writes polled at the given instants. *)
Fixpoint poll_writes (polls : list (Z * list byte)) (g : Guarded I)
  : list (Poll (result Z IoError)) * Guarded I :=
  match polls with
  | [] => ([], g)
  | (now, bytes) :: rest =>
    let '(r, g1) := poll_write now bytes g in
    let '(rs, g2) := poll_writes rest g1 in (r :: rs, g2)
  end.
End Stream.

(** ** Counting connections *)

Definition total (f : Connection -> Z) (m : gmap nat Connection) : Z :=
  map_fold (fun _ c n => f c + n) 0 m.

Lemma total_empty f : total f ∅ = 0.
Proof. apply map_fold_empty. Qed.

Lemma total_insert_new f m k c : m !! k = None -> total f (<[k := c]> m) = f c + total f m.
Proof. intros H. unfold total. rewrite map_fold_insert_L; [done|intros; lia|done]. Qed.

Lemma total_delete f m k c : m !! k = Some c -> total f m = f c + total f (delete k m).
Proof.
  intros H. rewrite <- (insert_delete_id m k c) at 1 by done.
  apply total_insert_new. by rewrite lookup_delete_eq.
Qed.

Lemma total_update f m k c c' : m !! k = Some c -> total f (<[k := c']> m) = total f m - f c + f c'.
Proof.
  intros H. rewrite (total_delete f m k c H), <- insert_delete_eq, total_insert_new; [lia|].
  by rewrite lookup_delete_eq.
Qed.

Lemma total_mono f g m : map_Forall (fun _ c => f c <= g c) m -> total f m <= total g m.
Proof.
  induction m as [|k c m Hk IH] using map_ind; [by rewrite !total_empty|].
  intros H. rewrite !total_insert_new by done.
  apply map_Forall_insert in H as [Hc Hm]; [|done]. specialize (IH Hm). lia.
Qed.

Lemma total_zero f m : map_Forall (fun _ c => f c = 0) m -> total f m = 0.
Proof.
  induction m as [|k c m Hk IH] using map_ind; [by rewrite total_empty|].
  intros [Hc Hm]%map_Forall_insert; [|done]. rewrite total_insert_new, Hc, IH by done. lia.
Qed.

Lemma total_nonneg f m : (forall c, 0 <= f c) -> 0 <= total f m.
Proof.
  intros H. induction m as [|k c m Hk IH] using map_ind; [by rewrite total_empty|].
  rewrite total_insert_new by done. specialize (H c). lia.
Qed.

Lemma total_ge f m k c : (forall c, 0 <= f c) -> m !! k = Some c -> f c <= total f m.
Proof.
  intros Hf H. rewrite (total_delete f m k c H). pose proof (total_nonneg f (delete k m) Hf). lia.
Qed.

Definition one (b : bool) : Z := if b then 1 else 0.

(** Connections that hold a permit, that the gauge counts, that hold a place of address [a], that
    are open, and that are open from [a]. *)
Definition permit_of (c : Connection) : Z := one (has_permit c).
Definition gauge_of (c : Connection) : Z := one (counted c).
Definition place_of (a : IpAddr) (c : Connection) : Z := one (bool_decide (peer_guard c = Some a)).
Definition open_of (c : Connection) : Z := one (bool_decide (phase c = Open)).
Definition open_from (a : IpAddr) (c : Connection) : Z :=
  one (bool_decide (phase c = Open /\ from c = Some a)).

Lemma one_nonneg b : 0 <= one b.
Proof. destruct b; simpl; lia. Qed.

(** ** The invariant *)

Section Invariant.
Context (limits : Limits).
Context (Hpool : 0 <= connections limits) (Hpeer : 0 <= connections_per_peer limits).

(** Whether connections from [a] are counted by address. *)
Definition bounded (a : IpAddr) : Prop :=
  connections_per_peer limits <> 0 /\ is_peer_exempt limits a = false.

(** What a connection holds at each phase. *)
Definition guards_ok (c : Connection) : Prop :=
  (forall a, peer_guard c = Some a -> from c = Some a /\ bounded a) /\
  match phase c with
  | Arrived => has_permit c = false /\ counted c = false /\ peer_guard c = None
  | Permitted => has_permit c = true /\ counted c = false /\ peer_guard c = None
  | PeerAdmitted =>
    has_permit c = true /\ counted c = false /\
    (forall a, from c = Some a -> bounded a -> peer_guard c = Some a)
  | Handshaking | Open =>
    has_permit c = true /\ counted c = true /\
    (forall a, from c = Some a -> bounded a -> peer_guard c = Some a)
  | Dropping => True
  end.

(** The count of an address against the connections that hold a place of it. *)
Definition count_ok (poisoned : bool) (places : Z) (entry : option PeerHeld) : Prop :=
  match entry with
  | None => places = 0
  | Some e =>
    1 <= peer_held e <= connections_per_peer limits /\ places <= peer_held e /\
    (poisoned = false -> places = peer_held e)
  end.

Record invariant (sys : System) : Prop := {
  inv_guards : map_Forall (fun _ c => guards_ok c) (live sys);
  inv_permits : permits (acceptor sys) + total permit_of (live sys) = connections limits;
  inv_nonneg : 0 <= permits (acceptor sys);
  inv_held : held (acceptor sys) = total gauge_of (live sys);
  inv_peers : forall a, count_ok (peers_poisoned (acceptor sys)) (total (place_of a) (live sys))
                          (peers (acceptor sys) !! a) }.

Lemma invariant_new : invariant (mkSystem (acceptor_new limits) ∅).
Proof.
  constructor; simpl; try rewrite total_empty; try lia; [apply map_Forall_empty|].
  intros a. by rewrite total_empty, lookup_empty.
Qed.

(** Changing one connection changes every total by that connection's share. *)
Lemma invariant_update sys id c c' s :
  invariant sys -> live sys !! id = Some c -> guards_ok c' ->
  permits s = permits (acceptor sys) + permit_of c - permit_of c' -> 0 <= permits s ->
  held s = held (acceptor sys) - gauge_of c + gauge_of c' ->
  (forall a, count_ok (peers_poisoned s) (total (place_of a) (live sys) - place_of a c + place_of a c')
               (peers s !! a)) ->
  invariant (put id c' s sys).
Proof.
  intros [Hg Hp Hn Hh Hc] Hid Hg' Hp' Hn' Hh' Hc'. constructor; simpl; rewrite ?(total_update _ _ _ c) by done.
  - by apply map_Forall_insert_2.
  - lia.
  - done.
  - lia.
  - intros a. rewrite (total_update _ _ _ c) by done. apply Hc'.
Qed.

(** The same, when the places of the addresses do not change. *)
Lemma invariant_update_same sys id c c' s :
  invariant sys -> live sys !! id = Some c -> guards_ok c' ->
  permits s = permits (acceptor sys) + permit_of c - permit_of c' -> 0 <= permits s ->
  held s = held (acceptor sys) - gauge_of c + gauge_of c' ->
  peers s = peers (acceptor sys) -> peers_poisoned s = peers_poisoned (acceptor sys) ->
  peer_guard c' = peer_guard c ->
  invariant (put id c' s sys).
Proof.
  intros Hi Hid Hg Hp Hn Hh Hm Hpo Hpg. eapply invariant_update; [done..|]. intros a.
  assert (Hsame : place_of a c' = place_of a c) by (unfold place_of; by rewrite Hpg).
  rewrite Hm, Hpo, Hsame.
  replace (total (place_of a) (live sys) - place_of a c + place_of a c)
    with (total (place_of a) (live sys)) by lia. apply Hi.
Qed.

Lemma place_other a b c : peer_guard c = Some b -> a <> b -> place_of a c = 0.
Proof. intros H Hn. unfold place_of. rewrite H, bool_decide_false; [done|]. naive_solver. Qed.

Lemma place_none a c : peer_guard c = None -> place_of a c = 0.
Proof. intros H. unfold place_of. by rewrite H. Qed.

Lemma place_self a c : peer_guard c = Some a -> place_of a c = 1.
Proof. intros H. unfold place_of. by rewrite H, bool_decide_true. Qed.

(** Admission takes one place of the address it counts, or none. *)
Lemma admit_peer_counts address s g s' places :
  (forall a, count_ok (peers_poisoned s) (places a) (peers s !! a)) ->
  admit_peer limits address s = (Ok g, s') ->
  permits s' = permits s /\ held s' = held s /\ peers_poisoned s' = peers_poisoned s /\
  (forall a, g = Some a -> address = Some a /\ bounded a) /\
  (forall a, address = Some a -> bounded a -> g = Some a) /\
  forall a, count_ok (peers_poisoned s') (places a + one (bool_decide (g = Some a))) (peers s' !! a).
Proof.
  intros Hc. unfold admit_peer. cbv zeta.
  assert (Hnone : forall a, count_ok (peers_poisoned s) (places a + one (bool_decide (None = Some a))) (peers s !! a))
    by (intros a; simpl; rewrite Z.add_0_r; apply Hc).
  destruct address as [x|]; [|intros [= <- <-]; naive_solver].
  destruct (_ || _) eqn:E.
  - intros [= <- <-]. split_and!; try done. intros a [= ->] [Hb He]. bool_to_prop.
    destruct E as [E|E]; [bool_to_prop; done|congruence].
  - bool_to_prop. destruct (peers_poisoned s) eqn:Ep; [done|].
    destruct (Z.leb_spec (connections_per_peer limits)
                (peer_held (default (mkPeerHeld 0 false) (peers s !! x)))) as [Hl|Hl]; [done|].
    intros [= <- <-]. split_and!; try done; [intros a [= <-]; by repeat split|]. simpl. rewrite Ep. intros a.
    specialize (Hc a). destruct (decide (a = x)) as [->|Hax].
    + rewrite lookup_insert_eq, bool_decide_true by done. simpl.
      destruct (peers s !! x) as [e|]; simpl in *; lia.
    + rewrite lookup_insert_ne, bool_decide_false, Z.add_0_r by naive_solver. done.
Qed.

(** A refusal changes no count. *)
Lemma admit_peer_refusal address s s' places :
  (forall a, count_ok (peers_poisoned s) (places a) (peers s !! a)) ->
  admit_peer limits address s = (Err tt, s') ->
  permits s' = permits s /\ held s' = held s /\
  forall a, count_ok (peers_poisoned s') (places a) (peers s' !! a).
Proof.
  intros Hc. unfold admit_peer. cbv zeta. destruct address as [x|]; [|done].
  destruct (_ || _) eqn:E; [done|]. bool_to_prop.
  destruct (peers_poisoned s) eqn:Ep; [intros [= <-]; rewrite Ep; auto|].
  destruct (Z.leb_spec (connections_per_peer limits)
              (peer_held (default (mkPeerHeld 0 false) (peers s !! x)))) as [Hl|Hl]; [|done].
  intros [= <-]. split_and!; try done. simpl. rewrite Ep. intros a.
  destruct (decide (a = x)) as [->|Hax].
  - rewrite lookup_insert_eq. specialize (Hc x). destruct (peers s !! x) as [e|]; simpl in *; [done|lia].
  - rewrite lookup_insert_ne by done. apply Hc.
Qed.

(** Dropping the guard of an address gives one place of it back. *)
Lemma drop_peer_counts x s places :
  (forall a, count_ok (peers_poisoned s) (places a) (peers s !! a)) -> 1 <= places x ->
  let s' := drop_peer_released x s in
  permits s' = permits s /\ held s' = held s /\ peers_poisoned s' = peers_poisoned s /\
  forall a, count_ok (peers_poisoned s') (places a - one (bool_decide (Some x = Some a))) (peers s' !! a).
Proof.
  intros Hc Hx. cbv zeta. unfold drop_peer_released.
  assert (Hne : forall a, a <> x -> one (bool_decide (Some x = Some a)) = 0)
    by (intros a Ha; rewrite bool_decide_false by congruence; done).
  pose proof (Hc x) as Hcx. destruct (peers_poisoned s) eqn:Ep.
  - split_and!; try done. intros a. rewrite Ep. specialize (Hc a).
    pose proof (one_nonneg (bool_decide (Some x = Some a))).
    destruct (decide (a = x)) as [->|Ha].
    + destruct (peers s !! x) as [e|]; simpl in *; [|lia]. split_and!; [lia..|done].
    + by rewrite Hne, Z.sub_0_r.
  - destruct (peers s !! x) as [e|] eqn:Ex; simpl in Hcx; [|lia]. destruct Hcx as (Hb & Hle & Heq).
    specialize (Heq eq_refl). unfold saturating_sub.
    destruct (Z.eqb_spec (Z.max (peer_held e - 1) 0) 0) as [E0|E0]; simpl; split_and!; try done;
      intros a; rewrite Ep; destruct (decide (a = x)) as [->|Ha];
      rewrite ?lookup_delete_eq, ?lookup_insert_eq, ?bool_decide_true by done;
      rewrite ?lookup_delete_ne, ?lookup_insert_ne, ?Hne, ?Z.sub_0_r by done; auto; simpl; lia.
Qed.

Lemma places_bounded sys id c a :
  invariant sys -> live sys !! id = Some c -> peer_guard c = Some a -> 1 <= total (place_of a) (live sys).
Proof.
  intros _ Hid Hg. rewrite <- (place_self a c Hg). eapply total_ge; [|done]. intros ?. apply one_nonneg.
Qed.

Ltac guards Hg := unfold guards_ok in *; simpl in *; first [tauto | naive_solver].

(** The shares of one connection, computed. *)
Ltac shares := unfold permit_of, gauge_of; simpl; lia.

(** A step that changes no place of an address: the connection's guards, then its shares. *)
Ltac same_places Hi Hg :=
  pose proof (inv_nonneg _ Hi); simpl in Hg; destruct_and? Hg; subst;
  eapply invariant_update_same; try done; solve [guards Hg | simpl; lia | shares | apply Hi].

Lemma take_permit_invariant sys id sys' :
  invariant sys -> fire limits (TakePermit id) sys = Some sys' -> invariant sys'.
Proof.
  intros Hi. simpl. destruct (live sys !! id) as [c|] eqn:Hid; [|done].
  pose proof (inv_guards _ Hi id c Hid) as Hg. destruct c as [address [] p cn g]; try done.
  unfold try_acquire. destruct (Z.ltb_spec 0 (permits (acceptor sys))) as [H|H]; intros [= <-].
  - eapply invariant_update_same; try done; [guards Hg| |simpl; lia|].
    + destruct Hg as (_ & Hp & _). simpl in Hp. subst p. shares.
    + shares.
  - eapply invariant_update_same; try done; [guards Hg| |apply Hi|]; shares.
Qed.

Lemma admit_invariant sys id sys' :
  invariant sys -> fire limits (AdmitPeer id) sys = Some sys' -> invariant sys'.
Proof.
  intros Hi. simpl. destruct (live sys !! id) as [c|] eqn:Hid; [|done].
  pose proof (inv_guards _ Hi id c Hid) as Hg. destruct c as [address [] p cn g]; try done.
  destruct Hg as (_ & Hp & Hcn & Hnone). simpl in Hp, Hcn, Hnone. subst p cn g.
  destruct (admit_peer limits address (acceptor sys)) as [[g|[]] s'] eqn:E; intros [= <-].
  - apply (admit_peer_counts _ _ _ _ (fun a => total (place_of a) (live sys))) in E
      as (Hp & Hh & Hpo & Hg1 & Hg2 & Hc); [|apply Hi].
    eapply invariant_update; try done; [shares|rewrite Hp; apply Hi|shares|].
    intros a. rewrite (place_none a (mkConnection address Permitted true false None)), Z.sub_0_r by done.
      apply Hc.
  - apply (admit_peer_refusal _ _ _ (fun a => total (place_of a) (live sys))) in E as (Hp & Hh & Hc);
      [|apply Hi].
    eapply invariant_update; try done; [shares|simpl; rewrite Hp; apply Hi|shares|].
    intros a. rewrite !place_none, Z.sub_0_r, Z.add_0_r by done. apply Hc.
Qed.

Lemma drop_peer_invariant sys id sys' :
  invariant sys -> fire limits (DropPeer id) sys = Some sys' -> invariant sys'.
Proof.
  intros Hi. simpl. destruct (live sys !! id) as [c|] eqn:Hid; [|done].
  pose proof (inv_guards _ Hi id c Hid) as Hg. destruct c as [address [] p cn [a|]]; try done.
  intros [= <-].
  destruct (drop_peer_counts a (acceptor sys) (fun a => total (place_of a) (live sys))) as (Hp & Hh & Hpo & Hc);
    [apply Hi|by eapply places_bounded|].
  eapply invariant_update; try done; [shares|rewrite Hp; apply Hi|shares|].
  intros b. rewrite (place_none b (mkConnection address Dropping p cn None)), Z.add_0_r by done. apply Hc.
Qed.

(** The connection a step is about, and its guards. *)
Ltac connection H sys id Hi Hid Hg :=
  simpl in H; destruct (live sys !! id) as [c|] eqn:Hid; [|done];
  pose proof (inv_guards _ Hi id c Hid) as Hg; unfold guards_ok in Hg.

(** Every atomic step keeps the invariant. *)
Lemma fire_invariant e sys sys' : invariant sys -> fire limits e sys = Some sys' -> invariant sys'.
Proof.
  destruct e as [id address|id|id|id|id|id|id|id|id|]; intros Hi H.
  - simpl in H. destruct (live sys !! id) eqn:Hid; [done|]. injection H as <-.
    destruct Hi as [Hg Hp Hn Hh Hc]. constructor; simpl; rewrite ?total_insert_new by done; try done.
    + apply map_Forall_insert_2; [|done]. guards Hg.
    + intros a. rewrite total_insert_new by done. rewrite place_none by done. apply Hc.
  - by eapply take_permit_invariant.
  - by eapply admit_invariant.
  - connection H sys id Hi Hid Hg. destruct c as [address [] p cn g]; try done. injection H as <-.
    same_places Hi Hg.
  - connection H sys id Hi Hid Hg. destruct c as [address [] p cn g]; try done. injection H as <-.
    same_places Hi Hg.
  - connection H sys id Hi Hid Hg. destruct c as [address [] p cn g]; try done; injection H as <-;
      same_places Hi Hg.
  - connection H sys id Hi Hid Hg. destruct c as [address [] [] cn g]; try done. injection H as <-.
    same_places Hi Hg.
  - connection H sys id Hi Hid Hg. destruct c as [address [] p [] g]; try done. injection H as <-.
    same_places Hi Hg.
  - by eapply drop_peer_invariant.
  - simpl in H. injection H as <-. destruct Hi as [Hg Hp Hn Hh Hc]. constructor; try done. simpl.
    intros a. specialize (Hc a). destruct (peers (acceptor sys) !! a); simpl in *; [|done]. naive_solver.
Qed.

Lemma reachable_invariant sys : reachable limits sys -> invariant sys.
Proof. induction 1; [apply invariant_new|by eapply fire_invariant]. Qed.

(** *** Draining *)

(** How many of its own steps a connection is from having given everything back. *)
Definition remaining (c : Connection) : Z :=
  match phase c with
  | Arrived => 20
  | Permitted => 19
  | PeerAdmitted => 18
  | Handshaking | Open => 17
  | Dropping => one (has_permit c) + one (counted c) + one (bool_decide (is_Some (peer_guard c)))
  end.

Definition finished (c : Connection) : Prop :=
  phase c = Dropping /\ has_permit c = false /\ counted c = false /\ peer_guard c = None.

Lemma remaining_nonneg c : 0 <= remaining c.
Proof. destruct c as [? [] p cn g]; unfold remaining; simpl; try lia. destruct p, cn, g; simpl; lia. Qed.

(** A connection that still holds something has a step of its own, whatever the others do. *)
Lemma own_step sys id c :
  live sys !! id = Some c -> finished c \/
  exists e c' s, fire limits e sys = Some (put id c' s sys) /\ remaining c' < remaining c.
Proof.
  intros Hid. destruct c as [a ph p cn g].
  assert (Hd : forall p cn g, 0 <= one p + one cn + one (bool_decide (is_Some (A := IpAddr) g)) <= 3)
    by (intros [] [] []; simpl; lia).
  destruct ph.
  - right. exists (TakePermit id). simpl. rewrite Hid.
    destruct (try_acquire (acceptor sys)); do 2 eexists; (split; [reflexivity|]); unfold remaining; simpl;
      [lia|pose proof (Hd p cn g); lia].
  - right. exists (AdmitPeer id). simpl. rewrite Hid.
    destruct (admit_peer limits a (acceptor sys)) as [[g'|[]] s']; do 2 eexists; (split; [reflexivity|]);
      unfold remaining; simpl; [lia|pose proof (Hd p cn None); simpl in *; lia].
  - right. exists (Count id). simpl. rewrite Hid. do 2 eexists. split; [reflexivity|]. unfold remaining; simpl; lia.
  - right. exists (End id). simpl. rewrite Hid. do 2 eexists. split; [reflexivity|].
    unfold remaining; simpl. pose proof (Hd p cn g). lia.
  - right. exists (End id). simpl. rewrite Hid. do 2 eexists. split; [reflexivity|].
    unfold remaining; simpl. pose proof (Hd p cn g). lia.
  - destruct p.
    { right. exists (DropPermit id). simpl. rewrite Hid. do 2 eexists. split; [reflexivity|].
      unfold remaining; simpl. lia. }
    destruct cn.
    { right. exists (DropReleased id). simpl. rewrite Hid. do 2 eexists. split; [reflexivity|].
      unfold remaining; simpl. lia. }
    destruct g as [x|]; [|by left].
    right. exists (DropPeer id). simpl. rewrite Hid. do 2 eexists. split; [reflexivity|].
    unfold remaining; simpl. lia.
Qed.

Lemma all_finished_or_step sys :
  map_Forall (fun _ c => finished c) (live sys) \/
  exists e sys', fire limits e sys = Some sys' /\ total remaining (live sys') < total remaining (live sys).
Proof.
  destruct (decide (map_Forall (fun _ c => remaining c = 0) (live sys))) as [Hz|Hz].
  - destruct (decide (map_Forall (fun _ c => phase c = Dropping /\ has_permit c = false /\
      counted c = false /\ peer_guard c = None) (live sys))) as [Hf|Hf]; [by left|].
    exfalso. apply Hf. intros id c Hid. specialize (Hz id c Hid).
    destruct c as [a [] [] [] []]; unfold remaining in Hz; simpl in *; done.
  - right. apply map_not_Forall in Hz as (id & c & Hid & Hc); [|intros ? ?; apply _].
    destruct (own_step sys id c Hid) as [(Hph & Hp & Hcn & Hg)|(e & c' & s & Hf & Hlt)].
    + exfalso. apply Hc. unfold remaining. by rewrite Hph, Hp, Hcn, Hg.
    + exists e, (put id c' s sys). split; [done|]. simpl. rewrite (total_update _ _ _ c) by done. lia.
Qed.

Lemma drain sys :
  exists es sys', fire_all limits es sys = Some sys' /\ map_Forall (fun _ c => finished c) (live sys').
Proof.
  remember (Z.to_nat (total remaining (live sys))) as n eqn:Hn. revert sys Hn.
  induction n as [n IH] using lt_wf_ind. intros sys ->.
  destruct (all_finished_or_step sys) as [Hf|(e & sys1 & He & Hlt)]; [by exists [], sys|].
  pose proof (total_nonneg remaining (live sys1) remaining_nonneg).
  destruct (IH (Z.to_nat (total remaining (live sys1))) ltac:(lia) sys1 eq_refl) as (es & sys2 & Hes & Hf).
  exists (e :: es), sys2. simpl. rewrite He. done.
Qed.

Lemma fire_all_reachable es sys sys' :
  reachable limits sys -> fire_all limits es sys = Some sys' -> reachable limits sys'.
Proof.
  revert sys. induction es as [|e es IH]; simpl; intros sys Hr H; [by simplify_eq|].
  destruct (fire limits e sys) as [sys1|] eqn:E; [|done]. eapply IH; [|done]. by eapply reachable_fire.
Qed.
End Invariant.

(** ** Properties of the acceptor *)

(** C18: Whatever way accepting tasks, ending connections and their destructors interleave: the
    connections that are open are at most the pool, and the open ones from any address that is
    neither exempt nor unbounded are at most the bound of an address; every permit is either in
    the semaphore or held by a connection, the gauge is exactly the connections counted and not
    yet released, and the table of addresses has an entry, with the exact count and never zero,
    for the addresses that hold a place and for no other (as long as the lock of the table was not
    poisoned). *)
Theorem acceptor_bounds_hold (limits : Limits) (sys : System) :
  0 <= connections limits -> 0 <= connections_per_peer limits -> reachable limits sys ->
  total open_of (live sys) <= connections limits /\
  (forall a, bounded limits a -> total (open_from a) (live sys) <= connections_per_peer limits) /\
  permits (acceptor sys) = connections limits - total permit_of (live sys) /\
  held (acceptor sys) = total gauge_of (live sys) /\
  (peers_poisoned (acceptor sys) = false -> forall a,
     default 0 (peer_held <$> peers (acceptor sys) !! a) = total (place_of a) (live sys) /\
     (peers (acceptor sys) !! a = None <-> total (place_of a) (live sys) = 0)).
Proof.
  intros Hpool Hpeer Hr. apply reachable_invariant in Hr as [Hg Hp Hn Hh Hc]; [|done..].
  split_and!; [| |lia|done|].
  - assert (total open_of (live sys) <= total permit_of (live sys)); [|lia].
    apply total_mono. intros id c Hid. specialize (Hg id c Hid). unfold guards_ok in Hg.
    unfold open_of, permit_of. case_bool_decide as E; [|apply one_nonneg].
    rewrite E in Hg. destruct Hg as (_ & -> & _). done.
  - intros a Ha. assert (total (open_from a) (live sys) <= total (place_of a) (live sys)) as Hle.
    { apply total_mono. intros id c Hid. specialize (Hg id c Hid). unfold guards_ok in Hg.
      unfold open_from, place_of. case_bool_decide as E; [|apply one_nonneg].
      destruct E as [Eo Ef]. rewrite Eo in Hg. destruct Hg as (_ & _ & _ & Hg).
      by rewrite (Hg a Ef Ha), bool_decide_true. }
    specialize (Hc a). destruct (peers (acceptor sys) !! a); simpl in Hc; lia.
  - intros Hpo a. specialize (Hc a). rewrite Hpo in Hc.
    destruct (peers (acceptor sys) !! a); simpl in *; [|done].
    destruct Hc as (? & ? & Heq). rewrite Heq by done. split; [done|]. split; [done|lia].
Qed.

(** Nothing leaks: from every reachable state the connections can end and give back what they
    hold, each by steps of its own that no other connection can hold up, and when they have, the
    pool is whole again, the gauge is zero and the table of addresses is empty. *)
Theorem pool_drains (limits : Limits) (sys : System) :
  0 <= connections limits -> 0 <= connections_per_peer limits -> reachable limits sys ->
  exists es sys', fire_all limits es sys = Some sys' /\
    map_Forall (fun _ c => finished c) (live sys') /\
    permits (acceptor sys') = connections limits /\ held (acceptor sys') = 0 /\
    (peers_poisoned (acceptor sys') = false -> peers (acceptor sys') = ∅).
Proof.
  intros Hpool Hpeer Hr. destruct (drain limits sys) as (es & sys' & Hes & Hf).
  exists es, sys'. split; [done|]. split; [done|].
  pose proof (fire_all_reachable _ _ _ _ Hr Hes) as Hr'.
  apply reachable_invariant in Hr' as [_ Hp _ Hh Hc]; [|done..].
  rewrite total_zero in Hp by (intros id c Hid; destruct (Hf id c Hid) as (_ & H & _); unfold permit_of; by rewrite H).
  rewrite total_zero in Hh by (intros id c Hid; destruct (Hf id c Hid) as (_ & _ & H & _); unfold gauge_of; by rewrite H).
  split_and!; [lia|done|]. intros Hpo. apply map_eq. intros a. rewrite lookup_empty. specialize (Hc a).
  rewrite total_zero in Hc by (intros id c Hid; apply place_none; by apply (Hf id c Hid)).
  destruct (peers (acceptor sys') !! a); [|done]. simpl in Hc. destruct Hc as (? & ? & Heq). specialize (Heq Hpo). lia.
Qed.

(** A pool of two with one socket per address, and what three connections do to it. *)
Definition small_limits : Limits :=
  mkLimits 2 1 [] 1 1 1 1 1 1 None 30.

Definition opening (id : nat) (a : IpAddr) : list Event :=
  [Arrive id (Some a); TakePermit id; AdmitPeer id; Count id; Handshake id].

Definition three_arrive : option System :=
  fire_all small_limits
    (opening 1 (V4 7) ++ [Arrive 2 (Some (V4 7)); TakePermit 2; AdmitPeer 2; Arrive 3 (Some (V4 9)); TakePermit 3])
    (mkSystem (acceptor_new small_limits) ∅).

Lemma acceptor_bounds_hold_witness :
  exists sys, three_arrive = Some sys /\ total open_of (live sys) = 1 /\
    phase <$> live sys !! 2%nat = Some Dropping /\ phase <$> live sys !! 3%nat = Some Dropping /\
    total open_of (live sys) <= connections small_limits.
Proof.
  destruct three_arrive as [sys|] eqn:E; [|vm_compute in E; discriminate E].
  exists sys. split; [done|].
  assert (Hr : reachable small_limits sys).
  { eapply fire_all_reachable; [apply reachable_new|exact E]. }
  pose proof (acceptor_bounds_hold small_limits sys ltac:(simpl; lia) ltac:(simpl; lia) Hr) as (H & _).
  vm_compute in E. injection E as <-. split_and!; try (vm_compute; reflexivity). exact H.
Defined.

Lemma pool_drains_witness :
  exists sys es sys', three_arrive = Some sys /\ fire_all small_limits es sys = Some sys' /\
    permits (acceptor sys') = 2.
Proof.
  destruct three_arrive as [sys|] eqn:E; [|vm_compute in E; discriminate E].
  assert (Hr : reachable small_limits sys).
  { eapply fire_all_reachable; [apply reachable_new|exact E]. }
  destruct (pool_drains small_limits sys ltac:(simpl; lia) ltac:(simpl; lia) Hr)
    as (es & sys' & Hes & _ & Hp & _).
  exists sys, es, sys'. done.
Defined.

(** ** [accept] is a schedule of those steps *)

Definition accept_schedule (id : nat) (address : option IpAddr) (handshake : option IoError)
  (limits : Limits) (s : LimitedAcceptor) : list Event :=
  [Arrive id address; TakePermit id] ++
  match try_acquire s with
  | None => []
  | Some s1 =>
    match admit_peer limits address s1 with
    | (Err _, _) => [AdmitPeer id; DropPermit id]
    | (Ok peer, _) =>
      [AdmitPeer id; Count id] ++
      match handshake with
      | None => [Handshake id]
      | Some _ => [End id; DropPermit id; DropReleased id] ++ match peer with Some _ => [DropPeer id] | None => [] end
      end
    end
  end.

(** Runs a schedule on a connection that was just put in the table. *)
Ltac run_schedule := repeat progress (unfold put; simpl; rewrite ?insert_insert_eq, ?lookup_insert_eq; simpl).

(** Accepting a connection on its own is one of the interleavings: the schedule of its steps can
    always be run, and leaves the shared state exactly as [accept] does; the connection ends open
    with the guards [accept] returned, or with none. *)
Theorem accept_is_a_schedule (limits : Limits) (id : nat) (address : option IpAddr)
    (handshake : option IoError) (sys : System) :
  live sys !! id = None ->
  let '(answer, s') := accept limits address handshake (acceptor sys) in
  exists c, fire_all limits (accept_schedule id address handshake limits (acceptor sys)) sys
            = Some (mkSystem s' (<[id := c]> (live sys))) /\
    match answer with
    | Ok guard => c = mkConnection address Open true true guard
    | Err _ => finished c
    end.
Proof.
  intros Hid. unfold accept, accept_schedule. simpl. rewrite Hid. run_schedule.
  destruct (try_acquire (acceptor sys)) as [s1|] eqn:E1; run_schedule; [|eexists; by repeat split].
  destruct (admit_peer limits address s1) as [[peer|[]] s2] eqn:E2; run_schedule; rewrite ?E2; run_schedule.
  - destruct handshake as [e|]; run_schedule; [|eexists; by repeat split].
    destruct peer as [a|]; run_schedule; eexists; by repeat split.
  - eexists. by repeat split.
Qed.

Lemma accept_is_a_schedule_witness :
  (mkSystem (acceptor_new small_limits) ∅ : System).(live) !! 1%nat = None /\
  fst (accept small_limits (Some (V4 7)) None (acceptor_new small_limits)) = Ok (Some (V4 7)) /\
  exists c, fire_all small_limits (accept_schedule 1 (Some (V4 7)) None small_limits (acceptor_new small_limits))
              (mkSystem (acceptor_new small_limits) ∅)
            = Some (mkSystem (snd (accept small_limits (Some (V4 7)) None (acceptor_new small_limits))) {[1%nat := c]}).
Proof.
  split; [apply lookup_empty|]. split; [reflexivity|].
  destruct (accept_is_a_schedule small_limits 1 (Some (V4 7)) None (mkSystem (acceptor_new small_limits) ∅)
    (lookup_empty 1%nat))
    as (c & Hc & _). exists c. exact Hc.
Defined.

(** ** Properties of the stream *)

Section StreamProperties.
Context {I : Type}
  (inner_read : I -> Poll (result (list byte) IoError) * I)
  (inner_write : list byte -> I -> Poll (result Z IoError) * I)
  (inner_write_vectored : list (list byte) -> I -> Poll (result Z IoError) * I).

(** Writes polled while the peer takes nothing: the timer of the first one decides all of them. *)
Lemma stalled_writes polls g timer :
  (forall bytes i, exists i', inner_write bytes i = (Pending, i')) ->
  deadline g = None -> stalled g = Some timer ->
  fst (poll_writes inner_write polls g)
  = map (fun p => if timer <=? fst p then Ready (Err STOPPED_READING) else Pending) polls.
Proof.
  intros Hpending. revert g. induction polls as [|[now bytes] polls IH]; intros g Hd Hs; [done|].
  cbn [poll_writes]. unfold poll_write, expired. rewrite Hd, Hs.
  destruct (Hpending bytes (inner g)) as [i' ->]. cbn [default].
  specialize (IH (mkGuarded i' None (stall g) (Some timer)) eq_refl eq_refl).
  cbn [map fst]. cbv zeta. cbn [default from_option id]. destruct (timer <=? now); cbv beta iota zeta;
    destruct (poll_writes inner_write polls _) as [rs g2]; simpl in *; congruence.
Qed.

(** A connection ends at its lifetime and a response must move. From the instant the configured
    lifetime ends, every read and every write fails and does not touch the stream underneath, and
    before that instant a read is the stream's own. While the peer takes nothing, writes polled at
    any instants wait until the stall bound after the first of them and fail from then on; a write
    that moves disarms the timer. *)
Theorem guarded_stream_is_bounded (limits : Limits) (born now : Z) (i : I) (bytes : list byte)
    (polls : list (Z * list byte)) :
  0 < write_stall_timeout limits ->
  let g := guarded_new limits born i in
  (forall lifetime, connection_lifetime limits = Some lifetime ->
     (born + lifetime <= now ->
      poll_read inner_read now g = (Ready (Err LIFETIME_OVER), g) /\
      poll_write inner_write now bytes g = (Ready (Err LIFETIME_OVER), g)) /\
     (now < born + lifetime -> fst (poll_read inner_read now g) = fst (inner_read i))) /\
  ((forall b j, exists j', inner_write b j = (Pending, j')) -> connection_lifetime limits = None ->
   fst (poll_writes inner_write ((now, bytes) :: polls) g)
   = Pending :: map (fun p => if now + write_stall_timeout limits <=? fst p
                              then Ready (Err STOPPED_READING) else Pending) polls) /\
  (forall r j, inner_write bytes i = (Ready r, j) -> stalled (snd (poll_write inner_write now bytes g)) = None).
Proof.
  intros Hstall g. split_and!.
  - intros lifetime Hl. unfold poll_read, poll_write, expired, g, guarded_new. simpl. rewrite Hl. simpl.
    destruct (Z.ltb_spec now (born + lifetime)); split; intros; (lia || done).
  - intros Hp Hl. cbn [poll_writes]. unfold poll_write at 1, expired, g, guarded_new. simpl. rewrite Hl. simpl.
    destruct (Hp bytes i) as [j ->]. simpl.
    rewrite (proj2 (Z.leb_gt _ _)) by lia.
    set (g' := mkGuarded j None _ _).
    pose proof (stalled_writes polls g' (now + write_stall_timeout limits) Hp eq_refl eq_refl) as H.
    destruct (poll_writes inner_write polls g') as [rs g2]. simpl in *. by rewrite H.
  - intros r j Hw. unfold poll_write, expired, g, guarded_new. simpl. rewrite Hw.
    destruct (connection_lifetime limits); simpl; [by destruct (_ <? _)|done].
Qed.

(** A vectored write is bounded by neither: whatever the instant and however long the peer has taken
    nothing, the answer is the one of the stream underneath. *)
Theorem vectored_writes_are_not_bounded (g : Guarded I) (slices : list (list byte)) :
  fst (poll_write_vectored inner_write_vectored slices g) = fst (inner_write_vectored slices (inner g)) /\
  forall now e, expired now g = Some e ->
    inner_write_vectored slices (inner g) = (Ready (Ok 1), inner g) ->
    fst (poll_write_vectored inner_write_vectored slices g) = Ready (Ok 1).
Proof. unfold poll_write_vectored, with_inner. split; [done|]. intros now e _ ->. done. Qed.
End StreamProperties.

Lemma guarded_stream_is_bounded_witness :
  fst (poll_writes (fun _ i => (Pending, i)) [(100, [x00]); (129, [x00]); (130, [x00]); (500, [x00])]
        (guarded_new small_limits 0 tt))
  = [Pending; Pending; Ready (Err STOPPED_READING); Ready (Err STOPPED_READING)].
Proof.
  apply (guarded_stream_is_bounded (fun i => (Pending, i)) (fun _ i => (Pending, i)) small_limits 0 100 tt [x00]
           [(129, [x00]); (130, [x00]); (500, [x00])]); [simpl; lia|eauto|done].
Defined.
