(* ===== verification/Host.v ===== *)
(** * The life of a server ([crates/pic-x-server/src/host.rs], [crates/pic-x-core/src/server.rs])

    [DefaultServerHost::run] starts the registered services, announces readiness, waits for the
    shutdown signal, and releases everything within one budget. Its collaborators are trait
    objects: here a single environment answers every call with how long it took (or that it never
    returns) and with its result, and may keep any state of its own. The host's own state is the
    clock, the readiness flag and the log of the calls it made, each with the readiness at the time
    and how it ended. *)
From S2P Require Import Prelude Rust Text Errors AuditEvents.
Local Open Scope Z_scope.

(** ** [Health] *)

Record Health := mkHealth { is_live : bool; is_ready : bool }.

Definition health_new : Health := mkHealth true false.
Definition set_ready (b : bool) (h : Health) : Health := mkHealth (is_live h) b.
Definition set_live (b : bool) (h : Health) : Health := mkHealth b (is_ready h).

(** ** What the host calls *)

Inductive Call :=
| Record_audit (event : AuditEvent)
| Storage_put (key value : string)
| Storage_shutdown
| Service_start (name : string)
| Service_stop (name : string)
| Shutdown_signal
| Realm_audit_shutdown (realm : string)
| Audit_shutdown.

(** How a call ends: after how long, or never; and with what. *)
Record Outcome := mkOutcome { took : option Z; answer : result unit Cause }.

(** How a call ended for the host: with an answer, or given up on when the budget ran out. *)
Inductive Ending := Answered (r : result unit Cause) | TimedOut.

(** An entry of the log of calls: the readiness at the time, how it ended and how long it took. *)
Record CallEntry := mkCall { while_ready : bool; called : Call; ended : Ending; spent : Z }.

Record HostState (X : Type) := mkHost {
  clock : Z;
  health : Health;
  calls : list CallEntry;
  environment : X }.
Arguments mkHost {X}.
Arguments clock {X}.
Arguments health {X}.
Arguments calls {X}.
Arguments environment {X}.

(** A computation of the host: it is done, it failed with an error, or it waits forever. *)
Inductive Run (A : Type) : Type := Done (a : A) | Failed (error : string) | Hangs.
Arguments Done {A}.
Arguments Failed {A}.
Arguments Hangs {A}.

Definition Host (X A : Type) : Type := HostState X -> Run A * HostState X.

Definition hret {X A} (a : A) : Host X A := fun s => (Done a, s).
Definition hbind {X A B} (m : Host X A) (k : A -> Host X B) : Host X B := fun s =>
  match m s with
  | (Done a, s') => k a s'
  | (Failed e, s') => (Failed e, s')
  | (Hangs, s') => (Hangs, s')
  end.

Notation "'do!' x ':=' e 'in' k" :=
  (hbind e (fun x => k))
    (at level 200, x pattern, e at level 100, k at level 200, right associativity) : rust_scope.
Local Open Scope rust_scope.

(** The settings of a run: its services in registration order, the names of the store and of the
    sink, its realms, and the shutdown budget. *)
Record ServerContext := mkContext {
  services : list string;
  storage_name : string;
  audit_name : string;
  realms : list string;
  shutdown_timeout : Z }.

Section Run.
Context {X : Type} (env : Call -> X -> Outcome * X).

Definition log (c : Call) (e : Ending) (d : Z) (x : X) (s : HostState X) : HostState X :=
  mkHost (clock s + d) (health s) (calls s ++ [mkCall (is_ready (health s)) c e d]) x.

(** [.await] on a collaborator. *)
Definition await (c : Call) : Host X (result unit Cause) := fun s =>
  let '(o, x) := env c (environment s) in
  match took o with
  | Some d => (Done (answer o), log c (Answered (answer o)) d x s)
  | None => (Hangs, log c TimedOut 0 x s)
  end.

(** [within]: [timeout_at] asks the work first, so work that is ready at once is answered even
    after the deadline. *)
Definition within (deadline : Z) (c : Call) : Host X (option (result unit Cause)) := fun s =>
  let '(o, x) := env c (environment s) in
  let in_time := match took o with
                 | Some d => if (d =? 0) || (clock s + d <=? deadline) then Some d else None
                 | None => None
                 end in
  match in_time with
  | Some d => (Done (Some (answer o)), log c (Answered (answer o)) d x s)
  | None => (Done None, log c TimedOut (Z.max (clock s) deadline - clock s) x s)
  end.

(** [.await?] with context. *)
Definition await_or_fail (context : string) (c : Call) : Host X unit :=
  do! r := await c in
  match r with
  | Ok _ => hret tt
  | Err _ => fun s => (Failed context, s)
  end.

(** [ServerContext::record_audit]. *)
Definition record_audit (action : string) (subject : Subject) : Call :=
  Record_audit (event_new action subject).

Definition LAST_START_KEY : string := "server/last-start".
Definition HOST_NAME : string := "default".

(** [DefaultServerHost::start_services]. *)
Fixpoint start_services (names : list string) : Host X unit :=
  match names with
  | [] => hret tt
  | name :: rest =>
    do! _ := await_or_fail ("starting the " +:+ name +:+ " service") (Service_start name) in
    do! _ := await_or_fail ("recording the start of the " +:+ name +:+ " service")
               (record_audit "service.start" (System name)) in
    start_services rest
  end.

(** One turn of the loop of [stop_services], over the services in the order they are stopped. *)
Fixpoint stop_each (deadline : Z) (names : list string) : Host X (list string) :=
  match names with
  | [] => hret []
  | name :: rest =>
    do! r := within deadline (Service_stop name) in
    do! unfinished :=
      match r with
      | Some (Ok _) =>
        do! _ := await (record_audit "service.stop" (System name)) in hret []
      | Some (Err _) => hret [name]
      | None => hret [name]
      end in
    do! others := stop_each deadline rest in
    hret (unfinished ++ others)
  end.

(** [DefaultServerHost::stop_services]. *)
Definition stop_services (deadline : Z) (names : list string) : Host X (list string) :=
  stop_each deadline (rev names).

(** A release within the budget: what it is called when it did not finish. *)
Definition release (deadline : Z) (c : Call) (name : string) : Host X (list string) :=
  do! r := within deadline c in
  match r with
  | Some (Ok _) => hret []
  | Some (Err _) => hret [name]
  | None => hret [name]
  end.

Fixpoint release_realms (deadline : Z) (names : list string) : Host X (list string) :=
  match names with
  | [] => hret []
  | realm :: rest =>
    do! unfinished := release deadline (Realm_audit_shutdown realm) ("realm " +:+ realm) in
    do! others := release_realms deadline rest in
    hret (unfinished ++ others)
  end.

Definition change_readiness (b : bool) : Host X unit := fun s =>
  (Done tt, mkHost (clock s) (set_ready b (health s)) (calls s) (environment s)).

Definition now : Host X Z := fun s => (Done (clock s), s).

(** [DefaultServerHost::run] up to the announcement of readiness. *)
Definition run_start (context : ServerContext) : Host X unit :=
  do! _ := await_or_fail "recording the server start event" (record_audit "server.start" (System HOST_NAME)) in
  do! _ := await_or_fail "recording the host that started the server" (Storage_put LAST_START_KEY HOST_NAME) in
  do! _ := start_services (services context) in
  change_readiness true.

(** The services and the store; then, after the final record, every realm's sink and the server's. *)
Definition release_services (deadline : Z) (context : ServerContext) : Host X (list string) :=
  do! from_services := stop_services deadline (services context) in
  do! from_storage := release deadline Storage_shutdown (storage_name context) in
  hret (from_services ++ from_storage).

Definition release_trails (deadline : Z) (context : ServerContext) : Host X (list string) :=
  do! from_realms := release_realms deadline (realms context) in
  do! from_audit := release deadline Audit_shutdown (audit_name context) in
  hret (from_realms ++ from_audit).

(** From the shutdown signal on; [budget_text] is how the budget is printed. *)
Definition run_stop (budget_text : string) (context : ServerContext) : Host X unit :=
  do! _ := change_readiness false in
  do! started := now in
  let deadline := started + shutdown_timeout context in
  do! before := release_services deadline context in
  do! _ := await_or_fail "recording the server stop event" (record_audit "server.stop" (System HOST_NAME)) in
  do! after := release_trails deadline context in
  match before ++ after with
  | [] => hret tt
  | unfinished =>
    fun s => (Failed ("the shutdown budget of " +:+ budget_text
                     +:+ " ran out with these still to release: " +:+ join ", " unfinished), s)
  end.

(** [DefaultServerHost::run]. *)
Definition host_run (budget_text : string) (context : ServerContext) : Host X unit :=
  do! _ := run_start context in
  do! _ := await Shutdown_signal in
  run_stop budget_text context.
End Run.

(** ** Properties *)

Section HostProperties.
Context {X : Type} (env : Call -> X -> Outcome * X).

Definition is_record (e : CallEntry) : bool :=
  match called e with Record_audit _ => true | _ => false end.

(** The calls that release something, and the ones that did not finish. *)
Definition releases (l : list CallEntry) : list CallEntry := List.filter (fun e => negb (is_record e)) l.

Definition finished_ok (e : CallEntry) : bool :=
  match ended e with Answered (Ok _) => true | _ => false end.

Definition released_name (context : ServerContext) (c : Call) : string :=
  match c with
  | Service_stop name => name
  | Storage_shutdown => storage_name context
  | Realm_audit_shutdown realm => "realm " +:+ realm
  | Audit_shutdown => audit_name context
  | _ => ""
  end.

Definition unfinished_of (context : ServerContext) (l : list CallEntry) : list string :=
  map (fun e => released_name context (called e)) (List.filter (fun e => negb (finished_ok e)) l).

(** A stretch of the run: what it logged, under which readiness. *)
Definition stretch (s s' : HostState X) (l : list CallEntry) : Prop :=
  calls s' = calls s ++ l /\ health s' = health s /\
  Forall (fun e => while_ready e = is_ready (health s)) l.

Lemma stretch_nil s : stretch s s [].
Proof. split; [by rewrite app_nil_r|]. by split. Qed.

Lemma stretch_app s1 s2 s3 l1 l2 : stretch s1 s2 l1 -> stretch s2 s3 l2 -> stretch s1 s3 (l1 ++ l2).
Proof.
  intros (H1 & H2 & H3) (H4 & H5 & H6). split; [by rewrite H4, H1, app_assoc|]. split; [congruence|].
  rewrite H2 in H6. by apply Forall_app.
Qed.

Lemma releases_app l1 l2 : releases (l1 ++ l2) = releases l1 ++ releases l2.
Proof. apply List.filter_app. Qed.

Lemma unfinished_app context l1 l2 :
  unfinished_of context (l1 ++ l2) = unfinished_of context l1 ++ unfinished_of context l2.
Proof. unfold unfinished_of. by rewrite List.filter_app, map_app. Qed.

Lemma await_log c s r s' :
  await env c s = (r, s') ->
  exists e, stretch s s' [e] /\ called e = c /\
    match r with
    | Done a => ended e = Answered a
    | Failed _ => False
    | Hangs => ended e = TimedOut
    end.
Proof.
  unfold await. destruct (env c (environment s)) as [o x]. destruct (took o) as [d|]; intros [= <- <-];
    eexists; (split; [repeat constructor|done]).
Qed.

Lemma within_log deadline c s r s' :
  within env deadline c s = (r, s') ->
  exists e, stretch s s' [e] /\ called e = c /\
    match r with
    | Done (Some a) => ended e = Answered a
    | Done None => ended e = TimedOut
    | _ => False
    end.
Proof.
  unfold within. destruct (env c (environment s)) as [o x]. cbv zeta.
  destruct (match took o with Some _ => _ | None => _ end) as [d|]; intros [= <- <-];
    eexists; (split; [repeat constructor|done]).
Qed.

(** One release logs one entry, and names it exactly when it did not finish. *)
Lemma release_log context deadline c s r s' :
  (forall e, c <> Record_audit e) ->
  release env deadline c (released_name context c) s = (r, s') ->
  exists e, stretch s s' [e] /\ called e = c /\ is_record e = false /\ r = Done (unfinished_of context [e]).
Proof.
  intros Hc. unfold release, hbind. destruct (within env deadline c s) as [r1 s1] eqn:E.
  apply within_log in E as (e & Hs & Hce & He).
  assert (Hr : is_record e = false) by (unfold is_record; rewrite Hce; destruct c; naive_solver).
  destruct r1 as [[[[]|er]|]| |]; try done; intros [= <- <-]; exists e; split_and!; try done;
    unfold unfinished_of, finished_ok; simpl; rewrite He; simpl; by rewrite ?Hce.
Qed.

Lemma release_realms_log context deadline names s r s' :
  release_realms env deadline names s = (r, s') ->
  exists l, stretch s s' l /\ map called l = map Realm_audit_shutdown names /\
    releases l = l /\ r = Done (unfinished_of context l).
Proof.
  revert s r s'. induction names as [|realm names IH]; intros s r s'.
  { intros [= <- <-]. exists []. by split; [apply stretch_nil|]. }
  cbn [release_realms]. unfold hbind at 1.
  destruct (release env deadline _ _ s) as [r1 s1] eqn:E.
  apply (release_log context deadline (Realm_audit_shutdown realm)) in E as (e & Hs & Hce & Hr & ->); [|done].
  unfold hbind. destruct (release_realms env deadline names s1) as [r2 s2] eqn:E2.
  apply IH in E2 as (l & Hl & Hm & Hrl & ->). intros [= <- <-]. exists (e :: l).
  split_and!; [by apply (stretch_app _ _ _ [e] l Hs Hl)|simpl; by rewrite Hce, Hm|simpl; by rewrite Hr, Hrl|].
  f_equal. by rewrite <- (unfinished_app context [e] l).
Qed.

(** A stretch that ends because a record never returned. *)
Definition hung_on_record (l : list CallEntry) : Prop :=
  exists l0 e, l = l0 ++ [e] /\ is_record e = true /\ ended e = TimedOut.

Lemma hung_app l1 l2 : hung_on_record l2 -> hung_on_record (l1 ++ l2).
Proof. intros (l0 & e & -> & Hr & He). exists (l1 ++ l0), e. by rewrite app_assoc. Qed.

(** Whatever becomes of one service, the ones registered before it are stopped after it. *)
Lemma stop_each_log context deadline names s r s' :
  stop_each env deadline names s = (r, s') ->
  exists l, stretch s s' l /\
    match r with
    | Done u => map called (releases l) = map Service_stop names /\ u = unfinished_of context (releases l)
    | Hangs => hung_on_record l
    | Failed _ => False
    end.
Proof.
  revert s r s'. induction names as [|name names IH]; intros s r s'.
  { intros [= <- <-]. exists []. by split; [apply stretch_nil|]. }
  cbn [stop_each]. unfold hbind at 1. destruct (within env deadline (Service_stop name) s) as [r1 s1] eqn:E1.
  apply within_log in E1 as (e & Hs & Hce & He).
  assert (Hrel : releases [e] = [e]) by (unfold releases, is_record; simpl; by rewrite Hce).
  assert (Hname : released_name context (called e) = name) by by rewrite Hce.
  (* what one turn logs besides the stop itself *)
  assert (Hrest : forall l1 s2 u, stretch s s2 ([e] ++ l1) -> releases l1 = [] -> u = unfinished_of context [e] ->
    (do! others := stop_each env deadline names in hret (u ++ others)) s2 = (r, s') ->
    exists l, stretch s s' l /\
      match r with
      | Done u => map called (releases l) = map Service_stop (name :: names) /\ u = unfinished_of context (releases l)
      | Hangs => hung_on_record l
      | Failed _ => False
      end).
  { intros l1 s2 u Hl1 Hr1 -> Hrun. unfold hbind, hret in Hrun.
    destruct (stop_each env deadline names s2) as [r2 s3] eqn:E2.
    apply IH in E2 as (l & Hl & Hcase). exists (([e] ++ l1) ++ l).
    assert (Hrr : releases (([e] ++ l1) ++ l) = e :: releases l)
      by (rewrite !releases_app, Hr1, Hrel; done).
    destruct r2 as [u2|er|]; [|done|]; injection Hrun as <- <-.
    - destruct Hcase as [Hm ->]. split; [by eapply stretch_app|]. rewrite Hrr. split; [simpl; by rewrite Hce, Hm|].
      by rewrite <- (unfinished_app context [e] (releases l)).
    - split; [by eapply stretch_app|]. by apply hung_app. }
  assert (Hun : forall x, ended e = x -> (match x with Answered (Ok _) => False | _ => True end) ->
                unfinished_of context [e] = [name]).
  { intros x Hx Hn. unfold unfinished_of, finished_ok. simpl. rewrite Hx. destruct x as [[[]|?]|]; simpl; by rewrite ?Hname. }
  destruct r1 as [[[[]|er]|]|er|]; try done.
  - (* stopped: the record of the stop, whatever it answers *)
    unfold hbind at 1 2. destruct (await env _ s1) as [r2 s2] eqn:E2.
    apply await_log in E2 as (e2 & Hs2 & Hce2 & He2).
    assert (Hrec : is_record e2 = true) by (unfold is_record; by rewrite Hce2).
    pose proof (stretch_app _ _ _ _ _ Hs Hs2) as Hboth.
    destruct r2 as [a|er|]; [|done|].
    + cbn [hret]. apply (Hrest [e2]); [done|unfold releases; simpl; by rewrite Hrec|].
      unfold unfinished_of, finished_ok. simpl. by rewrite He.
    + intros [= <- <-]. exists ([e] ++ [e2]). split; [done|]. exists [e], e2. done.
  - cbn [hret]. unfold hbind at 1. cbn [hret]. apply (Hrest []); [done..|]. by erewrite Hun.
  - cbn [hret]. unfold hbind at 1. cbn [hret]. apply (Hrest []); [done..|]. by erewrite Hun.
Qed.

Lemma await_or_fail_log text c s r s' :
  await_or_fail env text c s = (r, s') ->
  exists e, stretch s s' [e] /\ called e = c /\
    match r with
    | Done _ => ended e = Answered (Ok tt)
    | Failed t => t = text /\ exists cause, ended e = Answered (Err cause)
    | Hangs => ended e = TimedOut
    end.
Proof.
  unfold await_or_fail, hbind. destruct (await env c s) as [r1 s1] eqn:E.
  apply await_log in E as (e & Hs & Hce & He).
  destruct r1 as [[[]|cause]|er|]; try done; intros [= <- <-]; exists e; naive_solver.
Qed.

Definition stop_text (budget_text : string) (unfinished : list string) : string :=
  "the shutdown budget of " +:+ budget_text +:+ " ran out with these still to release: "
  +:+ join ", " unfinished.

Lemma release_services_log context deadline s r s' :
  release_services env deadline context s = (r, s') ->
  exists l, stretch s s' l /\
    match r with
    | Done u =>
      map called (releases l) = map Service_stop (rev (services context)) ++ [Storage_shutdown] /\
      u = unfinished_of context (releases l)
    | Hangs => hung_on_record l
    | Failed _ => False
    end.
Proof.
  unfold release_services, stop_services. unfold hbind at 1.
  destruct (stop_each env _ _ s) as [r1 s1] eqn:E1.
  apply (stop_each_log context) in E1 as (l1 & Hl1 & H1). destruct r1 as [u1|er|]; [|done|].
  2:{ intros [= <- <-]. by exists l1. }
  destruct H1 as [Hm1 ->]. unfold hbind. destruct (release env _ Storage_shutdown _ s1) as [r2 s2] eqn:E2.
  apply (release_log context _ Storage_shutdown) in E2 as (e2 & Hl2 & Hce2 & Hr2 & ->); [|done].
  intros [= <- <-]. exists (l1 ++ [e2]). split; [by eapply stretch_app|].
  assert (Hrel : releases [e2] = [e2]) by (unfold releases; simpl; by rewrite Hr2).
  rewrite releases_app, Hrel, map_app, Hm1, unfinished_app. simpl. by rewrite Hce2.
Qed.

Lemma release_trails_log context deadline s r s' :
  release_trails env deadline context s = (r, s') ->
  exists l, stretch s s' l /\ releases l = l /\
    map called l = map Realm_audit_shutdown (realms context) ++ [Audit_shutdown] /\
    r = Done (unfinished_of context l).
Proof.
  unfold release_trails. unfold hbind at 1. destruct (release_realms env _ _ s) as [r4 s4] eqn:E4.
  apply (release_realms_log context) in E4 as (l4 & Hl4 & Hm4 & Hr4 & ->).
  unfold hbind. destruct (release env _ Audit_shutdown _ s4) as [r5 s5] eqn:E5.
  apply (release_log context _ Audit_shutdown) in E5 as (e5 & Hl5 & Hce5 & Hr5 & ->); [|done].
  intros [= <- <-]. exists (l4 ++ [e5]). split_and!; [by eapply stretch_app| | |by rewrite unfinished_app].
  - rewrite releases_app, Hr4. unfold releases. simpl. by rewrite Hr5.
  - rewrite map_app, Hm4. simpl. by rewrite Hce5.
Qed.

(** The order of a shutdown, and what it answers. Every service is asked to stop, the last
    registered first, whatever the others answered; then the store is released. Then, unless that
    record never returns or is refused, comes the final record; and after it, with no record any
    more, every realm's sink and last of all the server's own. The run succeeds exactly when
    everything finished, and otherwise names exactly what did not, in that order. *)
Definition orderly_release (budget_text : string) (context : ServerContext) (l : list CallEntry) (r : Run unit) : Prop :=
  hung_on_record l /\ r = Hangs \/
  exists l1 e l2, l = l1 ++ [e] ++ l2 /\
    map called (releases l1) = map Service_stop (rev (services context)) ++ [Storage_shutdown] /\
    called e = record_audit "server.stop" (System HOST_NAME) /\
    ((exists cause, ended e = Answered (Err cause) /\ l2 = [] /\
                    r = Failed "recording the server stop event") \/
     (ended e = Answered (Ok tt) /\ releases l2 = l2 /\
      map called l2 = map Realm_audit_shutdown (realms context) ++ [Audit_shutdown] /\
      r = match unfinished_of context (releases l) with
          | [] => Done tt
          | u => Failed (stop_text budget_text u)
          end)).

Lemma run_stop_log budget_text context s r s' :
  run_stop env budget_text context s = (r, s') ->
  exists l, calls s' = calls s ++ l /\ is_ready (health s') = false /\
    Forall (fun e => while_ready e = false) l /\ orderly_release budget_text context l r.
Proof.
  unfold run_stop, change_readiness, now. unfold hbind at 1 2. cbv beta iota zeta.
  set (s0 := mkHost (clock s) (set_ready false (health s)) (calls s) (environment s)).
  assert (Hpack : forall s1 l (Q : list CallEntry -> Prop), stretch s0 s1 l -> Q l ->
    exists l, calls s1 = calls s ++ l /\ is_ready (health s1) = false /\
      Forall (fun e => while_ready e = false) l /\ Q l).
  { intros s1 l Q (H1 & H2 & H3) HQ. exists l. split_and!; [done|by rewrite H2|done|done]. }
  unfold hbind at 1. destruct (release_services env _ context s0) as [r1 s1] eqn:E1.
  apply release_services_log in E1 as (l1 & Hl1 & H1). destruct r1 as [u1|er|]; [|done|].
  2:{ intros [= <- <-]. eapply Hpack; [exact Hl1|]. by left. }
  destruct H1 as [Hm1 ->]. unfold hbind at 1. destruct (await_or_fail env _ _ s1) as [r3 s3] eqn:E3.
  apply await_or_fail_log in E3 as (e & He & Hce & Hend). pose proof (stretch_app _ _ _ _ _ Hl1 He) as Hl3.
  assert (Hrec : is_record e = true) by (unfold is_record; by rewrite Hce).
  destruct r3 as [[]|er|].
  3:{ intros [= <- <-]. eapply Hpack; [exact Hl3|]. left. split; [by exists l1, e|done]. }
  2:{ destruct Hend as [-> [cause Hend]]. intros [= <- <-]. eapply Hpack; [exact Hl3|]. right.
      exists l1, e, []. rewrite app_nil_r. split_and!; try done. left. by exists cause. }
  unfold hbind at 1. destruct (release_trails env _ context s3) as [r4 s4] eqn:E4.
  apply release_trails_log in E4 as (l2 & Hl2 & Hr2 & Hm2 & ->).
  pose proof (stretch_app _ _ _ _ _ Hl3 Hl2) as Hall. rewrite <- app_assoc in Hall.
  assert (Hu : unfinished_of context (releases l1) ++ unfinished_of context l2
             = unfinished_of context (releases (l1 ++ [e] ++ l2))).
  { rewrite !releases_app, Hr2. unfold releases at 3. cbn [List.filter]. rewrite Hrec. cbn [negb app].
    by rewrite !unfinished_app. }
  rewrite Hu. intros Hrun.
  eapply (Hpack s'); [|right; exists l1, e, l2; split_and!; [reflexivity|done|done|]].
  - by destruct (unfinished_of context _) in Hrun; injection Hrun as _ <-.
  - right. split_and!; [done..|]. by destruct (unfinished_of context _) in Hrun |- *; injection Hrun as <- _.
Qed.

(** *** Readiness *)

Lemma start_services_log names s r s' :
  start_services env names s = (r, s') ->
  exists l, stretch s s' l /\
    (r = Done tt -> map called l = flat_map (fun name => [Service_start name; record_audit "service.start" (System name)]) names).
Proof.
  revert s r s'. induction names as [|name names IH]; intros s r s'.
  { intros [= <- <-]. exists []. by split; [apply stretch_nil|]. }
  cbn [start_services]. unfold hbind at 1. destruct (await_or_fail env _ _ s) as [r1 s1] eqn:E1.
  apply await_or_fail_log in E1 as (e1 & H1 & Hc1 & Hd1).
  destruct r1 as [[]|er|]; [|intros [= <- <-]; by exists [e1]..].
  unfold hbind at 1. destruct (await_or_fail env _ _ s1) as [r2 s2] eqn:E2.
  apply await_or_fail_log in E2 as (e2 & H2 & Hc2 & Hd2). pose proof (stretch_app _ _ _ _ _ H1 H2) as H12.
  destruct r2 as [[]|er|]; [|intros [= <- <-]; by exists ([e1] ++ [e2])..].
  intros Hrun. apply IH in Hrun as (l & Hl & Hm). exists (([e1] ++ [e2]) ++ l).
  split; [by eapply stretch_app|]. intros ->. simpl. by rewrite Hc1, Hc2, Hm.
Qed.

Definition start_calls (context : ServerContext) : list Call :=
  [record_audit "server.start" (System HOST_NAME); Storage_put LAST_START_KEY HOST_NAME]
  ++ flat_map (fun name => [Service_start name; record_audit "service.start" (System name)]) (services context).

Lemma run_start_log context s r s' :
  run_start env context s = (r, s') ->
  exists l, calls s' = calls s ++ l /\ Forall (fun e => while_ready e = is_ready (health s)) l /\
    match r with
    | Done _ => map called l = start_calls context /\ is_ready (health s') = true
    | _ => health s' = health s
    end.
Proof.
  unfold run_start. unfold hbind at 1. destruct (await_or_fail env _ _ s) as [r1 s1] eqn:E1.
  apply await_or_fail_log in E1 as (e1 & H1 & Hc1 & Hd1).
  destruct r1 as [[]|er|]; [|intros [= <- <-]; exists [e1]; by destruct H1 as (? & ? & ?)..].
  unfold hbind at 1. destruct (await_or_fail env _ _ s1) as [r2 s2] eqn:E2.
  apply await_or_fail_log in E2 as (e2 & H2 & Hc2 & Hd2). pose proof (stretch_app _ _ _ _ _ H1 H2) as H12.
  destruct r2 as [[]|er|]; [|intros [= <- <-]; exists ([e1] ++ [e2]); by destruct H12 as (? & ? & ?)..].
  unfold hbind. destruct (start_services env _ s2) as [r3 s3] eqn:E3.
  apply start_services_log in E3 as (l & H3 & Hm). pose proof (stretch_app _ _ _ _ _ H12 H3) as (Ha & Hb & Hc).
  destruct r3 as [[]|er|]; intros [= <- <-]; exists (([e1] ++ [e2]) ++ l); split_and!; try done.
  simpl. rewrite Hc1, Hc2, Hm by done. done.
Qed.


(** *** The budget *)

Definition spent_on (l : list CallEntry) : Z := fold_right (fun e n => spent e + n) 0 l.

Lemma spent_on_app l1 l2 : spent_on (l1 ++ l2) = spent_on l1 + spent_on l2.
Proof. induction l1; simpl; lia. Qed.

(** Time passes, and no call takes it back. *)
Context (time_passes : forall c x d, took (fst (env c x)) = Some d -> 0 <= d).

Definition left_of (deadline : Z) (s : HostState X) : Z := Z.max 0 (deadline - clock s).

(** A computation whose releases together take no more than they take off the budget. *)
Definition budgeted {A} (deadline : Z) (m : Host X A) : Prop :=
  forall s r s', m s = (r, s') ->
  exists l, calls s' = calls s ++ l /\ clock s' = clock s + spent_on l /\
    spent_on (releases l) + left_of deadline s' <= left_of deadline s.

Lemma budgeted_ret {A} deadline (a : A) : budgeted deadline (hret a).
Proof. intros s r s' [= <- <-]. exists []. rewrite app_nil_r. simpl. split_and!; lia || done. Qed.

Lemma budgeted_fail {A} deadline e : budgeted (A := A) deadline (fun s => (Failed e, s)).
Proof. intros s r s' [= <- <-]. exists []. rewrite app_nil_r. simpl. split_and!; lia || done. Qed.

Lemma budgeted_bind {A B} deadline (m : Host X A) (k : A -> Host X B) :
  budgeted deadline m -> (forall a, budgeted deadline (k a)) -> budgeted deadline (hbind m k).
Proof.
  intros Hm Hk s r s'. unfold hbind. destruct (m s) as [[a|e|] s1] eqn:E;
    [|intros [= <- <-]; by eapply Hm..].
  intros H. apply Hm in E as (l1 & Hc1 & Ht1 & Hb1). apply Hk in H as (l2 & Hc2 & Ht2 & Hb2).
  exists (l1 ++ l2). rewrite Hc2, Hc1, app_assoc, releases_app, !spent_on_app. split_and!; [done|lia|lia].
Qed.

Lemma budgeted_record deadline action subject : budgeted deadline (await env (record_audit action subject)).
Proof.
  intros s r s'. unfold await. pose proof (time_passes (record_audit action subject) (environment s)) as Ht.
  destruct (env _ (environment s)) as [o x]. simpl in Ht.
  destruct (took o) as [d|]; intros [= <- <-]; eexists; (split; [reflexivity|]); simpl; unfold left_of; simpl;
    [specialize (Ht d eq_refl)|]; lia.
Qed.

Lemma budgeted_within deadline c : (forall e, c <> Record_audit e) -> budgeted deadline (within env deadline c).
Proof.
  intros Hc s r s'. unfold within. pose proof (time_passes c (environment s)) as Ht.
  destruct (env c (environment s)) as [o x]. simpl in Ht. cbv zeta.
  assert (Hone : forall e d, spent_on (releases [mkCall (is_ready (health s)) c e d]) = d).
  { intros e d. destruct c; simpl; try lia. naive_solver. }
  destruct (took o) as [d|]; [specialize (Ht d eq_refl); destruct (_ || _) eqn:Eb|];
    intros [= <- <-]; eexists; (split; [reflexivity|]); rewrite Hone; unfold left_of, log; simpl;
    (split; [lia|]); [bool_to_prop; destruct Eb as [Eb|Eb]; bool_to_prop; lia|lia|lia].
Qed.

Lemma budgeted_release deadline c name :
  (forall e, c <> Record_audit e) -> budgeted deadline (release env deadline c name).
Proof.
  intros Hc. apply budgeted_bind; [by apply budgeted_within|]. intros [[?|?]|]; apply budgeted_ret.
Qed.

Lemma budgeted_stops deadline names : budgeted deadline (stop_each env deadline names).
Proof.
  induction names as [|name names IH]; [apply budgeted_ret|]. cbn [stop_each].
  apply budgeted_bind; [by apply budgeted_within|]. intros [[[]|e]|]; (apply budgeted_bind;
    [|intros; apply budgeted_bind; [done|intros; apply budgeted_ret]]);
    [|apply budgeted_ret..]. apply budgeted_bind; [apply budgeted_record|]. intros. apply budgeted_ret.
Qed.

Lemma budgeted_realms deadline names : budgeted deadline (release_realms env deadline names).
Proof.
  induction names as [|name names IH]; [apply budgeted_ret|]. cbn [release_realms].
  apply budgeted_bind; [by apply budgeted_release|]. intros. apply budgeted_bind; [done|].
  intros. apply budgeted_ret.
Qed.

End HostProperties.

(** ** A small deployment *)

(** Everything takes a second and succeeds, except what [fails] says. *)
Definition calm (fails : Call -> bool) (c : Call) (x : unit) : Outcome * unit :=
  (mkOutcome (Some 1) (if fails c then Err "refused" else Ok tt), x).

Definition small_context : ServerContext :=
  mkContext ["discovery"; "admin"] "memory" "file" ["main"] 30.

Definition stubborn_admin (c : Call) : bool :=
  match c with Service_stop name => bool_decide (name = "admin") | _ => false end.

Definition host_start : HostState unit := mkHost 0 health_new [] tt.



(** When the final record is refused, neither the realms' sinks nor the server's own is released,
    and what had not finished before is not reported. *)
Definition refuses_final_record (c : Call) : bool :=
  match c with
  | Record_audit e => bool_decide (event_action e = "server.stop")
  | _ => stubborn_admin c
  end.

Example refused_final_record_releases_no_trail :
  let run := host_run (calm refuses_final_record) "30s" small_context host_start in
  fst run = Failed "recording the server stop event" /\
  forallb (fun e => match called e with Realm_audit_shutdown _ | Audit_shutdown => false | _ => true end)
    (calls (snd run)) = true.
Proof. split; vm_compute; reflexivity. Qed.

(** A service that does not start leaves the ones before it running: nothing is asked to stop. *)
Example failed_start_stops_nothing :
  let fails c := match c with Service_start name => bool_decide (name = "admin") | _ => false end in
  let run := host_run (calm fails) "30s" small_context host_start in
  fst run = Failed "starting the admin service" /\
  forallb (fun e => match called e with Service_stop _ | Audit_shutdown => false | _ => true end)
    (calls (snd run)) = true.
Proof. split; vm_compute; reflexivity. Qed.
