(* ===== verification/Settings.v ===== *)
(** * Settings: how a value is written

    The readers of [crates/pic-x-core/src/config.rs] (durations, counts, sizes, booleans, lists of
    peers, listen addresses), and the small enumerations a setting selects from:
    [crates/pic-x-core/src/logging.rs], [secrets.rs] ([SecretProvider], [SecretRef]) and [tls.rs].
    An error is the chain of texts [anyhow] keeps, the outermost first; a duration is a number of
    seconds. *)
From S2P Require Import Prelude Rust Text Access Limits.
Local Open Scope Z_scope.
Local Open Scope rust_scope.

Definition Error : Type := list string.

(** [bail!], [Context::with_context]. *)
Definition bail {A} (text : string) : result A Error := Err [text].
Definition with_context {A} (context : string) (r : result A Error) : result A Error :=
  map_err (cons context) r.

Lemma with_context_Ok {A} text (r : result A Error) a : with_context text r = Ok a <-> r = Ok a.
Proof. apply map_err_Ok. Qed.

(** ** More of [str] *)

(** [str::trim_end_matches], [str::trim_start_matches] by a set of characters. *)
Definition trim_end_matches (p : Z -> bool) (s : string) : string :=
  of_chars (rev (drop_while p (rev (chars s)))).
Definition trim_start_matches (p : Z -> bool) (s : string) : string :=
  of_chars (drop_while p (chars s)).

(** [str::strip_suffix] by one of several characters. *)
Definition strip_suffix_char (p : Z -> bool) (s : string) : option string :=
  match rev (chars s) with
  | c :: r => if p c then Some (of_chars (rev r)) else None
  | [] => None
  end.

(** [str::rsplit_once] by an ASCII character. *)
Definition rsplit_once (c : byte) (s : string) : option (string * string) :=
  match split_once_list (fun b => bool_decide (b = c)) (rev (bytes_of s)) with
  | Some (after, before) => Some (string_of (rev before), string_of (rev after))
  | None => None
  end.

Definition one_of (cs : list Z) (c : Z) : bool := existsb (Z.eqb c) cs.

(** ** Readers *)

Definition SECOND : Z := 1.
Definition MINUTE : Z := 60.
Definition HOUR : Z := 60 * MINUTE.
Definition DAY_SECONDS : Z := 24 * HOUR.

(** [u64::checked_mul]. *)
Definition checked_mul_u64 (a b : Z) : option Z := if a * b <=? U64_MAX then Some (a * b) else None.

(** [parse_duration]. *)
Definition parse_duration (value : string) : result Z Error :=
  let value := trim value in
  let '(digits, multiplier) :=
    match strip_suffix_char (one_of [115; 83]) value with
    | Some digits => (digits, SECOND)
    | None =>
      match strip_suffix_char (one_of [109; 77]) value with
      | Some digits => (digits, MINUTE)
      | None =>
        match strip_suffix_char (one_of [104; 72]) value with
        | Some digits => (digits, HOUR)
        | None =>
          match strip_suffix_char (one_of [100; 68]) value with
          | Some digits => (digits, DAY_SECONDS)
          | None => (value, SECOND)
          end
        end
      end
    end in
  let? amount := ok_or (parse_uint U64_MAX (bytes_of (trim digits)))
    ["`" +:+ value +:+ "` is not a duration: expected something like 30s, 2m, 1h or 90d"] in
  if amount =? 0 then bail "a duration of zero leaves no budget at all"
  else ok_or (checked_mul_u64 amount multiplier)
         ["`" +:+ value +:+ "` is longer than any deployment outlives"].

(** [parse_duration_allow_zero]. *)
Definition parse_duration_allow_zero (value : string) : result Z Error :=
  let trimmed := trim value in
  if bool_decide (trimmed ∈ ["0"; "0s"; "0S"; "0m"; "0M"; "0h"; "0H"; "0d"; "0D"]) then Ok 0
  else parse_duration trimmed.

(** [parse_count]. *)
Definition parse_count (value : string) : result Z Error :=
  let? count := ok_or (parse_uint U32_MAX (bytes_of (trim value))) ["`" +:+ value +:+ "` is not a count"] in
  if count =? 0 then bail "a limit of zero accepts nothing at all" else Ok count.

Definition KIB : Z := 1024.

(** [parse_bytes]. *)
Definition parse_bytes (value : string) : result Z Error :=
  let value := trim value in
  let '(digits, multiplier) :=
    match strip_suffix_char (one_of [107; 75]) value with
    | Some digits => (digits, KIB)
    | None =>
      match strip_suffix_char (one_of [109; 77]) value with
      | Some digits => (digits, KIB * KIB)
      | None =>
        match strip_suffix_char (one_of [103; 71]) value with
        | Some digits => (digits, KIB * KIB * KIB)
        | None => (value, 1)
        end
      end
    end in
  let? amount := ok_or (parse_uint U64_MAX (bytes_of (trim (trim_end_matches (one_of [98; 66]) (trim digits)))))
    ["`" +:+ value +:+ "` is not a size: expected something like 1M, 512k or 4096"] in
  if amount =? 0 then bail "a size of zero accepts no request at all"
  else ok_or (checked_mul_u64 amount multiplier) ["`" +:+ value +:+ "` is larger than any machine has"].

(** [parse_bool]. *)
Definition parse_bool (value : string) : result bool Error :=
  let v := to_ascii_lowercase (trim value) in
  if bool_decide (v ∈ ["true"; "yes"; "on"; "1"]) then Ok true
  else if bool_decide (v ∈ ["false"; "no"; "off"; "0"]) then Ok false
  else bail ("`" +:+ v +:+ "` is not a boolean: expected true or false").

(** [Iterator::collect::<Result<Vec<_>>>]. *)
Fixpoint collect_all {A B E} (f : A -> result B E) (l : list A) : result (list B) E :=
  match l with
  | [] => Ok []
  | x :: r => let? y := f x in let? ys := collect_all f r in Ok (y :: ys)
  end.

(** [parse_allowed]: one entry per line, blank lines skipped. *)
Definition parse_allowed (value : string) : result (list AllowedPeer) Error :=
  collect_all (fun line => map_err (fun e => [e]) (allowed_from_str line))
    (List.filter (fun line => negb (is_empty line)) (map (fun l => trim (string_of l)) (lines (bytes_of value)))).

(** The list of exempt addresses: comma-separated blocks. *)
Definition parse_exempt (key value : string) : result (list PeerBlock) Error :=
  collect_all (fun entry => map_err (fun e => ["reading " +:+ key +:+ ": " +:+ invalid_block_display e]) (block_from_str entry))
    (List.filter (fun entry => negb (is_empty entry)) (map trim (split x2c value))).

(** [is_loopback]. *)
Definition is_loopback (address : string) : bool :=
  let host := match rsplit_once COLON address with Some (host, _) => host | None => address end in
  let host := trim_end_matches (one_of [93]) (trim_start_matches (one_of [91]) (trim host)) in
  bool_decide (host = "localhost") || bool_decide (host = "::1") || starts_with "127." host.

(** ** Enumerations *)

Inductive LogLevel := LevelError | LevelWarn | LevelInfo | LevelDebug | LevelTrace.

Definition log_level_as_str (l : LogLevel) : string :=
  match l with
  | LevelError => "error" | LevelWarn => "warn" | LevelInfo => "info" | LevelDebug => "debug"
  | LevelTrace => "trace"
  end.
Definition LOG_LEVELS : list LogLevel := [LevelError; LevelWarn; LevelInfo; LevelDebug; LevelTrace].

Definition parse_log_level (value : string) : result LogLevel Error :=
  let v := to_ascii_lowercase (trim value) in
  if bool_decide (v = "error") then Ok LevelError
  else if bool_decide (v ∈ ["warn"; "warning"]) then Ok LevelWarn
  else if bool_decide (v = "info") then Ok LevelInfo
  else if bool_decide (v = "debug") then Ok LevelDebug
  else if bool_decide (v = "trace") then Ok LevelTrace
  else bail ("`" +:+ v +:+ "` is not a log level: expected one of " +:+ join ", " (map log_level_as_str LOG_LEVELS)).

Inductive LogFormat := FormatJson | FormatTerminal.

Definition log_format_as_str (f : LogFormat) : string :=
  match f with FormatJson => "json" | FormatTerminal => "terminal" end.
Definition LOG_FORMATS : list LogFormat := [FormatJson; FormatTerminal].

Definition parse_log_format (value : string) : result LogFormat Error :=
  let v := to_ascii_lowercase (trim value) in
  if bool_decide (v = "json") then Ok FormatJson
  else if bool_decide (v ∈ ["terminal"; "text"; "pretty"]) then Ok FormatTerminal
  else bail ("`" +:+ v +:+ "` is not a log format: expected one of " +:+ join ", " (map log_format_as_str LOG_FORMATS)).

Inductive SecretProvider := ProviderNone | ProviderDirectory | ProviderEnvironment.

#[global] Instance secret_provider_eq_dec : EqDecision SecretProvider.
Proof. solve_decision. Defined.

Definition secret_provider_as_str (p : SecretProvider) : string :=
  match p with
  | ProviderNone => "none" | ProviderDirectory => "directory" | ProviderEnvironment => "environment"
  end.
Definition SECRET_PROVIDERS : list SecretProvider := [ProviderNone; ProviderDirectory; ProviderEnvironment].

Definition parse_secret_provider (value : string) : result SecretProvider Error :=
  let v := to_ascii_lowercase (trim value) in
  if bool_decide (v ∈ ["none"; ""]) then Ok ProviderNone
  else if bool_decide (v ∈ ["directory"; "dir"; "file"]) then Ok ProviderDirectory
  else if bool_decide (v ∈ ["environment"; "env"]) then Ok ProviderEnvironment
  else bail ("`" +:+ v +:+ "` is not a secret provider: expected one of "
             +:+ join ", " (map secret_provider_as_str SECRET_PROVIDERS)).

(** [SecretRef]: a name. *)
Definition SecretRef : Type := string.

(** ** Transport material *)

Inductive TlsVersion := V1_2 | V1_3.

Definition tls_version_as_str (v : TlsVersion) : string := match v with V1_2 => "1.2" | V1_3 => "1.3" end.
Definition TLS_VERSIONS : list TlsVersion := [V1_2; V1_3].

Definition parse_tls_version (value : string) : result TlsVersion Error :=
  let v := trim_start_matches (one_of [118; 86]) (trim value) in
  if bool_decide (v ∈ ["1.2"; "1_2"; "12"]) then Ok V1_2
  else if bool_decide (v ∈ ["1.3"; "1_3"; "13"]) then Ok V1_3
  else bail ("`" +:+ v +:+ "` is not a TLS version: expected one of " +:+ join ", " (map tls_version_as_str TLS_VERSIONS)).

Record TlsSettings := mkTls {
  certificate : string;
  tls_key : string;
  client_ca : option string;
  crl : option string;
  tls_allow : list AllowedPeer;
  min_version : TlsVersion;
  reload : option Z }.

(** [TlsSettings::new]. *)
Definition tls_new (cert key : string) : TlsSettings := mkTls cert key None None [] V1_3 None.

Definition is_mutual (t : TlsSettings) : bool := match client_ca t with Some _ => true | None => false end.

(** [Path::is_absolute] and [Path::join] on Unix. *)
Definition is_absolute (path : string) : bool := starts_with "/" path.
Definition path_join (dir path : string) : string :=
  if is_absolute path then path
  else if is_empty dir then path
  else if ends_with "/" dir then dir +:+ path else dir +:+ "/" +:+ path.

Definition resolve_in (dir path : string) : string :=
  if is_absolute path then path else path_join dir path.

(** [TlsSettings::resolved_in]. *)
Definition resolved_in (dir : string) (t : TlsSettings) : TlsSettings :=
  mkTls (resolve_in dir (certificate t)) (resolve_in dir (tls_key t))
    (resolve_in dir <$> client_ca t) (resolve_in dir <$> crl t) (tls_allow t) (min_version t) (reload t).

(** [TlsSettings::files]. *)
Definition tls_files (t : TlsSettings) : list string :=
  [certificate t; tls_key t] ++ option_list (client_ca t) ++ option_list (crl t).

Section Files.
(** [Path::is_file]. *)
Context (is_file : string -> bool).

Fixpoint require_files (dir : string) (l : list (string * option string)) : result unit Error :=
  match l with
  | [] => Ok tt
  | (_, None) :: rest => require_files dir rest
  | (what, Some path) :: rest =>
    let resolved := resolve_in dir path in
    if is_file resolved then require_files dir rest
    else bail ("the TLS " +:+ what +:+ " " +:+ resolved +:+ " is not a readable file")
  end.

(** [TlsSettings::validate_in]. *)
Definition tls_validate_in (dir : string) (t : TlsSettings) : result unit Error :=
  match crl t, client_ca t with
  | Some _, None =>
    bail ("a revocation list is configured but no client authority is: there is nothing to check "
          +:+ "against it, so no client would ever be refused by it")
  | _, _ =>
    require_files dir [("certificate", Some (certificate t)); ("private key", Some (tls_key t));
                       ("client CA", client_ca t); ("revocation list", crl t)]
  end.
End Files.

Example read_durations :
  map parse_duration ["30"; "2m"; " 1h "; "90d"; "5 S"; "0s"; "1.5h"; "18446744073709551615d"]
  = [Ok 30; Ok 120; Ok 3600; Ok 7776000; Ok 5; bail "a duration of zero leaves no budget at all";
     bail "`1.5h` is not a duration: expected something like 30s, 2m, 1h or 90d";
     bail "`18446744073709551615d` is longer than any deployment outlives"].
Proof. vm_compute. reflexivity. Qed.

(** The unit of a size is read before the [b] is taken off, so [1BM] is a size and [1MB] is not. *)
Example sizes_with_a_byte_suffix :
  parse_bytes "1MB" = bail "`1MB` is not a size: expected something like 1M, 512k or 4096" /\
  parse_bytes "1BM" = Ok (1024 * 1024) /\ parse_bytes "4096B" = Ok 4096.
Proof. vm_compute. auto. Qed.

(** A host name that starts with [127.] is taken for an address only this machine can reach. *)
Example a_name_is_taken_for_loopback : is_loopback "127.example.com:8443" = true.
Proof. vm_compute. reflexivity. Qed.

Example loopback_addresses :
  map is_loopback ["127.0.0.1:80"; "localhost:80"; "[::1]:80"; "0.0.0.0:80"; "::1"; "10.0.0.1"; "localhost"]
  = [true; true; true; false; false; false; true].
Proof. vm_compute. reflexivity. Qed.
