(* ===== verification/Trail.v ===== *)
(** * The audit trail on disk ([crates/pic-x-std/src/audit/file.rs])

    One file of JSON lines per UTC day, each record carrying the digest of the one before it;
    a seal per day; the verifier that reads a whole trail. [serde_json] and [sha2] are
    parameters; the key ring that signs seals is any [KeyManager]. The state is the directory
    (an absent directory is an empty one), the file being appended to, the key ring and the
    seals that went to the log stream. *)
From S2P Require Import Prelude Rust Errors Civil Keys AuditEvents.
Local Open Scope Z_scope.
Local Open Scope rust_scope.

Definition PREFIX : string := "audit-".
Definition SUFFIX : string := ".jsonl".
Definition SEAL_SUFFIX : string := ".seal".
Definition GENESIS : string := "0000000000000000000000000000000000000000000000000000000000000000".

Record Body := mkBody {
  seq : Z; at_ : string; prev : string; action : string; subject : string; subject_kind : string;
  subject_sensitivity : string; target : option string; continuity_id : option string;
  continuity_position : option Z; service : string; version : string }.

Record Record_ := mkRecord { body : Body; digest : string }.

Record SealBody := mkSealBody { seal_day : string; seal_at : string; records : Z; head : string }.

Record Seal := mkSeal {
  seal_body : SealBody; seal_kid : option string; seal_algorithm : option string;
  seal_signature : option string }.

#[global] Instance body_eq_dec : EqDecision Body.
Proof. solve_decision. Defined.
#[global] Instance record_eq_dec : EqDecision Record_.
Proof. solve_decision. Defined.
#[global] Instance seal_body_eq_dec : EqDecision SealBody.
Proof. solve_decision. Defined.
#[global] Instance seal_eq_dec : EqDecision Seal.
Proof. solve_decision. Defined.

(** The serialisers derived with [serde] and run by [serde_json], and SHA-256. *)
Record Codec := mkCodec {
  body_json : Body -> list byte;
  record_json : Record_ -> string;
  record_from_json : string -> option Record_;
  seal_body_json : SealBody -> list byte;
  seal_json_pretty : Seal -> string;
  seal_from_json : string -> option Seal;
  sha256_digest : list byte -> list byte }.

Record Open := mkOpen { open_day : Z; open_seq : Z; open_previous : string }.

(** ** File names *)

Definition path_for (day : Z) : string := PREFIX +:+ to_iso (date_of day) +:+ SUFFIX.
Definition seal_path (day : Z) : string := PREFIX +:+ to_iso (date_of day) +:+ SEAL_SUFFIX.

Definition day_of_file (name : string) : option Z :=
  match strip_prefix PREFIX name with
  | None => None
  | Some rest =>
    match strip_suffix SUFFIX rest with
    | None => None
    | Some date => days_of <$> from_iso date
    end
  end.

Definition days_in (files : gmap string (list byte)) : list Z :=
  merge_sort Z.le (omap day_of_file (map fst (map_to_list files))).

Definition is_blank (line : string) : bool := is_empty (trim line).

Section Sink.
Context {K : Type} `{!KeyManager K} {P : Type} `{!Pseudonymizer P} (J : Codec).

Definition expected_digest (b : Body) : string := hex (sha256_digest J (body_json J b)).

(** [trail_io] says which calls to the operating system succeed; a write that fails may have
    put [torn] bytes on the disk first. *)
Record SinkSettings := mkSinkSettings {
  service_name : string; service_version : string; retention : Z;
  trail_io : nat -> bool; torn : nat -> nat }.

Record Trail := mkTrail {
  files : gmap string (list byte);
  open : option Open;
  sink_keys : option K;
  emitted : list Seal;
  trail_ops : nat }.

Context (cfg : SinkSettings).

Definition T (A : Type) : Type := M Trail AuditError A.

Definition set_files (f : gmap string (list byte)) (t : Trail) : Trail :=
  mkTrail f (open t) (sink_keys t) (emitted t) (trail_ops t).
Definition set_open (o : option Open) (t : Trail) : Trail :=
  mkTrail (files t) o (sink_keys t) (emitted t) (trail_ops t).
Definition set_sink_keys (k : option K) (t : Trail) : Trail :=
  mkTrail (files t) (open t) k (emitted t) (trail_ops t).
Definition emit (s : Seal) (t : Trail) : Trail :=
  mkTrail (files t) (open t) (sink_keys t) (emitted t ++ [s]) (trail_ops t).

Definition call (e : AuditError) : T unit := fun t =>
  ((if trail_io cfg (trail_ops t) then Ok tt else Err e),
   mkTrail (files t) (open t) (sink_keys t) (emitted t) (S (trail_ops t))).

(** Appends to an open file; the bytes go nowhere once the file has been removed. *)
Definition append_bytes (name : string) (bs : list byte) (t : Trail) : Trail :=
  set_files (match files t !! name with
             | Some old => <[name := old ++ bs]> (files t)
             | None => files t
             end) t.

(** One write to an open file: all of it, or a prefix and an error. *)
Definition write_to (name : string) (bs : list byte) (e : AuditError) : T unit := fun t =>
  let n := trail_ops t in
  let t' := mkTrail (files t) (open t) (sink_keys t) (emitted t) (S n) in
  if trail_io cfg n then (Ok tt, append_bytes name bs t')
  else (Err e, append_bytes name (take (torn cfg n) bs) t').

Definition ignore {A} (m : T A) : T unit := fun t => (Ok tt, snd (m t)).

(** ** Opening, sealing and expiring *)

Definition days : T (list Z) :=
  let! _ := call (AuditUnavailable "reading the audit directory") in
  let! t := mget in
  mret (days_in (files t)).

Fixpoint map_while_utf8 (ls : list (list byte)) : list string :=
  match ls with
  | [] => []
  | l :: r => match from_utf8 l with Some s => s :: map_while_utf8 r | None => [] end
  end.

Definition tail : T (option (Z * string)) :=
  let! ds := days in
  match last ds with
  | None => mret None
  | Some latest =>
    let! t := mget in
    match files t !! path_for latest with
    | None => mfail (AuditUnavailable ("opening " +:+ path_for latest))
    | Some bytes =>
      let! _ := call (AuditUnavailable ("opening " +:+ path_for latest)) in
      match last (List.filter (fun l => negb (is_blank l)) (map_while_utf8 (lines bytes))) with
      | None => mret None
      | Some l =>
        match record_from_json J l with
        | None => mfail (AuditBackend "reading the last record of the trail")
        | Some r => mret (Some (seq (body r), digest r))
        end
      end
    end
  end.

Definition is_open_on (day : Z) (o : option Open) : bool :=
  match o with Some c => open_day c =? day | None => false end.

Definition open_for (day : Z) : T unit :=
  let! t := mget in
  if is_open_on day (open t) then mret tt
  else
    let! tl := (match open t with
                | Some c => mret (Some (open_seq c, open_previous c))
                | None => tail
                end) in
    let path := path_for day in
    let! _ := call (AuditBackend "creating the audit directory") in
    let! _ := call (AuditBackend ("opening " +:+ path)) in
    let! _ := mmodify (fun t => set_files (match files t !! path with
                                           | Some _ => files t
                                           | None => <[path := []]> (files t)
                                           end) t) in
    let! _ := call (AuditBackend ("restricting " +:+ path)) in
    let '(s, p) := default (0, GENESIS) tl in
    mmodify (set_open (Some (mkOpen day s p))).

(** A key ring that cannot sign leaves the seal unsigned. *)
Definition sign_seal (payload : list byte) : T (option Signature) := fun t =>
  match sink_keys t with
  | None => (Ok None, t)
  | Some k =>
    match key_sign payload k with
    | (Ok s, k') => (Ok (Some s), set_sink_keys (Some k') t)
    | (Err _, k') => (Ok None, set_sink_keys (Some k') t)
    end
  end.

Definition seal (now day records : Z) (head : string) : T unit :=
  let b := mkSealBody (to_iso (date_of day)) (to_rfc3339 now) records head in
  let! signed := sign_seal (seal_body_json J b) in
  let s := mkSeal b (signature_key_id <$> signed) (signature_algorithm <$> signed)
                  ((fun x => hex (signature_bytes x)) <$> signed) in
  let path := seal_path day in
  let! _ := call (AuditBackend ("writing " +:+ path)) in
  let! _ := mmodify (fun t => set_files (<[path := []]> (files t)) t) in
  let! _ := write_to path (bytes_of (seal_json_pretty J s)) (AuditBackend ("writing " +:+ path)) in
  let! _ := call (AuditBackend ("restricting " +:+ path)) in
  mmodify (emit s).

Fixpoint expire_loop (oldest_kept : Z) (names : list string) (removed : nat) : T nat :=
  match names with
  | [] => mret removed
  | name :: rest =>
    match day_of_file name with
    | None => expire_loop oldest_kept rest removed
    | Some day =>
      if oldest_kept <=? day then expire_loop oldest_kept rest removed
      else
        let! _ := call (AuditBackend ("removing " +:+ name)) in
        let! _ := mmodify (fun t => set_files (delete name (files t)) t) in
        let! _ := ignore (let! _ := call (AuditBackend ("removing " +:+ seal_path day)) in
                          mmodify (fun t => set_files (delete (seal_path day) (files t)) t)) in
        expire_loop oldest_kept rest (S removed)
    end
  end.

Definition retention_days : Z := retention cfg / 86400.

Definition expire (today : Z) : T nat :=
  let! _ := call (AuditUnavailable "reading the audit directory") in
  let! t := mget in
  expire_loop (as_i64 (today - as_i64 retention_days)) (map fst (map_to_list (files t))) 0.

Definition prepare (now : Z) : T unit :=
  let! _ := call (AuditBackend "creating the audit directory") in
  let! _ := call (AuditBackend "restricting the audit directory") in
  let! _ := expire (day_of now) in
  mret tt.

(** ** Recording *)

Definition body_of (event : AuditEvent) (policy : option P) (seconds : Z) (c : Open) : Body :=
  {| seq := open_seq c + 1;
     at_ := to_rfc3339 seconds;
     prev := open_previous c;
     action := event_action event;
     subject := render (event_subject event) policy;
     subject_kind := kind (event_subject event);
     subject_sensitivity := sensitivity_as_str (sensitivity (event_subject event));
     target := event_target event;
     continuity_id := event_continuity_id event;
     continuity_position := event_continuity_position event;
     service := service_name cfg;
     version := service_version cfg |}.

(** [record]: the clock reads [seconds], and [sealing] when it is read again for a seal. *)
Definition record (seconds sealing : Z) (event : AuditEvent) (policy : option P) : T unit :=
  let day := day_of seconds in
  let! t := mget in
  let rolled := negb (is_open_on day (open t)) in
  let! _ := (match open t with
             | Some closing =>
               if rolled
               then ignore (seal sealing (open_day closing) (open_seq closing) (open_previous closing))
               else mret tt
             | None => mret tt
             end) in
  let! _ := open_for day in
  let! _ := (if rolled then let! _ := expire day in mret tt else mret tt) in
  let! t := mget in
  match open t with
  | None => mfail (AuditBackend "the audit file was not opened")
  | Some current =>
    let b := body_of event policy seconds current in
    let d := expected_digest b in
    let line := record_json J (mkRecord b d) in
    let path := path_for (open_day current) in
    let! _ := write_to path (bytes_of line) (AuditBackend "appending a record") in
    let! _ := write_to path [LF] (AuditBackend "appending a record") in
    let! _ := call (AuditBackend "flushing a record") in
    mmodify (set_open (Some (mkOpen (open_day current) (open_seq current + 1) d)))
  end.

Definition shutdown (sealing : Z) : T unit :=
  let! t := mget in
  match open t with
  | None => mmodify (set_open None)
  | Some current =>
    let! _ := call (AuditBackend "closing the trail") in
    let! _ := ignore (seal sealing (open_day current) (open_seq current) (open_previous current)) in
    mmodify (set_open None)
  end.

(** ** Verifying *)

Record Verification := mkVerification {
  v_records : Z; v_days : nat; v_head : string; v_seals : list Seal }.

Inductive VerifyError :=
| VOpening (path : string)
| VReading (path : string)
| VParsing (path : string) (line : nat)
| VAltered (path : string) (line : nat)
| VBroken (path : string) (line : nat)
| VNumbered (path : string) (line : nat) (found expected : Z)
| VRewritten (seal : Seal) (at_record : Z) (found : string)
| VTruncated (seal : Seal) (held : Z)
| VSeal (path : string).

Fixpoint read_seals (files : gmap string (list byte)) (days : list Z) (seals : gmap Z Seal)
  : result (gmap Z Seal) VerifyError :=
  match days with
  | [] => Ok seals
  | day :: r =>
    match files !! seal_path day with
    | None => read_seals files r seals
    | Some bytes =>
      match from_utf8 bytes with
      | None => Err (VReading (seal_path day))
      | Some text =>
        match seal_from_json J text with
        | None => Err (VSeal (seal_path day))
        | Some s => read_seals files r (<[records (seal_body s) := s]> seals)
        end
      end
    end
  end.

(** What the verifier carries from line to line. *)
Record VState := mkVState {
  expected_previous : string; expected_seq : Z; read : Z; checked : list Seal }.

Definition check_record (seals : gmap Z Seal) (path : string) (line : nat) (r : Record_) (v : VState)
  : result VState VerifyError :=
  if negb (bool_decide (expected_digest (body r) = digest r)) then Err (VAltered path line)
  else if negb (bool_decide (prev (body r) = expected_previous v)) then Err (VBroken path line)
  else if negb (seq (body r) =? expected_seq v)
  then Err (VNumbered path line (seq (body r)) (expected_seq v))
  else
    let n := read v + 1 in
    let v' := mkVState (digest r) (expected_seq v + 1) n (checked v) in
    match seals !! n with
    | None => Ok v'
    | Some s =>
      if negb (bool_decide (head (seal_body s) = digest r)) then Err (VRewritten s n (digest r))
      else Ok (mkVState (digest r) (expected_seq v + 1) n (checked v ++ [s]))
    end.

Fixpoint check_lines (seals : gmap Z Seal) (path : string) (line : nat) (ls : list (list byte)) (v : VState)
  : result VState VerifyError :=
  match ls with
  | [] => Ok v
  | l :: r =>
    match from_utf8 l with
    | None => Err (VReading path)
    | Some text =>
      if is_blank text then check_lines seals path (S line) r v
      else match record_from_json J text with
           | None => Err (VParsing path line)
           | Some rec =>
             let? v' := check_record seals path line rec v in
             check_lines seals path (S line) r v'
           end
    end
  end.

Fixpoint check_days (files : gmap string (list byte)) (seals : gmap Z Seal) (ds : list Z) (v : VState)
  : result VState VerifyError :=
  match ds with
  | [] => Ok v
  | day :: r =>
    match files !! path_for day with
    | None => Err (VOpening (path_for day))
    | Some bytes =>
      let? v' := check_lines seals (path_for day) 1 (lines bytes) v in
      check_days files seals r v'
    end
  end.

Definition verify (files : gmap string (list byte)) : result Verification VerifyError :=
  let ds := days_in files in
  let? seals := read_seals files ds ∅ in
  let? v := check_days files seals ds (mkVState GENESIS 1 0 []) in
  match List.find (fun point => read v <? point) (merge_sort Z.le (map fst (map_to_list seals))) with
  | Some beyond => match seals !! beyond with
                   | Some s => Err (VTruncated s (read v))
                   | None => Err (VSeal "")
                   end
  | None => Ok (mkVerification (read v) (length ds) (expected_previous v) (checked v))
  end.
End Sink.
