(* ===== verification/TrailVerify.v ===== *)
(** * What a verified trail attests to

    The verifier accepts exactly the trails whose records, read in order, form a chain that
    agrees with the seals beside it; and a chain is determined by its length and its head, up
    to a collision of the digest. *)
From S2P Require Import Prelude Rust Errors Civil Keys AuditEvents Trail.
Local Open Scope Z_scope.
Local Open Scope rust_scope.

Section Verify.
Context (J : Codec).

(** The records of a sequence of lines, blank ones skipped. *)
Fixpoint records_of_lines (ls : list (list byte)) : option (list Record_) :=
  match ls with
  | [] => Some []
  | l :: r =>
    text ← from_utf8 l;
    if is_blank text then records_of_lines r
    else rec ← record_from_json J text; cons rec <$> records_of_lines r
  end.

Fixpoint records_of_days (files : gmap string (list byte)) (ds : list Z) : option (list Record_) :=
  match ds with
  | [] => Some []
  | d :: r =>
    bytes ← files !! path_for d;
    rs ← records_of_lines (lines bytes);
    rest ← records_of_days files r;
    Some (rs ++ rest)
  end.

(** Every record of the trail, oldest first. *)
Definition trail_records (files : gmap string (list byte)) : option (list Record_) :=
  records_of_days files (days_in files).

(** Records numbered from [n] on, each naming the digest of the one before it, [p] at first. *)
Fixpoint chained (p : string) (n : Z) (rs : list Record_) : Prop :=
  match rs with
  | [] => True
  | r :: t => digest r = expected_digest J (body r) /\ prev (body r) = p /\ seq (body r) = n
              /\ chained (digest r) (n + 1) t
  end.

Fixpoint head_from (p : string) (rs : list Record_) : string :=
  match rs with [] => p | r :: t => head_from (digest r) t end.

(** Each seal over a record of [rs], the first of which is record [n + 1], names its digest. *)
Fixpoint agrees (seals : gmap Z Seal) (n : Z) (rs : list Record_) : Prop :=
  match rs with
  | [] => True
  | r :: t => (forall s, seals !! (n + 1) = Some s -> head (seal_body s) = digest r)
              /\ agrees seals (n + 1) t
  end.

(** The verifier's state after [rs]. *)
Fixpoint advance (seals : gmap Z Seal) (rs : list Record_) (v : VState) : VState :=
  match rs with
  | [] => v
  | r :: t => advance seals t (mkVState (digest r) (expected_seq v + 1) (read v + 1)
                (checked v ++ option_list (seals !! (read v + 1))))
  end.

Lemma advance_app seals a b v : advance seals (a ++ b) v = advance seals b (advance seals a v).
Proof. revert v. induction a; intros v; simpl; auto. Qed.

Lemma advance_fields seals rs v :
  expected_previous (advance seals rs v) = head_from (expected_previous v) rs /\
  expected_seq (advance seals rs v) = expected_seq v + Z.of_nat (length rs) /\
  read (advance seals rs v) = read v + Z.of_nat (length rs).
Proof.
  revert v. induction rs as [|r rs IH]; intros v; cbn [advance head_from length]; [split_and!; [done|lia..]|].
  destruct (IH (mkVState (digest r) (expected_seq v + 1) (read v + 1)
                (checked v ++ option_list (seals !! (read v + 1))))) as (-> & -> & ->).
  cbn [expected_previous expected_seq read]. split_and!; [done|lia..].
Qed.

Lemma head_from_app p a b : head_from p (a ++ b) = head_from (head_from p a) b.
Proof. revert p. induction a; intros p; simpl; auto. Qed.

Lemma chained_app p n a b :
  chained p n (a ++ b) <-> chained p n a /\ chained (head_from p a) (n + Z.of_nat (length a)) b.
Proof.
  revert p n. induction a as [|r a IH]; intros p n; cbn [app chained head_from length].
  - rewrite Z.add_0_r. tauto.
  - rewrite IH. replace (n + Z.of_nat (S (length a))) with (n + 1 + Z.of_nat (length a)) by lia. tauto.
Qed.

Lemma agrees_app seals n a b :
  agrees seals n (a ++ b) <-> agrees seals n a /\ agrees seals (n + Z.of_nat (length a)) b.
Proof.
  revert n. induction a as [|r a IH]; intros n; cbn [app agrees length].
  - rewrite Z.add_0_r. tauto.
  - rewrite IH. replace (n + Z.of_nat (S (length a))) with (n + 1 + Z.of_nat (length a)) by lia. tauto.
Qed.

Lemma agrees_lookup seals n rs i r s :
  agrees seals n rs -> rs !! i = Some r -> seals !! (n + 1 + Z.of_nat i) = Some s ->
  head (seal_body s) = digest r.
Proof.
  revert n i. induction rs as [|x rs IH]; intros n i H Hi Hs; [done|]. destruct H as [Hx H].
  destruct i as [|i]; simpl in Hi.
  - simplify_eq. apply Hx. by rewrite Z.add_0_r in Hs.
  - apply (IH (n + 1) i H Hi). by replace (n + 1 + 1 + Z.of_nat i) with (n + 1 + Z.of_nat (S i)) by lia.
Qed.

Lemma check_record_iff seals path line r v v' :
  check_record J seals path line r v = Ok v' <->
  chained (expected_previous v) (expected_seq v) [r] /\ agrees seals (read v) [r] /\
  v' = advance seals [r] v.
Proof.
  unfold check_record. simpl. case_bool_decide as H1; simpl; [|naive_solver].
  case_bool_decide as H2; simpl; [|naive_solver].
  destruct (Z.eqb_spec (seq (body r)) (expected_seq v)) as [H3|H3]; simpl; [|naive_solver].
  destruct (seals !! (read v + 1)) as [s|] eqn:Es; simpl.
  - case_bool_decide as H4; simpl.
    + split; [intros [= <-]; split_and!; auto; intros ? [= <-]; done|]. by intros (_ & _ & ->).
    + split; [done|]. intros (_ & [H _] & _). by specialize (H s eq_refl).
  - rewrite app_nil_r. split; [intros [= <-]; split_and!; auto; by intros|]. by intros (_ & _ & ->).
Qed.

(** The verifier accepts lines exactly when they hold a chain that agrees with the seals. *)
Lemma check_lines_iff seals path line ls v v' :
  check_lines J seals path line ls v = Ok v' <->
  exists rs, records_of_lines ls = Some rs /\ chained (expected_previous v) (expected_seq v) rs /\
    agrees seals (read v) rs /\ v' = advance seals rs v.
Proof.
  revert line v. induction ls as [|l ls IH]; intros line v; cbn [check_lines records_of_lines].
  - split; [intros [= <-]; by exists []|]. by intros (rs & [= <-] & _ & _ & ->).
  - destruct (from_utf8 l) as [text|]; simpl; [|naive_solver].
    destruct (is_blank text); [apply IH|].
    destruct (record_from_json J text) as [rec|]; simpl; [|naive_solver].
    rewrite bind_result_Ok. split.
    + intros (v1 & (Hc & Ha & ->)%check_record_iff & (rs & -> & Hc2 & Ha2 & ->)%IH).
      exists (rec :: rs). simpl in *. split_and!; tauto.
    + intros (rs & Hrs & Hc & Ha & ->). destruct (records_of_lines ls) as [rs0|] eqn:E; [|done].
      injection Hrs as <-. exists (advance seals [rec] v). simpl in Hc, Ha. split.
      * apply check_record_iff. simpl. tauto.
      * apply IH. exists rs0. simpl. tauto.
Qed.

Lemma check_days_iff files seals ds v v' :
  check_days J files seals ds v = Ok v' <->
  exists rs, records_of_days files ds = Some rs /\ chained (expected_previous v) (expected_seq v) rs /\
    agrees seals (read v) rs /\ v' = advance seals rs v.
Proof.
  revert v. induction ds as [|d ds IH]; intros v; cbn [check_days records_of_days].
  - split; [intros [= <-]; by exists []|]. by intros (rs & [= <-] & _ & _ & ->).
  - destruct (files !! path_for d) as [bytes|]; simpl; [|naive_solver].
    rewrite bind_result_Ok. split.
    + intros (v1 & (rs1 & -> & Hc & Ha & ->)%check_lines_iff & (rs2 & Hd & Hc2 & Ha2 & ->)%IH).
      destruct (advance_fields seals rs1 v) as (E1 & E2 & E3). rewrite E1, E2 in Hc2. rewrite E3 in Ha2.
      exists (rs1 ++ rs2). simpl. rewrite Hd, chained_app, agrees_app, advance_app. done.
    + intros (rs & Hrs & Hc & Ha & ->). destruct (records_of_lines (lines bytes)) as [rs1|] eqn:E1; [|done].
      simpl in Hrs. destruct (records_of_days files ds) as [rs2|] eqn:E2; [|done]. simpl in Hrs. simplify_eq.
      rewrite chained_app in Hc. rewrite agrees_app in Ha. destruct Hc as [Hc1 Hc2], Ha as [Ha1 Ha2].
      exists (advance seals rs1 v). split; [apply check_lines_iff; eauto|].
      destruct (advance_fields seals rs1 v) as (F1 & F2 & F3).
      apply IH. exists rs2. rewrite F1, F2, F3, advance_app. done.
Qed.

Lemma find_beyond (n : Z) (l : list Z) :
  List.find (fun p => n <? p) (merge_sort Z.le l) = None <-> forall p, p ∈ l -> p <= n.
Proof.
  split.
  - intros H p Hp. eapply find_none in H as H'; [apply Z.ltb_ge; exact H'|].
    apply list_elem_of_In. by rewrite merge_sort_Permutation.
  - intros H. destruct (List.find _ _) as [p|] eqn:E; [|done]. apply find_some in E as [Hin Hp].
    apply list_elem_of_In in Hin. rewrite merge_sort_Permutation in Hin. apply H in Hin.
    apply Z.ltb_lt in Hp. lia.
Qed.

Lemma elem_of_keys (seals : gmap Z Seal) n :
  n ∈ map fst (map_to_list seals) <-> is_Some (seals !! n).
Proof.
  rewrite list_elem_of_In, in_map_iff. split.
  - intros ([m s] & <- & Hin). apply list_elem_of_In, elem_of_map_to_list in Hin. eauto.
  - intros [s Hs]. exists (n, s). split; [done|]. by apply list_elem_of_In, elem_of_map_to_list.
Qed.

(** The verifier accepts exactly the trails that are a chain from the genesis digest, agree
    with every seal it reads, and are at least as long as each of them says. *)
Lemma verify_iff files v :
  verify J files = Ok v <->
  exists seals rs, read_seals J files (days_in files) ∅ = Ok seals /\
    trail_records files = Some rs /\ chained GENESIS 1 rs /\ agrees seals 0 rs /\
    (forall n, is_Some (seals !! n) -> n <= Z.of_nat (length rs)) /\
    v = mkVerification (Z.of_nat (length rs)) (length (days_in files)) (head_from GENESIS rs)
          (checked (advance seals rs (mkVState GENESIS 1 0 []))).
Proof.
  unfold verify, trail_records. rewrite bind_result_Ok. split.
  - intros (seals & Hs & H). apply bind_result_Ok in H as (v1 & (rs & Hrs & Hc & Ha & ->)%check_days_iff & H).
    destruct (advance_fields seals rs (mkVState GENESIS 1 0 [])) as (E1 & E2 & E3). simpl in *.
    rewrite E1, E3 in H. destruct (List.find _ _) as [b|] eqn:Ef; [by destruct (seals !! b)|].
    rewrite find_beyond in Ef. injection H as <-. exists seals, rs. split_and!; auto.
    intros n Hn. apply Ef. by apply elem_of_keys.
  - intros (seals & rs & Hs & Hrs & Hc & Ha & Hl & ->). exists seals. split; [done|].
    apply bind_result_Ok. eexists. split; [apply check_days_iff; eauto|].
    destruct (advance_fields seals rs (mkVState GENESIS 1 0 [])) as (E1 & E2 & E3). simpl in *.
    rewrite E1, E3. replace (List.find _ _) with (@None Z); [done|]. symmetry. apply find_beyond.
    intros p Hp. apply Hl. by apply elem_of_keys.
Qed.

Lemma read_seals_keys files ds seals seals' :
  read_seals J files ds seals = Ok seals' ->
  (forall n s, seals !! n = Some s -> records (seal_body s) = n) ->
  forall n s, seals' !! n = Some s -> records (seal_body s) = n.
Proof.
  revert seals. induction ds as [|d ds IH]; intros seals H Hk; simpl in H; [by simplify_eq|].
  destruct (files !! seal_path d) as [bytes|]; [|by eapply IH].
  destruct (from_utf8 bytes) as [text|]; [|done]. destruct (seal_from_json J text) as [s0|]; [|done].
  eapply IH; [done|]. intros n s. rewrite lookup_insert. case_decide; naive_solver.
Qed.

Lemma checked_advance seals rs v s :
  s ∈ checked (advance seals rs v) -> s ∈ checked v \/
  exists i r, rs !! i = Some r /\ seals !! (read v + 1 + Z.of_nat i) = Some s.
Proof.
  revert v. induction rs as [|r rs IH]; intros v H; simpl in H; [by left|].
  apply IH in H as [H|(i & r' & Hi & Hs)]; simpl in *.
  - apply elem_of_app in H as [H|H]; [by left|]. right. exists 0%nat, r. split; [done|].
    rewrite Z.add_0_r. destruct (seals !! (read v + 1)); simpl in H; [|by apply not_elem_of_nil in H].
    by apply list_elem_of_singleton in H as ->.
  - right. exists (S i), r'. split; [done|].
    by replace (read v + 1 + Z.of_nat (S i)) with (read v + 1 + 1 + Z.of_nat i) by lia.
Qed.

Lemma head_from_take p rs i r : rs !! i = Some r -> head_from p (take (S i) rs) = digest r.
Proof.
  revert p i. induction rs as [|x rs IH]; intros p [|i] H; simpl in *; simplify_eq; auto.
Qed.

(** What a checked seal says of the trail beside it. *)
Lemma verify_seal files v rs s :
  verify J files = Ok v -> trail_records files = Some rs -> s ∈ v_seals v ->
  1 <= records (seal_body s) <= Z.of_nat (length rs) /\
  head_from GENESIS (take (Z.to_nat (records (seal_body s))) rs) = head (seal_body s).
Proof.
  intros (seals & rs' & Hs & Hrs & Hc & Ha & Hl & ->)%verify_iff Hrs' Hin.
  assert (rs' = rs) as -> by congruence. cbn [v_seals] in Hin.
  apply checked_advance in Hin as [Hin|(i & r & Hi & Hsi)]; [by apply not_elem_of_nil in Hin|].
  cbn [read] in Hsi. pose proof (read_seals_keys _ _ _ _ Hs ltac:(done) _ _ Hsi) as Hn.
  pose proof (lookup_lt_Some _ _ _ Hi) as Hlt. split; [lia|].
  rewrite Hn. replace (Z.to_nat (0 + 1 + Z.of_nat i)) with (S i) by lia.
  rewrite (head_from_take _ _ _ _ Hi). symmetry. by eapply agrees_lookup.
Qed.

(** ** A chain is determined by its head *)

Definition collision : Prop :=
  exists x y, x <> y /\ sha256_digest J x = sha256_digest J y.

Lemma same_digest a b :
  (forall x y, body_json J x = body_json J y -> x = y) ->
  expected_digest J a = expected_digest J b -> a = b \/ collision.
Proof.
  intros Hinj H. apply hex_inj in H.
  destruct (decide (body_json J a = body_json J b)) as [Heq|Hne]; [left; auto|].
  right. by exists (body_json J a), (body_json J b).
Qed.

Lemma chain_determined p n a b :
  (forall x y, body_json J x = body_json J y -> x = y) ->
  chained p n a -> chained p n b -> length a = length b -> head_from p a = head_from p b ->
  a = b \/ collision.
Proof.
  intros Hinj. revert b. induction a as [|x a IH] using rev_ind; intros b Ha Hb Hl Hh.
  - left. by destruct b.
  - destruct b as [|y b _] using rev_ind; [rewrite length_app in Hl; simpl in Hl; lia|].
    rewrite !length_app in Hl. simpl in Hl. assert (Hlen : length a = length b) by lia.
    rewrite chained_app in Ha, Hb. rewrite !head_from_app in Hh. simpl in *.
    destruct Ha as (Ha & Dx & Px & Sx & _), Hb as (Hb & Dy & Py & Sy & _).
    destruct (same_digest (body x) (body y)) as [Hbody|]; [done|congruence| |by right].
    destruct (IH b) as [->|]; [done..|congruence| |by right].
    left. f_equal. f_equal. destruct x, y. simpl in *. congruence.
Qed.


Lemma chained_take p n k rs : chained p n rs -> chained p n (take k rs).
Proof. intros H. rewrite <- (take_drop k rs) in H. by apply chained_app in H as [H _]. Qed.

(** A seal that left the machine fixes the prefix it attests to: a trail that still verifies
    against the seal holds at least the records it counts, and two such trails agree on every
    one of them, unless the digest collides. *)
Theorem seal_fixes_its_prefix files files' v v' rs rs' s :
  (forall x y, body_json J x = body_json J y -> x = y) ->
  verify J files = Ok v -> verify J files' = Ok v' ->
  trail_records files = Some rs -> trail_records files' = Some rs' ->
  s ∈ v_seals v -> s ∈ v_seals v' ->
  records (seal_body s) <= Z.min (v_records v) (v_records v') /\
  (take (Z.to_nat (records (seal_body s))) rs = take (Z.to_nat (records (seal_body s))) rs' \/ collision).
Proof.
  intros Hinj Hv Hv' Hrs Hrs' Hs Hs'.
  destruct (verify_seal _ _ _ _ Hv Hrs Hs) as [Hn Hh].
  destruct (verify_seal _ _ _ _ Hv' Hrs' Hs') as [Hn' Hh'].
  apply verify_iff in Hv as (sl & r & _ & H1 & Hc & _ & _ & ->).
  apply verify_iff in Hv' as (sl' & r' & _ & H2 & Hc' & _ & _ & ->).
  cbn [v_records]. simplify_eq. split; [lia|].
  eapply chain_determined; eauto using chained_take; [|congruence]. rewrite !length_take. lia.
Qed.
End Verify.
