(* ===== verification/TrailRecord.v ===== *)
(** * Every trail the sink writes verifies

    The writer's side of the trail: an invariant between the files, the open handle and an
    abstract log (days in order, each with its records), kept by [record], [shutdown] and a
    restart when the operating system does its part, and enough for the verifier to accept. *)
From S2P Require Import Prelude Rust Errors Civil Keys AuditEvents Trail TrailVerify.
Local Open Scope Z_scope.
Local Open Scope rust_scope.

(** What the serialisers promise: text reads back, and the compact form of a record is one
    line of UTF-8 that is not blank. *)
Record codec_laws (J : Codec) : Prop := mkCodecLaws {
  record_roundtrip : forall r, record_from_json J (record_json J r) = Some r;
  record_utf8 : forall r, from_utf8 (bytes_of (record_json J r)) = Some (record_json J r);
  record_line : forall r, Forall (fun b => bool_decide (b = LF) = false) (bytes_of (record_json J r));
  record_no_cr : forall r, strip_cr (bytes_of (record_json J r)) = bytes_of (record_json J r);
  record_not_blank : forall r, is_blank (record_json J r) = false;
  seal_roundtrip : forall s, seal_from_json J (seal_json_pretty J s) = Some s;
  seal_utf8 : forall s, from_utf8 (bytes_of (seal_json_pretty J s)) = Some (seal_json_pretty J s) }.

(** ** File names *)

(** A day whose date has a year that is not negative, so that its name reads back. *)
Definition dated (d : Z) : Prop := 0 <= year (date_of d) <= I64_MAX.

Lemma strip_prefix_app p s : strip_prefix p (p +:+ s) = Some s.
Proof.
  unfold strip_prefix. rewrite bytes_of_app.
  rewrite (proj2 (strip_prefix_list_Some (bytes_of p) _ (bytes_of s)) eq_refl). simpl.
  by rewrite string_of_bytes_of.
Qed.

Lemma strip_suffix_app s p : strip_suffix p (s +:+ p) = Some s.
Proof.
  unfold strip_suffix. rewrite bytes_of_app, rev_app_distr.
  rewrite (proj2 (strip_prefix_list_Some (rev (bytes_of p)) _ (rev (bytes_of s))) eq_refl). simpl.
  by rewrite rev_involutive, string_of_bytes_of.
Qed.

Lemma day_of_path_for d : dated d -> day_of_file (path_for d) = Some d.
Proof.
  intros Hd. unfold day_of_file, path_for. rewrite strip_prefix_app, strip_suffix_app.
  destruct (date_of_is_valid d) as [Hm Hday]. rewrite from_iso_to_iso; [|done|done|].
  - simpl. f_equal. apply days_of_date_of_id.
  - unfold days_in_month in Hday. repeat case_match; lia.
Qed.

Lemma day_of_seal_path d : day_of_file (seal_path d) = None.
Proof.
  unfold day_of_file, seal_path. rewrite strip_prefix_app. unfold strip_suffix.
  rewrite bytes_of_app, rev_app_distr. done.
Qed.

Lemma path_for_inj d d' : dated d -> dated d' -> path_for d = path_for d' -> d = d'.
Proof. intros H H' Heq. apply day_of_path_for in H, H'. congruence. Qed.

Lemma seal_path_not_path_for d d' : dated d' -> seal_path d <> path_for d'.
Proof.
  intros H Heq. pose proof (day_of_seal_path d) as H1. rewrite Heq, day_of_path_for in H1; done.
Qed.

(** ** The lines of a day *)

Section Lines.
Context (J : Codec) (laws : codec_laws J).

Definition line_of (r : Record_) : list byte := bytes_of (record_json J r) ++ [LF].
Definition content (rs : list Record_) : list byte := concat (map line_of rs).

Lemma content_snoc rs r : content (rs ++ [r]) = content rs ++ line_of r.
Proof. unfold content. rewrite map_app, concat_app. simpl. by rewrite app_nil_r. Qed.

Lemma lines_content rs : lines (content rs) = map (fun r => bytes_of (record_json J r)) rs.
Proof.
  unfold lines. induction rs as [|r rs IH]; [done|].
  unfold content. simpl. fold (content rs). unfold line_of at 1. rewrite <- app_assoc. simpl.
  rewrite split_list_app by (by apply laws || done).
  pose proof (split_list_nonempty (fun b => bool_decide (b = LF)) (content rs)) as Hne.
  destruct (split_list _ (content rs)) as [|p ps] eqn:E; [done|].
  change (strip_cr (bytes_of (record_json J r)) :: lines_of_pieces (p :: ps)
          = bytes_of (record_json J r) :: map (fun r => bytes_of (record_json J r)) rs).
  by rewrite record_no_cr, IH.
Qed.

Lemma records_of_content rs : records_of_lines J (lines (content rs)) = Some rs.
Proof.
  rewrite lines_content. induction rs as [|r rs IH]; [done|]. simpl.
  rewrite record_utf8 by done. simpl. rewrite record_not_blank, record_roundtrip by done. simpl.
  by rewrite IH.
Qed.

Lemma texts_of_content rs :
  List.filter (fun l => negb (is_blank l)) (map_while_utf8 (lines (content rs)))
  = map (record_json J) rs.
Proof.
  rewrite lines_content. induction rs as [|r rs IH]; [done|]. simpl.
  rewrite record_utf8 by done. simpl. rewrite record_not_blank by done. simpl. by rewrite IH.
Qed.
End Lines.

(** ** The invariant of the sink *)

Section Writer.
Context {K : Type} `{!KeyManager K} {P : Type} `{!Pseudonymizer P}.
Context (J : Codec) (laws : codec_laws J) (cfg : SinkSettings).
Context (io_up : forall n, trail_io cfg n = true).

(** The abstract log: each day with its records, oldest first. *)
Abbreviation Log := (list (Z * list Record_)).
Definition all_records (log : Log) : list Record_ := concat (map snd log).

(** What a seal beside a log must say to be true of it. *)
Definition seal_holds (rs : list Record_) (s : Seal) : Prop :=
  1 <= records (seal_body s) <= Z.of_nat (length rs) /\
  head_from GENESIS (take (Z.to_nat (records (seal_body s))) rs) = head (seal_body s).

(** The directory holds the log, and seals that are true of it. *)
Record on_disk (files : gmap string (list byte)) (log : Log) : Prop := mkOnDisk {
  disk_sorted : StronglySorted Z.lt (map fst log);
  disk_dated : Forall dated (map fst log);
  disk_days : forall name d, day_of_file name = Some d -> is_Some (files !! name) ->
              name = path_for d /\ d ∈ map fst log;
  disk_content : forall d rs, (d, rs) ∈ log -> files !! path_for d = Some (content J rs);
  disk_chained : chained J GENESIS 1 (all_records log);
  disk_seals : forall d bytes, files !! seal_path d = Some bytes ->
               exists s, bytes = bytes_of (seal_json_pretty J s) /\ seal_holds (all_records log) s }.

(** The open handle, when there is one, is at the end of the last day. *)
Definition at_end (o : Open) (log : Log) : Prop :=
  last (map fst log) = Some (open_day o) /\
  open_seq o = Z.of_nat (length (all_records log)) /\
  open_previous o = head_from GENESIS (all_records log).

Definition good (t : Trail (K := K)) (log : Log) : Prop :=
  on_disk (files t) log /\ Forall (fun p => snd p <> []) log /\
  forall o, open t = Some o -> at_end o log.

(** *** Sorting the names of the directory *)

Lemma omap_NoDup {A B} (f : A -> option B) (l : list A) :
  NoDup l -> (forall x y b, x ∈ l -> y ∈ l -> f x = Some b -> f y = Some b -> x = y) -> NoDup (omap f l).
Proof.
  induction 1 as [|x l Hx Hnd IH]; intros Hinj; [constructor|]. cbn.
  assert (IH' : NoDup (omap f l)) by (apply IH; intros; eapply Hinj; eauto; by right).
  destruct (f x) as [b|] eqn:E; [|done]. constructor; [|done].
  intros (y & Hy & Hf)%list_elem_of_omap. apply Hx.
  rewrite (Hinj x y b); [done|left|by right|done|done].
Qed.

Lemma lt_le_sorted ds : StronglySorted Z.lt ds -> StronglySorted Z.le ds.
Proof.
  induction 1 as [|d ds _ IH Hd]; constructor; [done|].
  eapply Forall_impl; [exact Hd|]. intros; lia.
Qed.

Lemma sorted_days l ds :
  l ≡ₚ ds -> StronglySorted Z.lt ds -> merge_sort Z.le l = ds.
Proof.
  intros Hp Hs. apply (StronglySorted_unique Z.le).
  - apply StronglySorted_merge_sort; apply _.
  - by apply lt_le_sorted.
  - by rewrite merge_sort_Permutation.
Qed.

Lemma lt_sorted_NoDup ds : StronglySorted Z.lt ds -> NoDup ds.
Proof.
  induction 1 as [|d ds _ IH Hd]; constructor; [|done]. intros Hin.
  rewrite Forall_forall in Hd. specialize (Hd d Hin). lia.
Qed.

(** The days the directory holds are the days of the log. *)
Lemma days_in_log files log : on_disk files log -> days_in files = map fst log.
Proof.
  intros [Hs Hd Hdays Hcont _ _]. unfold days_in. apply sorted_days; [|done].
  assert (Hkey : forall n, n ∈ map fst (map_to_list files) <-> is_Some (files !! n)).
  { intros n. rewrite list_elem_of_In, in_map_iff. split.
    - intros ([m b] & <- & Hin). apply list_elem_of_In, elem_of_map_to_list in Hin. eauto.
    - intros [b Hb]. exists (n, b). split; [done|]. by apply list_elem_of_In, elem_of_map_to_list. }
  apply NoDup_Permutation.
  - apply omap_NoDup; [apply NoDup_fst_map_to_list|]. intros x y d Hx Hy Ex Ey.
    apply Hkey in Hx, Hy. destruct (Hdays _ _ Ex Hx) as [-> _]. by destruct (Hdays _ _ Ey Hy) as [-> _].
  - by apply lt_sorted_NoDup.
  - intros d. rewrite list_elem_of_omap. split.
    + intros (n & Hn & En). apply Hkey in Hn. by destruct (Hdays _ _ En Hn).
    + intros Hin. rewrite Forall_forall in Hd. exists (path_for d).
      split; [|by apply day_of_path_for, Hd]. apply Hkey.
      apply list_elem_of_In, in_map_iff in Hin as ([d' rs] & <- & Hin). apply list_elem_of_In in Hin.
      cbn [fst]. rewrite (Hcont _ _ Hin). eauto.
Qed.

Lemma records_of_log files log :
  (forall d rs, (d, rs) ∈ log -> files !! path_for d = Some (content J rs)) ->
  records_of_days J files (map fst log) = Some (all_records log).
Proof.
  intros H. unfold all_records. induction log as [|[d rs] l IH]; [done|]. simpl.
  rewrite (H d rs) by left. simpl. rewrite records_of_content by done. simpl.
  rewrite IH; [done|]. intros. apply H. by right.
Qed.

Lemma read_seals_hold files log ds seals :
  (forall d bytes, files !! seal_path d = Some bytes ->
     exists s, bytes = bytes_of (seal_json_pretty J s) /\ seal_holds (all_records log) s) ->
  (forall n s, seals !! n = Some s -> n = records (seal_body s) /\ seal_holds (all_records log) s) ->
  exists seals', read_seals J files ds seals = Ok seals' /\
    forall n s, seals' !! n = Some s -> n = records (seal_body s) /\ seal_holds (all_records log) s.
Proof.
  intros Hf. revert seals. induction ds as [|d ds IH]; intros seals Hs; simpl; [eauto|].
  destruct (files !! seal_path d) as [bytes|] eqn:E; [|auto].
  destruct (Hf _ _ E) as (s & -> & Hh). rewrite seal_utf8, seal_roundtrip by done. apply IH.
  intros n s'. rewrite lookup_insert. case_decide; [|apply Hs]. intros [= <-]. done.
Qed.

Lemma seals_agree (seals : gmap Z Seal) rs :
  (forall n s, seals !! n = Some s -> n = records (seal_body s) /\ seal_holds rs s) ->
  agrees seals 0 rs.
Proof.
  intros H. assert (Hgen : forall a b, rs = a ++ b -> agrees seals (Z.of_nat (length a)) b).
  { intros a b. revert a. induction b as [|r b IH]; intros a Heq; [done|]. split.
    - intros s Hs. destruct (H _ _ Hs) as [Hn [_ Hh]]. rewrite <- Hn in Hh. rewrite <- Hh.
      replace (Z.to_nat (Z.of_nat (length a) + 1)) with (S (length a)) by lia.
      apply head_from_take. by rewrite Heq, list_lookup_middle.
    - replace (Z.of_nat (length a) + 1) with (Z.of_nat (length (a ++ [r])))
        by (rewrite length_app; simpl; lia).
      apply IH. by rewrite <- app_assoc. }
  by apply (Hgen []).
Qed.

(** The verifier accepts what is on disk, and counts and ends as the log does. *)
Lemma on_disk_verifies files log :
  on_disk files log ->
  exists seals, verify J files = Ok (mkVerification (Z.of_nat (length (all_records log))) (length log)
                              (head_from GENESIS (all_records log)) seals) /\
    trail_records J files = Some (all_records log).
Proof.
  intros Hd. pose proof Hd as [_ _ _ Hcont Hch Hseals].
  assert (Hrec : trail_records J files = Some (all_records log)).
  { unfold trail_records. rewrite (days_in_log _ _ Hd). by apply records_of_log. }
  destruct (read_seals_hold files log (map fst log) ∅ Hseals) as (seals & Hrs & Hs).
  { intros n s. by rewrite lookup_empty. }
  eexists. split; [|done]. apply verify_iff. exists seals, (all_records log).
  rewrite (days_in_log _ _ Hd). split_and!; auto.
  - by apply seals_agree.
  - intros n [s Hn]. destruct (Hs _ _ Hn) as [-> [? _]]. lia.
  - by rewrite length_map.
Qed.

(** *** Growing the log *)

(** The log after [r] is recorded on [day], the last day or a new one. *)
Inductive appended (day : Z) (r : Record_) : Log -> Log -> Prop :=
| appended_same l rs : appended day r (l ++ [(day, rs)]) (l ++ [(day, rs ++ [r])])
| appended_new l : day ∉ map fst l -> appended day r l (l ++ [(day, [r])]).

Lemma all_records_app a b : all_records (a ++ b) = all_records a ++ all_records b.
Proof. unfold all_records. by rewrite map_app, concat_app. Qed.

Lemma appended_records day r log log' :
  appended day r log log' -> all_records log' = all_records log ++ [r].
Proof.
  destruct 1; rewrite !all_records_app; [|done]. unfold all_records. simpl.
  by rewrite !app_nil_r, app_assoc.
Qed.

Lemma appended_days day r log log' :
  appended day r log log' -> forall d, d ∈ map fst log' <-> d = day \/ d ∈ map fst log.
Proof.
  destruct 1; intros d; rewrite !map_app, !elem_of_app; simpl; rewrite !list_elem_of_singleton; tauto.
Qed.

Lemma appended_sorted day r log log' :
  appended day r log log' -> (forall d, d ∈ map fst log -> d <= day) ->
  StronglySorted Z.lt (map fst log) -> StronglySorted Z.lt (map fst log').
Proof.
  destruct 1 as [l rs|l Hnew]; intros Hle Hs; rewrite map_app in *; [done|].
  apply StronglySorted_app. split_and!; [|done|repeat constructor].
  intros d d' Hd ->%list_elem_of_singleton. specialize (Hle d Hd).
  assert (d <> day) by (intros ->; done). simpl. lia.
Qed.

Lemma seal_holds_app rs r s : seal_holds rs s -> seal_holds (rs ++ [r]) s.
Proof.
  intros [Hn Hh]. split; [rewrite length_app; lia|]. by rewrite take_app_le by lia.
Qed.

Lemma lookup_new_day fs log day : on_disk fs log -> dated day -> day ∉ map fst log -> fs !! path_for day = None.
Proof.
  intros Hd Hday Hnew. destruct (fs !! path_for day) eqn:E; [|done]. exfalso. apply Hnew.
  eapply (disk_days _ _ Hd (path_for day)); [by apply day_of_path_for|eauto].
Qed.

Lemma appended_content fs day r log log' :
  on_disk fs log -> dated day -> appended day r log log' ->
  forall d rs, (d, rs) ∈ log' ->
  <[path_for day := default [] (fs !! path_for day) ++ line_of J r]> fs !! path_for d = Some (content J rs).
Proof.
  intros Hd Hday Happ d rs Hin. pose proof (disk_content _ _ Hd) as Hc.
  pose proof (disk_dated _ _ Hd) as Hdt. rewrite Forall_forall in Hdt.
  pose proof (lt_sorted_NoDup _ (disk_sorted _ _ Hd)) as Hnd.
  destruct Happ as [l rs0|l Hnew]; apply elem_of_app in Hin as [Hin|Hin%list_elem_of_singleton].
  - assert (Hne : d <> day).
    { intros ->. rewrite map_app, NoDup_app in Hnd. destruct Hnd as (_ & Hdis & _).
      apply (Hdis day); [|by apply list_elem_of_singleton].
      apply list_elem_of_In, (in_map fst _ (day, rs)). by apply list_elem_of_In. }
    rewrite lookup_insert_ne; [apply Hc, elem_of_app; by left|]. intros Heq. apply Hne.
    symmetry. apply path_for_inj; [done| |done]. apply Hdt.
    apply list_elem_of_In, (in_map fst _ (d, rs)), list_elem_of_In, elem_of_app. by left.
  - simplify_eq. rewrite lookup_insert_eq, (Hc day rs0), content_snoc by (apply elem_of_app; right; left).
    done.
  - rewrite lookup_insert_ne; [by apply Hc|]. intros Heq. apply Hnew.
    assert (Hin' : d ∈ map fst l) by (apply list_elem_of_In, (in_map fst _ (d, rs)), list_elem_of_In; done).
    by rewrite (path_for_inj day d Hday (Hdt d Hin') Heq).
  - simplify_eq. rewrite lookup_insert_eq, (lookup_new_day _ _ _ Hd Hday Hnew). simpl.
    unfold content. simpl. by rewrite app_nil_r.
Qed.

Lemma on_disk_append fs day r log log' :
  on_disk fs log -> dated day -> (forall d, d ∈ map fst log -> d <= day) -> appended day r log log' ->
  chained J (head_from GENESIS (all_records log)) (1 + Z.of_nat (length (all_records log))) [r] ->
  on_disk (<[path_for day := default [] (fs !! path_for day) ++ line_of J r]> fs) log'.
Proof.
  intros Hd Hday Hle Happ Hr. pose proof Hd as [Hs Hdt Hdays _ Hch Hseals]. constructor.
  - by eapply appended_sorted.
  - apply Forall_forall. rewrite Forall_forall in Hdt. intros d Hin.
    apply (appended_days _ _ _ _ Happ) in Hin as [->|Hin]; auto.
  - intros name d Hn Hin. rewrite (appended_days _ _ _ _ Happ).
    destruct (decide (name = path_for day)) as [->|Hne].
    + rewrite day_of_path_for in Hn by done. simplify_eq. auto.
    + rewrite lookup_insert_ne in Hin by done. destruct (Hdays _ _ Hn Hin). auto.
  - by eapply appended_content.
  - rewrite (appended_records _ _ _ _ Happ). by apply chained_app.
  - intros d bytes Hb. rewrite lookup_insert_ne in Hb by (intros Heq; by eapply seal_path_not_path_for).
    destruct (Hseals _ _ Hb) as (s & -> & Hh). rewrite (appended_records _ _ _ _ Happ).
    eauto using seal_holds_app.
Qed.

Lemma on_disk_seal fs day s log :
  on_disk fs log -> seal_holds (all_records log) s ->
  on_disk (<[seal_path day := bytes_of (seal_json_pretty J s)]> fs) log.
Proof.
  intros [Hs Hdt Hdays Hc Hch Hseals] Hh. constructor; auto.
  - intros name d Hn Hin. rewrite lookup_insert_ne in Hin; [auto|].
    intros <-. by rewrite day_of_seal_path in Hn.
  - intros d rs Hin. rewrite lookup_insert_ne; [auto|]. apply seal_path_not_path_for.
    rewrite Forall_forall in Hdt. apply Hdt, list_elem_of_In, (in_map fst _ (d, rs)). by apply list_elem_of_In.
  - intros d bytes. rewrite lookup_insert. case_decide; [|apply Hseals]. intros [= <-]. eauto.
Qed.

(** *** Runs of the operations *)

Abbreviation Tr := (Trail (K := K)).

Lemma call_run e (t : Tr) :
  call cfg e t = (Ok tt, mkTrail (files t) (open t) (sink_keys t) (emitted t) (S (trail_ops t))).
Proof. unfold call. by rewrite io_up. Qed.

Lemma write_to_run name bs e (t : Tr) old :
  files t !! name = Some old ->
  exists t', write_to cfg name bs e t = (Ok tt, t') /\
    files t' = <[name := old ++ bs]> (files t) /\ open t' = open t.
Proof.
  intros H. unfold write_to, append_bytes, set_files. rewrite io_up. simpl. rewrite H. eauto.
Qed.

Lemma sign_seal_run payload (t : Tr) :
  exists o t', sign_seal payload t = (Ok o, t') /\ files t' = files t /\ open t' = open t.
Proof.
  unfold sign_seal. destruct (sink_keys t) as [k|]; [|eauto].
  destruct (key_sign payload k) as [[s|e] k']; eauto.
Qed.

Lemma seal_run now day n h (t : Tr) :
  exists s t', seal J cfg now day n h t = (Ok tt, t') /\ records (seal_body s) = n /\
    head (seal_body s) = h /\ open t' = open t /\
    files t' = <[seal_path day := bytes_of (seal_json_pretty J s)]> (files t).
Proof.
  unfold seal, mbind_st at 1.
  destruct (sign_seal_run (seal_body_json J (mkSealBody (to_iso (date_of day)) (to_rfc3339 now) n h)) t)
    as (o & t1 & -> & Hf & Ho).
  set (s := mkSeal _ _ _ _). exists s. unfold mbind_st at 1. rewrite call_run.
  unfold mbind_st at 1, mmodify at 1. unfold mbind_st at 1.
  destruct (write_to_run (seal_path day) (bytes_of (seal_json_pretty J s))
             (AuditBackend ("writing " +:+ seal_path day))
             (set_files (<[seal_path day:=[]]> (files t1))
                (mkTrail (files t1) (open t1) (sink_keys t1) (emitted t1) (S (trail_ops t1)))) [])
    as (t2 & Hw & Hf2 & Ho2); [apply lookup_insert_eq|].
  simpl in *. rewrite Hw. unfold mbind_st. rewrite call_run. unfold mmodify. eexists.
  split; [done|]. simpl. rewrite Hf2, insert_insert_eq, Hf, Ho2, Ho. done.
Qed.

Lemma days_run (t : Tr) :
  exists t', days cfg t = (Ok (days_in (files t)), t') /\ files t' = files t /\ open t' = open t.
Proof. unfold days, mbind_st. rewrite call_run. eexists. split; [done|]. done. Qed.

Lemma last_records log d rs :
  Forall (fun p => snd p <> []) log -> last log = Some (d, rs) ->
  exists r, last rs = Some r /\ head_from GENESIS (all_records log) = digest r /\
    last (all_records log) = Some r.
Proof.
  intros Hne Hl. apply last_Some in Hl as [l ->]. apply Forall_app in Hne as [_ Hne].
  inversion Hne; subst. simpl in *. destruct rs as [|r rs _] using rev_ind; [done|].
  exists r. rewrite all_records_app. unfold all_records at 2 4. simpl. rewrite app_nil_r.
  rewrite app_assoc, head_from_app, !last_snoc. done.
Qed.

Lemma chained_last p n rs r :
  chained J p n rs -> last rs = Some r -> seq (body r) = n + Z.of_nat (length rs) - 1.
Proof.
  intros H [l ->]%last_Some. apply chained_app in H as [_ (_ & _ & -> & _)].
  rewrite length_app. simpl. lia.
Qed.

Lemma map_last {A B} (f : A -> B) l : last (map f l) = f <$> last l.
Proof. apply fmap_last. Qed.

(** After a restart, the tail of the files is where the log ends. *)
Lemma tail_run (t : Tr) log :
  on_disk (files t) log -> Forall (fun p => snd p <> []) log ->
  exists o t', tail J cfg t = (Ok o, t') /\ files t' = files t /\ open t' = open t /\
    default (0, GENESIS) o = (Z.of_nat (length (all_records log)), head_from GENESIS (all_records log)).
Proof.
  intros Hd Hne. unfold tail, mbind_st at 1. destruct (days_run t) as (t1 & -> & Hf & Ho).
  rewrite (days_in_log _ _ Hd). destruct (last log) as [[d rs]|] eqn:El.
  - rewrite map_last, El. cbn [fmap option_fmap option_map fst].
    unfold mbind_st at 1, mget. rewrite Hf.
    rewrite (disk_content _ _ Hd d rs) by (apply last_Some in El as [l ->]; apply elem_of_app; right; left).
    unfold mbind_st at 1. rewrite call_run. rewrite texts_of_content by done.
    destruct (last_records _ _ _ Hne El) as (r & Hr & Hh & Hlast).
    rewrite map_last, Hr. cbn [fmap option_fmap option_map].
    rewrite record_roundtrip by done. eexists _, _. split; [done|]. simpl. split_and!; [done..|].
    rewrite Hh. f_equal. rewrite (chained_last _ _ _ _ (disk_chained _ _ Hd) Hlast). lia.
  - apply last_None in El as ->. simpl. eexists _, _. split; [done|]. done.
Qed.

(** Opening a day: the handle is at the end of the log, and the file exists. *)
Lemma open_for_run day (t : Tr) log :
  good t log ->
  exists t', open_for J cfg day t = (Ok tt, t') /\
    open t' = Some (mkOpen day (Z.of_nat (length (all_records log))) (head_from GENESIS (all_records log))) /\
    (files t' = files t /\ is_Some (files t !! path_for day) \/
     files t' = <[path_for day := []]> (files t) /\ files t !! path_for day = None).
Proof.
  intros (Hd & Hne & Hopen). unfold open_for, mbind_st at 1, mget.
  destruct (is_open_on day (open t)) eqn:Eo.
  - unfold is_open_on in Eo. destruct (open t) as [o|] eqn:E; [|done]. apply Z.eqb_eq in Eo.
    destruct (Hopen o eq_refl) as (Hl & Hs & Hp). eexists. split; [done|].
    split; [rewrite E; destruct o; simpl in *; by subst|]. left. split; [done|].
    apply last_Some in Hl as [ds Hds]. rewrite Eo in Hds.
    assert (Hin : day ∈ map fst log) by (rewrite Hds; apply elem_of_app; right; left).
    apply list_elem_of_In, in_map_iff in Hin as ([d rs] & <- & Hin). apply list_elem_of_In in Hin.
    cbn [fst]. rewrite (disk_content _ _ Hd _ _ Hin). eauto.
  - assert (Htl : exists tl t1, (match open t with
                | Some c => Prelude.mret (Some (open_seq c, open_previous c))
                | None => tail J cfg end) t = (Ok tl, t1) /\ files t1 = files t /\
                default (0, GENESIS) tl
                = (Z.of_nat (length (all_records log)), head_from GENESIS (all_records log))).
    { destruct (open t) as [o|] eqn:E.
      - destruct (Hopen o eq_refl) as (_ & Hs & Hp). eexists _, _. split; [done|]. simpl. by rewrite Hs, Hp.
      - destruct (tail_run t log Hd Hne) as (o & t1 & ? & ? & _ & ?). eauto. }
    destruct Htl as (tl & t1 & Htl & Hf1 & Hdef).
    unfold mbind_st at 1. rewrite Htl. unfold mbind_st. rewrite !call_run. unfold mmodify. simpl.
    simpl. rewrite io_up, Hdef, Hf1. eexists. split; [done|]. simpl. split; [done|].
    destruct (files t !! path_for day) eqn:E; [left; eauto|right; eauto].
Qed.

(** No day of the log, nor [day] itself, is past its retention on [day]. *)
Definition kept (day : Z) (log : Log) : Prop :=
  forall d, d = day \/ d ∈ map fst log -> as_i64 (day - as_i64 (retention_days cfg)) <= d.

Lemma expire_loop_none oldest names n (t : Tr) :
  (forall name d, name ∈ names -> day_of_file name = Some d -> oldest <= d) ->
  expire_loop cfg oldest names n t = (Ok n, t).
Proof.
  induction names as [|name names IH]; intros H; simpl; [done|].
  assert (IH' : expire_loop cfg oldest names n t = (Ok n, t))
    by (apply IH; intros; eapply H; eauto; by right).
  destruct (day_of_file name) as [d|] eqn:E; [|done].
  rewrite (proj2 (Z.leb_le _ _) (H name d ltac:(left) E)). done.
Qed.

Lemma expire_run day (t : Tr) :
  (forall name d, is_Some (files t !! name) -> day_of_file name = Some d ->
     as_i64 (day - as_i64 (retention_days cfg)) <= d) ->
  exists t', expire cfg day t = (Ok 0%nat, t') /\ files t' = files t /\ open t' = open t.
Proof.
  intros H. unfold expire, mbind_st. rewrite call_run. unfold mget. simpl.
  rewrite expire_loop_none; [eauto|]. intros name d Hin Hd. eapply H; [|done].
  apply list_elem_of_In, in_map_iff in Hin as ([n b] & <- & Hin).
  apply list_elem_of_In, elem_of_map_to_list in Hin. simpl. eauto.
Qed.

Lemma good_seal now o (t : Tr) log :
  good t log -> open t = Some o ->
  exists t', ignore (seal J cfg now (open_day o) (open_seq o) (open_previous o)) t = (Ok tt, t') /\
    good t' log /\ open t' = Some o.
Proof.
  intros (Hd & Hne & Hopen) Ho. unfold ignore.
  destruct (seal_run now (open_day o) (open_seq o) (open_previous o) t) as (s & t' & -> & Hn & Hh & Ho' & Hf).
  simpl. exists t'. split; [done|]. destruct (Hopen o Ho) as (Hl & Hs & Hp). rewrite Ho', Ho.
  split; [|done]. split_and!; [|done|rewrite Ho'; done]. rewrite Hf. apply on_disk_seal; [done|].
  unfold seal_holds. rewrite Hn, Hh, Hs, Hp, Nat2Z.id, firstn_all. split; [|done].
  rewrite map_last in Hl. destruct (last log) as [[d rs]|] eqn:El; [|done].
  destruct (last_records _ _ _ Hne El) as (r & _ & _ & Hlast). apply last_Some in Hlast as [l ->].
  rewrite length_app. simpl. lia.
Qed.

(** The record a log's next event becomes. *)
Definition next_record (log : Log) (seconds : Z) (event : AuditEvent) (policy : option P) : Record_ :=
  let b := body_of cfg event policy seconds
             (mkOpen (day_of seconds) (Z.of_nat (length (all_records log))) (head_from GENESIS (all_records log))) in
  mkRecord b (expected_digest J b).

Lemma appended_exists day r log :
  Forall (fun p => snd p <> []) log ->
  (forall d, d ∈ map fst log -> d <= day) -> StronglySorted Z.lt (map fst log) ->
  exists log', appended day r log log' /\ Forall (fun p => snd p <> []) log' /\
    last (map fst log') = Some day.
Proof.
  intros Hne Hle Hs. destruct (decide (day ∈ map fst log)) as [Hin|Hnin].
  - destruct log as [|[d rs] l _] using rev_ind; [by apply not_elem_of_nil in Hin|].
    apply Forall_app in Hne as [Hne _]. rewrite map_app in *. cbn [map fst] in *.
    assert (d = day) as ->.
    { apply elem_of_app in Hin as [Hin|Hin%list_elem_of_singleton]; [|done].
      specialize (Hle d ltac:(apply elem_of_app; right; left)).
      apply StronglySorted_app in Hs as (Hlt & _). specialize (Hlt day d Hin ltac:(left)). lia. }
    exists (l ++ [(day, rs ++ [r])]). split; [constructor|]. split; [|by rewrite map_last, last_snoc].
    apply Forall_app. split; [done|]. constructor; [|done]. simpl. by destruct rs.
  - exists (log ++ [(day, [r])]). split; [by constructor|]. split; [|by rewrite map_last, last_snoc].
    apply Forall_app. by repeat constructor.
Qed.

(** The writes at the end of [record]. *)
Lemma write_record_run path line d day n (t : Tr) old :
  files t !! path = Some old ->
  exists t', (let! _ := write_to cfg path (bytes_of line) (AuditBackend "appending a record") in
              let! _ := write_to cfg path [LF] (AuditBackend "appending a record") in
              let! _ := call cfg (AuditBackend "flushing a record") in
              mmodify (set_open (Some (mkOpen day n d)))) t = (Ok tt, t') /\
    files t' = <[path := old ++ bytes_of line ++ [LF]]> (files t) /\ open t' = Some (mkOpen day n d).
Proof.
  intros Hp. unfold mbind_st at 1.
  destruct (write_to_run path (bytes_of line) (AuditBackend "appending a record") t old Hp) as (t1 & -> & Hf1 & _).
  unfold mbind_st at 1.
  destruct (write_to_run path [LF] (AuditBackend "appending a record") t1 (old ++ bytes_of line))
    as (t2 & -> & Hf2 & _); [by rewrite Hf1, lookup_insert_eq|].
  unfold mbind_st. rewrite call_run. unfold mmodify. eexists. split; [done|]. simpl.
  by rewrite Hf2, Hf1, insert_insert_eq, <- app_assoc.
Qed.

(** The part of [record] after the day is open. *)
Lemma record_tail_run seconds event policy (t : Tr) log fs :
  on_disk fs log -> Forall (fun p => snd p <> []) log -> dated (day_of seconds) ->
  (forall d, d ∈ map fst log -> d <= day_of seconds) ->
  open t = Some (mkOpen (day_of seconds) (Z.of_nat (length (all_records log)))
                        (head_from GENESIS (all_records log))) ->
  (files t = fs /\ is_Some (fs !! path_for (day_of seconds)) \/
   files t = <[path_for (day_of seconds) := []]> fs /\ fs !! path_for (day_of seconds) = None) ->
  let r := next_record log seconds event policy in
  exists t' log',
    (let! _ := write_to cfg (path_for (day_of seconds)) (bytes_of (record_json J r)) (AuditBackend "appending a record") in
     let! _ := write_to cfg (path_for (day_of seconds)) [LF] (AuditBackend "appending a record") in
     let! _ := call cfg (AuditBackend "flushing a record") in
     mmodify (set_open (Some (mkOpen (day_of seconds) (Z.of_nat (length (all_records log)) + 1) (digest r))))) t
    = (Ok tt, t') /\ appended (day_of seconds) r log log' /\ good t' log'.
Proof.
  intros Hd Hne Hday Hle Ho Hfs r.
  destruct (appended_exists (day_of seconds) r log Hne Hle (disk_sorted _ _ Hd)) as (log' & Happ & Hne' & Hlast).
  destruct (write_record_run (path_for (day_of seconds)) (record_json J r) (digest r) (day_of seconds)
             (Z.of_nat (length (all_records log)) + 1) t (default [] (fs !! path_for (day_of seconds))))
    as (t' & -> & Hf & Ho').
  { destruct Hfs as [[-> [b Hb]]|[-> Hb]]; rewrite Hb; [done|apply lookup_insert_eq]. }
  exists t', log'. split; [done|]. split; [done|].
  assert (Hfiles : files t' = <[path_for (day_of seconds) :=
            default [] (fs !! path_for (day_of seconds)) ++ line_of J r]> fs).
  { rewrite Hf. destruct Hfs as [[-> _]|[-> _]]; [done|]. by rewrite insert_insert_eq. }
  split_and!; [|done|].
  - rewrite Hfiles. apply (on_disk_append fs (day_of seconds) r log log'); try done.
    unfold r, next_record, body_of. simpl. split_and!; [done..|lia|done].
  - rewrite Ho'. intros o [= <-]. unfold at_end. simpl.
    rewrite (appended_records _ _ _ _ Happ), head_from_app, length_app. simpl.
    split_and!; [done|lia|done].
Qed.

(** One event recorded: the call succeeds and the log grows by that event's record. *)
Lemma record_good seconds sealing event policy (t : Tr) log :
  good t log -> dated (day_of seconds) -> (forall d, d ∈ map fst log -> d <= day_of seconds) ->
  kept (day_of seconds) log ->
  exists t' log', record J cfg seconds sealing event policy t = (Ok tt, t') /\
    appended (day_of seconds) (next_record log seconds event policy) log log' /\ good t' log'.
Proof.
  intros Hg Hday Hle Hkept. unfold record. unfold mbind_st at 1, mget at 1.
  assert (H1 : exists t1, (match open t with
             | Some closing =>
               if negb (is_open_on (day_of seconds) (open t))
               then ignore (seal J cfg sealing (open_day closing) (open_seq closing) (open_previous closing))
               else Prelude.mret tt
             | None => Prelude.mret tt
             end) t = (Ok tt, t1) /\ good t1 log).
  { destruct (open t) as [o|] eqn:Eo; [|by exists t]. destruct (negb _); [|by exists t].
    destruct (good_seal sealing o t log Hg Eo) as (t1 & ? & ? & _). eauto. }
  destruct H1 as (t1 & H1 & Hg1). erewrite bind_run; [|exact H1].
  destruct (open_for_run (day_of seconds) t1 log Hg1) as (t2 & H2 & Ho2 & Hf2).
  erewrite bind_run; [|exact H2]. pose proof Hg1 as (Hd1 & Hne & _).
  assert (H3 : exists t3, (if negb (is_open_on (day_of seconds) (open t))
            then let! _ := expire cfg (day_of seconds) in Prelude.mret tt else Prelude.mret tt) t2 = (Ok tt, t3) /\
            files t3 = files t2 /\ open t3 = open t2).
  { destruct (negb _); [|by exists t2]. unfold mbind_st.
    destruct (expire_run (day_of seconds) t2) as (t3 & -> & ? & ?); [|by exists t3].
    intros name d Hin Hd. apply Hkept.
    destruct (decide (name = path_for (day_of seconds))) as [->|Hn].
    - rewrite day_of_path_for in Hd by done. left. congruence.
    - right. eapply (disk_days _ _ Hd1 name d Hd).
      destruct Hf2 as [[Hf2 _]|[Hf2 _]]; rewrite Hf2 in Hin; [done|]. by rewrite lookup_insert_ne in Hin. }
  destruct H3 as (t3 & H3 & Hf3 & Ho3). erewrite bind_run; [|exact H3].
  unfold mbind_st at 1, mget. rewrite Ho3, Ho2. cbn [open_day open_seq].
  apply (record_tail_run seconds event policy t3 log (files t1)); try done.
  - by rewrite Ho3.
  - by rewrite Hf3.
Qed.

Lemma shutdown_good sealing (t : Tr) log :
  good t log -> exists t', shutdown J cfg sealing t = (Ok tt, t') /\ good t' log.
Proof.
  intros Hg. unfold shutdown, mbind_st at 1, mget. destruct (open t) as [o|] eqn:Eo.
  - unfold mbind_st at 1. rewrite call_run.
    set (t1 := mkTrail _ _ _ _ _). assert (Hg1 : good t1 log) by (destruct Hg as (? & ? & ?); done).
    unfold mbind_st. destruct (good_seal sealing o t1 log Hg1 Eo) as (t2 & -> & (Hd & Hne & _) & _).
    unfold mmodify. eexists. split; [done|]. split_and!; [done|done|]. by intros ? [=].
  - unfold mmodify. eexists. split; [done|]. destruct Hg as (Hd & Hne & _). split_and!; [done|done|]. by intros ? [=].
Qed.
End Writer.
