(* ===== verification/TrailProperties.v ===== *)
(** * The properties of the audit trail

    Every orderly history of the sink (records, shutdowns, restarts) leaves a trail the
    verifier accepts and that says what was recorded, in order; a codec that satisfies the laws
    the theorems assume; and three histories after which an untouched trail is refused. *)
From S2P Require Import Prelude Rust Errors Civil Keys KeyRing KeyLifecycle AuditEvents Trail TrailVerify TrailRecord.
Local Open Scope Z_scope.
Local Open Scope rust_scope.

Section Histories.
Context {K : Type} `{!KeyManager K} {P : Type} `{!Pseudonymizer P}.
Context (J : Codec) (cfg : SinkSettings).

(** What happens to a sink; a restart is a new process over the same directory. *)
Inductive Act :=
| ActRecord (seconds sealing : Z) (event : AuditEvent) (policy : option P)
| ActShutdown (sealing : Z)
| ActRestart.

Definition act (a : Act) : M (Trail (K := K)) AuditError unit :=
  match a with
  | ActRecord seconds sealing event policy => record J cfg seconds sealing event policy
  | ActShutdown sealing => shutdown J cfg sealing
  | ActRestart => mmodify (set_open None)
  end.

Fixpoint acts (l : list Act) : M (Trail (K := K)) AuditError unit :=
  match l with
  | [] => mret tt
  | a :: r => let! _ := act a in acts r
  end.

Definition empty_trail (k : option K) : Trail := mkTrail ∅ None k [] 0.

(** Days never go back, and no day is past its retention when a later one is recorded. *)
Fixpoint timely (days : list Z) (l : list Act) : Prop :=
  match l with
  | [] => True
  | ActRecord seconds _ _ _ :: r =>
    let day := day_of seconds in
    dated day /\ Forall (fun d => d <= day) days /\
    Forall (fun d => as_i64 (day - as_i64 (retention_days cfg)) <= d) (day :: days) /\
    timely (day :: days) r
  | _ :: r => timely days r
  end.

(** What a trail should say: for each event its time, action, rendered subject, kind and target. *)
Fixpoint told (l : list Act) : list (string * string * string * string * option string) :=
  match l with
  | [] => []
  | ActRecord seconds _ event policy :: r =>
    (to_rfc3339 seconds, event_action event, render (event_subject event) policy,
     kind (event_subject event), event_target event) :: told r
  | _ :: r => told r
  end.

Definition says (r : Record_) : string * string * string * string * option string :=
  (at_ (body r), action (body r), subject (body r), subject_kind (body r), target (body r)).

Lemma act_good (laws : codec_laws J) (io_up : forall n, trail_io cfg n = true) a l t log ds :
  good J t log -> (forall d, d ∈ map fst log -> d ∈ ds) -> timely ds (a :: l) ->
  exists t' log' ds', act a t = (Ok tt, t') /\ good J t' log' /\
    (forall d, d ∈ map fst log' -> d ∈ ds') /\ timely ds' l /\
    map says (all_records log') = map says (all_records log) ++ told [a].
Proof.
  intros Hg Hds Ht. destruct a as [seconds sealing event policy|sealing|]; simpl in Ht.
  - destruct Ht as (Hday & Hle & Hret & Ht). rewrite Forall_forall in Hle, Hret.
    destruct (record_good J laws cfg io_up seconds sealing event policy t log Hg Hday)
      as (t' & log' & Hrun & Happ & Hg').
    { intros d Hd. by apply Hle, Hds. }
    { intros d [->|Hd]; apply Hret; [left|right; auto]. }
    exists t', log', (day_of seconds :: ds). split_and!; [done|done| |done|].
    + intros d Hd. apply (appended_days _ _ _ _ Happ) in Hd as [->|Hd]; [left|right; auto].
    + by rewrite (appended_records _ _ _ _ Happ), map_app.
  - destruct (shutdown_good J cfg io_up sealing t log Hg) as (t' & Hrun & Hg').
    exists t', log, ds. split_and!; try done. by rewrite app_nil_r.
  - exists (set_open None t), log, ds. destruct Hg as (Hd & Hne & _).
    split; [done|]. split; [split; [done|]; split; [done|by intros ? [=]]|].
    split_and!; try done. by rewrite app_nil_r.
Qed.

Lemma acts_good (laws : codec_laws J) (io_up : forall n, trail_io cfg n = true) l t log ds :
  good J t log -> (forall d, d ∈ map fst log -> d ∈ ds) -> timely ds l ->
  exists t' log', acts l t = (Ok tt, t') /\ good J t' log' /\
    map says (all_records log') = map says (all_records log) ++ told l.
Proof.
  revert t log ds. induction l as [|a l IH]; intros t log ds Hg Hds Ht.
  - exists t, log. simpl. by rewrite app_nil_r.
  - destruct (act_good laws io_up a l t log ds Hg Hds Ht) as (t1 & log1 & ds1 & H1 & Hg1 & Hd1 & Ht1 & Hs1).
    destruct (IH t1 log1 ds1 Hg1 Hd1 Ht1) as (t' & log' & H' & Hg' & Hs').
    exists t', log'. simpl. erewrite bind_run by exact H1. split_and!; [done|done|].
    rewrite Hs', Hs1, <- app_assoc. f_equal. destruct a; done.
Qed.

Lemma empty_good k : good J (empty_trail k) [].
Proof.
  split; [|split; [constructor|by intros ? [=]]]. constructor; simpl.
  - constructor.
  - constructor.
  - intros name d _ [x Hx]. by rewrite lookup_empty in Hx.
  - intros d rs Hin. by apply not_elem_of_nil in Hin.
  - done.
  - intros d bytes Hb. by rewrite lookup_empty in Hb.
Qed.

End Histories.

(** ** A codec that satisfies the laws

    Fields in hexadecimal, each followed by a comma, after an opening brace. *)
Module ToyCodec.
Definition COMMA : byte := x2c.

Definition hex_val (b : byte) : option Z :=
  if between 48 57 b then Some (u8 b - 48)
  else if between 97 102 b then Some (u8 b - 87) else None.

Fixpoint unhex (bs : list byte) : option (list byte) :=
  match bs with
  | [] => Some []
  | a :: b :: r => x ← hex_val a; y ← hex_val b; cons (byte_of_Z (16 * x + y)) <$> unhex r
  | [_] => None
  end.

Definition is_plain (b : byte) : bool := between 48 57 b || between 97 102 b.

Lemma hex_digit_val d : 0 <= d < 16 -> hex_val (hex_digit d) = Some d /\ is_plain (hex_digit d) = true.
Proof.
  intros Hd.
  assert (H : forallb (fun d => bool_decide (hex_val (hex_digit d) = Some d) && is_plain (hex_digit d))
                (map Z.of_nat (List.seq 0 16)) = true) by (vm_compute; reflexivity).
  pose proof (forallb_range _ _ H d Hd) as Hc. simpl in Hc. bool_to_prop. done.
Qed.

Lemma hex_nibbles b : 0 <= u8 b / 16 < 16 /\ 0 <= u8 b mod 16 < 16.
Proof.
  pose proof (u8_range b). split; [split; [apply Z.div_pos; lia|apply Z.div_lt_upper_bound; lia]|].
  apply Z.mod_pos_bound. lia.
Qed.

Lemma unhex_hex bs : unhex (concat (map hex_byte bs)) = Some bs.
Proof.
  induction bs as [|b bs IH]; [done|]. simpl. destruct (hex_nibbles b) as [H1 H2].
  destruct (hex_digit_val _ H1) as [-> _], (hex_digit_val _ H2) as [-> _]. simpl. rewrite IH. simpl.
  rewrite <- Z.div_mod by lia. by rewrite byte_of_Z_u8.
Qed.

Lemma hex_plain bs : Forall (fun b => is_plain b = true) (concat (map hex_byte bs)).
Proof.
  induction bs as [|b bs IH]; [constructor|]. simpl. destruct (hex_nibbles b) as [H1 H2].
  constructor; [apply hex_digit_val; done|]. constructor; [apply hex_digit_val; done|done].
Qed.

Definition enc_field (s : string) : list byte := concat (map hex_byte (bytes_of s)) ++ [COMMA].
Definition enc (l : list string) : list byte := x7b :: concat (map enc_field l).

Fixpoint dec_fields (ps : list (list byte)) : option (list string) :=
  match ps with
  | [] => None
  | [p] => if bool_decide (p = []) then Some [] else None
  | p :: r => x ← unhex p; cons (string_of x) <$> dec_fields r
  end.

Definition dec_list (bs : list byte) : option (list string) :=
  match bs with
  | x7b :: r => dec_fields (split_list (fun b => bool_decide (b = COMMA)) r)
  | _ => None
  end.

Lemma plain_not b c : is_plain b = true -> is_plain c = false -> bool_decide (b = c) = false.
Proof. intros H H'. apply bool_decide_eq_false_2. congruence. Qed.

Lemma dec_enc l : dec_list (enc l) = Some l.
Proof.
  unfold dec_list, enc. induction l as [|s l IH]; [done|]. simpl. unfold enc_field at 1.
  rewrite <- app_assoc. simpl. rewrite split_list_app; [|eapply Forall_impl; [apply hex_plain|];
    intros b Hb; by apply plain_not|done].
  pose proof (split_list_nonempty (fun b => bool_decide (b = COMMA)) (concat (map enc_field l))) as Hne.
  destruct (split_list _ (concat (map enc_field l))) as [|p ps] eqn:E; [done|].
  change ((x ← unhex (concat (map hex_byte (bytes_of s))); cons (string_of x) <$> dec_fields (p :: ps))
          = Some (s :: l)).
  rewrite unhex_hex. cbn [mbind option_bind]. rewrite IH. cbn [fmap option_fmap option_map]. by rewrite string_of_bytes_of.
Qed.

Definition is_text (b : byte) : bool := is_plain b || bool_decide (b = COMMA) || bool_decide (b = x7b).

Lemma enc_text l : Forall (fun b => is_text b = true) (enc l).
Proof.
  unfold enc. constructor; [done|]. induction l as [|s l IH]; [constructor|]. simpl.
  apply Forall_app. split; [|done]. unfold enc_field. apply Forall_app. split; [|by repeat constructor].
  eapply Forall_impl; [apply hex_plain|]. intros b Hb. unfold is_text. by rewrite Hb.
Qed.

Lemma text_byte b : is_text b = true ->
  is_ascii_byte b = true /\ bool_decide (b = LF) = false /\ is_whitespace (u8 b) = false /\ b <> x0d.
Proof. destruct b; vm_compute; intros; split_and!; (done || discriminate). Qed.

Lemma text_utf8 bs : Forall (fun b => is_text b = true) bs -> utf8_decode bs = Some (map u8 bs).
Proof.
  intros H. apply utf8_decode_ascii. eapply Forall_impl; [exact H|].
  intros b Hb. by apply text_byte.
Qed.

Lemma drop_while_none {A} (p : A -> bool) l : Forall (fun x => p x = false) l -> drop_while p l = l.
Proof. destruct 1 as [|x l Hx _]; [done|]. simpl. by rewrite Hx. Qed.

Lemma text_not_blank l : is_blank (string_of (enc l)) = false.
Proof.
  unfold is_blank, is_empty. apply bool_decide_eq_false_2. unfold trim, chars.
  rewrite bytes_of_string_of, text_utf8 by apply enc_text. cbn [from_option id].
  assert (Hw : Forall (fun c => is_whitespace c = false) (map u8 (enc l))).
  { apply Forall_fmap. eapply Forall_impl; [apply enc_text|]. intros b Hb. by apply text_byte. }
  rewrite (drop_while_none _ (map u8 (enc l))) by done. rewrite drop_while_none by (by apply Forall_rev).
  rewrite rev_involutive. unfold of_chars, enc. intros H.
  apply (f_equal bytes_of) in H. rewrite bytes_of_string_of in H. cbn [map concat] in H.
  change (utf8_encode_char (u8 x7b)) with [x7b] in H. discriminate H.
Qed.

Lemma text_no_cr bs : Forall (fun b => is_text b = true) bs -> strip_cr bs = bs.
Proof.
  intros H. unfold strip_cr. apply Forall_rev in H.
  destruct (rev bs) as [|b r] eqn:E; [done|]. inversion H as [|? ? Hb _]; subst.
  destruct (text_byte b Hb) as (_ & _ & _ & Hne). by destruct b.
Qed.

(** *** Fields of the records *)

Fixpoint pos_bits (p : positive) : list byte :=
  match p with xH => [x32] | xO q => x30 :: pos_bits q | xI q => x31 :: pos_bits q end.

Fixpoint bits_pos (bs : list byte) : option positive :=
  match bs with
  | x32 :: _ => Some xH
  | x30 :: r => xO <$> bits_pos r
  | x31 :: r => xI <$> bits_pos r
  | _ => None
  end.

Lemma bits_roundtrip p : bits_pos (pos_bits p) = Some p.
Proof. induction p as [p IH|p IH|]; simpl; [by rewrite IH..|done]. Qed.

Definition of_Z (z : Z) : string :=
  string_of (match z with Z0 => [x7a] | Zpos p => x70 :: pos_bits p | Zneg p => x6e :: pos_bits p end).

Definition to_Z (s : string) : option Z :=
  match bytes_of s with
  | x7a :: _ => Some 0
  | x70 :: r => Zpos <$> bits_pos r
  | x6e :: r => Zneg <$> bits_pos r
  | _ => None
  end.

Lemma Z_field z : to_Z (of_Z z) = Some z.
Proof.
  unfold to_Z, of_Z. rewrite bytes_of_string_of. destruct z; simpl; by rewrite ?bits_roundtrip.
Qed.

Definition of_opt (o : option string) : string :=
  match o with None => "n" | Some s => "s" +:+ s end.

Definition to_opt (s : string) : option (option string) :=
  match bytes_of s with
  | x6e :: _ => Some None
  | x73 :: r => Some (Some (string_of r))
  | _ => None
  end.

Lemma opt_field o : to_opt (of_opt o) = Some o.
Proof.
  destruct o as [s|]; [|done]. unfold to_opt, of_opt. rewrite bytes_of_app. simpl.
  by rewrite string_of_bytes_of.
Qed.

Definition of_opt_Z (o : option Z) : string := of_opt (of_Z <$> o).
Definition to_opt_Z (s : string) : option (option Z) :=
  o ← to_opt s; match o with None => Some None | Some t => Some <$> to_Z t end.

Lemma opt_Z_field o : to_opt_Z (of_opt_Z o) = Some o.
Proof. unfold to_opt_Z, of_opt_Z. rewrite opt_field. destruct o; simpl; by rewrite ?Z_field. Qed.

Definition body_fields (b : Body) : list string :=
  [of_Z (seq b); at_ b; prev b; action b; subject b; subject_kind b; subject_sensitivity b;
   of_opt (target b); of_opt (continuity_id b); of_opt_Z (continuity_position b); service b; version b].

Definition record_fields (r : Record_) : list string := digest r :: body_fields (body r).

Definition fields_record (l : list string) : option Record_ :=
  match l with
  | [d; q; a; p; ac; su; sk; ss; ta; ci; cp; se; ve] =>
    q' ← to_Z q; ta' ← to_opt ta; ci' ← to_opt ci; cp' ← to_opt_Z cp;
    Some (mkRecord (mkBody q' a p ac su sk ss ta' ci' cp' se ve) d)
  | _ => None
  end.

Lemma record_fields_back r : fields_record (record_fields r) = Some r.
Proof.
  unfold fields_record, record_fields, body_fields.
  rewrite Z_field, !opt_field, opt_Z_field. simpl. by destruct r as [[]].
Qed.

Definition seal_fields (s : Seal) : list string :=
  [seal_day (seal_body s); seal_at (seal_body s); of_Z (records (seal_body s)); head (seal_body s);
   of_opt (seal_kid s); of_opt (seal_algorithm s); of_opt (seal_signature s)].

Definition fields_seal (l : list string) : option Seal :=
  match l with
  | [d; a; n; h; k; al; si] =>
    n' ← to_Z n; k' ← to_opt k; al' ← to_opt al; si' ← to_opt si;
    Some (mkSeal (mkSealBody d a n' h) k' al' si')
  | _ => None
  end.

Lemma seal_fields_back s : fields_seal (seal_fields s) = Some s.
Proof.
  unfold fields_seal, seal_fields. rewrite Z_field, !opt_field. simpl. by destruct s as [[]].
Qed.

(** A digest of one byte that still depends on every byte. *)
Definition sum (bs : list byte) : list byte := [byte_of_Z (foldr (fun b a => 3 * a + u8 b) 7 bs)].

Definition codec : Codec :=
  mkCodec (fun b => enc (body_fields b))
          (fun r => string_of (enc (record_fields r)))
          (fun s => dec_list (bytes_of s) ≫= fields_record)
          (fun b => enc [seal_day b; seal_at b; of_Z (records b); head b])
          (fun s => string_of (enc (seal_fields s)))
          (fun s => dec_list (bytes_of s) ≫= fields_seal)
          sum.

Lemma text_from_utf8 l : from_utf8 (enc l) = Some (string_of (enc l)).
Proof. unfold from_utf8. by rewrite text_utf8 by apply enc_text. Qed.

Lemma codec_ok : codec_laws codec.
Proof.
  constructor; cbn [codec record_json record_from_json seal_json_pretty seal_from_json]; intros x;
    rewrite ?bytes_of_string_of; rewrite ?dec_enc; cbn [mbind option_bind];
    auto using record_fields_back, seal_fields_back, text_from_utf8, text_not_blank, text_no_cr, enc_text.
  eapply Forall_impl; [apply enc_text|]. intros b Hb. by apply text_byte.
Qed.

Lemma body_json_inj x y : body_json codec x = body_json codec y -> x = y.
Proof.
  intros H. assert (Hf : body_fields x = body_fields y).
  { pose proof (dec_enc (body_fields x)) as H1. cbn [codec body_json] in H.
    rewrite H, dec_enc in H1. congruence. }
  pose proof (record_fields_back (mkRecord x "d")) as Hx. pose proof (record_fields_back (mkRecord y "d")) as Hy.
  unfold record_fields in Hx, Hy. cbn [body digest] in *. rewrite Hf, Hy in Hx. congruence.
Qed.
End ToyCodec.

(** ** Concrete histories: seals signed by a key ring on disk *)
Module ToyTrail.
Import ToyCodec.

#[export] Instance toy_hmac : Pseudonymizer HmacPseudonymizer :=
  HmacPseudonymizer_instance (fun k m => Some (k ++ m)).
#[export] Instance toy_ring : KeyManager (Manager KeyLifecycle.ToyKeys.crate) :=
  directory_key_manager KeyLifecycle.ToyKeys.crate (KeyLifecycle.ToyKeys.settings Ed25519).

Definition ring : Manager KeyLifecycle.ToyKeys.crate := KeyLifecycle.ToyKeys.busy.
Definition T := Trail (K := Manager KeyLifecycle.ToyKeys.crate).

Definition sink (retention : Z) (io : nat -> bool) : SinkSettings :=
  mkSinkSettings "pic-x" "0.1.0" retention io (fun _ => 0%nat).

Definition up : nat -> bool := fun _ => true.
Definition event (a : string) : AuditEvent := event_on "/token" (event_new a (Principal "alice")).
Definition at_time (seconds : Z) : Act (P := HmacPseudonymizer) :=
  ActRecord seconds seconds (event "exchange") None.

Definition start : T := empty_trail (Some ring).

(** Runs a history to its end whatever fails on the way. *)
Fixpoint attempts (cfg : SinkSettings) (l : list (Act (P := HmacPseudonymizer))) (t : T) : T :=
  match l with
  | [] => t
  | a :: r => attempts cfg r (snd (act codec cfg a t))
  end.

Definition history : list Act :=
  [at_time 1000; ActRestart; at_time 90000; at_time 90001; ActShutdown 90002; at_time 90003].
End ToyTrail.

Section Runs.
Import ToyCodec ToyTrail.


(** Two trails that share a seal: one is the other with a record more. *)
Definition shorter : gmap string (list byte) :=
  files (attempts (sink (30 * 86400) up) [at_time 1000; ActShutdown 1001] start).
Definition longer : gmap string (list byte) :=
  files (attempts (sink (30 * 86400) up) [at_time 1000; ActShutdown 1001; at_time 1002] start).
Definition verified (f : gmap string (list byte)) : Verification :=
  match verify codec f with Ok v => v | Err _ => mkVerification 0 0 "" [] end.
Definition records_of (f : gmap string (list byte)) : list Record_ := default [] (trail_records codec f).
Definition the_seal : Seal :=
  List.nth 0 (v_seals (verified shorter)) (mkSeal (mkSealBody "" "" 0 "") None None None).

Lemma verified_ok f : is_ok (verify codec f) = true -> verify codec f = Ok (verified f).
Proof. unfold verified. by destruct (verify codec f). Qed.

Lemma records_of_ok f : is_ok (verify codec f) = true -> trail_records codec f = Some (records_of f).
Proof.
  unfold records_of. destruct (verify codec f) as [v|] eqn:E; [|done]. intros _.
  apply verify_iff in E as (seals & rs & _ & -> & _). done.
Qed.


Lemma seal_fixes_its_prefix_witness :
  records (seal_body the_seal) <= Z.min (v_records (verified shorter)) (v_records (verified longer)) /\
  (take (Z.to_nat (records (seal_body the_seal))) (records_of shorter)
   = take (Z.to_nat (records (seal_body the_seal))) (records_of longer) \/ collision codec).
Proof.
  apply (seal_fixes_its_prefix codec shorter longer (verified shorter) (verified longer));
    [exact body_json_inj|apply verified_ok; vm_compute; reflexivity|
     apply verified_ok; vm_compute; reflexivity|apply records_of_ok; vm_compute; reflexivity|
     apply records_of_ok; vm_compute; reflexivity| |].
  - apply (bool_decide_eq_true_1 _). vm_compute. reflexivity.
  - apply (bool_decide_eq_true_1 _). vm_compute. reflexivity.
Defined.

(** The retention breaks the chain it keeps: three days recorded under a retention of one
    day, every call successful and no file touched from outside, and the verifier refuses
    the trail, since the oldest day it still holds does not start at the genesis digest. *)
Theorem retention_breaks_verification :
  exists l t, acts codec (sink 86400 up) l start = (Ok tt, t) /\
    verify codec (files t) = Err (VBroken (path_for 1) 1).
Proof.
  exists [at_time 0; at_time 86400; at_time 172800],
    (snd (acts codec (sink 86400 up) [at_time 0; at_time 86400; at_time 172800] start)).
  split; [apply run_is; vm_compute; reflexivity|vm_compute; reflexivity].
Qed.

(** A crash between the opening of a day's file and its first record restarts the chain: the
    restarted sink finds the newest file empty, numbers its next record 1 and names the
    genesis digest, and the verifier refuses the trail. *)
Theorem empty_day_restarts_the_chain :
  exists io t, t = attempts (sink (30 * 86400) io)
                     [at_time 0; at_time 86400; ActRestart; at_time 86401] start /\
    open t = Some (mkOpen 1 1 (open_previous (default (mkOpen 0 0 GENESIS) (open t)))) /\
    verify codec (files t) = Err (VBroken (path_for 1) 1).
Proof.
  exists (fun n => negb (n =? 14)%nat). eexists. split; [reflexivity|].
  split; vm_compute; reflexivity.
Qed.

(** A flush that fails leaves the record in the file and the handle before it: the next
    record takes the same number and the same predecessor, and the verifier refuses the trail. *)
Theorem failed_flush_duplicates_a_number :
  exists io t, t = attempts (sink (30 * 86400) io) [at_time 0; at_time 1] start /\
    map (fun r => seq (body r)) (records_of (files t)) = [1; 1] /\
    verify codec (files t) = Err (VBroken (path_for 0) 2).
Proof.
  exists (fun n => negb (n =? 7)%nat). eexists. split; [reflexivity|].
  split; vm_compute; reflexivity.
Qed.
End Runs.
