(* ===== verification/Json.v ===== *)
(** * JSON values as [serde_json] represents them

    [Value], its accessors, and the object type, a map with unique keys. Parsing is
    [serde_json]'s and stays a parameter of the code that uses it. *)
From S2P Require Import Prelude Rust.
Local Open Scope Z_scope.

(** [Number]: an unsigned 64-bit integer, a negative 64-bit one, or a float (kept as text). *)
Inductive Number :=
| PosInt (n : Z)
| NegInt (n : Z)
| Float (text : string).

Inductive Value :=
| Null
| Bool (b : bool)
| Num (n : Number)
| Str (s : string)
| Arr (values : list Value)
| Obj (members : list (string * Value)).

(** [Map::get]. *)
Fixpoint member (k : string) (ms : list (string * Value)) : option Value :=
  match ms with
  | [] => None
  | (k', v) :: r => if bool_decide (k' = k) then Some v else member k r
  end.

(** [Value::get] with a string. *)
Definition get (k : string) (v : Value) : option Value :=
  match v with Obj ms => member k ms | _ => None end.

Definition as_str (v : Value) : option string :=
  match v with Str s => Some s | _ => None end.

Definition as_i64 (v : Value) : option Z :=
  match v with
  | Num (PosInt n) => if n <=? I64_MAX then Some n else None
  | Num (NegInt n) => Some n
  | _ => None
  end.

Definition as_u64 (v : Value) : option Z :=
  match v with Num (PosInt n) => Some n | _ => None end.

Definition as_bool (v : Value) : option bool :=
  match v with Bool b => Some b | _ => None end.

Definition as_array (v : Value) : option (list Value) :=
  match v with Arr vs => Some vs | _ => None end.

Definition as_object (v : Value) : option (list (string * Value)) :=
  match v with Obj ms => Some ms | _ => None end.

(** [value.get(k).and_then(Value::as_str)] and its like. *)
Definition get_str (k : string) (v : Value) : option string := get k v ≫= as_str.
Definition get_i64 (k : string) (v : Value) : option Z := get k v ≫= as_i64.
Definition get_array (k : string) (v : Value) : option (list Value) := get k v ≫= as_array.

Lemma member_elem k ms v : member k ms = Some v -> (k, v) ∈ ms.
Proof.
  induction ms as [|[k' v'] ms IH]; simpl; [done|]. case_bool_decide as H.
  - intros [= ->]. subst. left.
  - intros Hm. right. auto.
Qed.
