(* ===== verification/KeyCache.v ===== *)
(** * The key sets a realm verifies against
    ([crates/pic-x-realm/src/attester_keys.rs], [idp_keys.rs])

    Two caches with the same life: a background task refreshes each configured source, reads
    never fetch, and a set that cannot be refreshed keeps being served for a while. The network
    ([KeySetFetcher]) and the JSON parser are parameters; instants are numbers. *)
From S2P Require Import Prelude Rust Json.
Local Open Scope Z_scope.
Local Open Scope rust_scope.

(** ** Configuration the caches read *)

Record TrustedAttesterConfig := mkAttester {
  attester_id : string; attester_issuer : string; jwks_uri : string;
  proof_types : list string; formats : list string }.

(** The part of an Exchange Profile the identity-provider cache reads. *)
Record ProfileSource := mkProfileSource {
  profile_id : string; source_issuer : string; discovery_url : option string }.

(** [ExchangeProfileSource::discovery_base]. *)
Definition discovery_base (p : ProfileSource) : string := default (source_issuer p) (discovery_url p).

(** ** What a cache holds *)

Record CacheEntry := mkCacheEntry {
  entry_keys : list Value; fetched_at : Z; failed_since : option Z }.

Abbreviation Entries := (gmap string CacheEntry).

(** What one fetch came to: the parsed key set, or why there is none. *)
Definition Answer : Type := result (list Value) string.

(** The arms of [refresh] for one source. *)
Definition refresh_one (id : string) (now : Z) (a : Answer) (es : Entries) : Entries :=
  match a with
  | Ok keys => <[id := mkCacheEntry keys now None]> es
  | Err _ =>
    match es !! id with
    | Some e => match failed_since e with
                | None => <[id := mkCacheEntry (entry_keys e) (fetched_at e) (Some now)]> es
                | Some _ => es
                end
    | None => es
    end
  end.

(** [Instant::elapsed]. *)
Definition elapsed (now t : Z) : Z := Z.max 0 (now - t).

(** [Duration::as_secs]: instants and durations are in nanoseconds. *)
Definition as_secs (d : Z) : Z := d / 1000000000.

Definition stale_text (what : string) (failure_age last_success_age : Z) : string :=
  "the cached key set for the " +:+ what +:+ " has been stale for " +:+ string_of (dec (as_secs failure_age))
  +:+ "s after refresh failures; the last successful fetch was " +:+ string_of (dec (as_secs last_success_age))
  +:+ "s ago".

(** The body of [keys_for], for a source named [what]. *)
Definition serve (serve_stale_for now : Z) (what : string) (o : option CacheEntry) : Answer :=
  match o with
  | None => Err ("no key set has been fetched yet for the " +:+ what)
  | Some e =>
    match failed_since e with
    | Some t => if serve_stale_for <? elapsed now t then Err (stale_text what (elapsed now t) (elapsed now (fetched_at e)))
                else Ok (entry_keys e)
    | None => Ok (entry_keys e)
    end
  end.

Section Sources.
Context (from_slice : list byte -> option Value).

(** [parse_key_set]: only the keys usable for signature verification. *)
Definition usable_jwk (jwk : Value) : bool :=
  match get_str "use" jwk with None => true | Some usage => bool_decide (usage = "sig") end
  && match get "d" jwk with None => true | Some _ => false end.

Definition parse_key_set (body : list byte) : Answer :=
  match from_slice body with
  | None => Err "the attester key set is not JSON"
  | Some document =>
    match get_array "keys" document with
    | None => Err "the attester key set has no `keys` array"
    | Some keys => Ok (List.filter usable_jwk keys)
    end
  end.

(** [KeySetFetcher::fetch], as it answers during one refresh. *)
Context (fetch : string -> result (list byte) string).

(** *** Attesters *)

Record AttesterKeyCache := mkAttesterKeyCache {
  cache_attesters : list TrustedAttesterConfig;
  cache_serve_stale_for : Z;
  cache_entries : Entries }.

Definition attester_is_ready (c : AttesterKeyCache) : bool :=
  forallb (fun a => bool_decide (is_Some (cache_entries c !! attester_id a))) (cache_attesters c).

Definition attester_answer (a : TrustedAttesterConfig) : Answer :=
  let? body := fetch (jwks_uri a) in parse_key_set body.

(** [now] is read once per source, when its answer is in. *)
Fixpoint attester_refresh_loop (now : string -> Z) (l : list TrustedAttesterConfig) (es : Entries) : Entries :=
  match l with
  | [] => es
  | a :: r => attester_refresh_loop now r
                (refresh_one (attester_id a) (now (attester_id a)) (attester_answer a) es)
  end.

Definition attester_refresh (now : string -> Z) (c : AttesterKeyCache) : AttesterKeyCache :=
  mkAttesterKeyCache (cache_attesters c) (cache_serve_stale_for c)
    (attester_refresh_loop now (cache_attesters c) (cache_entries c)).

Definition attester_keys_for (now : Z) (c : AttesterKeyCache) (id : string) : Answer :=
  if negb (existsb (fun a => bool_decide (attester_id a = id)) (cache_attesters c))
  then Err ("the attester `" +:+ id +:+ "` is not configured for this realm")
  else serve (cache_serve_stale_for c) now ("attester `" +:+ id +:+ "`") (cache_entries c !! id).

(** *** Identity providers *)

Record IdpKeyCache := mkIdpKeyCache {
  idp_profiles : list ProfileSource;
  idp_serve_stale_for : Z;
  idp_entries : Entries }.

Definition idp_is_ready (c : IdpKeyCache) : bool :=
  forallb (fun p => bool_decide (is_Some (idp_entries c !! profile_id p))) (idp_profiles c).

(** [str::trim_end_matches('/')]. *)
Definition trim_end_slashes (s : string) : string :=
  string_of (rev (drop_while (fun b => bool_decide (b = x2f)) (rev (bytes_of s)))).

Definition discovery_uri (base : string) : string :=
  trim_end_slashes base +:+ "/.well-known/openid-configuration".

Definition fetch_provider_keys (base issuer : string) : Answer :=
  let? document := map_err (fun e => "fetching " +:+ discovery_uri base +:+ ": " +:+ e)
                     (fetch (discovery_uri base)) in
  let? document := ok_or (from_slice document) "the discovery document is not JSON" in
  let? declared := ok_or (get_str "issuer" document) "the discovery document has no `issuer`" in
  if negb (bool_decide (trim_end_slashes declared = trim_end_slashes issuer))
  then Err ("the discovery document declares issuer `" +:+ declared +:+ "`, not `" +:+ issuer +:+ "`")
  else
    let? uri := ok_or (get_str "jwks_uri" document) "the discovery document has no `jwks_uri`" in
    let? body := map_err (fun e => "fetching " +:+ uri +:+ ": " +:+ e) (fetch uri) in
    parse_key_set body.

Definition idp_answer (p : ProfileSource) : Answer := fetch_provider_keys (discovery_base p) (source_issuer p).

Fixpoint idp_refresh_loop (now : string -> Z) (l : list ProfileSource) (es : Entries) : Entries :=
  match l with
  | [] => es
  | p :: r => idp_refresh_loop now r (refresh_one (profile_id p) (now (profile_id p)) (idp_answer p) es)
  end.

Definition idp_refresh (now : string -> Z) (c : IdpKeyCache) : IdpKeyCache :=
  mkIdpKeyCache (idp_profiles c) (idp_serve_stale_for c)
    (idp_refresh_loop now (idp_profiles c) (idp_entries c)).

Definition idp_keys_for (now : Z) (c : IdpKeyCache) (id : string) : Answer :=
  serve (idp_serve_stale_for c) now ("exchange profile `" +:+ id +:+ "`") (idp_entries c !! id).
End Sources.

(** The [AttesterKeySource] trait: what proof validation asks of a cache. *)
Class AttesterKeySource (S : Type) := keys_for : S -> string -> Answer.

(** A cache read at an instant is a key source. *)
#[export] Instance cache_source : AttesterKeySource (AttesterKeyCache * Z) :=
  fun c id => attester_keys_for (snd c) (fst c) id.

(** ** The specification: what the history of one source's answers means *)

(** The last key set that was fetched, and when the failures since it began. *)
Fixpoint last_known (h : list (Z * Answer)) (held : option CacheEntry) : option CacheEntry :=
  match h with
  | [] => held
  | (t, Ok keys) :: r => last_known r (Some (mkCacheEntry keys t None))
  | (t, Err _) :: r =>
    last_known r (match held with
                  | Some e => Some (mkCacheEntry (entry_keys e) (fetched_at e)
                                      (Some (default t (failed_since e))))
                  | None => None
                  end)
  end.

Lemma refresh_one_spec id now a es :
  refresh_one id now a es !! id = last_known [(now, a)] (es !! id) /\
  forall k, k <> id -> refresh_one id now a es !! k = es !! k.
Proof.
  unfold refresh_one. destruct a as [keys|err]; simpl.
  - split; [apply lookup_insert_eq|]. intros k Hk. by apply lookup_insert_ne.
  - destruct (es !! id) as [[ks ft [t|]]|] eqn:E; simpl; try done.
    split; [apply lookup_insert_eq|]. intros k Hk. by apply lookup_insert_ne.
Qed.

Lemma attester_refresh_loop_spec from_slice fetch now l es id :
  NoDup (map attester_id l) ->
  attester_refresh_loop from_slice fetch now l es !! id
  = match List.find (fun a => bool_decide (attester_id a = id)) l with
    | Some a => last_known [(now id, attester_answer from_slice fetch a)] (es !! id)
    | None => es !! id
    end.
Proof.
  revert es. induction l as [|a l IH]; intros es Hnd; simpl; [done|].
  apply NoDup_cons in Hnd as [Ha Hnd]. rewrite IH by done.
  destruct (refresh_one_spec (attester_id a) (now (attester_id a)) (attester_answer from_slice fetch a) es)
    as [Hsame Hother].
  case_bool_decide as Hid; [subst id|by rewrite Hother].
  destruct (List.find _ l) as [b|] eqn:Ef; [|done]. exfalso.
  apply find_some in Ef as [Hb Hk]. bool_to_prop. apply Ha. rewrite <- Hk.
  by apply list_elem_of_In, in_map.
Qed.

(** One refresh of the whole cache: what the network answered, and when. *)
Definition Round : Type := (string -> result (list byte) string) * (string -> Z).

Section Rounds.
Context (from_slice : list byte -> option Value).

Fixpoint refreshes (rounds : list Round) (c : AttesterKeyCache) : AttesterKeyCache :=
  match rounds with
  | [] => c
  | (fetch, now) :: r => refreshes r (attester_refresh from_slice fetch now c)
  end.

Definition history (a : TrustedAttesterConfig) (rounds : list Round) : list (Z * Answer) :=
  map (fun r => (snd r (attester_id a), attester_answer from_slice (fst r) a)) rounds.

Lemma find_attester l a :
  NoDup (map attester_id l) -> a ∈ l ->
  List.find (fun b => bool_decide (attester_id b = attester_id a)) l = Some a.
Proof.
  induction l as [|b l IH]; intros Hnd Ha; [by apply not_elem_of_nil in Ha|].
  simpl in Hnd. apply NoDup_cons in Hnd as [Hb Hnd]. simpl.
  apply elem_of_cons in Ha as [->|Ha]; [by rewrite bool_decide_true|].
  case_bool_decide as Hk; [|auto]. exfalso. apply Hb. rewrite Hk.
  apply list_elem_of_In, in_map. by apply list_elem_of_In.
Qed.

Lemma last_known_app h h' held : last_known (h ++ h') held = last_known h' (last_known h held).
Proof. revert held. induction h as [|[t [ks|e]] h IH]; intros held; simpl; auto. Qed.

Lemma refreshes_entries rounds c a :
  NoDup (map attester_id (cache_attesters c)) -> a ∈ cache_attesters c ->
  cache_entries (refreshes rounds c) !! attester_id a
  = last_known (history a rounds) (cache_entries c !! attester_id a) /\
  cache_attesters (refreshes rounds c) = cache_attesters c /\
  cache_serve_stale_for (refreshes rounds c) = cache_serve_stale_for c.
Proof.
  revert c. induction rounds as [|[fetch now] r IH]; intros c Hnd Ha; simpl; [done|].
  destruct (IH (attester_refresh from_slice fetch now c)) as (-> & -> & ->); [done..|].
  simpl. rewrite attester_refresh_loop_spec, find_attester by done. split_and!; try done.
  rewrite <- (last_known_app [(_, _)]). done.
Qed.
End Rounds.

(** ** Properties *)

Definition failed (p : Z * Answer) : bool := negb (is_ok (snd p)).

(** When the failures after the last success began. *)
Definition failing_since (h : list (Z * Answer)) : option Z := fst <$> head h.

Lemma last_known_failures h e :
  Forall (fun p => failed p = true) h ->
  last_known h (Some e) =
  Some (mkCacheEntry (entry_keys e) (fetched_at e)
          (match failed_since e with Some t => Some t | None => failing_since h end)).
Proof.
  intros Hf. revert e. induction Hf as [|[t [ks|err]] h Hp _ IH]; intros [ks' ft fs]; simpl; [|done|].
  - by destruct fs.
  - rewrite IH. simpl. by destruct fs.
Qed.

Lemma last_known_never h : Forall (fun p => failed p = true) h -> last_known h None = None.
Proof. induction 1 as [|[t [ks|err]] h Hp _ IH]; simpl; done. Qed.

Lemma configured_attester (c : AttesterKeyCache) a :
  a ∈ cache_attesters c ->
  existsb (fun b => bool_decide (attester_id b = attester_id a)) (cache_attesters c) = true.
Proof.
  intros H. apply existsb_exists. exists a. rewrite <- list_elem_of_In. split; [done|].
  by apply bool_decide_eq_true_2.
Qed.

(** C13: After any number of refreshes of a fresh cache, a configured attester's keys are those of
    the last refresh that succeeded: served at once after it (an empty published set included),
    still served while later refreshes fail for no longer than the stale window, refused once
    they have failed for longer, and refused when none ever succeeded. *)
Theorem stale_set_beats_no_set from_slice attesters stale rounds a now :
  NoDup (map attester_id attesters) -> a ∈ attesters ->
  let c := refreshes from_slice rounds (mkAttesterKeyCache attesters stale ∅) in
  let h := history from_slice a rounds in
  (forall before t ks after, h = before ++ (t, Ok ks) :: after ->
     Forall (fun p => failed p = true) after ->
     is_ok (attester_keys_for now c (attester_id a))
       = match failing_since after with Some t' => elapsed now t' <=? stale | None => true end /\
     forall ks', attester_keys_for now c (attester_id a) = Ok ks' -> ks' = ks) /\
  (Forall (fun p => failed p = true) h -> is_ok (attester_keys_for now c (attester_id a)) = false).
Proof.
  intros Hnd Ha c h.
  destruct (refreshes_entries from_slice rounds (mkAttesterKeyCache attesters stale ∅) a Hnd Ha)
    as (He & Hatt & Hst). fold c h in He, Hatt, Hst. simpl in He, Hatt, Hst.
  rewrite lookup_empty in He.
  unfold attester_keys_for. rewrite configured_attester by (by rewrite Hatt). simpl.
  rewrite He, Hst. split.
  - intros before t ks after -> Hf. rewrite last_known_app. simpl. rewrite last_known_failures by done.
    simpl. destruct (failing_since after) as [t'|]; [|split; [done|naive_solver]].
    unfold serve. simpl. rewrite Z.leb_antisym. destruct (stale <? elapsed now t'); naive_solver.
  - intros Hf. by rewrite last_known_never.
Qed.

(** The set an attester once published, then an outage of two refreshes. *)
Module ToyCache.
Definition attester : TrustedAttesterConfig := mkAttester "a" "https://a" "https://a/jwks" ["sd-jwt"] [].
Definition key : Value := Obj [("kid", Str "k1"); ("use", Str "sig")].
Definition from_slice (b : list byte) : option Value :=
  if bool_decide (b = [x01]) then Some (Obj [("keys", Arr [key; Obj [("use", Str "enc")]; Obj [("d", Str "s")]])])
  else None.
Definition up (t : Z) : Round := (fun _ => Ok [x01], fun _ => t).
Definition down (t : Z) : Round := (fun _ => Err "connection refused", fun _ => t).

(** An identity provider: its discovery document at one address, its keys at another. *)
Definition idp_from_slice (b : list byte) : option Value :=
  if bool_decide (b = [x02])
  then Some (Obj [("issuer", Str "https://idp/"); ("jwks_uri", Str "https://idp/keys")])
  else from_slice b.
Definition idp_fetch (uri : string) : result (list byte) string :=
  if bool_decide (uri = "https://idp/keys") then Ok [x01] else Ok [x02].
End ToyCache.

Lemma stale_set_beats_no_set_witness :
  is_ok (attester_keys_for 3700 (refreshes ToyCache.from_slice [ToyCache.up 0; ToyCache.down 300; ToyCache.down 600]
           (mkAttesterKeyCache [ToyCache.attester] 3600 ∅)) "a") = (elapsed 3700 300 <=? 3600).
Proof.
  pose proof (stale_set_beats_no_set ToyCache.from_slice [ToyCache.attester] 3600
         [ToyCache.up 0; ToyCache.down 300; ToyCache.down 600] ToyCache.attester 3700) as H.
  cbv zeta in H. destruct H as [H _]; [apply NoDup_singleton|left|].
  apply (H [] 0 [ToyCache.key] [(300, Err "connection refused"); (600, Err "connection refused")]).
  - vm_compute. reflexivity.
  - repeat constructor.
Defined.

(** *** What a cache can ever answer with *)

Definition from_answers (answers : list Answer) (es : Entries) : Prop :=
  forall id e, es !! id = Some e -> Ok (entry_keys e) ∈ answers.

Lemma refresh_one_from id now a es answers :
  from_answers answers es -> from_answers (a :: answers) (refresh_one id now a es).
Proof.
  intros H k e He. destruct (refresh_one_spec id now a es) as [Hs Ho].
  destruct (decide (k = id)) as [->|Hk]; [|rewrite Ho in He by done; right; eauto].
  rewrite Hs in He. destruct a as [keys|err]; simpl in He.
  - injection He as <-. left.
  - destruct (es !! id) as [e'|] eqn:E; [|done]. injection He as <-. right. simpl. eauto.
Qed.

Lemma parse_key_set_usable from_slice body ks :
  parse_key_set from_slice body = Ok ks -> Forall (fun jwk => usable_jwk jwk = true) ks.
Proof.
  unfold parse_key_set. destruct (from_slice body); [|done]. destruct (get_array _ _); [|done].
  intros [= <-]. apply Forall_forall. intros jwk Hj. apply list_elem_of_In, filter_In in Hj. tauto.
Qed.

Lemma idp_refresh_usable from_slice fetch now l es :
  (forall id e, es !! id = Some e -> Forall (fun jwk => usable_jwk jwk = true) (entry_keys e)) ->
  forall id e, idp_refresh_loop from_slice fetch now l es !! id = Some e ->
  Forall (fun jwk => usable_jwk jwk = true) (entry_keys e).
Proof.
  revert es. induction l as [|p l IH]; intros es Hes; [exact Hes|]. apply IH. intros id e He.
  destruct (refresh_one_spec (profile_id p) (now (profile_id p)) (idp_answer from_slice fetch p) es) as [Hs Ho].
  destruct (decide (id = profile_id p)) as [->|Hk]; [|rewrite Ho in He by done; eauto].
  rewrite Hs in He. destruct (idp_answer from_slice fetch p) as [keys|err] eqn:Ea; simpl in He.
  - injection He as <-. simpl. unfold idp_answer, fetch_provider_keys in Ea. run_inv.
    case_match; [done|]. run_inv. by eapply parse_key_set_usable.
  - destruct (es !! profile_id p) as [e'|] eqn:E; [|done]. injection He as <-. simpl. eauto.
Qed.

(** No key that is private or published for another use ever verifies a token: whatever the
    providers serve and whatever fails, every key an identity-provider cache answers with is a
    signature key without private material. *)
Theorem idp_cache_serves_only_signature_keys from_slice (rounds : list Round) profiles stale now id ks :
  let c := foldl (fun c r => idp_refresh from_slice (fst r) (snd r) c) (mkIdpKeyCache profiles stale ∅) rounds in
  idp_keys_for now c id = Ok ks ->
  Forall (fun jwk => (get_str "use" jwk = None \/ get_str "use" jwk = Some "sig") /\ get "d" jwk = None) ks.
Proof.
  intros c H.
  assert (Hinv : forall id e, idp_entries c !! id = Some e ->
                 Forall (fun jwk => usable_jwk jwk = true) (entry_keys e)).
  { subst c. assert (Hgen : forall c0, (forall id e, idp_entries c0 !! id = Some e ->
                 Forall (fun jwk => usable_jwk jwk = true) (entry_keys e)) -> forall id e,
                 idp_entries (foldl (fun c r => idp_refresh from_slice (fst r) (snd r) c) c0 rounds) !! id = Some e ->
                 Forall (fun jwk => usable_jwk jwk = true) (entry_keys e)).
    { clear H. induction rounds as [|r rounds IH]; intros c0 H0; [exact H0|]. simpl. apply IH.
      intros id' e He. eapply idp_refresh_usable; [exact H0|exact He]. }
    apply Hgen. intros id' e He. simpl in He. by rewrite lookup_empty in He. }
  unfold idp_keys_for, serve in H. destruct (idp_entries c !! id) as [e|] eqn:E; [|done].
  assert (ks = entry_keys e) as ->.
  { destruct (failed_since e); [destruct (_ <? _)|]; congruence. }
  eapply Forall_impl; [by eapply Hinv|]. intros jwk Hu. unfold usable_jwk in Hu. bool_to_prop.
  split; [|by destruct (get "d" jwk)]. destruct (get_str "use" jwk) as [u|]; [|by left].
  right. bool_to_prop. congruence.
Qed.

Lemma idp_cache_serves_only_signature_keys_witness :
  Forall (fun jwk => (get_str "use" jwk = None \/ get_str "use" jwk = Some "sig") /\ get "d" jwk = None)
    [ToyCache.key].
Proof.
  apply (idp_cache_serves_only_signature_keys ToyCache.idp_from_slice [(ToyCache.idp_fetch, fun _ => 0)]
           [mkProfileSource "p" "https://idp" None] 3600 10 "p").
  vm_compute. reflexivity.
Defined.

(** Discovery cannot be redirected to another issuer: keys are accepted for a profile only when
    the document found at its discovery address declares the configured issuer (up to a trailing
    slash), and they are the key set that document points to. *)
Theorem discovery_agrees_on_the_issuer from_slice fetch base issuer ks :
  fetch_provider_keys from_slice fetch base issuer = Ok ks ->
  exists body document declared uri keys_body,
    fetch (discovery_uri base) = Ok body /\ from_slice body = Some document /\
    get_str "issuer" document = Some declared /\ trim_end_slashes declared = trim_end_slashes issuer /\
    get_str "jwks_uri" document = Some uri /\ fetch uri = Ok keys_body /\
    parse_key_set from_slice keys_body = Ok ks.
Proof.
  unfold fetch_provider_keys. intros H. run_inv. case_bool_decide as Hd; simpl in *; [|done]. run_inv.
  repeat match goal with Hm : map_err _ ?r = Ok _ |- _ => destruct r eqn:?; [simpl in Hm; simplify_eq|done] end.
  by eauto 15.
Qed.

Lemma discovery_agrees_on_the_issuer_witness :
  exists body document declared uri keys_body,
    ToyCache.idp_fetch (discovery_uri "https://idp") = Ok body /\
    ToyCache.idp_from_slice body = Some document /\
    get_str "issuer" document = Some declared /\ trim_end_slashes declared = trim_end_slashes "https://idp" /\
    get_str "jwks_uri" document = Some uri /\ ToyCache.idp_fetch uri = Ok keys_body /\
    parse_key_set ToyCache.idp_from_slice keys_body = Ok [ToyCache.key].
Proof.
  apply (discovery_agrees_on_the_issuer ToyCache.idp_from_slice ToyCache.idp_fetch "https://idp" "https://idp").
  vm_compute. reflexivity.
Defined.
