(* ===== verification/Por.v ===== *)
(** * Executor-profile evidence: issuer-signed SD-JWT presentations
    ([crates/pic-x-realm/src/por.rs])

    The whole validation: splitting the presentation, trust before cryptography, the issuer
    signature against the attester's published keys, disclosures against their commitments,
    the validity claims, the bound workload key, and the memory of the last accepted
    presentation. JSON parsing, base64, SHA-256, the key types of the protocol crate and RSA
    verification are parameters; where the keys come from is any [AttesterKeySource]. *)
From S2P Require Import Prelude Rust Json KeyCache.
Local Open Scope Z_scope.
Local Open Scope rust_scope.

Definition WORKLOAD_COSE_ALGORITHMS : list string := ["EdDSA"; "ES256"; "ES384"].
Definition SD_ALG_SHA_256 : string := "sha-256".
Definition MAX_EVIDENCE_BYTES : nat := 64 * 1024.
Definition MAX_DISCLOSURES : nat := 128.
Definition CLOCK_SKEW_SECONDS : Z := 60.

(** [RejectReason::PorRejected] and its description. *)
Inductive RejectReason := PorRejected (description : string).
Definition reject (description : string) : RejectReason := PorRejected description.

Record ProofOfRelationship := mkPor { por_type : string; evidence : list byte }.

(** The crates this component calls: [serde_json], [base64] (URL-safe, no padding), [ring]'s
    SHA-256 and RSA verification, and the JWK reader and verifiers of the protocol crate. *)
Record PorCrates := mkPorCrates {
  from_slice : list byte -> option Value;
  b64_encode : list byte -> string;
  b64_decode : string -> option (list byte);
  sha256_of : list byte -> list byte;
  PublicKey : Type;
  public_key_from_jwk : Value -> result PublicKey string;
  expected_jose : Value -> option string;
  public_key_verify : PublicKey -> list byte -> list byte -> bool;
  rsa_pkcs1_verify : list byte -> list byte -> list byte -> bool }.

(** What an accepted presentation disclosed. *)
Record ProcessedProfileEvidence := mkProcessed {
  processed_attester_id : string; processed_issuer : string; claims : gmap string Value }.

(** ** DER, for RSA keys *)

(** [iter().position(|byte| *byte != 0)]: the bytes from the first that is not zero. *)
Definition strip_zeroes (bs : list byte) : list byte := drop_while (fun b => bool_decide (b = x00)) bs.

(** [usize::to_be_bytes], eight bytes. *)
Definition to_be_bytes (n : Z) : list byte :=
  map (fun i => byte_of_Z (Z.shiftr n (8 * i))) [7; 6; 5; 4; 3; 2; 1; 0].

Definition der_length (n : Z) : list byte :=
  if n <? 128 then [byte_of_Z n]
  else
    let bytes := to_be_bytes n in
    let significant := match strip_zeroes bytes with [] => drop 7 bytes | s => s end in
    byte_of_Z (Z.lor 128 (Z.of_nat (length significant))) :: significant.

Definition high_bit (b : byte) : bool := negb (Z.land (u8 b) 128 =? 0).

Definition der_integer (value : list byte) : list byte :=
  let value := strip_zeroes value in
  let content := (match value with b :: _ => if high_bit b then [x00] else [] | [] => [] end) ++ value in
  x02 :: der_length (Z.of_nat (length content)) ++ content.

Definition der_rsa_public_key (modulus exponent : list byte) : list byte :=
  let body := der_integer modulus ++ der_integer exponent in
  x30 :: der_length (Z.of_nat (length body)) ++ body.

(** ** Splitting a presentation *)

Definition TILDE : byte := x7e.
Definition DOT : byte := x2e.

Definition split_presentation (presentation : string) : result (string * list string) RejectReason :=
  if negb (ends_with "~" presentation)
  then Err (reject "the SD-JWT presentation does not end with `~`; a Key Binding JWT is not used in Profile 0.2")
  else
    match split TILDE presentation with
    | [] => Err (reject "the SD-JWT presentation has no issuer-signed JWT")
    | issuer_signed :: segments =>
      if is_empty issuer_signed
      then Err (reject "the SD-JWT presentation has no issuer-signed JWT")
      else
        let disclosures := List.filter (fun v => negb (is_empty v)) segments in
        if (MAX_DISCLOSURES <? length disclosures)%nat
        then Err (reject "the SD-JWT presentation carries too many disclosures")
        else Ok (issuer_signed, disclosures)
    end.

Section Validator.
Context (X : PorCrates) {S : Type} `{!AttesterKeySource S}.

(** ** Keys *)

(** The boxed [ArtifactVerifier]s: a key of the protocol crate, or an RSA key in DER. *)
Inductive Verifier :=
| CurveVerifier (k : PublicKey X)
| RsaVerifier (der : list byte).

Definition artifact_verify (v : Verifier) (data signature : list byte) : bool :=
  match v with
  | CurveVerifier k => public_key_verify X k data signature
  | RsaVerifier der => rsa_pkcs1_verify X der data signature
  end.

Definition rsa_key_from_jwk (jwk : Value) : result Verifier string :=
  let? modulus := ok_or (get_str "n" jwk) "the RSA JWK has no `n`" in
  let? exponent := ok_or (get_str "e" jwk) "the RSA JWK has no `e`" in
  let? modulus := ok_or (b64_decode X modulus) "`n` is not base64url" in
  let? exponent := ok_or (b64_decode X exponent) "`e` is not base64url" in
  if (length modulus <? 256)%nat
  then Err ("the RSA key is " +:+ string_of (dec (8 * Z.of_nat (length modulus)))
            +:+ " bits; 2048 is the minimum")
  else Ok (RsaVerifier (der_rsa_public_key modulus exponent)).

Definition is_rsa (jwk : Value) : bool := bool_decide (get_str "kty" jwk = Some "RSA").

Definition verification_key_from_jwk (jwk : Value) : result Verifier string :=
  match get "d" jwk with
  | Some _ => Err "the JWK carries a private key component"
  | None =>
    if is_rsa jwk then rsa_key_from_jwk jwk
    else match public_key_from_jwk X jwk with
         | Ok k => Ok (CurveVerifier k)
         | Err e => Err e
         end
  end.

Definition expected_jose_algorithm (jwk : Value) : option string :=
  if is_rsa jwk then Some "RS256" else expected_jose X jwk.

Definition algorithm_matches (algorithm : string) (jwk : Value) : bool :=
  bool_decide (expected_jose_algorithm jwk = Some algorithm).

(** ** The issuer-signed JWT *)

Definition decode_json (segment label : string) : result Value RejectReason :=
  let? bytes := ok_or (b64_decode X segment) (reject ("the SD-JWT " +:+ label +:+ " is not base64url")) in
  ok_or (from_slice X bytes) (reject ("the SD-JWT " +:+ label +:+ " is not JSON")).

Definition decode_jws_segments (jws : string) : result (Value * Value) RejectReason :=
  match split DOT jws with
  | [header; payload; _] =>
    let? header := decode_json header "header" in
    let? payload := decode_json payload "payload" in
    Ok (header, payload)
  | _ => Err (reject "the issuer-signed SD-JWT is not a compact JWS")
  end.

Definition jws_signature_parts (jws : string) : result (list byte * list byte) RejectReason :=
  match split DOT jws with
  | [header; payload; signature] =>
    let? signature := ok_or (b64_decode X signature) (reject "the SD-JWT signature is not unpadded base64url") in
    Ok (bytes_of (header +:+ "." +:+ payload), signature)
  | _ => Err (reject "the issuer-signed SD-JWT is not a compact JWS")
  end.

(** Whether one published key accepts the signature under the declared algorithm. *)
Definition key_accepts (algorithm : string) (signing_input signature : list byte) (jwk : Value) : bool :=
  algorithm_matches algorithm jwk
  && match verification_key_from_jwk jwk with
     | Ok key => artifact_verify key signing_input signature
     | Err _ => false
     end.

Definition kid_selects (key_id : option string) (jwk : Value) : bool :=
  match key_id with
  | Some wanted => bool_decide (get_str "kid" jwk = Some wanted)
  | None => true
  end.

Definition verify_issuer_signature (issuer_signed : string) (header : Value)
    (attester : TrustedAttesterConfig) (keys : S) : result unit RejectReason :=
  let? algorithm := ok_or (get_str "alg" header) (reject "the SD-JWT header has no `alg`") in
  if bool_decide (algorithm = "none") then Err (reject "the SD-JWT declares `alg: none`")
  else
    let key_id := get_str "kid" header in
    let? (signing_input, signature) := jws_signature_parts issuer_signed in
    let? candidates := map_err (fun e => PorRejected ("the key set of attester `" +:+ attester_id attester
                                                      +:+ "` is unavailable: " +:+ e))
                         (keys_for keys (attester_id attester)) in
    if bool_decide (length candidates = 0%nat)
    then Err (PorRejected ("attester `" +:+ attester_id attester +:+ "` published no verification keys"))
    else
      let selected := List.filter (kid_selects key_id) candidates in
      if bool_decide (length selected = 0%nat)
      then Err (PorRejected ("attester `" +:+ attester_id attester +:+ "` published no key matching `kid`"))
      else if existsb (key_accepts algorithm signing_input signature) selected
      then Ok tt
      else Err (PorRejected ("the SD-JWT issuer signature does not verify against the key set of attester `"
                             +:+ attester_id attester +:+ "`")).

(** ** Claims *)

Definition committed_digests (payload : Value) : list string :=
  match get_array "_sd" payload with
  | Some values => omap as_str values
  | None => []
  end.

(** Everything except the SD-JWT machinery is always disclosed. *)
Definition always_disclosed (payload : Value) : gmap string Value :=
  match as_object payload with
  | Some members =>
    foldl (fun m kv => if bool_decide (fst kv = "_sd") || bool_decide (fst kv = "_sd_alg") then m
                       else <[fst kv := snd kv]> m) ∅ members
  | None => ∅
  end.

Definition disclosure_digest (disclosure : string) : string :=
  b64_encode X (sha256_of X (bytes_of disclosure)).

Definition is_reserved (name : string) : bool := starts_with "_sd" name || bool_decide (name = "...").

Definition decode_disclosure (disclosure : string) : result (string * Value) RejectReason :=
  let? decoded := ok_or (b64_decode X disclosure) (reject "a disclosure is not unpadded base64url") in
  let? parts := ok_or (from_slice X decoded ≫= as_array) (reject "a disclosure is not a JSON array") in
  match parts with
  | [_; name; value] =>
    let? name := ok_or (as_str name) (reject "a disclosure claim name is not a string") in
    if is_reserved name then Err (reject "a disclosure uses a reserved claim name")
    else Ok (name, value)
  | _ => Err (reject "a disclosure is not a [salt, name, value] object-property disclosure")
  end.

Fixpoint disclose (committed : list string) (used : list string) (cs : gmap string Value)
    (disclosures : list string) : result (gmap string Value) RejectReason :=
  match disclosures with
  | [] => Ok cs
  | d :: r =>
    let computed := disclosure_digest d in
    if negb (bool_decide (computed ∈ committed))
    then Err (reject "a presented disclosure is not committed in the credential `_sd`")
    else if bool_decide (computed ∈ used)
    then Err (reject "a disclosure digest was presented twice")
    else
      let? (name, value) := decode_disclosure d in
      match cs !! name with
      | Some _ => Err (reject "a disclosure would overwrite an existing claim")
      | None => disclose committed (computed :: used) (<[name := value]> cs) r
      end
  end.

Definition process_disclosures (payload : Value) (disclosures : list string)
  : result (gmap string Value) RejectReason :=
  disclose (committed_digests payload) [] (always_disclosed payload) disclosures.

Definition validate_validity_claims (payload : Value) (now : Z) : result unit RejectReason :=
  match get_i64 "exp" payload with
  | None => Err (reject "the SD-JWT has no numeric `exp` claim")
  | Some expiry =>
    if expiry <=? now - CLOCK_SKEW_SECONDS
    then Err (reject "the SD-JWT executor-profile evidence is expired")
    else
      let late claim := match get_i64 claim payload with
                        | Some t => now + CLOCK_SKEW_SECONDS <? t
                        | None => false
                        end in
      if late "nbf" then Err (reject "the SD-JWT executor-profile evidence is not yet valid")
      else if late "iat" then Err (reject "the SD-JWT executor-profile evidence is issued in the future")
      else Ok tt
  end.

(** ** The validator *)

Definition rebuild_workload_key (jwk : Value) : result Verifier RejectReason :=
  match public_key_from_jwk X jwk with
  | Ok k => Ok (CurveVerifier k)
  | Err e => Err (PorRejected ("`cnf.jwk` is unusable: " +:+ e))
  end.

Definition cnf_jwk (payload : Value) : option Value := get "cnf" payload ≫= get "jwk".

Definition workload_key_from_cnf (payload : Value) : result Verifier RejectReason :=
  let? jwk := ok_or (cnf_jwk payload)
                (reject "the SD-JWT does not bind a workload key through `cnf.jwk`") in
  rebuild_workload_key jwk.

Record Settings := mkSettings { attesters : list TrustedAttesterConfig; keys : S; now : Z }.

Definition find_attester_for (cfg : Settings) (issuer : string) : option TrustedAttesterConfig :=
  List.find (fun a => bool_decide (attester_issuer a = issuer)) (attesters cfg).

Definition check_sd_alg (payload : Value) : result unit RejectReason :=
  match get_str "_sd_alg" payload with
  | Some alg => if bool_decide (alg = SD_ALG_SHA_256) then Ok tt
                else Err (PorRejected ("unsupported `_sd_alg` `" +:+ alg +:+ "`"))
  | None => Ok tt
  end.

Definition validate_evidence_with_key (cfg : Settings) (por : ProofOfRelationship)
  : result (Verifier * ProcessedProfileEvidence * Value) RejectReason :=
  if (MAX_EVIDENCE_BYTES <? length (evidence por))%nat
  then Err (reject "proof_of_relationship.evidence is too large")
  else
    let? presentation := ok_or (from_utf8 (evidence por)) (reject "proof_of_relationship.evidence is not UTF-8") in
    let? (issuer_signed, disclosures) := split_presentation presentation in
    let? (header, payload) := decode_jws_segments issuer_signed in
    let? issuer := ok_or (get_str "iss" payload) (reject "the SD-JWT has no `iss` claim") in
    let? attester := ok_or (find_attester_for cfg issuer)
                       (PorRejected ("issuer `" +:+ issuer +:+ "` is not a trusted attester of this realm")) in
    if negb (existsb (fun v => bool_decide (v = "sd-jwt")) (proof_types attester))
    then Err (PorRejected ("attester `" +:+ attester_id attester +:+ "` is not configured for proof type `sd-jwt`"))
    else
      let? _ := verify_issuer_signature issuer_signed header attester (keys cfg) in
      let? _ := check_sd_alg payload in
      let? _ := validate_validity_claims payload (now cfg) in
      let? cs := process_disclosures payload disclosures in
      let? jwk := ok_or (cnf_jwk payload)
                    (reject "the SD-JWT does not bind a workload key through `cnf.jwk`") in
      let? workload_key := workload_key_from_cnf payload in
      Ok (workload_key, mkProcessed (attester_id attester) issuer cs, jwk).

(** The last presentation accepted. *)
Record Accepted := mkAccepted {
  accepted_evidence : list byte; accepted_jwk : Value; accepted_processed : ProcessedProfileEvidence }.

Definition cached_for (bytes : list byte) (accepted : option Accepted) : option Accepted :=
  match accepted with
  | Some a => if bool_decide (accepted_evidence a = bytes) then Some a else None
  | None => None
  end.

(** [PorValidator::validate]. *)
Definition validate (cfg : Settings) (por : ProofOfRelationship) : M (option Accepted) RejectReason Verifier :=
  let! accepted := mget in
  match cached_for (evidence por) accepted with
  | Some cached => mlift (rebuild_workload_key (accepted_jwk cached))
  | None =>
    let! (verifier, processed, jwk) := mlift (validate_evidence_with_key cfg por) in
    let! _ := mmodify (fun _ => Some (mkAccepted (evidence por) jwk processed)) in
    mret verifier
  end.

Definition validate_and_remember (cfg : Settings) (por : ProofOfRelationship)
  : M (option Accepted) RejectReason ProcessedProfileEvidence :=
  let! accepted := mget in
  match cached_for (evidence por) accepted with
  | Some cached => mret (accepted_processed cached)
  | None =>
    let! (_, processed, jwk) := mlift (validate_evidence_with_key cfg por) in
    let! _ := mmodify (fun _ => Some (mkAccepted (evidence por) jwk processed)) in
    mret processed
  end.
End Validator.
