(* ===== verification/PorProperties.v ===== *)
(** * The properties of evidence validation

    What an accepted presentation guarantees, what its claims are exactly, that trust is
    decided before cryptography, that remembering an answer changes no answer, and that the
    DER the RSA path builds reads back as the integers of the JWK. *)
From S2P Require Import Prelude Rust Json KeyCache Por.
Local Open Scope Z_scope.
Local Open Scope rust_scope.

Section Soundness.
Context (X : PorCrates) {S : Type} `{!AttesterKeySource S}.

Lemma verify_issuer_signature_Ok issuer_signed header attester (ks : S) u :
  verify_issuer_signature X issuer_signed header attester ks = Ok u ->
  exists candidates jwk key input signature,
    keys_for ks (attester_id attester) = Ok candidates /\ jwk ∈ candidates /\
    jws_signature_parts X issuer_signed = Ok (input, signature) /\
    verification_key_from_jwk X jwk = Ok key /\ artifact_verify X key input signature = true /\
    get_str "alg" header = expected_jose_algorithm X jwk /\ get_str "alg" header <> Some "none".
Proof.
  unfold verify_issuer_signature. intros H. run_inv. case_bool_decide as Hnone; [done|]. run_inv.
  match goal with Hp : jws_signature_parts _ _ = Ok ?p |- _ => destruct p as [input signature] end.
  run_inv. destruct (keys_for ks (attester_id attester)) as [cands|] eqn:Hk; simpl in *; [|done].
  simplify_eq. case_bool_decide; [done|]. case_bool_decide; [done|].
  destruct (existsb _ _) eqn:Hex; [|done]. apply existsb_exists in Hex as (jwk & Hin & Hacc).
  apply filter_In in Hin as [Hin _]. unfold key_accepts in Hacc. bool_to_prop.
  destruct (verification_key_from_jwk X jwk) as [key|] eqn:Hkey; [|done].
  match goal with Ha : algorithm_matches _ _ _ = true |- _ => unfold algorithm_matches in Ha; bool_to_prop end.
  eexists _, jwk, key, input, signature. rewrite list_elem_of_In. split_and!; eauto; congruence.
Qed.

Lemma find_attester_for_Some (cfg : Settings (S := S)) issuer a :
  find_attester_for cfg issuer = Some a -> a ∈ attesters cfg /\ attester_issuer a = issuer.
Proof.
  intros H. apply find_some in H as [Hin Hi]. bool_to_prop. by rewrite list_elem_of_In.
Qed.

Lemma validity_Ok payload t u :
  validate_validity_claims payload t = Ok u ->
  (exists expiry, get_i64 "exp" payload = Some expiry /\ t < expiry + CLOCK_SKEW_SECONDS) /\
  (forall nbf, get_i64 "nbf" payload = Some nbf -> nbf <= t + CLOCK_SKEW_SECONDS) /\
  (forall iat, get_i64 "iat" payload = Some iat -> iat <= t + CLOCK_SKEW_SECONDS).
Proof.
  unfold validate_validity_claims. destruct (get_i64 "exp" payload) as [e|]; [|done].
  destruct (e <=? t - CLOCK_SKEW_SECONDS) eqn:He; [done|]. bool_to_prop.
  destruct (get_i64 "nbf" payload) as [n|]; destruct (get_i64 "iat" payload) as [i|];
    repeat case_match; intros; simplify_eq; bool_to_prop;
    (split_and!; [eexists; split; [done|lia]|intros ? [=]; subst; lia || done..]).
Qed.

(** C5: An accepted presentation is genuine: it was issued by an attester the realm configured for
    SD-JWT evidence; its signature verifies under a key that attester publishes, with exactly
    the algorithm that key produces and never with none; it is within its validity, up to the
    clock skew; and the verifier handed on is the key its [cnf.jwk] binds. *)
Theorem accepted_evidence_is_genuine (cfg : Settings (S := S)) por verifier processed jwk :
  validate_evidence_with_key X cfg por = Ok (verifier, processed, jwk) ->
  exists presentation issuer_signed disclosures header payload attester,
    from_utf8 (evidence por) = Some presentation /\
    split_presentation presentation = Ok (issuer_signed, disclosures) /\
    decode_jws_segments X issuer_signed = Ok (header, payload) /\
    attester ∈ attesters cfg /\ "sd-jwt" ∈ proof_types attester /\
    get_str "iss" payload = Some (attester_issuer attester) /\
    processed_attester_id processed = attester_id attester /\
    (exists candidates key_jwk key input signature,
       keys_for (keys cfg) (attester_id attester) = Ok candidates /\ key_jwk ∈ candidates /\
       jws_signature_parts X issuer_signed = Ok (input, signature) /\
       verification_key_from_jwk X key_jwk = Ok key /\ artifact_verify X key input signature = true /\
       get_str "alg" header = expected_jose_algorithm X key_jwk /\ get_str "alg" header <> Some "none") /\
    (exists expiry, get_i64 "exp" payload = Some expiry /\ now cfg < expiry + CLOCK_SKEW_SECONDS) /\
    (forall nbf, get_i64 "nbf" payload = Some nbf -> nbf <= now cfg + CLOCK_SKEW_SECONDS) /\
    process_disclosures X payload disclosures = Ok (claims processed) /\
    cnf_jwk payload = Some jwk /\
    exists k, public_key_from_jwk X jwk = Ok k /\ verifier = CurveVerifier X k.
Proof.
  unfold validate_evidence_with_key. destruct (_ <? _)%nat; [done|]. intros H. run_inv.
  match goal with Hs : split_presentation _ = Ok ?p |- _ => destruct p as [issuer_signed disclosures] end. run_inv.
  match goal with Hd : decode_jws_segments _ _ = Ok ?p |- _ => destruct p as [header payload] end. run_inv.
  match goal with Hf : find_attester_for _ _ = Some ?a |- _ =>
    rename a into attester; apply find_attester_for_Some in Hf as [Hatt Hiss] end.
  destruct (existsb _ (proof_types attester)) eqn:Hpt; simpl in *; [|done]. run_inv.
  match goal with Hv : verify_issuer_signature _ _ _ _ _ = _ |- _ => apply verify_issuer_signature_Ok in Hv end.
  match goal with Hv : validate_validity_claims _ _ = _ |- _ => apply validity_Ok in Hv as (Hexp & Hnbf & _) end.
  match goal with Hw : workload_key_from_cnf _ _ = _ |- _ =>
    unfold workload_key_from_cnf, rebuild_workload_key in Hw; run_inv end.
  match goal with Hpk : match public_key_from_jwk X ?j with _ => _ end = _ |- _ =>
    destruct (public_key_from_jwk X j) eqn:Hkey; [simplify_eq|done] end.
  apply existsb_exists in Hpt as (pt & Hpt & Hpt'). bool_to_prop. subst pt.
  eexists _, issuer_signed, disclosures, header, payload, attester. simpl.
  split_and!; try done; [by apply list_elem_of_In|by eauto].
Qed.

(** ** Trust before cryptography *)

(** An issuer the realm never configured is refused with the same words whatever keys anyone
    publishes: no key source is consulted and no signature is checked. *)
Theorem untrusted_issuer_is_refused_first (attesters : list TrustedAttesterConfig) now por
    presentation issuer_signed disclosures header payload issuer :
  (length (evidence por) <= MAX_EVIDENCE_BYTES)%nat ->
  from_utf8 (evidence por) = Some presentation ->
  split_presentation presentation = Ok (issuer_signed, disclosures) ->
  decode_jws_segments X issuer_signed = Ok (header, payload) ->
  get_str "iss" payload = Some issuer -> Forall (fun a => attester_issuer a <> issuer) attesters ->
  forall ks : S, validate_evidence_with_key X (mkSettings attesters ks now) por
    = Err (PorRejected ("issuer `" +:+ issuer +:+ "` is not a trusted attester of this realm")).
Proof.
  intros Hlen Hutf Hsplit Hdec Hiss Hno ks. unfold validate_evidence_with_key.
  rewrite (proj2 (Nat.ltb_ge _ _) Hlen), Hutf. simpl. rewrite Hsplit. simpl. rewrite Hdec. simpl.
  rewrite Hiss. simpl. replace (find_attester_for _ issuer) with (@None TrustedAttesterConfig); [done|].
  symmetry. unfold find_attester_for. simpl. destruct (List.find _ attesters) as [a|] eqn:E; [|done].
  apply find_some in E as [Hin Ha]. bool_to_prop. rewrite Forall_forall in Hno.
  by destruct (Hno a); [apply list_elem_of_In|].
Qed.

(** ** Remembering an answer *)

(** What is remembered was accepted by the full procedure. *)
Definition remembers (cfg : Settings (S := S)) (o : option (Accepted)) : Prop :=
  forall a, o = Some a -> exists v t, validate_evidence_with_key X cfg (mkPor t (accepted_evidence a))
                                      = Ok (v, accepted_processed a, accepted_jwk a).

Lemma evidence_only (cfg : Settings (S := S)) t por :
  validate_evidence_with_key X cfg (mkPor t (evidence por)) = validate_evidence_with_key X cfg por.
Proof. done. Qed.

Lemma verifier_of_jwk (cfg : Settings (S := S)) por v p jwk :
  validate_evidence_with_key X cfg por = Ok (v, p, jwk) -> rebuild_workload_key X jwk = Ok v.
Proof.
  unfold validate_evidence_with_key. destruct (_ <? _)%nat; [done|]. intros H. run_inv.
  match goal with Hs : split_presentation _ = Ok ?p |- _ => destruct p end. run_inv.
  match goal with Hd : decode_jws_segments _ _ = Ok ?p |- _ => destruct p end. run_inv.
  match goal with Hc : (if ?b then Err _ else _) = Ok _ |- _ => destruct b; [done|] end. run_inv.
  match goal with Hw : workload_key_from_cnf _ _ = _ |- _ => unfold workload_key_from_cnf in Hw; run_inv end.
  congruence.
Qed.

Lemma cached_for_Some bytes o a :
  cached_for bytes o = Some a -> o = Some a /\ accepted_evidence a = bytes.
Proof. destruct o as [a'|]; simpl; [|done]. case_bool_decide; naive_solver. Qed.

(** C14: Remembering changes no answer: with what is remembered being genuine, both entry points
    answer exactly as the full procedure does on the evidence at hand, an answer is reused only
    for the same bytes, and what is remembered stays genuine. *)
Theorem remembered_answers_are_the_full_answers (cfg : Settings (S := S)) por o :
  remembers cfg o ->
  let full := validate_evidence_with_key X cfg por in
  fst (validate X cfg por o) = (let? (v, _, _) := full in Ok v) /\
  fst (validate_and_remember X cfg por o) = (let? (_, p, _) := full in Ok p) /\
  remembers cfg (snd (validate X cfg por o)) /\
  remembers cfg (snd (validate_and_remember X cfg por o)).
Proof.
  intros Hr full. unfold validate, validate_and_remember, mbind_st, mget.
  destruct (cached_for (evidence por) o) as [a|] eqn:Hc.
  - apply cached_for_Some in Hc as [-> He]. destruct (Hr a eq_refl) as (v & t & Ha).
    rewrite He, evidence_only in Ha. unfold full. rewrite Ha. simpl. unfold mlift. simpl.
    rewrite (verifier_of_jwk _ _ _ _ _ Ha). split_and!; [done..| |done].
    intros a' [= <-]. exists v, t. by rewrite He, evidence_only.
  - unfold mlift, mmodify, full. destruct (validate_evidence_with_key X cfg por) as [[[v p] jwk]|e] eqn:Ev; simpl.
    + split_and!; [done..| |]; intros a' [= <-]; exists v, "sd-jwt"; simpl; by rewrite evidence_only.
    + done.
Qed.
End Soundness.

(** ** Disclosures *)

Section Disclosures.
Context (X : PorCrates).

(** The claims a sequence of disclosures names. *)
Definition discloses (ds : list string) (named : list (string * Value)) : Prop :=
  Forall2 (fun d nv => decode_disclosure X d = Ok nv) ds named.

Lemma disclose_iff committed used cs ds cs' :
  disclose X committed used cs ds = Ok cs' <->
  exists named, discloses ds named /\ NoDup (map (disclosure_digest X) ds) /\
    (forall d, d ∈ ds -> disclosure_digest X d ∈ committed /\ disclosure_digest X d ∉ used) /\
    NoDup (map fst named) /\ (forall n, n ∈ map fst named -> cs !! n = None) /\
    cs' = list_to_map named ∪ cs.
Proof.
  revert used cs. induction ds as [|d ds IH]; intros used cs; cbn [disclose].
  - split.
    + intros [= <-]. exists []. split_and!; try constructor.
      * by apply not_elem_of_nil in H.
      * by apply not_elem_of_nil in H.
      * intros n Hn. by apply not_elem_of_nil in Hn.
      * simpl. by rewrite (left_id_L ∅ (∪)).
    + intros (named & Hd & _ & _ & _ & _ & ->). inversion Hd. simpl. by rewrite (left_id_L ∅ (∪)).
  - case_bool_decide as Hc; simpl.
    2:{ split; [done|]. intros (named & _ & _ & Hin & _). destruct (Hin d) as [Hx _]; [left|done]. }
    case_bool_decide as Hu; simpl.
    { split; [done|]. intros (named & _ & _ & Hin & _). destruct (Hin d) as [_ Hx]; [left|done]. }
    rewrite bind_result_Ok. split.
    + intros ([n v] & Hdec & H). destruct (cs !! n) eqn:Hn; [done|].
      apply IH in H as (named & Hd & Hnd & Hin & Hnn & Hfree & ->).
      assert (Hnew : n ∉ map fst named).
      { intros Hx. specialize (Hfree n Hx). by rewrite lookup_insert_eq in Hfree. }
      exists ((n, v) :: named). split_and!.
      * by constructor.
      * simpl. constructor; [|done]. intros (d' & Hd' & Hin')%list_elem_of_In%in_map_iff.
        apply list_elem_of_In in Hin'. destruct (Hin d' Hin') as [_ Hx]. rewrite Hd' in Hx.
        apply Hx. left.
      * intros d' [->|Hd']%elem_of_cons; [done|]. destruct (Hin d' Hd') as [? Hx].
        split; [done|]. intros Hy. apply Hx. by right.
      * simpl. by constructor.
      * simpl. intros n' [->|Hn']%elem_of_cons; [done|]. specialize (Hfree n' Hn').
        apply lookup_insert_None in Hfree. tauto.
      * simpl. rewrite <- insert_union_r, insert_union_l; [done|]. by apply not_elem_of_list_to_map.
    + intros (named & Hd & Hnd & Hin & Hnn & Hfree & ->). inversion Hd as [|? [n v] ? named' Hdec Hd']; subst.
      exists (n, v). split; [done|]. rewrite (Hfree n) by left. simpl in Hnd, Hnn.
      apply NoDup_cons in Hnd as [Hdn Hnd], Hnn as [Hnn1 Hnn]. apply IH. exists named'. split_and!; try done.
      * intros d' Hd''. destruct (Hin d') as [? ?]; [by right|]. split; [done|].
        intros [Heq|Hx]%elem_of_cons; [|done]. apply Hdn. rewrite <- Heq.
        apply list_elem_of_In, in_map. by apply list_elem_of_In.
      * intros n' Hn'. rewrite lookup_insert_ne by (intros ->; done). apply Hfree. by right.
      * simpl. rewrite <- insert_union_r, insert_union_l; [done|]. by apply not_elem_of_list_to_map.
Qed.

(** C11: The processed payload is exact: a presentation's disclosures are accepted if and only if
    each is committed in the credential, no digest is presented twice, each decodes to a claim
    that is not reserved, no claim is named twice and none replaces a claim the issuer stated in
    the clear; and then the claims are the ones in the clear and the ones disclosed, nothing
    else: a withheld claim never appears. *)
Theorem processed_claims_are_exact payload ds cs :
  process_disclosures X payload ds = Ok cs <->
  exists named, discloses ds named /\ NoDup (map (disclosure_digest X) ds) /\
    (forall d, d ∈ ds -> disclosure_digest X d ∈ committed_digests payload) /\
    NoDup (map fst named) /\ (forall n, n ∈ map fst named -> always_disclosed payload !! n = None) /\
    cs = list_to_map named ∪ always_disclosed payload.
Proof.
  unfold process_disclosures. rewrite disclose_iff. split; intros (named & H1 & H2 & H3 & H4 & H5 & H6);
    exists named; split_and!; try done; intros d Hd.
  - by apply H3.
  - split; [by apply H3|apply not_elem_of_nil].
Qed.
End Disclosures.

(** ** DER *)

(** The number a sequence of bytes denotes, most significant first. *)
Definition be_value (bs : list byte) : Z := foldl (fun a b => a * 256 + u8 b) 0 bs.

(** A DER reader: the length of a value, then tag, contents and what follows. *)
Definition read_length (bs : list byte) : option (Z * list byte) :=
  match bs with
  | [] => None
  | b :: r =>
    if u8 b <? 128 then Some (u8 b, r)
    else let k := Z.to_nat (u8 b - 128) in
         if (length r <? k)%nat then None else Some (be_value (take k r), drop k r)
  end.

Definition read_der (bs : list byte) : option (byte * list byte * list byte) :=
  match bs with
  | [] => None
  | tag :: r =>
    '(n, r) ← read_length r;
    if Z.of_nat (length r) <? n then None
    else Some (tag, take (Z.to_nat n) r, drop (Z.to_nat n) r)
  end.

Lemma foldl_be a bs : foldl (fun a b => a * 256 + u8 b) a bs = a * 256 ^ Z.of_nat (length bs) + be_value bs.
Proof.
  unfold be_value. revert a. induction bs as [|b bs IH]; intros a; [simpl; lia|].
  cbn [foldl length]. rewrite IH, (IH (0 * 256 + u8 b)), Nat2Z.inj_succ, Z.pow_succ_r by lia. ring.
Qed.

Lemma be_value_cons b bs : be_value (b :: bs) = u8 b * 256 ^ Z.of_nat (length bs) + be_value bs.
Proof. unfold be_value at 1. cbn [foldl]. rewrite foldl_be. ring. Qed.

Lemma be_value_strip bs : be_value (strip_zeroes bs) = be_value bs.
Proof.
  unfold strip_zeroes. induction bs as [|b bs IH]; [done|]. simpl.
  case_bool_decide as H; [|done]. rewrite IH, be_value_cons, H. change (u8 x00) with 0. lia.
Qed.

Fixpoint be_bytes (k : nat) (n : Z) : list byte :=
  match k with O => [] | S k' => byte_of_Z (Z.shiftr n (8 * Z.of_nat k')) :: be_bytes k' n end.

Lemma be_bytes_length k n : length (be_bytes k n) = k.
Proof. induction k; simpl; lia. Qed.

Lemma be_bytes_value k n : be_value (be_bytes k n) = n mod 256 ^ Z.of_nat k.
Proof.
  induction k as [|k IH]; [by rewrite Z.mod_1_r|]. cbn [be_bytes].
  rewrite be_value_cons, IH, be_bytes_length, u8_byte_of_Z, Z.shiftr_div_pow2 by lia.
  rewrite Z.pow_mul_r by lia. change (2 ^ 8) with 256.
  rewrite Nat2Z.inj_succ, Z.pow_succ_r, (Z.mul_comm 256), Z.rem_mul_r by lia. lia.
Qed.

Lemma to_be_bytes_value n : 0 <= n < 2 ^ 64 -> be_value (to_be_bytes n) = n.
Proof.
  intros Hn. change (to_be_bytes n) with (be_bytes 8 n). rewrite be_bytes_value.
  apply Z.mod_small. exact Hn.
Qed.

Lemma strip_zeroes_length bs : (length (strip_zeroes bs) <= length bs)%nat.
Proof. unfold strip_zeroes. induction bs as [|b bs IH]; simpl; [lia|]. case_bool_decide; simpl; lia. Qed.

Lemma read_der_length n rest : 0 <= n < 2 ^ 64 -> read_length (der_length n ++ rest) = Some (n, rest).
Proof.
  intros Hn. unfold der_length. destruct (n <? 128) eqn:E; bool_to_prop.
  - simpl. rewrite u8_byte_of_Z, Z.mod_small by lia. by rewrite (proj2 (Z.ltb_lt _ _) E).
  - pose proof (be_value_strip (to_be_bytes n)) as Hv. rewrite to_be_bytes_value in Hv by done.
    pose proof (strip_zeroes_length (to_be_bytes n)) as Hlen.
    destruct (strip_zeroes (to_be_bytes n)) as [|b s] eqn:Es; [change (be_value []) with 0 in Hv; lia|].
    change (length (to_be_bytes n)) with 8%nat in Hlen.
    assert (Hk : u8 (byte_of_Z (Z.lor 128 (Z.of_nat (length (b :: s))))) = 128 + Z.of_nat (length (b :: s))).
    { rewrite u8_byte_of_Z. generalize (length (b :: s)) Hlen. intros m Hm.
      do 9 (destruct m as [|m]; [reflexivity|]). lia. }
    change ((byte_of_Z (Z.lor 128 (Z.of_nat (length (b :: s)))) :: b :: s) ++ rest)
      with (byte_of_Z (Z.lor 128 (Z.of_nat (length (b :: s)))) :: ((b :: s) ++ rest)).
    unfold read_length. rewrite Hk, (proj2 (Z.ltb_ge _ _)) by lia.
    replace (Z.to_nat (128 + Z.of_nat (length (b :: s)) - 128)) with (length (b :: s)) by lia.
    rewrite (proj2 (Nat.ltb_ge _ _)) by (rewrite length_app; lia).
    by rewrite take_app_length, drop_app_length, Hv.
Qed.

Lemma read_der_value tag content rest :
  Z.of_nat (length content) < 2 ^ 64 ->
  read_der (tag :: der_length (Z.of_nat (length content)) ++ content ++ rest) = Some (tag, content, rest).
Proof.
  intros Hl. unfold read_der. rewrite read_der_length by lia. simpl.
  rewrite (proj2 (Z.ltb_ge _ _)) by (rewrite length_app; lia).
  by rewrite Nat2Z.id, take_app_length, drop_app_length.
Qed.

(** The contents of a DER integer. *)
Definition integer_content (value : list byte) : list byte :=
  (match strip_zeroes value with b :: _ => if high_bit b then [x00] else [] | [] => [] end) ++ strip_zeroes value.

Lemma integer_content_value v : be_value (integer_content v) = be_value v.
Proof.
  unfold integer_content. rewrite <- (be_value_strip v). destruct (strip_zeroes v) as [|b s]; [done|].
  destruct (high_bit b); [|done]. cbn [app]. rewrite (be_value_cons x00). change (u8 x00) with 0. lia.
Qed.

Lemma high_bit_spec b : high_bit b = (128 <=? u8 b).
Proof. destruct b; reflexivity. Qed.

Lemma strip_zeroes_head v b s : strip_zeroes v = b :: s -> b <> x00.
Proof.
  unfold strip_zeroes. induction v as [|x v IH]; simpl; [done|]. case_bool_decide; [auto|]. naive_solver.
Qed.

(** Positive in two's complement and without a superfluous leading zero. *)
Definition canonical_integer (content : list byte) : Prop :=
  match content with
  | [] => False
  | [b] => u8 b < 128
  | b :: c :: _ => u8 b < 128 /\ (b = x00 -> 128 <= u8 c)
  end.

Lemma integer_content_canonical v : 0 < be_value v -> canonical_integer (integer_content v).
Proof.
  intros Hv. rewrite <- be_value_strip in Hv. unfold integer_content.
  destruct (strip_zeroes v) as [|b s] eqn:E; [change (be_value []) with 0 in Hv; lia|].
  pose proof (strip_zeroes_head _ _ _ E) as Hne. rewrite high_bit_spec.
  destruct (128 <=? u8 b) eqn:Hb; bool_to_prop; simpl.
  - split; [reflexivity|lia].
  - destruct s as [|c s]; simpl; [done|]. split; [done|]. by intros ->.
Qed.

(** RSA keys survive their re-encoding: the DER a JWK's modulus and exponent are turned into
    reads back as one sequence of exactly two integers, of the same values, each positive and in
    the shortest form. *)
Theorem rsa_der_reads_back modulus exponent :
  0 < be_value modulus -> 0 < be_value exponent ->
  Z.of_nat (length modulus) < 2 ^ 32 -> Z.of_nat (length exponent) < 2 ^ 32 ->
  exists body rest m e,
    read_der (der_rsa_public_key modulus exponent) = Some (x30, body, []) /\
    read_der body = Some (x02, m, rest) /\ read_der rest = Some (x02, e, []) /\
    be_value m = be_value modulus /\ be_value e = be_value exponent /\
    canonical_integer m /\ canonical_integer e.
Proof.
  intros Hm He Hlm Hle.
  assert (Hlen : forall v, (length (integer_content v) <= 1 + length v)%nat).
  { intros v. unfold integer_content. rewrite length_app. pose proof (strip_zeroes_length v).
    destruct (strip_zeroes v) as [|b s]; [simpl in *; lia|]. destruct (high_bit b); simpl in *; lia. }
  assert (Hder : forall v, Z.of_nat (length v) < 2 ^ 32 -> (length (der_integer v) <= 16 + length v)%nat).
  { intros v Hv. unfold der_integer. fold (integer_content v). cbn [length]. rewrite length_app.
    specialize (Hlen v). assert (Hl : (length (der_length (Z.of_nat (length (integer_content v)))) <= 10)%nat).
    { unfold der_length. destruct (_ <? 128); [simpl; lia|]. cbn [length].
      pose proof (strip_zeroes_length (to_be_bytes (Z.of_nat (length (integer_content v))))) as Hs.
      change (length (to_be_bytes _)) with 8%nat in Hs. destruct (strip_zeroes _); cbn [length] in *; [|lia].
      rewrite length_drop. change (length (to_be_bytes _)) with 8%nat. lia. }
    lia. }
  pose proof (Hder modulus Hlm). pose proof (Hder exponent Hle).
  exists (der_integer modulus ++ der_integer exponent), (der_integer exponent),
    (integer_content modulus), (integer_content exponent). split_and!.
  - unfold der_rsa_public_key. rewrite <- (app_nil_r (der_integer modulus ++ der_integer exponent)) at 2.
    apply read_der_value. rewrite length_app. lia.
  - unfold der_integer at 1. cbn [app]. rewrite <- app_assoc. apply read_der_value.
    pose proof (Hlen modulus). unfold integer_content in *. lia.
  - unfold der_integer. rewrite <- (app_nil_r (_ ++ strip_zeroes exponent)) at 2. apply read_der_value.
    pose proof (Hlen exponent). unfold integer_content in *. lia.
  - apply integer_content_value.
  - apply integer_content_value.
  - by apply integer_content_canonical.
  - by apply integer_content_canonical.
Qed.

(** Two moduli a key may have: with and without the high bit, and with leading zeroes. *)
Lemma rsa_der_reads_back_witness :
  exists body rest m e,
    read_der (der_rsa_public_key [x00; xc5; x01] [x01; x00; x01]) = Some (x30, body, []) /\
    read_der body = Some (x02, m, rest) /\ read_der rest = Some (x02, e, []) /\
    be_value m = 50433 /\ be_value e = 65537 /\ canonical_integer m /\ canonical_integer e.
Proof. apply (rsa_der_reads_back [x00; xc5; x01] [x01; x00; x01]); reflexivity. Defined.

(** ** A small instance *)

Module ToyPor.
(** Three documents: a header, a payload that commits to one disclosure, and that disclosure. *)
Definition header : Value := Obj [("alg", Str "EdDSA"); ("kid", Str "k1")].
Definition workload : Value := Obj [("kty", Str "OKP"); ("x", Str "w")].
Definition payload : Value :=
  Obj [("iss", Str "https://attester"); ("exp", Num (PosInt 1000)); ("_sd", Arr [Str "d"]);
       ("cnf", Obj [("jwk", workload)]); ("tier", Str "gold")].
Definition disclosure : Value := Arr [Str "salt"; Str "role"; Str "executor"].

Definition parse (bs : list byte) : option Value :=
  if bool_decide (bs = bytes_of "h") then Some header
  else if bool_decide (bs = bytes_of "p") then Some payload
  else if bool_decide (bs = bytes_of "d") then Some disclosure
  else None.

(** A scheme whose signature over a message under a key is the key's name. *)
Definition crates : PorCrates :=
  mkPorCrates parse string_of (fun s => Some (bytes_of s)) (fun bs => bs) string
    (fun jwk => ok_or (get_str "x" jwk) "no `x`") (fun _ => Some "EdDSA")
    (fun k _ signature => bool_decide (bytes_of k = signature)) (fun _ _ _ => false).

#[global] Instance published : AttesterKeySource (list Value) := fun ks _ => Ok ks.

Definition attester : TrustedAttesterConfig := mkAttester "a1" "https://attester" "https://attester/jwks" ["sd-jwt"] [].
Definition key : Value := Obj [("kty", Str "OKP"); ("kid", Str "k1"); ("x", Str "s")].
Definition settings : Settings (S := list Value) := mkSettings [attester] [key] 500.
Definition presented : ProofOfRelationship := mkPor "sd-jwt" (bytes_of "h.p.s~d~").
Definition profile : ProcessedProfileEvidence :=
  mkProcessed "a1" "https://attester"
    (list_to_map [("role", Str "executor"); ("iss", Str "https://attester"); ("exp", Num (PosInt 1000));
                  ("cnf", Obj [("jwk", workload)]); ("tier", Str "gold")]).

Lemma presented_is_accepted :
  validate_evidence_with_key crates settings presented = Ok (CurveVerifier crates "w", profile, workload).
Proof. vm_compute. reflexivity. Qed.
End ToyPor.

Lemma accepted_evidence_is_genuine_witness :
  exists presentation issuer_signed disclosures header payload attester,
    from_utf8 (evidence ToyPor.presented) = Some presentation /\
    split_presentation presentation = Ok (issuer_signed, disclosures) /\
    decode_jws_segments ToyPor.crates issuer_signed = Ok (header, payload) /\
    attester ∈ attesters ToyPor.settings /\ "sd-jwt" ∈ proof_types attester /\
    get_str "iss" payload = Some (attester_issuer attester).
Proof.
  destruct (accepted_evidence_is_genuine ToyPor.crates _ _ _ _ _ ToyPor.presented_is_accepted)
    as (p & i & d & h & pl & a & H).
  exists p, i, d, h, pl, a. destruct H as (H1 & H2 & H3 & H4 & H5 & H6 & _).
  exact (conj H1 (conj H2 (conj H3 (conj H4 (conj H5 H6))))).
Defined.

Lemma untrusted_issuer_is_refused_first_witness :
  validate_evidence_with_key ToyPor.crates (mkSettings [] [ToyPor.key] 500) ToyPor.presented
  = Err (PorRejected "issuer `https://attester` is not a trusted attester of this realm").
Proof.
  apply (untrusted_issuer_is_refused_first ToyPor.crates [] 500 ToyPor.presented "h.p.s~d~" "h.p.s" ["d"]
           ToyPor.header ToyPor.payload "https://attester").
  - apply Nat.ltb_ge. vm_compute. reflexivity.
  - reflexivity.
  - reflexivity.
  - vm_compute. reflexivity.
  - reflexivity.
  - constructor.
Defined.

Lemma remembered_answers_are_the_full_answers_witness :
  fst (validate ToyPor.crates ToyPor.settings ToyPor.presented
         (Some (mkAccepted (evidence ToyPor.presented) ToyPor.workload ToyPor.profile)))
  = Ok (CurveVerifier ToyPor.crates "w").
Proof.
  pose proof (remembered_answers_are_the_full_answers ToyPor.crates ToyPor.settings ToyPor.presented
    (Some (mkAccepted (evidence ToyPor.presented) ToyPor.workload ToyPor.profile))) as H.
  destruct H as [H _].
  - intros a [= <-]. eexists _, "sd-jwt". exact ToyPor.presented_is_accepted.
  - rewrite H, ToyPor.presented_is_accepted. reflexivity.
Defined.
