(* ===== verification/Conformance.v ===== *)
(** * Execution-contract conformance ([crates/pic-x-realm/src/conformance.rs])

    What an accepted presentation disclosed, matched against the execution contract of the
    checkpoint a candidate advances. The indexed authority of a checkpoint belongs to the
    protocol crate; this code reads one thing of it, the entries of its execution contract. *)
From S2P Require Import Prelude Rust Json KeyCache Por.
Local Open Scope Z_scope.
Local Open Scope rust_scope.

Definition COLON : byte := x3a.

(** An entry of a contract: a text to match, or the membership its key names. *)
Inductive TupleValue :=
| Text (required : string)
| Membership (mark : bool).

Definition Contract : Type := list (string * TupleValue).

Inductive Mismatch :=
| Missing (key required : string)
| Contradicts (key required disclosed : string)
| SaysNothing.

Definition is_text (text : string) (v : Value) : bool := bool_decide (as_str v = Some text).

Definition matches_text (disclosed : Value) (required : string) : bool :=
  match disclosed with
  | Str value => bool_decide (value = required)
  | Arr values => existsb (is_text required) values
  | _ => false
  end.

Definition contains_member (disclosed : Value) (m : string) : bool :=
  match disclosed with
  | Str value => bool_decide (value = m)
  | Arr values => existsb (is_text m) values
  | _ => false
  end.

Section Conformance.
(** [serde_json]'s rendering of a value. *)
Context (to_json : Value -> string).

Definition render (v : Value) : string := match v with Str text => text | other => to_json other end.

Definition check_entry (claims : gmap string Value) (key : string) (value : TupleValue) : result unit Mismatch :=
  match value with
  | Text required =>
    let? disclosed := ok_or (claims !! key) (Missing key required) in
    if negb (matches_text disclosed required) then Err (Contradicts key required (render disclosed)) else Ok tt
  | Membership _ =>
    match split_once COLON key with
    | None => Err (Missing key "membership")
    | Some (name, m) =>
      let? disclosed := ok_or (claims !! name) (Missing name m) in
      if negb (contains_member disclosed m) then Err (Contradicts name m (render disclosed)) else Ok tt
    end
  end.

Fixpoint check (claims : gmap string Value) (contract : Contract) : result unit Mismatch :=
  match contract with
  | [] => Ok tt
  | (key, value) :: r => let? _ := check_entry claims key value in check claims r
  end.

(** [ContractConformance::reason] and the settlement policy made of it. *)
Definition reason (accepted : option Accepted) (contract : Contract) : result unit Mismatch :=
  match accepted with
  | None => Err SaysNothing
  | Some a => check (claims (accepted_processed a)) contract
  end.

Definition conformance (accepted : option Accepted) (contract : Contract) : bool :=
  is_ok (reason accepted contract).

Definition request_binding : bool := true.

Definition mismatch_display (m : Mismatch) : string :=
  match m with
  | Missing key required =>
    "the execution contract requires `" +:+ key +:+ "` = `" +:+ required
    +:+ "`, but the executor-profile evidence did not disclose `" +:+ key +:+ "`"
  | Contradicts key required disclosed =>
    "the execution contract requires `" +:+ key +:+ "` = `" +:+ required
    +:+ "`, the executor-profile evidence disclosed `" +:+ disclosed +:+ "`"
  | SaysNothing => "the executor-profile evidence discloses nothing the execution contract constrains"
  end.

(** ** The specification *)

(** A claim says a text: it is that text, or a collection with it. *)
Definition says (v : Value) (text : string) : Prop :=
  v = Str text \/ exists vs, v = Arr vs /\ Str text ∈ vs.

Definition satisfied (cs : gmap string Value) (e : string * TupleValue) : Prop :=
  match snd e with
  | Text required => exists v, cs !! fst e = Some v /\ says v required
  | Membership _ => exists name m v, split_once COLON (fst e) = Some (name, m) /\ cs !! name = Some v /\ says v m
  end.

Lemma existsb_is_text text vs : existsb (is_text text) vs = true <-> Str text ∈ vs.
Proof.
  rewrite existsb_exists. split.
  - intros (v & Hin & Hv). unfold is_text in Hv. bool_to_prop. destruct v; simplify_eq/=.
    by apply list_elem_of_In.
  - intros H. exists (Str text). split; [by apply list_elem_of_In|]. by apply bool_decide_eq_true_2.
Qed.

Lemma matches_text_says v text : matches_text v text = true <-> says v text.
Proof.
  unfold says. destruct v; simpl; try (split; [done|naive_solver]).
  - rewrite bool_decide_eq_true. naive_solver.
  - rewrite existsb_is_text. naive_solver.
Qed.

Lemma contains_member_says v m : contains_member v m = true <-> says v m.
Proof. apply (matches_text_says v m). Qed.

Lemma check_entry_Ok cs k tv : check_entry cs k tv = Ok tt <-> satisfied cs (k, tv).
Proof.
  unfold satisfied. destruct tv as [required|b]; simpl.
  - destruct (cs !! k) as [v|]; simpl; [|split; [done|naive_solver]].
    destruct (matches_text v required) eqn:E; simpl.
    + apply matches_text_says in E. naive_solver.
    + split; [done|]. intros (v' & [= <-] & Hs). apply matches_text_says in Hs. congruence.
  - destruct (split_once COLON k) as [[name m]|]; simpl; [|split; [done|naive_solver]].
    destruct (cs !! name) as [v|] eqn:Hn; simpl; [|split; [done|]; naive_solver].
    destruct (contains_member v m) eqn:E; simpl.
    + apply contains_member_says in E. naive_solver.
    + split; [done|]. intros (n' & m' & v' & [= <- <-] & Hv' & Hs).
      assert (v' = v) as -> by congruence. apply contains_member_says in Hs. congruence.
Qed.

Lemma check_Ok cs contract : check cs contract = Ok tt <-> Forall (satisfied cs) contract.
Proof.
  induction contract as [|[k v] r IH]; simpl; [done|]. rewrite Forall_cons, <- IH, <- check_entry_Ok.
  destruct (check_entry cs k v) as [[]|]; simpl; naive_solver.
Qed.

Lemma check_Err cs contract m :
  check cs contract = Err m ->
  exists before k v after, contract = before ++ (k, v) :: after /\
    Forall (satisfied cs) before /\ check_entry cs k v = Err m.
Proof.
  induction contract as [|[k v] r IH]; simpl; [done|].
  destruct (check_entry cs k v) as [[]|e] eqn:E; simpl.
  - intros H. destruct (IH H) as (b & k' & v' & a & -> & Hb & He). apply check_entry_Ok in E.
    exists ((k, v) :: b), k', v', a. split_and!; [done|by constructor|done].
  - intros [= <-]. exists [], k, v, r. split_and!; [done|constructor|done].
Qed.

(** C12: The whole contract is proven or nothing is: a transition conforms if and only if a
    presentation was accepted and it discloses, for every entry of the checkpoint's contract, a
    claim that says what the entry requires; and a refusal names the first entry that is not
    satisfied. *)
Theorem conformance_is_the_whole_contract accepted contract :
  (conformance accepted contract = true <->
   exists a, accepted = Some a /\ Forall (satisfied (claims (accepted_processed a))) contract) /\
  (forall a, accepted = Some a ->
   forall m, reason accepted contract = Err m <->
     exists before k v after, contract = before ++ (k, v) :: after /\
       Forall (satisfied (claims (accepted_processed a))) before /\
       check_entry (claims (accepted_processed a)) k v = Err m).
Proof.
  unfold conformance, reason. split.
  - destruct accepted as [a|]; simpl; [|naive_solver].
    pose proof (check_Ok (claims (accepted_processed a)) contract) as Hc.
    destruct (check _ contract) as [[]|e]; simpl; naive_solver.
  - intros a -> m. split; [apply check_Err|].
    intros (b & k & v & af & -> & Hb & He). induction Hb as [|[k' v'] b Hs _ IH]; simpl.
    + by rewrite He.
    + apply check_entry_Ok in Hs. by rewrite Hs.
Qed.
End Conformance.

(** A contract of two entries against a presentation that discloses both. *)
Lemma conformance_is_the_whole_contract_witness :
  let a := mkAccepted [] Null (mkProcessed "a1" "i"
             (<["corporation" := Str "acme"]> (<["groups" := Arr [Str "audit"; Str "legal"]]> ∅))) in
  let contract := [("corporation", Text "acme"); ("groups:legal", Membership true)] in
  conformance (fun _ => "") (Some a) contract = true.
Proof.
  intros a contract. apply (conformance_is_the_whole_contract (fun _ => "") (Some a) contract).
  exists a. split; [done|]. apply (check_Ok (fun _ => "")). vm_compute. reflexivity.
Defined.
