(* ===== verification/RealmKeys.v ===== *)
(** * What a realm does with its token ring
    ([crates/pic-x-realm/src/checkpoints.rs], [RealmTokenSigner] of [exchange.rs])

    A realm signs its artifacts through a [KeyManager] and recognises its own checkpoints by
    their signature, against the keys the same manager publishes. Both are written against the
    interface; the directory ring discharges it. The COSE envelope is the protocol crate's: it
    has a key name, and it hands its signed bytes and its signature to a verifier. *)
From S2P Require Import Prelude Rust Errors Encoding Keys KeyRing KeyLifecycle Json Por.
Local Open Scope Z_scope.
Local Open Scope rust_scope.

(** The algorithms a COSE artifact may be signed with. *)
Inductive SigningAlgorithm := EdDSA | ES256 | ES384.

#[global] Instance signing_algorithm_eq_dec : EqDecision SigningAlgorithm.
Proof. solve_decision. Defined.

Definition algorithm_display (a : SigningAlgorithm) : string :=
  match a with EdDSA => "EdDSA" | ES256 => "ES256" | ES384 => "ES384" end.

(** The errors the signer reports to the protocol crate. *)
Inductive CoseError :=
| InvalidKey (detail : string)
| AlgorithmMismatch (expected got : string).

(** What the checks below ask of a signed artifact. *)
Record Cose := mkCose { cose_kid : option string; verify_with : (list byte -> list byte -> bool) -> bool }.

Section Realm.
Context {K : Type} `{!KeyManager K}.

(** ** Signing *)

Record RealmTokenSigner := mkSigner {
  signer_kid : string; signer_algorithm : SigningAlgorithm; signer_jose : string }.

(** Why there is no signer: the build cannot produce the algorithm, or the ring has no key. *)
Inductive SignerError :=
| CannotProduce (algorithm : string)
| RingNotReady (error : KeyError).

Definition signer_new (keys : K) (jose : string) : result RealmTokenSigner SignerError :=
  let? algorithm :=
    (if bool_decide (jose = "EdDSA") then Ok EdDSA
     else if bool_decide (jose = "ES256") then Ok ES256
     else Err (CannotProduce jose)) in
  let? kid := map_err RingNotReady (active_key_id keys) in
  Ok (mkSigner kid algorithm jose).

Definition signer_sign (s : RealmTokenSigner) (data : list byte) : M K CoseError (list byte) :=
  let! signature := (fun k => let '(r, k') := key_sign data k in
                              (map_err (fun e => InvalidKey (show_key_error e)) r, k')) in
  if negb (bool_decide (signature_algorithm signature = signer_jose s))
  then mfail (AlgorithmMismatch (signer_jose s) (signature_algorithm signature))
  else if negb (bool_decide (signature_key_id signature = signer_kid s))
  then mfail (InvalidKey "active signing key changed while signing")
  else mret (signature_bytes signature).

(** ** Recognising a checkpoint *)

Context (X : PorCrates) (pca_from_bytes : list byte -> option Cose).

Definition or_null (o : option string) : Value := match o with Some s => Str s | None => Null end.

Definition checkpoint_jwk (jwk : Jwk) : Value :=
  Obj [("kty", Str (jwk_kty jwk)); ("crv", or_null (jwk_crv jwk));
       ("x", Str (jwk_x jwk)); ("y", or_null (jwk_y jwk))].

(** Whether a published key accepts a signature. *)
Definition accepts (jwk : Jwk) (data signature : list byte) : bool :=
  match public_key_from_jwk X (checkpoint_jwk jwk) with
  | Ok key => public_key_verify X key data signature
  | Err _ => false
  end.

Definition verifies (cose : Cose) (jwk : Jwk) : bool :=
  match public_key_from_jwk X (checkpoint_jwk jwk) with
  | Err _ => false
  | Ok key => verify_with cose (fun data signature => public_key_verify X key data signature)
  end.

Definition is_current_checkpoint (keys : K) (exact_pca_bytes : list byte) : bool :=
  match pca_from_bytes exact_pca_bytes with
  | None => false
  | Some cose =>
    match public_keys keys with
    | Err _ => false
    | Ok published =>
      existsb (verifies cose)
        (List.filter (fun jwk => match cose_kid cose with
                                 | None => true
                                 | Some kid => bool_decide (jwk_kid jwk = kid)
                                 end) published)
    end
  end.

Definition is_revoked (exact_pca_bytes : list byte) : bool := false.
End Realm.

(** ** The contract between a manager and what verifies its signatures *)

(** Every signature of a manager in a good state is accepted by a key of its name that the
    manager publishes. *)
Class PublishesWhatItSigns (K : Type) `{!KeyManager K} (good : K -> Prop)
    (accept : Jwk -> list byte -> list byte -> bool) : Prop :=
  published_accepts : forall k data sig k',
    good k -> key_sign data k = (Ok sig, k') ->
    exists jwks jwk, public_keys k = Ok jwks /\ jwk ∈ jwks /\ jwk_kid jwk = signature_key_id sig /\
      accept jwk data (signature_bytes sig) = true.

(** The directory ring keeps the contract, for any verifier that accepts the signatures of a
    pair under the published form of its public half. *)
Lemma directory_publishes_what_it_signs (C : RingCrate) (cfg : Keys.Settings) accept :
  (forall e kp data sig, pair_algorithm C kp = algorithm e -> public_key e = base64url (pair_public_key C kp) ->
     signature_of C kp data sig -> accept (to_jwk e) data sig = true) ->
  PublishesWhatItSigns (KeyManager0 := directory_key_manager C cfg) (Manager C) (sound C cfg) accept.
Proof.
  intros Hacc m data sig m' Hs H.
  destruct (directory_sign_pair _ _ _ _ _ _ Hs H) as (ring & e & kp & Hr & He & Hk & _ & Hpa & Hp & Hsig).
  destruct (published_jwk C cfg m ring e Hr He) as (jwks & Hj & Hin).
  exists jwks, (to_jwk e). split_and!; [done|done| |by eapply Hacc].
  rewrite Hk. unfold to_jwk. destruct (algorithm e); [done|]. by destruct (split_p256_point _).
Qed.

Section Recognition.
Context {K : Type} `{!KeyManager K} (X : PorCrates) (pca_from_bytes : list byte -> option Cose)
  (good : K -> Prop) `{!PublishesWhatItSigns K good (accepts X)}.

Lemma signer_sign_Ok s data (k : K) bytes k' :
  signer_sign s data k = (Ok bytes, k') ->
  exists sig, key_sign data k = (Ok sig, k') /\ signature_key_id sig = signer_kid s /\
    signature_algorithm sig = signer_jose s /\ bytes = signature_bytes sig.
Proof.
  unfold signer_sign. intros H. run_inv. destruct (key_sign data k) as [[sig|e] k1] eqn:E; simplify_eq/=.
  case_bool_decide; simpl in *; [|by unfold mfail in *]. case_bool_decide; simpl in *; [|by unfold mfail in *].
  run_inv. eauto 6.
Qed.

Lemma verifies_accepts cose jwk data signature :
  (forall f, verify_with cose f = f data signature) ->
  verifies X cose jwk = accepts X jwk data signature.
Proof. intros H. unfold verifies, accepts. destruct (public_key_from_jwk _ _); [by rewrite H|done]. Qed.

(** A realm knows its own checkpoints, and no others: whatever is accepted carries a signature
    that a key published now verifies, of the name the envelope gives when it gives one; and
    whatever the realm signed, under the key its signer was made with, is accepted by any
    manager (a restarted one, another replica) that still publishes that key. *)
Theorem realm_recognises_its_own_checkpoints :
  (forall (now : K) exact, is_current_checkpoint X pca_from_bytes now exact = true ->
     exists cose jwks jwk, pca_from_bytes exact = Some cose /\ public_keys now = Ok jwks /\ jwk ∈ jwks /\
       verifies X cose jwk = true /\ forall kid, cose_kid cose = Some kid -> jwk_kid jwk = kid) /\
  (forall (then_ now : K) jose s data signature then_' exact cose jwks,
     good then_ -> signer_new then_ jose = Ok s -> signer_sign s data then_ = (Ok signature, then_') ->
     pca_from_bytes exact = Some cose -> cose_kid cose = Some (signer_kid s) ->
     (forall f, verify_with cose f = f data signature) ->
     public_keys now = Ok jwks ->
     (forall before jwk, public_keys then_ = Ok before -> jwk ∈ before ->
        jwk_kid jwk = signer_kid s -> jwk ∈ jwks) ->
     is_current_checkpoint X pca_from_bytes now exact = true).
Proof.
  unfold is_current_checkpoint. split.
  - intros now exact. destruct (pca_from_bytes exact) as [cose|]; [|done].
    destruct (public_keys now) as [jwks|]; [|done]. intros (jwk & Hin & Hv)%existsb_exists.
    apply filter_In in Hin as [Hin Hk]. exists cose, jwks, jwk. rewrite list_elem_of_In.
    split_and!; try done. intros kid Hkid. rewrite Hkid in Hk. by bool_to_prop.
  - intros then_ now jose s data signature then_' exact cose jwks Hg _ Hsign -> Hkid Hvw -> Hstill.
    apply signer_sign_Ok in Hsign as (sig & Hs & Hsk & _ & ->).
    destruct (published_accepts _ _ _ _ Hg Hs) as (before & jwk & Hb & Hin & Hj & Ha).
    apply existsb_exists. exists jwk. split.
    + apply filter_In. rewrite <- list_elem_of_In, Hkid, bool_decide_eq_true. split; [|congruence].
      eapply Hstill; [done|done|congruence].
    + by erewrite verifies_accepts.
Qed.
End Recognition.

(** ** A realm on a directory ring *)

Module ToyRealm.
Import ToyKeys.

(** A verifier that recognises a signature by the message it ends with. *)
Definition ends_in (data signature : list byte) : bool :=
  bool_decide (drop (length signature - length data) signature = data).

Definition verifier : PorCrates :=
  mkPorCrates (fun _ => None) string_of (fun s => Some (bytes_of s)) (fun bs => bs) unit
    (fun _ => Ok tt) (fun _ => None) (fun _ data signature => ends_in data signature) (fun _ _ _ => false).

#[global] Instance ring : KeyManager (Manager crate) := directory_key_manager crate (settings Ed25519).

#[global] Instance ring_publishes : PublishesWhatItSigns (Manager crate) (sound crate (settings Ed25519)) (accepts verifier).
Proof.
  apply directory_publishes_what_it_signs. intros e kp data sig _ _ Hs. unfold accepts. simpl.
  apply bool_decide_eq_true_2. assert (exists p, sig = p ++ data) as [p ->].
  { destruct kp as [kp|kp]; simpl in Hs; [by exists kp|]. destruct Hs as [n Hs]. exists kp. by injection Hs as <-. }
  rewrite length_app. replace (length p + length data - length data)%nat with (length p) by lia.
  apply drop_app_length.
Qed.

Lemma published_is (m : Manager crate) before :
  holds_ring m = true -> public_keys m = Ok before -> before = jwks_of m.
Proof. intros Hm Hb. pose proof (public_keys_of (settings Ed25519) m Hm) as H. cbn in Hb. congruence. Qed.

Definition realm_signer : RealmTokenSigner :=
  match signer_new busy "EdDSA" with Ok s => s | Err _ => mkSigner "" EdDSA "" end.
Definition a_signature : list byte :=
  match fst (signer_sign realm_signer [x01] busy) with Ok s => s | Err _ => [] end.
Definition envelope : Cose := mkCose (Some (signer_kid realm_signer)) (fun f => f [x01] a_signature).
End ToyRealm.

Lemma realm_recognises_its_own_checkpoints_witness :
  is_current_checkpoint ToyRealm.verifier (fun _ => Some ToyRealm.envelope) ToyKeys.busy [] = true.
Proof.
  apply (proj2 (realm_recognises_its_own_checkpoints ToyRealm.verifier (fun _ => Some ToyRealm.envelope)
                  (sound ToyKeys.crate (ToyKeys.settings Ed25519)))
           ToyKeys.busy ToyKeys.busy "EdDSA" ToyRealm.realm_signer [x01] ToyRealm.a_signature
           (snd (signer_sign ToyRealm.realm_signer [x01] ToyKeys.busy)) [] ToyRealm.envelope
           (ToyKeys.jwks_of ToyKeys.busy)).
  - apply ToyKeys.busy_sound.
  - vm_compute. reflexivity.
  - apply (run_is (signer_sign ToyRealm.realm_signer [x01] ToyKeys.busy)). vm_compute. reflexivity.
  - reflexivity.
  - reflexivity.
  - reflexivity.
  - apply ToyKeys.public_keys_of. vm_compute. reflexivity.
  - intros before jwk Hb Hin _.
    rewrite <- (ToyRealm.published_is ToyKeys.busy before ltac:(vm_compute; reflexivity) Hb). exact Hin.
Defined.
