(* ===== verification/ExchangeMap.v ===== *)
(** * The exchange: reading a request and mapping a source token
    ([crates/pic-x-realm/src/exchange.rs], the profile types of [crates/pic-x-core/src/realm.rs])

    The request form, the claims of a source token, the rules that turn its scopes into
    invariants, and the expiry of what is issued. Regular expressions are a parameter, and so
    is the order in which the protocol crate keeps a set of invariants. *)
From S2P Require Import Prelude Rust Json KeyCache Por.
Local Open Scope Z_scope.
Local Open Scope rust_scope.

(** ** Configuration *)

Inductive TokenInitialExpiryPolicy := Later | Pic | OAuth.

Record ClaimMapping := mkClaimMapping {
  from : option string; mapped_value : option string; value_type : option string; encoding : option string }.

Record PrivilegeEmit := mkEmit {
  emit_scope : string; emit_operation : string; emit_resource_type : string; emit_resource_id : string }.

Record PrivilegeRule := mkRule { rule_name : string; priority : Z; pattern : string; emit : PrivilegeEmit }.

Record ExchangeProfileConfig := mkProfile {
  profile_source : ProfileSource;
  token_type : string;
  source_format : string;
  audience : string;
  allowed_algorithms : list string;
  require_expiration : bool;
  require_token_type : option string;
  identity_context : list (string * ClaimMapping);
  scopes_mapping : ClaimMapping;
  privileges_source : string;
  rules : list PrivilegeRule;
  on_unmatched_scope : string }.

Definition profile_name (p : ExchangeProfileConfig) : string := profile_id (profile_source p).
Definition profile_issuer (p : ExchangeProfileConfig) : string := source_issuer (profile_source p).

Definition EXCHANGE_SOURCE_OAUTH_ACCESS_TOKEN : string := "oauth-access-token".
Definition EXCHANGE_SOURCE_FORMAT_JWT : string := "jwt".
Definition EXCHANGE_ON_UNMATCHED_SCOPE_REJECT : string := "reject".
Definition MAX_REQUESTED_LIFETIME : Z := 365 * 24 * 3600.

(** ** Errors *)

Record ExchangeError := mkError { status : Z; code : string; description : string }.

Definition invalid_request (d : string) : ExchangeError := mkError 400 "invalid_request" d.
Definition invalid_grant (d : string) : ExchangeError := mkError 400 "invalid_grant" d.
Definition invalid_target (d : string) : ExchangeError := mkError 400 "invalid_target" d.
Definition unsupported_token_type (d : string) : ExchangeError := mkError 400 "unsupported_token_type" d.
Definition temporarily_unavailable (d : string) : ExchangeError := mkError 503 "temporarily_unavailable" d.
Definition server_error (d : string) : ExchangeError := mkError 500 "server_error" d.

(** [Iterator::map(...).collect::<Result<Vec<_>, _>>()]. *)
Fixpoint collect {A B E} (f : A -> result B E) (l : list A) : result (list B) E :=
  match l with
  | [] => Ok []
  | x :: r => let? y := f x in let? ys := collect f r in Ok (y :: ys)
  end.

(** ** The request form *)

Definition AMP : byte := x26.
Definition EQUALS : byte := x3d.
Definition PLUS : byte := x2b.
Definition PERCENT : byte := x25.

Definition from_hex (b : byte) : result Z ExchangeError :=
  if between 48 57 b then Ok (u8 b - 48)
  else if between 97 102 b then Ok (u8 b - 97 + 10)
  else if between 65 70 b then Ok (u8 b - 65 + 10)
  else Err (invalid_request "form value contains a non-hex percent escape").

Fixpoint percent_bytes (bs : list byte) : result (list byte) ExchangeError :=
  match bs with
  | [] => Ok []
  | b :: r =>
    if bool_decide (b = PLUS) then let? rest := percent_bytes r in Ok (x20 :: rest)
    else if bool_decide (b = PERCENT) then
      match r with
      | h :: l :: r' =>
        let? high := from_hex h in
        let? low := from_hex l in
        let? rest := percent_bytes r' in
        Ok (byte_of_Z (Z.lor (Z.shiftl high 4) low) :: rest)
      | _ => Err (invalid_request "form value contains an incomplete percent escape")
      end
    else let? rest := percent_bytes r in Ok (b :: rest)
  end.

Section Text.
(** The text of [Utf8Error]. *)
Context (utf8_error : list byte -> string).

Definition percent_decode (value : string) : result string ExchangeError :=
  let? decoded := percent_bytes (bytes_of value) in
  ok_or (from_utf8 decoded) (invalid_request ("form value is not UTF-8: " +:+ utf8_error decoded)).

Definition form_insert (form : gmap string string) (pair : string) : result (gmap string string) ExchangeError :=
  let '(key, value) := default (pair, "") (split_once EQUALS pair) in
  let? key := percent_decode key in
  let? value := percent_decode value in
  match form !! key with
  | Some _ => Err (invalid_request ("duplicate `" +:+ key +:+ "` parameter"))
  | None => Ok (<[key := value]> form)
  end.

Fixpoint form_pairs (form : gmap string string) (pairs : list string) : result (gmap string string) ExchangeError :=
  match pairs with
  | [] => Ok form
  | p :: r => let? form := form_insert form p in form_pairs form r
  end.

Definition parse_form (body : list byte) : result (gmap string string) ExchangeError :=
  let? text := ok_or (from_utf8 body) (invalid_request ("request body is not UTF-8: " +:+ utf8_error body)) in
  form_pairs ∅ (List.filter (fun pair => negb (is_empty pair)) (split AMP text)).
End Text.

Definition require (form : gmap string string) (name : string) : result string ExchangeError :=
  ok_or (match form !! name with
         | Some v => if is_empty v then None else Some v
         | None => None
         end) (invalid_request ("missing `" +:+ name +:+ "` parameter")).

(** ** Claims *)

Fixpoint claim_at (segments : list string) (v : Value) : option Value :=
  match segments with
  | [] => Some v
  | s :: r => get s v ≫= claim_at r
  end.

Definition claim_at_path (v : Value) (path : string) : option Value := claim_at (split DOT path) v.

Inductive AuthorityValue := One (value : string) | Many (values : list string).

Definition SPACE_DELIMITED : string := "space-delimited".

Definition map_authority_value (m : ClaimMapping) (payload : Value) : result AuthorityValue string :=
  match mapped_value m with
  | Some v => Ok (One v)
  | None =>
    let? path := ok_or (from m) "mapping has no `from` or `value`" in
    let? value := ok_or (claim_at_path payload path) ("missing `" +:+ path +:+ "`") in
    if bool_decide (value_type m = Some "set") then
      match value with
      | Arr values =>
        let? texts := collect (fun item => ok_or (as_str item) ("`" +:+ path +:+ "` contains a non-string value"))
                        values in
        Ok (Many texts)
      | Str text => if bool_decide (encoding m = Some SPACE_DELIMITED)
                    then Ok (Many (split_whitespace text)) else Ok (Many [text])
      | _ => Err ("`" +:+ path +:+ "` is not a string or array of strings")
      end
    else ok_or (One <$> as_str value) ("`" +:+ path +:+ "` is not a string")
  end.

Fixpoint map_identity (ms : list (string * ClaimMapping)) (payload : Value)
  : result (list (string * AuthorityValue)) ExchangeError :=
  match ms with
  | [] => Ok []
  | (key, m) :: r =>
    let? v := map_err (fun e => invalid_grant ("identity-context claim `" +:+ key +:+ "` could not be mapped: " +:+ e))
                (map_authority_value m payload) in
    let? rest := map_identity r payload in
    Ok ((key, v) :: rest)
  end.

Definition map_identity_context (p : ExchangeProfileConfig) (payload : Value)
  : result (option (list (string * AuthorityValue))) ExchangeError :=
  let? identity := map_identity (identity_context p) payload in
  Ok (match identity with [] => None | _ => Some identity end).

Definition map_scopes (m : ClaimMapping) (payload : Value) : result (list string) ExchangeError :=
  if negb (bool_decide (value_type m = Some "set"))
  then Err (invalid_grant "claims.scopes must be mapped as `type: set`")
  else
    let? path := ok_or (from m) (invalid_grant "claims.scopes must map from an upstream claim") in
    let? source := ok_or (claim_at_path payload path)
                     (invalid_grant ("source access token has no `" +:+ path +:+ "` claim")) in
    let? scopes :=
      match source with
      | Str text => if bool_decide (encoding m = Some SPACE_DELIMITED) then Ok (split_whitespace text) else Ok [text]
      | Arr values => collect (fun v => ok_or (as_str v)
                        (invalid_grant ("`" +:+ path +:+ "` must contain only string scope values"))) values
      | _ => Err (invalid_grant ("`" +:+ path +:+ "` must be a string or array of strings"))
      end in
    let scopes := List.filter (fun s => negb (is_empty s)) scopes in
    match scopes with
    | [] => Err (invalid_grant "source access token produced no scopes")
    | _ => Ok scopes
    end.

(** ** Rules *)

(** [Captures::name]: the named groups of a match. *)
Definition Captures : Type := string -> option string.

(** [str::find("${")]: what comes before the first placeholder, and after its opening. *)
Fixpoint find_open (bs : list byte) : option (list byte * list byte) :=
  match bs with
  | [] => None
  | b :: r =>
    match r with
    | c :: r' => if bool_decide (b = x24) && bool_decide (c = x7b) then Some ([], r')
                 else (fun p => (b :: fst p, snd p)) <$> find_open r
    | [] => None
    end
  end.

Definition is_close (b : byte) : bool := bool_decide (b = x7d).

(** The loop of [render_template]; every turn drops a placeholder, so as many turns as there
    are bytes are enough ([render_loop_fuel]). *)
Fixpoint render_loop (fuel : nat) (template raw : string) (captures : Captures)
    (rendered rest : list byte) : result string ExchangeError :=
  match fuel with
  | O => Ok (string_of (rendered ++ rest))
  | S f =>
    match find_open rest with
    | None => Ok (string_of (rendered ++ rest))
    | Some (before, after) =>
      match split_once_list is_close after with
      | None => Err (invalid_request ("template `" +:+ template +:+ "` has an unterminated placeholder"))
      | Some (name, rest') =>
        let name := string_of name in
        if bool_decide (name = "raw")
        then render_loop f template raw captures (rendered ++ before ++ bytes_of raw) rest'
        else match captures name with
             | None => Err (invalid_request ("template `" +:+ template +:+ "` references missing capture `"
                                             +:+ name +:+ "`"))
             | Some value => render_loop f template raw captures (rendered ++ before ++ bytes_of value) rest'
             end
      end
    end
  end.

Definition render_template (template raw : string) (captures : Captures) : result string ExchangeError :=
  render_loop (length (bytes_of template)) template raw captures [] (bytes_of template).

Record Invariant := mkInvariant {
  scope : string; operation : string; resource_type : string; resource_id : string }.

#[global] Instance invariant_eq_dec : EqDecision Invariant.
Proof. solve_decision. Defined.

(** [rules.sort_by_key(Reverse(priority))]: stable, highest priority first. *)
Fixpoint insert_by_priority {A} (prio : A -> Z) (x : A) (l : list A) : list A :=
  match l with
  | [] => [x]
  | y :: r => if prio y <=? prio x then x :: l else y :: insert_by_priority prio x r
  end.

Definition sort_by_priority {A} (prio : A -> Z) (l : list A) : list A := foldr (insert_by_priority prio) [] l.

Section Rules.
(** [Regex::new], [Regex::captures], and the order of [Invariant]s. *)
Context {Regex : Type} (regex_new : string -> result Regex string)
  (regex_captures : Regex -> string -> option Captures)
  (cmp : Invariant -> Invariant -> comparison).

(** [BTreeSet::insert] on the set's elements in order. *)
Fixpoint set_insert (x : Invariant) (l : list Invariant) : list Invariant :=
  match l with
  | [] => [x]
  | y :: r => match cmp x y with
              | Lt => x :: l
              | Eq => l
              | Gt => y :: set_insert x r
              end
  end.

Definition compile_rule (p : ExchangeProfileConfig) (r : PrivilegeRule)
  : result (PrivilegeRule * Regex) ExchangeError :=
  match regex_new (pattern r) with
  | Ok regex => Ok (r, regex)
  | Err e => Err (invalid_request ("exchange profile `" +:+ profile_name p +:+ "` has an invalid rule pattern `"
                                   +:+ rule_name r +:+ "`: " +:+ e))
  end.

Definition rule_priority (r : PrivilegeRule * Regex) : Z := priority (fst r).

(** The first rule, in order, whose pattern matches, with its captures. *)
Fixpoint first_match (rs : list (PrivilegeRule * Regex)) (s : string) : option (PrivilegeRule * Captures) :=
  match rs with
  | [] => None
  | (r, regex) :: rest =>
    match regex_captures regex s with
    | Some captures => Some (r, captures)
    | None => first_match rest s
    end
  end.

Definition emit_invariant (e : PrivilegeEmit) (s : string) (captures : Captures) : result Invariant ExchangeError :=
  let? a := render_template (emit_scope e) s captures in
  let? b := render_template (emit_operation e) s captures in
  let? c := render_template (emit_resource_type e) s captures in
  let? d := render_template (emit_resource_id e) s captures in
  Ok (mkInvariant a b c d).

Fixpoint map_scope_loop (p : ExchangeProfileConfig) (rs : list (PrivilegeRule * Regex)) (scopes : list string)
    (invariants : list Invariant) : result (list Invariant) ExchangeError :=
  match scopes with
  | [] => Ok invariants
  | s :: rest =>
    match first_match rs s with
    | Some (r, captures) =>
      let? i := emit_invariant (emit r) s captures in
      map_scope_loop p rs rest (set_insert i invariants)
    | None =>
      if bool_decide (on_unmatched_scope p = EXCHANGE_ON_UNMATCHED_SCOPE_REJECT)
      then Err (invalid_grant ("scope `" +:+ s +:+ "` is not accepted by exchange profile `" +:+ profile_name p +:+ "`"))
      else map_scope_loop p rs rest invariants
    end
  end.

Definition map_invariants (p : ExchangeProfileConfig) (scopes : list string) : result (list Invariant) ExchangeError :=
  let? compiled := collect (compile_rule p) (rules p) in
  let? invariants := map_scope_loop p (sort_by_priority rule_priority compiled) scopes [] in
  match invariants with
  | [] => Err (invalid_grant "the exchange produced no executable authority invariants")
  | _ => Ok invariants
  end.

Record MappedAuthority := mkMapped {
  mapped_identity : option (list (string * AuthorityValue)); mapped_invariants : list Invariant }.

Definition map_authority (p : ExchangeProfileConfig) (payload : Value) : result MappedAuthority ExchangeError :=
  let? identity := map_identity_context p payload in
  let? scopes := map_scopes (scopes_mapping p) payload in
  let? invariants := map_invariants p scopes in
  Ok (mkMapped identity invariants).
End Rules.

(** ** Expiry *)

Section Expiry.
(** JSON and base64, and the texts of their errors. *)
Context (X : PorCrates) (b64_error : string -> string) (json_error : list byte -> string).

Definition proposal_expiry (encoded : string) (now : Z) : result (option Z) ExchangeError :=
  let? bytes := ok_or (b64_decode X encoded)
                  (invalid_request ("continuity_proposal is not base64url: " +:+ b64_error encoded)) in
  let? document := ok_or (from_slice X bytes)
                     (invalid_request ("continuity_proposal is not JSON: " +:+ json_error bytes)) in
  match get "tokenExpiresAt" document with
  | Some value =>
    let? expires_at := ok_or (match as_i64 value with
                              | Some t => if now <? t then Some t else None
                              | None => None
                              end)
                         (invalid_request "`tokenExpiresAt` must be a future NumericDate in whole seconds") in
    if MAX_REQUESTED_LIFETIME <? expires_at - now
    then Err (invalid_request "`tokenExpiresAt` is more than a year in the future")
    else Ok (Some expires_at)
  | None =>
    match get "tokenLifetimeSeconds" document with
    | None => Ok None
    | Some value =>
      let? seconds := ok_or (match as_i64 value with
                             | Some n => if 0 <? n then Some n else None
                             | None => None
                             end)
                        (invalid_request "`tokenLifetimeSeconds` must be a positive whole number of seconds") in
      if MAX_REQUESTED_LIFETIME <? seconds
      then Err (invalid_request "`tokenLifetimeSeconds` is longer than a year")
      else
        let? t := ok_or (checked_add_i64 now seconds) (invalid_request "`tokenLifetimeSeconds` overflows time") in
        Ok (Some t)
    end
  end.

Definition initial_expiry (encoded : string) (source_expiry : option Z) (now default_lifetime : Z)
    (policy : TokenInitialExpiryPolicy) : result Z ExchangeError :=
  let? asked := proposal_expiry encoded now in
  match asked with
  | Some t => Ok t
  | None =>
    let? default_expiry := ok_or (checked_add_i64 now (Rust.as_i64 default_lifetime))
                             (invalid_request "realm token_lifetime overflows time") in
    let expiry := match source_expiry with
                  | Some t => match policy with
                              | Later => Z.max t default_expiry
                              | Pic => default_expiry
                              | OAuth => t
                              end
                  | None => default_expiry
                  end in
    if expiry <=? now then Err (invalid_grant "initial PIC Token expiration is not in the future")
    else Ok expiry
  end.
End Expiry.
