(* ===== verification/ExchangeMapProperties.v ===== *)
(** * Properties of the request form, the rules and the expiry

    A form reads back as it was written; the invariants of a token are exactly what the
    deciding rule of each scope emits; every expiry is in the future and, when the caller asks
    for it, within a year. *)
From S2P Require Import Prelude Rust Json KeyCache Por ExchangeMap.
Local Open Scope Z_scope.
Local Open Scope rust_scope.

(** ** Forms *)

Definition alphanumeric (b : byte) : bool := between 48 57 b || between 65 90 b || between 97 122 b.

Definition upper_hex (d : Z) : byte := byte_of_Z (if d <? 10 then 48 + d else 55 + d).

(** What a client writes: letters and digits as they are, a space as [+], the rest escaped. *)
Definition encode_byte (b : byte) : list byte :=
  if alphanumeric b then [b]
  else if bool_decide (b = x20) then [PLUS]
  else [PERCENT; upper_hex (u8 b / 16); upper_hex (u8 b mod 16)].

Definition encode_text (s : string) : list byte := concat (map encode_byte (bytes_of s)).

Definition encode_pair (kv : string * string) : list byte := encode_text (fst kv) ++ EQUALS :: encode_text (snd kv).

Fixpoint encode_form (pairs : list (string * string)) : list byte :=
  match pairs with
  | [] => []
  | [p] => encode_pair p
  | p :: r => encode_pair p ++ AMP :: encode_form r
  end.

Lemma percent_bytes_encode_byte b r :
  percent_bytes (encode_byte b ++ r) = let? rest := percent_bytes r in Ok (b :: rest).
Proof. destruct b; reflexivity. Qed.

Lemma percent_bytes_encode bs : percent_bytes (concat (map encode_byte bs)) = Ok bs.
Proof.
  induction bs as [|b bs IH]; [done|]. cbn [map concat]. by rewrite percent_bytes_encode_byte, IH.
Qed.

Definition plain (b : byte) : bool :=
  is_ascii_byte b && negb (bool_decide (b = AMP)) && negb (bool_decide (b = EQUALS)).

Lemma encode_byte_plain b : forallb plain (encode_byte b) = true.
Proof. destruct b; reflexivity. Qed.

Lemma encode_text_plain s : Forall (fun b => plain b = true) (encode_text s).
Proof.
  unfold encode_text. induction (bytes_of s) as [|b bs IH]; simpl; [constructor|].
  apply Forall_app. split; [|done]. apply Forall_forall. intros x Hx%list_elem_of_In.
  pose proof (encode_byte_plain b) as H. rewrite forallb_forall in H. auto.
Qed.

Lemma plain_facts b : plain b = true ->
  is_ascii_byte b = true /\ bool_decide (b = AMP) = false /\ bool_decide (b = EQUALS) = false.
Proof. unfold plain. intros H. bool_to_prop. by rewrite !bool_decide_eq_false. Qed.

Lemma plain_forall bs : Forall (fun b => plain b = true) bs ->
  Forall (fun b => is_ascii_byte b = true) bs /\ Forall (fun b => bool_decide (b = AMP) = false) bs /\
  Forall (fun b => bool_decide (b = EQUALS) = false) bs.
Proof. intros H. split_and!; (eapply Forall_impl; [exact H|]; intros b Hb; apply (plain_facts b Hb)). Qed.

Lemma split_once_list_app {A} (p : A -> bool) w x r :
  Forall (fun y => p y = false) w -> p x = true -> split_once_list p (w ++ x :: r) = Some (w, r).
Proof. intros Hw Hx. induction Hw as [|y w Hy _ IH]; simpl; [by rewrite Hx|]. by rewrite Hy, IH. Qed.

Lemma encode_pair_ascii p :
  Forall (fun b => is_ascii_byte b = true) (encode_pair p) /\
  Forall (fun b => bool_decide (b = AMP) = false) (encode_pair p).
Proof.
  destruct (plain_forall _ (encode_text_plain (fst p))) as (A1 & A2 & _).
  destruct (plain_forall _ (encode_text_plain (snd p))) as (B1 & B2 & _).
  unfold encode_pair. split; apply Forall_app; (split; [done|constructor; done]).
Qed.

Lemma encode_form_ascii pairs : Forall (fun b => is_ascii_byte b = true) (encode_form pairs).
Proof.
  induction pairs as [|p [|q r] IH]; [constructor|apply encode_pair_ascii|].
  apply Forall_app. split; [apply encode_pair_ascii|]. constructor; [reflexivity|done].
Qed.

Lemma encode_form_split p pairs :
  split_list (fun b => bool_decide (b = AMP)) (encode_form (p :: pairs)) = map encode_pair (p :: pairs).
Proof.
  revert p. induction pairs as [|q r IH]; intros p.
  - apply split_list_none, encode_pair_ascii.
  - change (encode_form (p :: q :: r)) with (encode_pair p ++ AMP :: encode_form (q :: r)).
    rewrite split_list_app; [|apply encode_pair_ascii|done]. by rewrite IH.
Qed.

Lemma from_utf8_ascii bs : Forall (fun b => is_ascii_byte b = true) bs -> from_utf8 bs = Some (string_of bs).
Proof. intros H. unfold from_utf8. by rewrite (utf8_decode_ascii _ H). Qed.

Lemma encode_pair_nonempty p : is_empty (string_of (encode_pair p)) = false.
Proof.
  apply bool_decide_eq_false_2. intros H. apply (f_equal bytes_of) in H. rewrite bytes_of_string_of in H.
  unfold encode_pair in H. by destruct (encode_text (fst p)).
Qed.

Section Forms.
Context (utf8_error : list byte -> string).

(** Every Rust string is UTF-8. *)
Definition is_str (s : string) : Prop := from_utf8 (bytes_of s) = Some s.

Lemma percent_decode_encode s : is_str s -> percent_decode utf8_error (string_of (encode_text s)) = Ok s.
Proof.
  intros Hs. unfold percent_decode. rewrite bytes_of_string_of. unfold encode_text.
  rewrite percent_bytes_encode. simpl. by rewrite Hs.
Qed.

Lemma form_insert_encoded form k v :
  is_str k -> is_str v ->
  form_insert utf8_error form (string_of (encode_pair (k, v))) =
  match form !! k with
  | Some _ => Err (invalid_request ("duplicate `" +:+ k +:+ "` parameter"))
  | None => Ok (<[k := v]> form)
  end.
Proof.
  intros Hk Hv. unfold form_insert, split_once. rewrite bytes_of_string_of. unfold encode_pair.
  rewrite split_once_list_app; [|apply plain_forall, encode_text_plain|done]. simpl.
  rewrite (percent_decode_encode k Hk), (percent_decode_encode v Hv). reflexivity.
Qed.

Lemma form_pairs_encoded form pairs :
  Forall (fun kv => is_str (fst kv) /\ is_str (snd kv)) pairs ->
  NoDup (map fst pairs) -> (forall k, k ∈ map fst pairs -> form !! k = None) ->
  form_pairs utf8_error form (map string_of (map encode_pair pairs)) = Ok (list_to_map pairs ∪ form).
Proof.
  intros Hs. revert form. induction Hs as [|[k v] pairs [Hk Hv] _ IH]; intros form Hnd Hfree; simpl.
  - by rewrite (left_id_L ∅ (∪)).
  - simpl in Hk, Hv, Hnd. apply NoDup_cons in Hnd as [Hnk Hnd].
    rewrite form_insert_encoded by done. rewrite (Hfree k) by left. simpl. rewrite IH; [|done|].
    + f_equal. rewrite <- insert_union_r, insert_union_l; [done|]. by apply not_elem_of_list_to_map.
    + intros k' Hk'. rewrite lookup_insert_ne; [apply Hfree; by right|]. intros ->. done.
Qed.

Lemma form_pairs_duplicate form pairs :
  Forall (fun kv => is_str (fst kv) /\ is_str (snd kv)) pairs ->
  ~ (NoDup (map fst pairs) /\ forall k, k ∈ map fst pairs -> form !! k = None) ->
  exists k, form_pairs utf8_error form (map string_of (map encode_pair pairs))
            = Err (invalid_request ("duplicate `" +:+ k +:+ "` parameter")).
Proof.
  intros Hs. revert form. induction Hs as [|[k v] pairs [Hk Hv] _ IH]; intros form Hbad; simpl.
  - destruct Hbad. split; [constructor|]. intros k Hk. by apply not_elem_of_nil in Hk.
  - simpl in Hk, Hv. rewrite form_insert_encoded by done. destruct (form !! k) eqn:E; [by exists k|]. simpl.
    apply IH. intros [Hnd Hfree]. apply Hbad. simpl. split.
    + constructor; [|done]. intros Hin. specialize (Hfree k Hin). by rewrite lookup_insert_eq in Hfree.
    + intros k' [->|Hk']%elem_of_cons; [done|]. specialize (Hfree k' Hk').
      apply lookup_insert_None in Hfree. tauto.
Qed.

Lemma parse_form_encoded pairs :
  parse_form utf8_error (encode_form pairs) = form_pairs utf8_error ∅ (map string_of (map encode_pair pairs)).
Proof.
  unfold parse_form. rewrite from_utf8_ascii by apply encode_form_ascii. simpl. f_equal. unfold split.
  rewrite bytes_of_string_of. destruct pairs as [|p pairs]; [done|]. rewrite encode_form_split.
  generalize (p :: pairs). intros l. induction l as [|q l IH]; [done|]. cbn [map List.filter].
  by rewrite encode_pair_nonempty, IH.
Qed.

(** A request form reads back as it was written, whatever its parameters and values contain,
    and a form that names a parameter twice is refused rather than resolved either way. *)
Theorem form_reads_back pairs :
  Forall (fun kv => is_str (fst kv) /\ is_str (snd kv)) pairs ->
  (NoDup (map fst pairs) -> parse_form utf8_error (encode_form pairs) = Ok (list_to_map pairs)) /\
  (~ NoDup (map fst pairs) ->
   exists k, parse_form utf8_error (encode_form pairs)
             = Err (invalid_request ("duplicate `" +:+ k +:+ "` parameter"))).
Proof.
  intros Hs. rewrite parse_form_encoded. split.
  - intros Hnd. rewrite form_pairs_encoded; [by rewrite (right_id_L ∅ (∪))|done|done|].
    intros k _. apply lookup_empty.
  - intros Hnd. apply form_pairs_duplicate; [done|]. tauto.
Qed.
End Forms.

Lemma form_reads_back_witness :
  parse_form (fun _ => "") (encode_form [("grant_type", "urn:x y"); ("subject&token", "a=b%é")])
  = Ok (list_to_map [("grant_type", "urn:x y"); ("subject&token", "a=b%é")]).
Proof.
  apply (form_reads_back (fun _ => "") [("grant_type", "urn:x y"); ("subject&token", "a=b%é")]).
  - apply (bool_decide_eq_true_1 (Forall _ _)). vm_compute. reflexivity.
  - apply (bool_decide_eq_true_1 _). vm_compute. reflexivity.
Defined.

(** ** Templates *)

Lemma find_open_shorter bs before after :
  find_open bs = Some (before, after) -> (length after < length bs)%nat.
Proof.
  revert before after. induction bs as [|b r IH]; intros before after; [done|].
  destruct r as [|c r']; [done|]. cbn [find_open].
  destruct (bool_decide (b = x24) && bool_decide (c = x7b)).
  - intros [= _ <-]. simpl. lia.
  - intros ([b' a'] & H & [= _ ->])%fmap_Some. apply IH in H. simpl in *. lia.
Qed.

Lemma split_once_shorter {A} (p : A -> bool) l a b :
  split_once_list p l = Some (a, b) -> (length b < length l)%nat.
Proof.
  revert a b. induction l as [|x l IH]; intros a b; simpl; [done|]. destruct (p x).
  - intros [= _ <-]. lia.
  - destruct (split_once_list p l) as [[a' b']|]; [|done]. intros [= _ <-]. specialize (IH a' b' eq_refl). lia.
Qed.

(** The loop ends: with one turn per byte, further turns change nothing. *)
Lemma render_loop_fuel f g template raw captures rendered rest :
  (length rest <= f)%nat -> (length rest <= g)%nat ->
  render_loop f template raw captures rendered rest = render_loop g template raw captures rendered rest.
Proof.
  revert g rendered rest. induction f as [|f IH]; intros g rendered rest Hf Hg.
  - destruct rest; [|simpl in Hf; lia]. by destruct g.
  - destruct g as [|g]; [destruct rest; [done|simpl in Hg; lia]|]. cbn [render_loop].
    destruct (find_open rest) as [[before after]|] eqn:Eo; [|done]. apply find_open_shorter in Eo.
    destruct (split_once_list is_close after) as [[name rest']|] eqn:Es; [|done]. apply split_once_shorter in Es.
    case_bool_decide; [apply IH; lia|]. destruct (captures _); [apply IH; lia|done].
Qed.

(** ** Rules *)

Section Rules.
Context {Regex : Type} (regex_new : string -> result Regex string)
  (regex_captures : Regex -> string -> option Captures)
  (cmp : Invariant -> Invariant -> comparison).

Definition rule_matches (r : PrivilegeRule) (s : string) : Prop :=
  exists regex c, regex_new (pattern r) = Ok regex /\ regex_captures regex s = Some c.

(** The rule that decides a scope: it matches, every matching rule before it has a lower
    priority and no matching rule after it a higher one. *)
Definition decides (p : ExchangeProfileConfig) (s : string) (r : PrivilegeRule) (c : Captures) : Prop :=
  exists before after regex, rules p = before ++ r :: after /\
    regex_new (pattern r) = Ok regex /\ regex_captures regex s = Some c /\
    (forall r', r' ∈ before -> rule_matches r' s -> priority r' < priority r) /\
    (forall r', r' ∈ after -> rule_matches r' s -> priority r' <= priority r).

Definition better (r : PrivilegeRule) (c : Captures) (o : option (PrivilegeRule * Captures))
  : option (PrivilegeRule * Captures) :=
  match o with
  | Some (r', c') => if priority r' <=? priority r then Some (r, c) else Some (r', c')
  | None => Some (r, c)
  end.

(** The reference: the best match, without sorting. *)
Fixpoint best_match (rs : list (PrivilegeRule * Regex)) (s : string) : option (PrivilegeRule * Captures) :=
  match rs with
  | [] => None
  | (r, regex) :: rest =>
    match regex_captures regex s with
    | Some c => better r c (best_match rest s)
    | None => best_match rest s
    end
  end.

Definition descending : list (PrivilegeRule * Regex) -> Prop :=
  StronglySorted (fun a b => rule_priority b <= rule_priority a).

Lemma insert_elem {A} (prio : A -> Z) (x y : A) l : y ∈ insert_by_priority prio x l <-> y = x \/ y ∈ l.
Proof.
  induction l as [|z l IH]; simpl; [set_solver|]. destruct (_ <=? _); [set_solver|]. rewrite elem_of_cons, IH. set_solver.
Qed.

Lemma sort_descending rs : descending (sort_by_priority rule_priority rs).
Proof.
  induction rs as [|x rs IH]; simpl; [constructor|]. unfold descending in *.
  induction IH as [|y l Hl IHl Hy]; simpl; [repeat constructor|].
  destruct (_ <=? _) eqn:E; bool_to_prop.
  - constructor; [by constructor|]. constructor; [done|]. eapply Forall_impl; [exact Hy|]. simpl. lia.
  - constructor; [done|]. apply Forall_forall. intros z [->|Hz]%insert_elem; [lia|].
    by eapply Forall_forall in Hy.
Qed.

Lemma first_match_elem rs s r c :
  first_match regex_captures rs s = Some (r, c) -> exists regex, (r, regex) ∈ rs.
Proof.
  induction rs as [|[r' regex] rs IH]; simpl; [done|]. destruct (regex_captures regex s).
  - intros [= -> _]. exists regex. left.
  - intros H. destruct (IH H) as [x Hx]. exists x. by right.
Qed.

Lemma first_match_insert r regex rs s :
  descending rs ->
  first_match regex_captures (insert_by_priority rule_priority (r, regex) rs) s =
  match regex_captures regex s with
  | Some c => better r c (first_match regex_captures rs s)
  | None => first_match regex_captures rs s
  end.
Proof.
  induction 1 as [|[r1 x1] rs Hrs IH Hle]; simpl; [by destruct (regex_captures regex s)|].
  unfold rule_priority in *. simpl in *. destruct (priority r1 <=? priority r) eqn:E; bool_to_prop; simpl.
  - destruct (regex_captures regex s) as [c|]; [|done].
    destruct (regex_captures x1 s) as [c1|]; simpl; [by rewrite (proj2 (Z.leb_le _ _) E)|].
    destruct (first_match regex_captures rs s) as [[r2 c2]|] eqn:Ef; simpl; [|done].
    apply first_match_elem in Ef as [x2 Hin]. eapply Forall_forall in Hle; [|done]. simpl in Hle.
    by rewrite (proj2 (Z.leb_le _ _)) by lia.
  - destruct (regex_captures x1 s) as [c1|]; [|exact IH].
    destruct (regex_captures regex s); simpl; [|done]. by rewrite (proj2 (Z.leb_gt _ _) E).
Qed.

Lemma first_match_sorted rs s :
  first_match regex_captures (sort_by_priority rule_priority rs) s = best_match rs s.
Proof.
  induction rs as [|[r regex] rs IH]; [done|]. cbn [sort_by_priority foldr].
  change (foldr _ [] rs) with (sort_by_priority rule_priority rs).
  by rewrite first_match_insert, IH by apply sort_descending.
Qed.

(** Whether a compiled rule matches. *)
Definition compiled_matches (s : string) (x : PrivilegeRule * Regex) : Prop := is_Some (regex_captures (snd x) s).

Lemma best_match_elem rs s r c :
  best_match rs s = Some (r, c) -> exists x, x ∈ rs /\ compiled_matches s x /\ fst x = r.
Proof.
  revert r c. induction rs as [|[r' regex] rs IH]; intros r c; simpl; [done|].
  destruct (regex_captures regex s) as [c'|] eqn:Ec.
  - assert (Hhere : compiled_matches s (r', regex)) by (unfold compiled_matches; simpl; rewrite Ec; eauto).
    destruct (best_match rs s) as [[r2 c2]|] eqn:Eb; simpl; [destruct (_ <=? _)|]; intros [= <- <-].
    + exists (r', regex). split_and!; [left|done|done].
    + destruct (IH _ _ eq_refl) as (x & Hx & Hm & Hf). exists x. split_and!; [by right|done|done].
    + exists (r', regex). split_and!; [left|done|done].
  - intros H. destruct (IH _ _ H) as (x & Hx & Hm & Hf). exists x. split_and!; [by right|done|done].
Qed.

Lemma best_match_None rs s : best_match rs s = None -> forall x, x ∈ rs -> ~ compiled_matches s x.
Proof.
  induction rs as [|[r regex] rs IH]; simpl; [intros _ x Hx; by apply not_elem_of_nil in Hx|].
  destruct (regex_captures regex s) eqn:Ec.
  - unfold better. destruct (best_match rs s) as [[r2 c2]|]; [destruct (_ <=? _)|]; done.
  - intros H x [->|Hx]%elem_of_cons; [|by apply IH]. unfold compiled_matches. simpl. rewrite Ec. by intros [? [=]].
Qed.

Lemma best_match_iff rs s r c :
  best_match rs s = Some (r, c) <->
  exists before after regex, rs = before ++ (r, regex) :: after /\ regex_captures regex s = Some c /\
    (forall x, x ∈ before -> compiled_matches s x -> priority (fst x) < priority r) /\
    (forall x, x ∈ after -> compiled_matches s x -> priority (fst x) <= priority r).
Proof.
  split.
  - revert r c. induction rs as [|[r' regex] rs IH]; intros r c; simpl; [done|].
    destruct (regex_captures regex s) as [c'|] eqn:Ec.
    + destruct (best_match rs s) as [[r2 c2]|] eqn:Eb; simpl; [destruct (_ <=? _) eqn:Ep; bool_to_prop|]; intros [= <- <-].
      * destruct (IH _ _ eq_refl) as (b & a & x2 & -> & Hc & Hb & Ha).
        exists [], (b ++ (r2, x2) :: a), regex. split_and!; [done|done| |].
        -- intros x Hx. by apply not_elem_of_nil in Hx.
        -- intros x [Hx|[->|Hx]%elem_of_cons]%elem_of_app Hm; simpl; [specialize (Hb x Hx Hm)|lia|specialize (Ha x Hx Hm)]; lia.
      * destruct (IH _ _ eq_refl) as (b & a & x2 & -> & Hc & Hb & Ha).
        exists ((r', regex) :: b), a, x2. split_and!; [done|done| |done].
        intros x [->|Hx]%elem_of_cons Hm; [simpl; lia|auto].
      * exists [], rs, regex. split_and!; [done|done| |].
        -- intros x Hx. by apply not_elem_of_nil in Hx.
        -- intros x Hx Hm. by destruct (best_match_None _ _ Eb x Hx).
    + intros H. destruct (IH _ _ H) as (b & a & x2 & -> & Hc & Hb & Ha).
      exists ((r', regex) :: b), a, x2. split_and!; [done|done| |done].
      intros x [->|Hx]%elem_of_cons Hm; [|auto]. unfold compiled_matches in Hm. simpl in Hm. rewrite Ec in Hm.
      by destruct Hm.
  - intros (b & a & regex & -> & Hc & Hb & Ha). induction b as [|[r1 x1] b IH]; simpl.
    + rewrite Hc. destruct (best_match a s) as [[r2 c2]|] eqn:Eb; simpl; [|done].
      destruct (best_match_elem _ _ _ _ Eb) as (x & Hx & Hm & Hf). specialize (Ha x Hx Hm). rewrite Hf in Ha.
      by rewrite (proj2 (Z.leb_le _ _)) by lia.
    + rewrite IH by (intros x Hx; apply Hb; by right). destruct (regex_captures x1 s) as [c1|] eqn:E1; [|done].
      simpl. rewrite (proj2 (Z.leb_gt _ _)); [done|]. apply (Hb (r1, x1)); [left|]. unfold compiled_matches. simpl. by rewrite E1.
Qed.

Definition compiled (rs : list PrivilegeRule) (cs : list (PrivilegeRule * Regex)) : Prop :=
  Forall2 (fun r x => fst x = r /\ regex_new (pattern r) = Ok (snd x)) rs cs.

Lemma collect_compiled p rs cs : collect (compile_rule regex_new p) rs = Ok cs -> compiled rs cs.
Proof.
  revert cs. induction rs as [|r rs IH]; intros cs; simpl; [intros [= <-]; constructor|].
  intros H. run_inv. match goal with H : compile_rule _ _ _ = _ |- _ => unfold compile_rule in H end.
  destruct (regex_new (pattern r)) eqn:E; simplify_eq. constructor; [done|]. by apply IH.
Qed.

Lemma compiled_matches_rule r x s :
  fst x = r -> regex_new (pattern r) = Ok (snd x) -> compiled_matches s x <-> rule_matches r s.
Proof.
  intros <- Hx. unfold compiled_matches, rule_matches. split.
  - intros [c Hc]. eauto.
  - intros (regex & c & Hn & Hc). assert (regex = snd x) as -> by congruence. eauto.
Qed.

Lemma compiled_all (P : Z -> Prop) rs cs s :
  compiled rs cs ->
  (forall x, x ∈ cs -> compiled_matches s x -> P (priority (fst x))) <->
  (forall r, r ∈ rs -> rule_matches r s -> P (priority r)).
Proof.
  induction 1 as [|r x rs cs [Hf Hx] _ IH]; [split; intros _ ? H; by apply not_elem_of_nil in H|].
  pose proof (compiled_matches_rule r x s Hf Hx) as Hm. split.
  - intros H r' [->|Hr']%elem_of_cons Hr; [|by apply IH; [intros y Hy; apply H; by right| |]].
    rewrite <- Hf. apply H; [left|]. by apply Hm.
  - intros H x' [->|Hx']%elem_of_cons Hc; [|by apply IH; [intros y Hy; apply H; by right| |]].
    rewrite Hf. apply H; [left|]. by apply Hm.
Qed.

Lemma best_match_decides p cs s r c :
  compiled (rules p) cs -> best_match cs s = Some (r, c) <-> decides p s r c.
Proof.
  intros Hc. rewrite best_match_iff. split.
  - intros (b & a & regex & -> & Hcap & Hb & Ha).
    apply Forall2_app_inv_r in Hc as (rb & ra' & Hcb & Hca & Hr).
    apply Forall2_cons_inv_r in Hca as (r' & ra & [Hf Hn] & Hca & ->). simpl in Hf, Hn. subst r'.
    exists rb, ra, regex. split_and!; [done|done|done| |].
    + by apply (compiled_all (fun z => z < priority r) _ _ s Hcb).
    + by apply (compiled_all (fun z => z <= priority r) _ _ s Hca).
  - intros (rb & ra & regex & Hr & Hn & Hcap & Hb & Ha). rewrite Hr in Hc.
    apply Forall2_app_inv_l in Hc as (b & a' & Hcb & Hca & ->).
    apply Forall2_cons_inv_l in Hca as ([r' x] & a & [Hf Hx] & Hca & ->). simpl in Hf, Hx. subst r'.
    assert (x = regex) as -> by congruence. exists b, a, regex. split_and!; [done|done| |].
    + by apply (compiled_all (fun z => z < priority r) _ _ s Hcb).
    + by apply (compiled_all (fun z => z <= priority r) _ _ s Hca).
Qed.

(** The laws of [Ord] on invariants. *)
Hypothesis cmp_eq : forall x y, cmp x y = Eq -> x = y.
Hypothesis cmp_flip : forall x y, cmp x y = Gt -> cmp y x = Lt.
Hypothesis cmp_trans : forall x y z, cmp x y = Lt -> cmp y z = Lt -> cmp x z = Lt.

Definition ascending : list Invariant -> Prop := StronglySorted (fun a b => cmp a b = Lt).

Lemma set_insert_elem x y l : y ∈ set_insert cmp x l <-> y = x \/ y ∈ l.
Proof.
  induction l as [|z l IH]; simpl; [set_solver|]. destruct (cmp x z) eqn:E; [|set_solver|].
  - apply cmp_eq in E as ->. set_solver.
  - rewrite elem_of_cons, IH. set_solver.
Qed.

Lemma set_insert_ascending x l : ascending l -> ascending (set_insert cmp x l).
Proof.
  induction 1 as [|z l Hl IH Hz]; simpl; [repeat constructor|]. destruct (cmp x z) eqn:E.
  - by constructor.
  - constructor; [by constructor|]. constructor; [done|]. eapply Forall_impl; [exact Hz|]. simpl. eauto.
  - constructor; [done|]. apply Forall_forall. intros y [->|Hy]%set_insert_elem; [auto|].
    by eapply Forall_forall in Hz.
Qed.

Lemma map_scope_loop_Ok p cs scopes acc is_ :
  compiled (rules p) cs ->
  map_scope_loop regex_captures cmp p (sort_by_priority rule_priority cs) scopes acc = Ok is_ ->
  (forall i, i ∈ is_ <-> i ∈ acc \/ exists s r c, s ∈ scopes /\ decides p s r c /\ emit_invariant (emit r) s c = Ok i) /\
  (ascending acc -> ascending is_) /\
  (forall s, s ∈ scopes -> on_unmatched_scope p = EXCHANGE_ON_UNMATCHED_SCOPE_REJECT -> exists r c, decides p s r c).
Proof.
  intros Hc. revert acc. induction scopes as [|s scopes IH]; intros acc; cbn [map_scope_loop].
  - intros [= <-]. split_and!; [|done|].
    + intros i. split; [by left|]. intros [?|(s & r & c & Hs & _)]; [done|]. by apply not_elem_of_nil in Hs.
    + intros s Hs. by apply not_elem_of_nil in Hs.
  - rewrite first_match_sorted. destruct (best_match cs s) as [[r c]|] eqn:Eb.
    + intros H. run_inv. destruct (IH _ H0) as (Hi & Ha & Hr). apply (best_match_decides p cs s r c Hc) in Eb as Hd.
      split_and!.
      * intros i. rewrite Hi, set_insert_elem. split.
        -- intros [[->|?]|(s' & r' & c' & Hs & ?)]; [right|by left|right; exists s', r', c'; split; [by right|done]].
           exists s, r, c. split_and!; [left|done|done].
        -- intros [?|(s' & r' & c' & [->|Hs]%elem_of_cons & Hd' & He)]; [by left; right| |].
           ++ apply (best_match_decides p cs s r' c' Hc) in Hd'. left. left. congruence.
           ++ right. by exists s', r', c'.
      * intros Hacc. apply Ha. by apply set_insert_ascending.
      * intros s' [->|Hs]%elem_of_cons Hrej; [by exists r, c|auto].
    + case_bool_decide as Hrej; [done|]. intros H. destruct (IH _ H) as (Hi & Ha & Hr). split_and!; [|done|].
      * intros i. rewrite Hi. split.
        -- intros [?|(s' & r' & c' & Hs & ?)]; [by left|right; exists s', r', c'; split; [by right|done]].
        -- intros [?|(s' & r' & c' & [->|Hs]%elem_of_cons & Hd' & He)]; [by left| |].
           ++ apply (best_match_decides p cs s r' c' Hc) in Hd'. congruence.
           ++ right. by exists s', r', c'.
      * intros s' _ Hrej'. done.
Qed.

(** C10: Authority is exactly what the rules say: the invariants derived from a token's scopes are
    those the deciding rule of each scope emits (the highest priority that matches, the first
    written among equals), no more and no fewer, each once and in order; there is at least one;
    and under the reject policy every scope is decided by some rule. *)
Theorem invariants_are_what_the_rules_emit p scopes is_ :
  map_invariants regex_new regex_captures cmp p scopes = Ok is_ ->
  (forall i, i ∈ is_ <->
     exists s r c, s ∈ scopes /\ decides p s r c /\ emit_invariant (emit r) s c = Ok i) /\
  ascending is_ /\ is_ <> [] /\
  (on_unmatched_scope p = EXCHANGE_ON_UNMATCHED_SCOPE_REJECT ->
   forall s, s ∈ scopes -> exists r c, decides p s r c).
Proof.
  unfold map_invariants. intros H. run_inv. rename x into cs, x0 into found. apply collect_compiled in H.
  destruct (map_scope_loop_Ok _ _ _ _ _ H H0) as (Hi & Ha & Hr). destruct found as [|i found]; [done|].
  simplify_eq. split_and!; [|apply Ha; constructor|done|eauto].
  intros j. rewrite Hi. split; [|by right]. intros [Hj|?]; [by apply not_elem_of_nil in Hj|done].
Qed.
End Rules.

Module ToyRules.
(** Patterns that are prefixes and capture what follows. *)
Definition regex_captures (prefix s : string) : option Captures :=
  match strip_prefix prefix s with
  | Some rest => Some (fun name => if bool_decide (name = "rest") then Some rest else None)
  | None => None
  end.

#[global] Instance invariant_countable : Countable Invariant :=
  inj_countable' (fun i => (scope i, operation i, resource_type i, resource_id i))
    (fun '(a, b, c, d) => mkInvariant a b c d) ltac:(by intros []).

Definition cmp (x y : Invariant) : comparison := Pos.compare (countable.encode x) (countable.encode y).

Lemma cmp_eq x y : cmp x y = Eq -> x = y.
Proof. intros H%Pos.compare_eq. by apply (inj countable.encode). Qed.

Lemma cmp_flip x y : cmp x y = Gt -> cmp y x = Lt.
Proof. unfold cmp. rewrite Pos.compare_antisym. by destruct (_ ?= _)%positive. Qed.

Lemma cmp_trans x y z : cmp x y = Lt -> cmp y z = Lt -> cmp x z = Lt.
Proof. unfold cmp. rewrite !Pos.compare_lt_iff. apply Pos.lt_trans. Qed.

Definition generic : PrivilegeRule :=
  mkRule "generic" 1 "docs:" (mkEmit "docs" "${rest}" "document" "*").
Definition specific : PrivilegeRule :=
  mkRule "specific" 10 "docs:read:" (mkEmit "docs" "read" "document" "${rest}").

Definition profile : ExchangeProfileConfig :=
  mkProfile (mkProfileSource "idp" "https://idp" None) EXCHANGE_SOURCE_OAUTH_ACCESS_TOKEN EXCHANGE_SOURCE_FORMAT_JWT "pic"
    ["RS256"] true None [] (mkClaimMapping (Some "scope") None (Some "set") (Some SPACE_DELIMITED))
    "scopes" [generic; specific] EXCHANGE_ON_UNMATCHED_SCOPE_REJECT.

Definition derived : list Invariant :=
  match map_invariants Ok regex_captures cmp profile ["docs:read:7"; "docs:list"] with Ok l => l | Err _ => [] end.
End ToyRules.

(** The specific rule decides a scope both rules match. *)
Lemma invariants_are_what_the_rules_emit_witness :
  (exists s r c, s ∈ ["docs:read:7"; "docs:list"] /\ decides Ok ToyRules.regex_captures ToyRules.profile s r c /\
     emit_invariant (emit r) s c = Ok (mkInvariant "docs" "read" "document" "7")) /\
  length ToyRules.derived = 2%nat.
Proof.
  split; [|vm_compute; reflexivity].
  apply (invariants_are_what_the_rules_emit Ok ToyRules.regex_captures ToyRules.cmp ToyRules.cmp_eq
           ToyRules.cmp_flip ToyRules.cmp_trans ToyRules.profile ["docs:read:7"; "docs:list"] ToyRules.derived).
  - vm_compute. reflexivity.
  - apply (bool_decide_eq_true_1 _). vm_compute. reflexivity.
Defined.

(** ** Expiry *)

Section Expiry.
Context (X : PorCrates) (b64_error : string -> string) (json_error : list byte -> string).

Lemma proposal_expiry_Ok encoded now t :
  proposal_expiry X b64_error json_error encoded now = Ok (Some t) ->
  now < t <= now + MAX_REQUESTED_LIFETIME.
Proof.
  unfold proposal_expiry. intros H. run_inv. destruct (get "tokenExpiresAt" _) as [v|].
  - run_inv. destruct (as_i64 v) as [e|]; [|done]. destruct (now <? e) eqn:E; simplify_eq. bool_to_prop.
    destruct (_ <? _) eqn:E2; simplify_eq. bool_to_prop. lia.
  - destruct (get "tokenLifetimeSeconds" _) as [v|]; [|done]. run_inv.
    destruct (as_i64 v) as [e|]; [|done]. destruct (0 <? e) eqn:E; simplify_eq. bool_to_prop.
    destruct (_ <? _) eqn:E2; simplify_eq. run_inv. bool_to_prop.
    match goal with Hc : checked_add_i64 _ _ = Some _ |- _ => apply checked_add_i64_Some in Hc; destruct Hc as [-> _] end.
    lia.
Qed.

Lemma initial_expiry_future encoded source now lifetime policy t :
  initial_expiry X b64_error json_error encoded source now lifetime policy = Ok t -> now < t.
Proof.
  unfold initial_expiry. intros H. run_inv.
  match goal with Hp : proposal_expiry _ _ _ _ _ = Ok ?o |- _ => destruct o as [t'|] end; simplify_eq.
  - match goal with Hp : proposal_expiry _ _ _ _ _ = _ |- _ => pose proof (proposal_expiry_Ok _ _ _ Hp) end. lia.
  - run_inv. destruct (_ <=? now) eqn:E; simplify_eq. by bool_to_prop.
Qed.

(** Nothing is issued already expired, and the choice of expiry is complete: what the proposal
    asks for, no more than a year ahead, wins; otherwise the realm's lifetime and the source
    token's expiry are combined as the policy says, with no wrap-around of the clock. *)
Theorem initial_expiry_is_in_the_future encoded source now lifetime policy t :
  is_u64 lifetime ->
  initial_expiry X b64_error json_error encoded source now lifetime policy = Ok t ->
  now < t /\
  ((proposal_expiry X b64_error json_error encoded now = Ok (Some t) /\ t <= now + MAX_REQUESTED_LIFETIME) \/
   (proposal_expiry X b64_error json_error encoded now = Ok None /\
    exists d, checked_add_i64 now (Rust.as_i64 lifetime) = Some d /\
      (lifetime <= I64_MAX -> d = now + lifetime) /\
      t = match policy, source with
          | Later, Some s => Z.max s d
          | OAuth, Some s => s
          | _, _ => d
          end)).
Proof.
  intros Hl H. split; [by eapply initial_expiry_future|]. unfold initial_expiry in H. run_inv.
  match goal with Hp : proposal_expiry _ _ _ _ _ = Ok ?o |- _ => destruct o as [t'|] end; simplify_eq.
  - match goal with Hp : proposal_expiry _ _ _ _ _ = _ |- _ => pose proof (proposal_expiry_Ok _ _ _ Hp) end.
    left. split; [done|lia].
  - run_inv. match goal with Hc : checked_add_i64 _ _ = Some ?d |- _ => rename Hc into Hadd; rename d into d' end.
    pose proof (proj1 (checked_add_i64_Some _ _ _) Hadd) as [Hd _].
    destruct (_ <=? now); simplify_eq. right. split; [done|]. exists (now + Rust.as_i64 lifetime). split_and!; [done| |].
    + intros Hle. rewrite as_i64_id; [done|]. unfold is_i64, is_u64, I64_MIN in *. lia.
    + by destruct source, policy.
Qed.

(** A proposal decides its own lifetime: one that asks for a year is given a year, whatever
    lifetime the realm is configured with and whatever the source token's expiry. *)
Theorem proposal_lifetime_is_not_capped encoded bytes source now lifetime policy :
  b64_decode X encoded = Some bytes ->
  from_slice X bytes = Some (Obj [("tokenLifetimeSeconds", Num (PosInt MAX_REQUESTED_LIFETIME))]) ->
  0 <= now < 2 ^ 62 ->
  initial_expiry X b64_error json_error encoded source now lifetime policy = Ok (now + MAX_REQUESTED_LIFETIME).
Proof.
  intros Hb Hj Hn. unfold initial_expiry, proposal_expiry. rewrite Hb. simpl. rewrite Hj. simpl.
  replace (checked_add_i64 now _) with (Some (now + MAX_REQUESTED_LIFETIME)); [done|].
  symmetry. apply checked_add_i64_Some. split; [done|].
  unfold is_i64, I64_MIN, I64_MAX, MAX_REQUESTED_LIFETIME. lia.
Qed.
End Expiry.

Module ToyProposal.
(** Two proposals: one that says nothing, one that asks for a year. *)
Definition parse (bs : list byte) : option Value :=
  if bool_decide (bs = bytes_of "year")
  then Some (Obj [("tokenLifetimeSeconds", Num (PosInt MAX_REQUESTED_LIFETIME))])
  else Some (Obj []).

Definition crates : PorCrates :=
  mkPorCrates parse string_of (fun s => Some (bytes_of s)) (fun bs => bs) unit
    (fun _ => Ok tt) (fun _ => None) (fun _ _ _ => true) (fun _ _ _ => false).
End ToyProposal.

Lemma initial_expiry_is_in_the_future_witness :
  initial_expiry ToyProposal.crates (fun _ => "") (fun _ => "") "plain" (Some 1200) 1000 300 Later = Ok 1300 /\
  1000 < 1300.
Proof.
  split; [vm_compute; reflexivity|].
  apply (initial_expiry_is_in_the_future ToyProposal.crates (fun _ => "") (fun _ => "")
           "plain" (Some 1200) 1000 300 Later 1300).
  - unfold is_u64, U64_MAX. lia.
  - vm_compute. reflexivity.
Defined.

(** A realm that issues for five minutes, asked for a year. *)
Lemma proposal_lifetime_is_not_capped_witness :
  initial_expiry ToyProposal.crates (fun _ => "") (fun _ => "") "year" (Some 1200) 1000 300 Pic = Ok 31537000.
Proof.
  apply (proposal_lifetime_is_not_capped ToyProposal.crates (fun _ => "") (fun _ => "")
           "year" (bytes_of "year") (Some 1200) 1000 300 Pic).
  - reflexivity.
  - vm_compute. reflexivity.
  - lia.
Defined.
