(* ===== verification/Exchange.v ===== *)
(** * The token endpoint of a realm ([crates/pic-x-realm/src/exchange.rs])

    The handlers: the initial exchange of an access token for a PIC Token, and the advancement
    of a candidate. State is explicit: readings of the clock and of the random source, the
    token ring, and the audit sink. The protocol crate is a parameter, [PicCrate]: decoding of
    its artifacts, issuing and settlement; what it is handed is the code's own. *)
From S2P Require Import Prelude Rust Errors Keys AuditEvents Json KeyCache Por Conformance RealmKeys ExchangeMap.
Local Open Scope Z_scope.
Local Open Scope rust_scope.

Definition GRANT_TOKEN_EXCHANGE : string := "urn:ietf:params:oauth:grant-type:token-exchange".
Definition OAUTH_ACCESS_TOKEN_TYPE : string := "urn:ietf:params:oauth:token-type:access_token".
Definition TOKEN_TYPE_N_A : string := "N_A".

(** ** The protocol crate, as this code reads and calls it *)

Record PicPcaPayload (AM : Type) := mkPca {
  position : Z; context_of_authority : AM; challenge : list byte;
  lineage_id : option string; expires_at : option Z }.
Arguments mkPca {AM}.
Arguments position {AM}.
Arguments context_of_authority {AM}.
Arguments challenge {AM}.
Arguments lineage_id {AM}.
Arguments expires_at {AM}.

Record SettlementContext := mkContext {
  ctx_iss : string; ctx_sub : option string; ctx_aud : option string;
  ctx_iat : option Z; ctx_exp : option Z; ctx_jti : option string }.

Record Issued (AM : Type) := mkIssued { issued_token : string; checkpoint : PicPcaPayload AM }.
Arguments mkIssued {AM}.
Arguments issued_token {AM}.
Arguments checkpoint {AM}.

(** A decoded candidate token, and its signed envelopes. *)
Record CandidateToken := mkCandidate {
  candidate_alg : string; root_bytes : result (list byte) string;
  candidate_jti : option string; candidate_exp : option Z }.

Record Envelope (Payload : Type) := mkEnvelope {
  env_algorithm : option SigningAlgorithm; env_kid : option string;
  payload_unverified : result Payload string }.
Arguments mkEnvelope {Payload}.
Arguments env_algorithm {Payload}.
Arguments env_kid {Payload}.
Arguments payload_unverified {Payload}.

Record ContinuityPayload := mkContinuity { candidate_transition : result (list byte) string; root_pca : list byte }.

Record TransitionPayload := mkTransition {
  proof_of_relationship : ProofOfRelationship;
  previous_challenge : list byte; next_challenge : list byte; transition_position : Z }.

(** [SettlementAuthority]: what the realm supplies to settlement. *)
Record SettlementAuthority (X : PorCrates) (K AM : Type) := mkAuthority {
  trusted : K -> list byte -> bool;
  por : ProofOfRelationship -> M (option Accepted) RejectReason (Verifier X);
  revocation : list byte -> bool;
  policy_conformance : option Accepted -> PicPcaPayload AM -> bool;
  policy_request_binding : bool;
  realm_signer : RealmTokenSigner;
  realm_sign : list byte -> M K CoseError (list byte) }.

Record PicCrate (X : PorCrates) (K : Type) := mkPicCrate {
  TOKEN_TYPE_PIC : string;
  PROPOSAL_TYPE_CONTINUITY_INITIAL : string;
  accepted_type : string;
  ExecutionContract : Type;
  AuthorityMap : Type;
  contract_values : AuthorityMap -> Contract;
  from_continuity_proposal : string -> result ExecutionContract string;
  from_logical : option (list (string * AuthorityValue)) -> list Invariant -> ExecutionContract -> result AuthorityMap string;
  decode_token : string -> result CandidateToken string;
  continuity_from_bytes : list byte -> result (Envelope ContinuityPayload) string;
  transition_from_bytes : list byte -> result (Envelope TransitionPayload) string;
  pca_payload_from_bytes : list byte -> result (Envelope (PicPcaPayload AuthorityMap)) string;
  pca_cose_from_bytes : list byte -> option Cose;
  expected_algorithms_for_jwk : Value -> result (string * option SigningAlgorithm) string;
  issue_settled : PicPcaPayload AuthorityMap -> RealmTokenSigner -> (list byte -> M K CoseError (list byte)) ->
    SettlementContext -> M K string (Issued AuthorityMap);
  settle : SettlementAuthority X K AuthorityMap -> string -> SettlementContext ->
    M (K * option Accepted) string (Issued AuthorityMap) }.

(** The texts of foreign errors, which only reach descriptions. *)
Record ErrorTexts := mkTexts {
  utf8_text : list byte -> string; b64_text : string -> string; json_text : list byte -> string;
  reject_text : RejectReason -> string; audit_text : AuditError -> string }.

(** ** The endpoint and the world it acts on *)

Record TokenEndpoint (P : Type) := mkEndpoint {
  realm_name : string; realm_issuer : option string; mount_path : string;
  token_lifetime : Z; expiry_policy : TokenInitialExpiryPolicy; signing_algorithm : string;
  exchange_profiles : list ExchangeProfileConfig; trusted_attesters : list TrustedAttesterConfig;
  attester_keys : AttesterKeyCache; idp_keys : IdpKeyCache; instant : Z;
  pseudonymizer : option P }.
Arguments mkEndpoint {P}.
Arguments realm_name {P}.
Arguments realm_issuer {P}.
Arguments mount_path {P}.
Arguments token_lifetime {P}.
Arguments expiry_policy {P}.
Arguments signing_algorithm {P}.
Arguments exchange_profiles {P}.
Arguments trusted_attesters {P}.
Arguments attester_keys {P}.
Arguments idp_keys {P}.
Arguments instant {P}.
Arguments pseudonymizer {P}.

Record World (K A : Type) := mkWorld { clock_reads : nat; fills : nat; token_keys : option K; audit : A }.
Arguments mkWorld {K A}.
Arguments clock_reads {K A}.
Arguments fills {K A}.
Arguments token_keys {K A}.
Arguments audit {K A}.

Record TokenExchangeResponse := mkResponse {
  access_token : string; issued_token_type : string; response_token_type : string }.

(** ** The source token *)

Record DecodedJwt := mkJwt { jwt_header : Value; jwt_payload : Value; signing_input : string; jwt_signature : list byte }.

Definition header_string (j : DecodedJwt) (name : string) : option string := get_str name (jwt_header j).
Definition claim_string (j : DecodedJwt) (name : string) : option string := claim_at_path (jwt_payload j) name ≫= as_str.
Definition claim_i64 (j : DecodedJwt) (name : string) : option Z := claim_at_path (jwt_payload j) name ≫= as_i64.

Definition audience_contains (j : DecodedJwt) (expected : string) : bool :=
  match claim_at_path (jwt_payload j) "aud" with
  | Some (Str value) => bool_decide (value = expected)
  | Some (Arr values) => existsb (fun v => bool_decide (as_str v = Some expected)) values
  | _ => false
  end.

Record CandidateMetadata := mkMetadata {
  meta_lineage_id : option string; meta_expires_at : Z; proposed_position : Z }.

Definition require_cose_algorithm (label : string) (actual : option SigningAlgorithm) (expected : SigningAlgorithm)
  : result unit ExchangeError :=
  match actual with
  | Some a => if bool_decide (a = expected) then Ok tt
              else Err (invalid_grant (label +:+ " COSE algorithm `" +:+ algorithm_display a
                          +:+ "` does not match executor-profile key algorithm `"
                          +:+ algorithm_display expected +:+ "`"))
  | None => Err (invalid_grant (label +:+ " COSE has no supported signing algorithm"))
  end.

Definition require_matching_cose_kid (continuity_kid transition_kid : option string) : result unit ExchangeError :=
  match continuity_kid, transition_kid with
  | Some c, Some t => if bool_decide (c = t) then Ok tt
                      else Err (invalid_grant ("candidate Continuity COSE kid `" +:+ c
                                  +:+ "` does not match Transition COSE kid `" +:+ t +:+ "`"))
  | None, _ => Err (invalid_grant "candidate Continuity COSE has no `kid`")
  | _, None => Err (invalid_grant "candidate Transition COSE has no `kid`")
  end.

Section Endpoint.
Context (X : PorCrates) {K A P : Type} `{!KeyManager K, !AuditSink A P} (C : PicCrate X K) (T : ErrorTexts)
  (* [serde_json]'s rendering of a value, [Regex], and the order of invariants *)
  (to_json : Value -> string)
  {Regex : Type} (regex_new : string -> result Regex string)
  (regex_captures : Regex -> string -> option Captures)
  (cmp : Invariant -> Invariant -> comparison)
  (* the n-th reading of the clock, and the n-th fill of a number of bytes *)
  (clock : nat -> result Z string) (fill : nat -> nat -> option (list byte)).

Abbreviation W := (World K A).
Abbreviation H := (M W ExchangeError).

Definition unix_now : H Z := fun w =>
  (match clock (clock_reads w) with
   | Ok secs => Ok (Rust.as_i64 secs)
   | Err e => Err (server_error ("system clock is before Unix epoch: " +:+ e))
   end, mkWorld (S (clock_reads w)) (fills w) (token_keys w) (audit w)).

Definition random_fill (n : nat) (e : ExchangeError) : H (list byte) := fun w =>
  (ok_or (fill (fills w) n) e, mkWorld (clock_reads w) (S (fills w)) (token_keys w) (audit w)).

Definition new_lineage_id : H string :=
  let! bytes := random_fill 16 (server_error "could not generate a lineage identifier") in
  mret (b64_encode X bytes).

(** [realm.token_keys()]. *)
Definition get_token_keys : H K := fun w =>
  (ok_or (token_keys w) (temporarily_unavailable "the selected realm has no token-signing key ring"), w).

(** Runs a computation on the ring, which signing may change; the ring is there, because
    [get_token_keys] came first. *)
Definition on_ring {R} (m : M K ExchangeError R) : H R := fun w =>
  match token_keys w with
  | Some k => let '(r, k') := m k in (r, mkWorld (clock_reads w) (fills w) (Some k') (audit w))
  | None => (Err (temporarily_unavailable "the selected realm has no token-signing key ring"), w)
  end.

Definition map_err_m {S E F R} (f : E -> F) (m : M S E R) : M S F R := fun s =>
  let '(r, s') := m s in (map_err f r, s').

(** [TokenEndpoint::record]. *)
Definition record_event (ep : TokenEndpoint P) (e : AuditEvent) : H unit := fun w =>
  let '(r, a) := sink_record e (pseudonymizer ep) (audit w) in
  (map_err (fun err => server_error ("the exchange was not recorded, so no token was issued: " +:+ audit_text T err)) r,
   mkWorld (clock_reads w) (fills w) (token_keys w) a).

Definition record_advancement_rejected (ep : TokenEndpoint P) (lineage : option string) (pos : option Z) : H unit :=
  let e := event_on (realm_name ep)
             (match lineage with
              | Some id => with_continuity_id id (event_new "pic.exchange.rejected" (Continuity id))
              | None => event_new "pic.exchange.rejected" Anonymous
              end) in
  record_event ep (match pos with Some n => at_continuity_position n e | None => e end).

Definition realm_token_signer (k : K) (jose : string) : result RealmTokenSigner ExchangeError :=
  map_err (fun e => match e with
                    | CannotProduce other =>
                      server_error ("the realm is configured to sign with `" +:+ other
                                    +:+ "`, which this build cannot produce")
                    | RingNotReady err =>
                      temporarily_unavailable ("the realm token-signing key ring is not ready: "
                                               +:+ show_key_error err)
                    end) (signer_new k jose).

(** ** The source token *)

Definition decode_json_segment (segment label : string) : result Value ExchangeError :=
  let? bytes := ok_or (b64_decode X segment) (invalid_grant (label +:+ " is not base64url: " +:+ b64_text T segment)) in
  ok_or (from_slice X bytes) (invalid_grant (label +:+ " is not JSON: " +:+ json_text T bytes)).

Definition decode_jwt (token : string) : result DecodedJwt ExchangeError :=
  match split DOT token with
  | [header; payload; signature] =>
    let? h := decode_json_segment header "source access token header" in
    let? p := decode_json_segment payload "source access token payload" in
    let? s := ok_or (b64_decode X signature)
                (invalid_grant ("source access token signature is not base64url: " +:+ b64_text T signature)) in
    Ok (mkJwt h p (header +:+ "." +:+ payload) s)
  | _ => Err (invalid_grant "source access token is not a compact JWS")
  end.

Definition profile_accepts (j : DecodedJwt) (p : ExchangeProfileConfig) : bool :=
  bool_decide (token_type p = EXCHANGE_SOURCE_OAUTH_ACCESS_TOKEN)
  && bool_decide (claim_string j "iss" = Some (profile_issuer p))
  && audience_contains j (audience p).

Definition select_initial_profile (ep : TokenEndpoint P) (j : DecodedJwt) : result ExchangeProfileConfig ExchangeError :=
  ok_or (List.find (profile_accepts j) (exchange_profiles ep))
    (invalid_grant "no exchange profile accepts this token issuer and audience in the selected realm").

(** Whether a published key accepts the token's signature. *)
Definition idp_key_accepts (j : DecodedJwt) (algorithm : string) (jwk : Value) : bool :=
  match get_str "alg" jwk with Some published => bool_decide (published = algorithm) | None => true end
  && match verification_key_from_jwk X jwk with
     | Ok key => artifact_verify X key (bytes_of (signing_input j)) (jwt_signature j)
     | Err _ => false
     end.

Definition verify_source_signature (ep : TokenEndpoint P) (j : DecodedJwt) (p : ExchangeProfileConfig)
  : result unit ExchangeError :=
  let? published := map_err (fun e => temporarily_unavailable
                       ("the key set of the identity provider for exchange profile `" +:+ profile_name p
                        +:+ "` is unavailable: " +:+ e))
                      (idp_keys_for (instant ep) (idp_keys ep) (profile_name p)) in
  let? algorithm := ok_or (header_string j "alg") (invalid_grant "source access token header has no `alg`") in
  let candidates := List.filter (kid_selects (header_string j "kid")) published in
  match candidates with
  | [] => Err (invalid_grant "no published identity-provider key matches the token `kid`")
  | _ => if existsb (idp_key_accepts j algorithm) candidates then Ok tt
         else Err (invalid_grant "the source access token signature does not verify against the identity provider key set")
  end.

Definition validate_source_jwt (ep : TokenEndpoint P) (j : DecodedJwt) (p : ExchangeProfileConfig) : H unit :=
  let! alg := mlift (ok_or (header_string j "alg") (invalid_grant "source access token header has no `alg`")) in
  if negb (existsb (fun allowed => bool_decide (allowed = alg)) (allowed_algorithms p))
  then mfail (invalid_grant ("source access token algorithm `" +:+ alg +:+ "` is not allowed by exchange profile `"
                             +:+ profile_name p +:+ "`"))
  else
    let! _ := mlift (match require_token_type p with
                     | None => Ok tt
                     | Some required =>
                       let? typ := ok_or (header_string j "typ") (invalid_grant "source access token header has no `typ`") in
                       if bool_decide (typ = required) then Ok tt
                       else Err (invalid_grant ("source access token typ `" +:+ typ
                                   +:+ "` does not match required `" +:+ required +:+ "`"))
                     end) in
    if negb (bool_decide (claim_string j "iss" = Some (profile_issuer p)))
    then mfail (invalid_grant "source access token issuer does not match the exchange profile")
    else if negb (audience_contains j (audience p))
    then mfail (invalid_grant "source access token audience does not match the exchange profile")
    else
      let! _ := (if require_expiration p
                 then
                   let! exp := mlift (ok_or (claim_i64 j "exp")
                                        (invalid_grant "source access token has no numeric `exp`")) in
                   let! now := unix_now in
                   if exp <=? now then mfail (invalid_grant "source access token is expired") else mret tt
                 else mret tt) in
      mlift (verify_source_signature ep j p).

(** ** The initial exchange *)

Definition settlement_issuer (ep : TokenEndpoint P) : string := default (mount_path ep) (realm_issuer ep).

Definition pic_response (token : string) : TokenExchangeResponse :=
  mkResponse token (TOKEN_TYPE_PIC X K C) TOKEN_TYPE_N_A.

Definition initialized_event (p : ExchangeProfileConfig) (sub : option string) (lineage : string) (pos : Z) : AuditEvent :=
  at_continuity_position pos
    (with_continuity_id lineage
       (event_on (profile_name p)
          (event_new "pic.exchange.initialized"
             (match sub with Some s => Principal s | None => Anonymous end)))).

Definition exchange_initial (ep : TokenEndpoint P) (access_token : string) (form : gmap string string)
  : H TokenExchangeResponse :=
  let! proposal_value := mlift (require form "continuity_proposal") in
  let! _ := mlift (match form !! "continuity_proposal_type" with
                   | Some v => if bool_decide (v = PROPOSAL_TYPE_CONTINUITY_INITIAL X K C) then Ok tt
                               else Err (invalid_request ("continuity_proposal_type must be `"
                                           +:+ PROPOSAL_TYPE_CONTINUITY_INITIAL X K C +:+ "`"))
                   | None => Ok tt
                   end) in
  let! jwt := mlift (decode_jwt access_token) in
  let! profile := mlift (select_initial_profile ep jwt) in
  let! _ := validate_source_jwt ep jwt profile in
  let! mapped := mlift (map_authority regex_new regex_captures cmp profile (jwt_payload jwt)) in
  let! contract := mlift (map_err (fun e => invalid_request ("invalid continuity_proposal: " +:+ e))
                            (from_continuity_proposal X K C proposal_value)) in
  let! authority := mlift (map_err (fun e => invalid_grant ("invalid derived authority: " +:+ e))
                             (from_logical X K C (mapped_identity mapped) (mapped_invariants mapped) contract)) in
  let! challenge := random_fill 32 (server_error "could not generate the next challenge") in
  let! lineage := new_lineage_id in
  let! now := unix_now in
  let! expiry := mlift (initial_expiry X (b64_text T) (json_text T) proposal_value (claim_i64 jwt "exp") now
                          (token_lifetime ep) (expiry_policy ep)) in
  let pca := mkPca 0 authority challenge (Some lineage) (Some expiry) in
  let! k := get_token_keys in
  let! signer := mlift (realm_token_signer k (signing_algorithm ep)) in
  let context := mkContext (settlement_issuer ep) (claim_string jwt "sub") None (Some now) (Some expiry) (Some lineage) in
  let! issued := on_ring (map_err_m (fun e => server_error ("could not issue PIC Token JWT: " +:+ e))
                            (issue_settled X K C pca signer (signer_sign signer) context)) in
  let! _ := record_event ep (initialized_event profile (claim_string jwt "sub") lineage (position (checkpoint issued))) in
  mret (pic_response (issued_token issued)).

(** ** Advancement *)

Definition validator (ep : TokenEndpoint P) (now : Z) : Por.Settings (S := AttesterKeyCache * Z) :=
  Por.mkSettings (trusted_attesters ep) (attester_keys ep, instant ep) now.

Definition cannot {R} (what : string) (r : result R string) : result R ExchangeError :=
  map_err (fun e => invalid_grant (what +:+ ": " +:+ e)) r.

(** [preflight_candidate_key_metadata], over the cell of the validator. *)
Definition preflight_candidate_key_metadata (cfg : Por.Settings (S := AttesterKeyCache * Z)) (candidate : string)
  : M (option Accepted) ExchangeError CandidateMetadata :=
  let! decoded := mlift (cannot "the candidate PIC Token JWT cannot be decoded" (decode_token X K C candidate)) in
  let! bytes := mlift (cannot "the candidate PIC Token JWT root cannot be decoded" (root_bytes decoded)) in
  let! continuity_cose := mlift (cannot "the candidate Continuity COSE cannot be decoded" (continuity_from_bytes X K C bytes)) in
  let! continuity := mlift (cannot "the candidate Continuity COSE payload cannot be decoded"
                              (payload_unverified continuity_cose)) in
  let! tbytes := mlift (cannot "the candidate Continuity does not carry exactly one transition"
                          (candidate_transition continuity)) in
  let! transition_cose := mlift (cannot "the candidate Transition COSE cannot be decoded" (transition_from_bytes X K C tbytes)) in
  let! transition := mlift (cannot "the candidate Transition COSE payload cannot be decoded"
                              (payload_unverified transition_cose)) in
  let! pca_cose := mlift (cannot "the candidate predecessor PCA COSE cannot be decoded"
                            (pca_payload_from_bytes X K C (root_pca continuity))) in
  let! predecessor := mlift (cannot "the candidate predecessor PCA payload cannot be decoded"
                               (payload_unverified pca_cose)) in
  if negb (bool_decide (por_type (proof_of_relationship transition) = accepted_type X K C))
  then mfail (invalid_grant ("proof_of_relationship.type must be `" +:+ accepted_type X K C +:+ "`"))
  else
    let! processed := map_err_m (fun e => invalid_grant ("the executor-profile evidence was rejected: " +:+ reject_text T e))
                        (validate_and_remember X cfg (proof_of_relationship transition)) in
    mlift (
      let? jwk := ok_or (claims processed !! "cnf" ≫= get "jwk")
                    (invalid_grant "the accepted executor-profile evidence did not expose `cnf.jwk`") in
      let? (jose, cose) := cannot "the executor-profile evidence `cnf.jwk` is unusable" (expected_algorithms_for_jwk X K C jwk) in
      if negb (bool_decide (candidate_alg decoded = jose))
      then Err (invalid_grant ("candidate PIC Token JWT algorithm `" +:+ candidate_alg decoded
                               +:+ "` does not match executor-profile key algorithm `" +:+ jose +:+ "`"))
      else
        let? cose_algorithm := ok_or cose
          (invalid_grant "the executor-profile workload key cannot verify PIC COSE signatures") in
        let? _ := require_cose_algorithm "candidate Continuity" (env_algorithm continuity_cose) cose_algorithm in
        let? _ := require_cose_algorithm "candidate Transition" (env_algorithm transition_cose) cose_algorithm in
        let? _ := require_matching_cose_kid (env_kid continuity_cose) (env_kid transition_cose) in
        if bool_decide (next_challenge transition = previous_challenge transition)
        then Err (invalid_grant "the transition next_challenge repeats the challenge it answers")
        else
          let? _ := match lineage_id predecessor with
                    | None => Ok tt
                    | Some expected =>
                      match candidate_jti decoded with
                      | Some actual => if bool_decide (actual = expected) then Ok tt
                          else Err (invalid_grant "candidate PIC Token JWT jti does not match predecessor PCA lineage_id")
                      | None => Err (invalid_grant "candidate PIC Token JWT has no jti matching predecessor PCA lineage_id")
                      end
                    end in
          let? expires := ok_or (expires_at predecessor)
                            (invalid_grant "the candidate predecessor checkpoint has no absolute expiration") in
          let? _ := match candidate_exp decoded with
                    | Some exp => if bool_decide (exp = expires) then Ok tt
                        else Err (invalid_grant "candidate PIC Token JWT exp does not match predecessor PCA expiration")
                    | None => Err (invalid_grant "candidate PIC Token JWT has no exp matching predecessor PCA expiration")
                    end in
          Ok (mkMetadata (lineage_id predecessor) expires (transition_position transition))).

(** What the realm supplies to settlement. *)
Definition settlement_authority (cfg : Por.Settings (S := AttesterKeyCache * Z)) (signer : RealmTokenSigner)
  : SettlementAuthority X K (AuthorityMap X K C) :=
  {| trusted := is_current_checkpoint X (pca_cose_from_bytes X K C);
     por := validate X cfg;
     revocation := is_revoked;
     policy_conformance := fun accepted pca =>
       conformance to_json accepted (contract_values X K C (context_of_authority pca));
     policy_request_binding := request_binding;
     realm_signer := signer;
     realm_sign := signer_sign signer |}.

(** Runs settlement on the ring and the validator's cell. *)
Definition run_settle (authority : SettlementAuthority X K (AuthorityMap X K C)) (candidate : string)
    (context : SettlementContext) (cell : option Accepted) : M K ExchangeError (result (Issued (AuthorityMap X K C)) string) :=
  fun k => let '(r, (k', _)) := settle X K C authority candidate context (k, cell) in (Ok r, k').

Definition advanced_event (ep : TokenEndpoint P) (lineage : string) (pos : Z) : AuditEvent :=
  at_continuity_position pos
    (with_continuity_id lineage (event_on (realm_name ep) (event_new "pic.exchange.advanced" (Continuity lineage)))).

Definition advance (ep : TokenEndpoint P) (candidate : string) : H TokenExchangeResponse :=
  let! now := unix_now in
  let! k := get_token_keys in
  let! signer := mlift (realm_token_signer k (signing_algorithm ep)) in
  let cfg := validator ep now in
  let '(pre, cell) := preflight_candidate_key_metadata cfg candidate None in
  match pre with
  | Err e => let! _ := record_advancement_rejected ep None None in mfail e
  | Ok metadata =>
    match meta_lineage_id metadata with
    | None =>
      let! _ := record_advancement_rejected ep None (Some (proposed_position metadata)) in
      mfail (invalid_grant "the candidate predecessor checkpoint has no lineage identifier")
    | Some lineage =>
      if meta_expires_at metadata <=? now
      then
        let! _ := record_advancement_rejected ep (Some lineage) (Some (proposed_position metadata)) in
        mfail (invalid_grant "the candidate predecessor checkpoint is expired")
      else
        let context := mkContext (settlement_issuer ep) None None (Some now) (Some (meta_expires_at metadata)) (Some lineage) in
        let! settled := on_ring (run_settle (settlement_authority cfg signer) candidate context cell) in
        match settled with
        | Err e =>
          let! _ := record_advancement_rejected ep (Some lineage) (Some (proposed_position metadata)) in
          mfail (invalid_grant ("the candidate was rejected: " +:+ e))
        | Ok issued =>
          let! lineage := mlift (ok_or (lineage_id (checkpoint issued))
                                   (server_error "the settled checkpoint has no lineage identifier to audit")) in
          let! _ := record_event ep (advanced_event ep lineage (position (checkpoint issued))) in
          mret (pic_response (issued_token issued))
        end
    end
  end.

(** ** The endpoint *)

Definition exchange (ep : TokenEndpoint P) (body : list byte) : H TokenExchangeResponse :=
  let! form := mlift (parse_form (utf8_text T) body) in
  let! grant := mlift (require form "grant_type") in
  if negb (bool_decide (grant = GRANT_TOKEN_EXCHANGE))
  then mfail (invalid_request ("unsupported grant_type `" +:+ grant +:+ "`"))
  else
    let! _ := mlift (match form !! "requested_token_type" with
                     | Some v => if bool_decide (v = TOKEN_TYPE_PIC X K C) then Ok tt
                                 else Err (invalid_target ("requested_token_type must be `" +:+ TOKEN_TYPE_PIC X K C +:+ "`"))
                     | None => Ok tt
                     end) in
    let! subject_token_type := mlift (require form "subject_token_type") in
    let! subject_token := mlift (require form "subject_token") in
    if bool_decide (subject_token_type = OAUTH_ACCESS_TOKEN_TYPE) then exchange_initial ep subject_token form
    else if bool_decide (subject_token_type = TOKEN_TYPE_PIC X K C)
    then
      if bool_decide (is_Some (form !! "continuity_proposal")) || bool_decide (is_Some (form !! "continuity_proposal_type"))
      then mfail (invalid_request "Profile 0.2 PIC-to-PIC advancement omits continuity_proposal")
      else advance ep subject_token
    else mfail (unsupported_token_type ("unsupported subject_token_type `" +:+ subject_token_type +:+ "`")).
End Endpoint.
