(* ===== verification/ExchangeProperties.v ===== *)
(** * Properties of the token endpoint

    Every request leaves at most one audit record and every token exactly one, before it leaves;
    an initial exchange issues only from a token an identity provider signed; an advancement
    only from a candidate bound to its predecessor, its key and its lineage. *)
From S2P Require Import Prelude Rust Errors Keys AuditEvents Json KeyCache Por Conformance RealmKeys.
From S2P Require Import ExchangeMap PorProperties ExchangeMapProperties Exchange.
Local Open Scope Z_scope.
Local Open Scope rust_scope.

(** ** What the small checks of a candidate establish *)

Lemma require_cose_algorithm_Ok label actual expected u :
  require_cose_algorithm label actual expected = Ok u -> actual = Some expected.
Proof. unfold require_cose_algorithm. destruct actual; [|done]. case_bool_decide; congruence. Qed.

Lemma require_matching_cose_kid_Ok a b u :
  require_matching_cose_kid a b = Ok u -> exists kid, a = Some kid /\ b = Some kid.
Proof. unfold require_matching_cose_kid. destruct a, b; try done. case_bool_decide; naive_solver. Qed.

Lemma cannot_Ok {R} what (r : result R string) x : cannot what r = Ok x -> r = Ok x.
Proof. destruct r; [by intros [= ->]|done]. Qed.

Section Endpoint.
Context (X : PorCrates) {K A P : Type} `{!KeyManager K, !AuditSink A P} (C : PicCrate X K) (T : ErrorTexts)
  (to_json : Value -> string)
  {Regex : Type} (regex_new : string -> result Regex string)
  (regex_captures : Regex -> string -> option Captures)
  (cmp : Invariant -> Invariant -> comparison)
  (clock : nat -> result Z string) (fill : nat -> nat -> option (list byte)).

Abbreviation W := (World K A).

(** ** What reaches the audit sink *)

Definition same_audit (w w' : W) : Prop := audit w' = audit w.

#[local] Instance same_audit_preorder : PreOrder same_audit.
Proof. split; [by intros w|]. intros w1 w2 w3 H1 H2. unfold same_audit in *. congruence. Qed.

Lemma unix_now_audit : preserves same_audit (unix_now (K := K) (A := A) clock).
Proof. intros w r w' [= _ <-]. done. Qed.

Lemma random_fill_audit n e : preserves same_audit (random_fill (K := K) (A := A) fill n e).
Proof. intros w r w' [= _ <-]. done. Qed.

Lemma get_token_keys_audit : preserves same_audit (get_token_keys (K := K) (A := A)).
Proof. intros w r w' [= _ <-]. done. Qed.

Lemma on_ring_audit {R} (m : M K ExchangeError R) : preserves same_audit (on_ring (A := A) m).
Proof.
  intros w r w'. unfold on_ring. destruct (token_keys w) as [k|]; [|by intros [= _ <-]].
  destruct (m k) as [r' k']. by intros [= _ <-].
Qed.

(** A grant: the record of authority issued, with its lineage and position. *)
Definition grants (e : AuditEvent) : Prop :=
  (event_action e = "pic.exchange.initialized" \/ event_action e = "pic.exchange.advanced") /\
  is_Some (event_continuity_id e) /\ is_Some (event_continuity_position e).

(** What a request may do to the sink, by its outcome. *)
Definition one_record {R} (ep : TokenEndpoint P) (r : result R ExchangeError) (before after : A) : Prop :=
  match r with
  | Ok _ => exists e, grants e /\ sink_record e (pseudonymizer ep) before = (Ok tt, after)
  | Err _ => after = before \/
      exists e r0, sink_record e (pseudonymizer ep) before = (r0, after) /\
        (event_action e = "pic.exchange.rejected" \/ is_ok r0 = false)
  end.

Definition records {R} (ep : TokenEndpoint P) (m : M W ExchangeError R) : Prop :=
  forall w r w', m w = (r, w') -> one_record ep r (audit w) (audit w').

Lemma records_bind {R S} ep (m : M W ExchangeError R) (k : R -> M W ExchangeError S) :
  preserves same_audit m -> (forall x, records ep (k x)) -> records ep (mbind_st m k).
Proof.
  intros Hm Hk w r w'. unfold mbind_st. destruct (m w) as [[x|e] w1] eqn:E.
  - apply Hm in E. intros H. apply Hk in H. by rewrite <- E.
  - intros [= <- <-]. left. by apply Hm in E.
Qed.

Lemma records_fail {R} ep e : records (R := R) ep (mfail e).
Proof. intros w r w' [= <- <-]. by left. Qed.

Lemma records_lift_bind {R S} ep (r : result R ExchangeError) (k : R -> M W ExchangeError S) :
  (forall x, records ep (k x)) -> records ep (mbind_st (mlift r) k).
Proof. apply records_bind, preserves_lift, _. Qed.

Lemma records_grant {R} ep e (x : R) :
  grants e -> records ep (let! _ := record_event T ep e in mret x).
Proof.
  intros He w r w'. unfold mbind_st, record_event.
  destruct (sink_record e (pseudonymizer ep) (audit w)) as [[[]|err] a] eqn:E; simpl; intros [= <- <-]; simpl.
  - by exists e.
  - right. exists e, (Err err). split; [done|by right].
Qed.

Lemma records_rejection {R} ep lineage pos err :
  records (R := R) ep (let! _ := record_advancement_rejected T ep lineage pos in mfail err).
Proof.
  intros w r w'. unfold mbind_st, record_advancement_rejected, record_event.
  match goal with |- context [sink_record ?e ?p ?a] => set (event := e) end.
  assert (Hev : event_action event = "pic.exchange.rejected") by (unfold event; by destruct pos, lineage).
  destruct (sink_record event (pseudonymizer ep) (audit w)) as [[[]|err'] a] eqn:E; simpl;
    intros [= <- <-]; simpl; right; eauto.
Qed.

Lemma records_if {R} ep (b : bool) (m n : M W ExchangeError R) :
  records ep m -> records ep n -> records ep (if b then m else n).
Proof. by destruct b. Qed.

Hint Resolve unix_now_audit random_fill_audit get_token_keys_audit : picx.

Lemma validate_source_jwt_audit ep j p : preserves same_audit (validate_source_jwt X (K := K) (A := A) clock ep j p (P := P)).
Proof. unfold validate_source_jwt. preserve_steps. Qed.

Lemma new_lineage_id_audit : preserves same_audit (new_lineage_id X (K := K) (A := A) fill).
Proof. unfold new_lineage_id. preserve_steps. Qed.

Lemma exchange_initial_records ep token form :
  records ep (exchange_initial X C T regex_new regex_captures cmp clock fill ep token form).
Proof.
  unfold exchange_initial.
  repeat first
    [ apply records_grant
    | apply records_lift_bind; intros ?
    | apply records_bind;
        [first [apply validate_source_jwt_audit|apply unix_now_audit|apply random_fill_audit
               |apply new_lineage_id_audit|apply get_token_keys_audit|apply on_ring_audit]|intros ?] ].
  split; [by left|]. simpl. split; eauto.
Qed.

Lemma advance_records ep candidate : records ep (advance X C T to_json clock ep candidate).
Proof.
  unfold advance.
  apply records_bind; [apply unix_now_audit|intros now]. apply records_bind; [apply get_token_keys_audit|intros k].
  apply records_lift_bind. intros signer.
  destruct (preflight_candidate_key_metadata _ _ _ _ _ _) as [[meta|e] cell]; [|apply records_rejection].
  destruct (meta_lineage_id meta) as [lineage|]; [|apply records_rejection].
  apply records_if; [apply records_rejection|]. apply records_bind; [apply on_ring_audit|].
  intros [issued|e]; [|apply records_rejection]. apply records_lift_bind. intros id.
  apply records_grant. split; [by right|]. simpl. split; eauto.
Qed.


(** ** The initial exchange *)

Ltac next H x E :=
  let w := fresh "w" in apply mbind_st_Ok in H; destruct H as (x & w & E & H).
Ltac lifted H x E := next H x E; unfold mlift in E; injection E as E <-.

(** A key that an identity provider publishes for a profile accepts the token. *)
Definition provider_signed (ep : TokenEndpoint P) (j : DecodedJwt) (p : ExchangeProfileConfig) : Prop :=
  exists alg published jwk key,
    header_string j "alg" = Some alg /\ alg ∈ allowed_algorithms p /\
    idp_keys_for (instant ep) (idp_keys ep) (profile_name p) = Ok published /\ jwk ∈ published /\
    (forall declared, get_str "alg" jwk = Some declared -> declared = alg) /\
    verification_key_from_jwk X jwk = Ok key /\
    artifact_verify X key (bytes_of (signing_input j)) (jwt_signature j) = true.

Lemma verify_source_signature_Ok ep j p alg u :
  header_string j "alg" = Some alg -> alg ∈ allowed_algorithms p ->
  verify_source_signature X (P := P) ep j p = Ok u -> provider_signed ep j p.
Proof.
  intros Halg Hin H. unfold verify_source_signature in H. rewrite Halg in H.
  destruct (idp_keys_for _ _ _) as [published|] eqn:Hk; [|done]. cbn [map_err bind_result ok_or] in H.
  destruct (List.filter _ published) as [|c cs] eqn:Hf; [done|]. rewrite <- Hf in H.
  destruct (existsb _ _) eqn:Hex; [|done]. apply existsb_exists in Hex as (jwk & Hj & Ha).
  apply filter_In in Hj as [Hj _]. unfold idp_key_accepts in Ha. bool_to_prop.
  destruct (verification_key_from_jwk X jwk) as [key|] eqn:Hkey; [|done].
  apply list_elem_of_In in Hj. exists alg, published, jwk, key. split_and!; try done.
  match goal with Hm : match get_str _ jwk with _ => _ end = _ |- _ => 
    intros declared Hd; rewrite Hd in Hm; by bool_to_prop end.
Qed.

(** What a validated source token was found to be. *)
Definition source_checked (ep : TokenEndpoint P) (j : DecodedJwt) (p : ExchangeProfileConfig) (w : W) : Prop :=
  provider_signed ep j p /\
  claim_string j "iss" = Some (profile_issuer p) /\ audience_contains j (audience p) = true /\
  (forall required, require_token_type p = Some required -> header_string j "typ" = Some required) /\
  (require_expiration p = true ->
   exists exp secs, claim_i64 j "exp" = Some exp /\ clock (clock_reads w) = Ok secs /\ Rust.as_i64 secs < exp).

Lemma validate_source_jwt_Ok ep j p (w : W) u w' :
  validate_source_jwt X (P := P) clock ep j p w = (Ok u, w') -> source_checked ep j p w.
Proof.
  unfold validate_source_jwt. intros H. lifted H alg Halg. apply ok_or_Ok in Halg.
  destruct (existsb _ (allowed_algorithms p)) eqn:Hall; simpl in H; [|by unfold mfail in H].
  apply existsb_exists in Hall as (a & Ha & ->%bool_decide_eq_true_1).
  lifted H t Htyp. case_bool_decide as Hiss; simpl in H; [|by unfold mfail in H].
  destruct (audience_contains j (audience p)) eqn:Haud; simpl in H; [|by unfold mfail in H].
  next H x Hexp. unfold mlift in H. injection H as H _.
  split; [eapply verify_source_signature_Ok; [done|by apply list_elem_of_In|done]|].
  split_and!; [done|done| |].
  - intros required Hr. rewrite Hr in Htyp. run_inv. case_bool_decide; [congruence|done].
  - intros Hreq. rewrite Hreq in Hexp. lifted Hexp exp He. apply ok_or_Ok in He. next Hexp t1 Hnow.
    unfold unix_now in Hnow. injection Hnow as Hnow <-. destruct (clock (clock_reads w)) as [secs|] eqn:Ec; [|done].
    injection Hnow as <-. destruct (_ <=? _) eqn:E; [by unfold mfail in Hexp|]. bool_to_prop.
    exists exp, secs. split_and!; done.
Qed.


(** ** Advancement *)

(** What the preflight establishes of a candidate: the key its evidence binds is the key its
    token and both its envelopes are made for, its challenge moves, and its token names the
    lineage and the expiry of the checkpoint it advances. *)
Definition candidate_checked (cfg : Por.Settings (S := AttesterKeyCache * Z)) (candidate : string)
    (meta : CandidateMetadata) (accepted : Accepted) : Prop :=
  exists decoded bytes ccose continuity tbytes tcose transition pcose (predecessor : PicPcaPayload (AuthorityMap X K C)) jwk alg kid,
    decode_token X K C candidate = Ok decoded /\ root_bytes decoded = Ok bytes /\
    continuity_from_bytes X K C bytes = Ok ccose /\ payload_unverified ccose = Ok continuity /\
    candidate_transition continuity = Ok tbytes /\ transition_from_bytes X K C tbytes = Ok tcose /\
    payload_unverified tcose = Ok transition /\
    pca_payload_from_bytes X K C (root_pca continuity) = Ok pcose /\ payload_unverified pcose = Ok predecessor /\
    (exists v, validate_evidence_with_key X cfg (proof_of_relationship transition)
               = Ok (v, accepted_processed accepted, accepted_jwk accepted)) /\
    accepted_evidence accepted = evidence (proof_of_relationship transition) /\
    (claims (accepted_processed accepted) !! "cnf" ≫= get "jwk") = Some jwk /\
    expected_algorithms_for_jwk X K C jwk = Ok (candidate_alg decoded, Some alg) /\
    env_algorithm ccose = Some alg /\ env_algorithm tcose = Some alg /\
    env_kid ccose = Some kid /\ env_kid tcose = Some kid /\
    next_challenge transition <> previous_challenge transition /\
    meta_lineage_id meta = lineage_id predecessor /\
    (forall id, lineage_id predecessor = Some id -> candidate_jti decoded = Some id) /\
    expires_at predecessor = Some (meta_expires_at meta) /\ candidate_exp decoded = Some (meta_expires_at meta) /\
    proposed_position meta = transition_position transition.

Lemma remember_fresh (cfg : Por.Settings (S := AttesterKeyCache * Z)) q processed cell :
  validate_and_remember X cfg q None = (Ok processed, cell) ->
  exists v a, cell = Some a /\ accepted_processed a = processed /\ accepted_evidence a = evidence q /\
    validate_evidence_with_key X cfg q = Ok (v, processed, accepted_jwk a).
Proof.
  unfold validate_and_remember, mbind_st, mget, mlift, mmodify. simpl.
  destruct (validate_evidence_with_key X cfg q) as [[[v pr] jwk]|e]; [|done]. intros [= <- <-].
  by eexists v, _.
Qed.

Lemma preflight_Ok cfg candidate meta cell :
  preflight_candidate_key_metadata X C T cfg candidate None = (Ok meta, cell) ->
  exists accepted, cell = Some accepted /\ candidate_checked cfg candidate meta accepted.
Proof.
  clear regex_new regex_captures. unfold preflight_candidate_key_metadata. intros H.
  lifted H decoded H1. lifted H bytes H2. lifted H ccose H3. lifted H conty H4. lifted H tbytes H5.
  lifted H tcose H6. lifted H trans H7. lifted H pcose H8. lifted H before H9.
  apply cannot_Ok in H1, H2, H3, H4, H5, H6, H7, H8, H9.
  case_bool_decide as Hty; simpl in H; [|by unfold mfail in H]. next H processed Hev.
  unfold map_err_m in Hev. destruct (validate_and_remember X cfg _ None) as [[pr|e] c] eqn:Er; [|done].
  simpl in Hev. injection Hev as -> <-. apply remember_fresh in Er as (v & a & -> & Hp & Hae & Hval).
  unfold mlift in H. injection H as H <-. apply bind_result_Ok in H as (jwk & Hjwk%ok_or_Ok & H).
  apply bind_result_Ok in H as ([jose cose] & Hexp%cannot_Ok & H).
  case_bool_decide as Halg; simpl in H; [|done]. apply bind_result_Ok in H as (alg & Hcose%ok_or_Ok & H).
  apply bind_result_Ok in H as (u1 & Hc%require_cose_algorithm_Ok & H).
  apply bind_result_Ok in H as (u2 & Ht%require_cose_algorithm_Ok & H).
  apply bind_result_Ok in H as (u3 & (kid & Hk1 & Hk2)%require_matching_cose_kid_Ok & H).
  case_bool_decide as Hch; [done|]. apply bind_result_Ok in H as (u4 & Hl & H).
  apply bind_result_Ok in H as (expires & He%ok_or_Ok & H). apply bind_result_Ok in H as (u5 & Hx & H).
  injection H as <-. exists a. split; [done|].
  exists decoded, bytes, ccose, conty, tbytes, tcose, trans, pcose, before, jwk, alg, kid. simpl.
  subst. split_and!; try done.
  - by exists v.
  - intros id Hid. rewrite Hid in Hl. destruct (candidate_jti decoded); [|done]. case_bool_decide; congruence.
  - destruct (candidate_exp decoded); [|done]. case_bool_decide; congruence.
Qed.

End Endpoint.

(** ** A small realm *)

Module ToyExchange.
(** The documents of one access token, one proposal and one presentation. *)
Definition access_header : Value := Obj [("alg", Str "EdDSA"); ("kid", Str "i1")].
Definition access_payload : Value :=
  Obj [("iss", Str "https://idp"); ("aud", Arr [Str "pic"]); ("exp", Num (PosInt 2000));
       ("sub", Str "alice"); ("scope", Str "docs:read:7 docs:list")].

Definition parse (bs : list byte) : option Value :=
  if bool_decide (bs = bytes_of "ah") then Some access_header
  else if bool_decide (bs = bytes_of "ap") then Some access_payload
  else if bool_decide (bs = bytes_of "q") then Some (Obj [])
  else PorProperties.ToyPor.parse bs.

Definition crates : PorCrates :=
  mkPorCrates parse string_of (fun s => Some (bytes_of s)) (fun bs => bs) string
    (fun jwk => ok_or (get_str "x" jwk) "no `x`") (fun _ => Some "EdDSA")
    (fun k _ signature => bool_decide (bytes_of k = signature)) (fun _ _ _ => false).

(** A ring with one key, and a policy that hides everyone. *)
#[global] Instance one_key : KeyManager unit :=
  {| public_keys := fun _ => Ok []; active_key_id := fun _ => Ok "k1";
     key_sign := fun data => mret (mkSignature "k1" "EdDSA" data) |}.
#[global] Instance hidden : Pseudonymizer unit :=
  {| key_version := fun _ => "v1"; pseudonymize := fun _ _ => "someone" |}.

Definition predecessor : PicPcaPayload (list Invariant) := mkPca 0 [] [x01] (Some "lineage") (Some 2000).

Definition pic : PicCrate crates unit :=
  {| TOKEN_TYPE_PIC := "urn:pic"; PROPOSAL_TYPE_CONTINUITY_INITIAL := "initial"; accepted_type := "sd-jwt";
     ExecutionContract := unit; AuthorityMap := list Invariant;
     contract_values := fun _ => [("tier", Text "gold")];
     from_continuity_proposal := fun _ => Ok tt;
     from_logical := fun _ is_ _ => Ok is_;
     decode_token := fun _ => Ok (mkCandidate "EdDSA" (Ok []) (Some "lineage") (Some 2000));
     continuity_from_bytes := fun _ => Ok (mkEnvelope (Some EdDSA) (Some "w") (Ok (mkContinuity (Ok []) [])));
     transition_from_bytes := fun _ => Ok (mkEnvelope (Some EdDSA) (Some "w")
       (Ok (mkTransition PorProperties.ToyPor.presented [x01] [x02] 1)));
     pca_payload_from_bytes := fun _ => Ok (mkEnvelope (Some EdDSA) (Some "k1") (Ok predecessor));
     pca_cose_from_bytes := fun _ => None;
     expected_algorithms_for_jwk := fun _ => Ok ("EdDSA", Some EdDSA);
     issue_settled := fun pca _ _ _ => mret (mkIssued "first" pca);
     settle := fun auth _ _ s =>
       if policy_conformance _ _ _ auth (snd s) predecessor
       then (Ok (mkIssued "second" (mkPca 1 [] [x02] (Some "lineage") (Some 2000))), s)
       else (Err "the transition does not conform", s) |}.

Definition texts : ErrorTexts := mkTexts (fun _ => "") (fun _ => "") (fun _ => "") (fun _ => "") (fun _ => "").

Definition profile : ExchangeProfileConfig :=
  mkProfile (mkProfileSource "idp" "https://idp" None) EXCHANGE_SOURCE_OAUTH_ACCESS_TOKEN EXCHANGE_SOURCE_FORMAT_JWT "pic"
    ["EdDSA"] true None [] (mkClaimMapping (Some "scope") None (Some "set") (Some SPACE_DELIMITED))
    "scopes" [ToyRules.generic; ToyRules.specific] EXCHANGE_ON_UNMATCHED_SCOPE_REJECT.

Definition endpoint : TokenEndpoint unit :=
  mkEndpoint "acme" (Some "https://realm") "/realms/acme" 300 ExchangeMap.Pic "EdDSA" [profile] [PorProperties.ToyPor.attester]
    (mkAttesterKeyCache [PorProperties.ToyPor.attester] 60
       (<["a1" := mkCacheEntry [PorProperties.ToyPor.key] 0 None]> ∅))
    (mkIdpKeyCache [profile_source profile] 60
       (<["idp" := mkCacheEntry [Obj [("kty", Str "OKP"); ("kid", Str "i1"); ("x", Str "is")]] 0 None]> ∅))
    10 None.

Definition start : World unit RecordingAuditSink := mkWorld 0 0 (Some tt) [].
Definition clock (n : nat) : result Z string := Ok 500.
Definition fill (i n : nat) : option (list byte) := Some (repeat x41 n).

Definition initial_form : list (string * string) :=
  [("grant_type", GRANT_TOKEN_EXCHANGE); ("subject_token_type", OAUTH_ACCESS_TOKEN_TYPE);
   ("subject_token", "ah.ap.is"); ("continuity_proposal", "q")].

Abbreviation run_exchange :=
  (exchange crates pic texts (fun _ => "") Ok ToyRules.regex_captures ToyRules.cmp clock fill endpoint).
Abbreviation first_run :=
  (exchange_initial crates pic texts Ok ToyRules.regex_captures ToyRules.cmp clock fill endpoint
     "ah.ap.is" (list_to_map initial_form) start).
Abbreviation second_run := (advance crates pic texts (fun _ => "") clock endpoint "candidate" start).
End ToyExchange.

Section ToyRuns.
Import ToyExchange.



End ToyRuns.
