(* ===== verification/Realms.v ===== *)
(** * Realms: what a deployment declares and what the server serves
    ([RealmInput], [RealmConfig], [Realm] and [Realms] of [crates/pic-x-core/src/realm.rs]) *)
From S2P Require Import Prelude Rust Text AuditEvents Settings KeyCache ExchangeMap.
Local Open Scope Z_scope.

Definition DEFAULT_TOKEN_LIFETIME : Z := 3600.
Definition DEFAULT_KEY_CACHE_STALE_FOR : Z := 3600.
Definition DEFAULT_SIGNING_ALGORITHM : string := "EdDSA".

(** [TokenInitialExpiryPolicy::as_str]. *)
Definition expiry_policy_as_str (p : TokenInitialExpiryPolicy) : string :=
  match p with Later => "later" | Pic => "pic" | OAuth => "oauth" end.

(** What the configuration file says of a realm; what it leaves out is inherited. *)
Record RealmInput := mkRealmInput {
  in_name : string;
  in_issuer : option string;
  in_listed : option string;
  in_token_keys_enabled : option string;
  in_token_keys_publish_ahead : option string;
  in_token_keys_rotate_every : option string;
  in_token_keys_retain : option string;
  in_operations_keys_enabled : option string;
  in_operations_keys_publish_ahead : option string;
  in_operations_keys_rotate_every : option string;
  in_operations_keys_retain : option string;
  in_audit_sink : option string;
  in_audit_retention : option string;
  in_audit_pseudonym_enabled : option string;
  in_audit_pseudonym_key_ref : option string;
  in_audit_pseudonym_key_version : option string;
  in_secrets_provider : option string;
  in_secrets_env_prefix : option string;
  in_token_lifetime : option string;
  in_token_initial_expiry_policy : option string;
  in_key_cache_stale_for : option string;
  in_token_signing_algorithm : option string;
  in_exchange_profiles : list ExchangeProfileConfig;
  in_trusted_attesters : list TrustedAttesterConfig }.

(** A realm with every setting resolved. *)
Record RealmConfig := mkRealmConfig {
  rc_name : string;
  rc_mount_path : string;
  rc_issuer : option string;
  rc_listed : bool;
  rc_token_keys_enabled : bool;
  rc_token_keys_publish_ahead : Z;
  rc_token_keys_rotate_every : Z;
  rc_token_keys_retain : Z;
  rc_token_lifetime : Z;
  rc_token_initial_expiry_policy : TokenInitialExpiryPolicy;
  rc_key_cache_stale_for : Z;
  rc_token_signing_algorithm : string;
  rc_operations_keys_enabled : bool;
  rc_operations_keys_publish_ahead : Z;
  rc_operations_keys_rotate_every : Z;
  rc_operations_keys_retain : Z;
  rc_audit_destination : AuditDestination;
  rc_audit_retention : Z;
  rc_audit_pseudonym_enabled : bool;
  rc_audit_pseudonym_key_ref : option SecretRef;
  rc_audit_pseudonym_key_version : string;
  rc_secrets_provider : SecretProvider;
  rc_secrets_env_prefix : string;
  rc_exchange_profiles : list ExchangeProfileConfig;
  rc_trusted_attesters : list TrustedAttesterConfig }.

(** ** The realms a server hosts *)

Section Realms.
(** What a realm is composed with: its two rings, its sink and its pseudonymiser. *)
Context {Ring Sink Policy : Type}.

Record Realm := mkRealm {
  realm_name : string;
  realm_mount_path : string;
  realm_issuer : option string;
  realm_listed : bool;
  operations_keys : option Ring;
  token_keys : option Ring;
  realm_audit : Sink;
  realm_pseudonymizer : option Policy;
  realm_exchange_profiles : list ExchangeProfileConfig;
  realm_trusted_attesters : list TrustedAttesterConfig;
  realm_token_lifetime : Z;
  realm_token_initial_expiry_policy : TokenInitialExpiryPolicy;
  realm_key_cache_stale_for : Z;
  realm_token_signing_algorithm : string }.

(** [Realm::new]. *)
Definition realm_new (name mount_path : string) (issuer : option string) (listed : bool)
  (operations tokens : option Ring) (sink : Sink) (policy : option Policy) : Realm :=
  mkRealm name mount_path issuer listed operations tokens sink policy [] []
    DEFAULT_TOKEN_LIFETIME Later DEFAULT_KEY_CACHE_STALE_FOR DEFAULT_SIGNING_ALGORITHM.

(** [Realm::url]. *)
Definition realm_url (r : Realm) (path : string) : string :=
  match realm_issuer r with
  | Some issuer => trim_end_matches (one_of [47]) issuer +:+ path
  | None => realm_mount_path r +:+ path
  end.

(** [Realms]: the realms by name, and the names by mount path. *)
Record Realms := mkRealms { realms_by_name : gmap string Realm; realms_by_mount : gmap string string }.

(** [Realms::new]. *)
Definition realms_new (realms : list Realm) : Realms :=
  fold_left (fun acc realm =>
    mkRealms (<[realm_name realm := realm]> (realms_by_name acc))
      (<[realm_mount_path realm := realm_name realm]> (realms_by_mount acc)))
    realms (mkRealms ∅ ∅).

Definition by_name (rs : Realms) (name : string) : option Realm := realms_by_name rs !! name.
Definition by_mount (rs : Realms) (path : string) : option Realm :=
  realms_by_mount rs !! path ≫= fun name => realms_by_name rs !! name.

(** [Realms::listed], as a set of names. *)
Definition is_listed (rs : Realms) (name : string) : bool :=
  match realms_by_name rs !! name with Some r => realm_listed r | None => false end.
End Realms.
Arguments Realm : clear implicits.
Arguments Realms : clear implicits.
