(* ===== verification/Config.v ===== *)
(** * The configuration of a deployment ([crates/pic-x-core/src/config.rs])

    Layers of settings, read into one record ([from_layers]); the realms of the file, resolved
    against it ([resolve_realm]); and the rules a configuration has to satisfy before a server
    starts ([validate]). Typed sections a build adds of its own are opaque to these rules; the map that
    carries them is in [Sections]. *)
From S2P Require Import Prelude Rust Text AuditEvents Access Limits Settings KeyCache ExchangeMap Realms.
Local Open Scope Z_scope.
Local Open Scope rust_scope.

(** ** The names of the settings *)

Definition SETTING_VERSION : string := "PIC_X_VERSION".
Definition SETTING_COPYRIGHT_YEAR : string := "PIC_X_COPYRIGHT_YEAR".
Definition SETTING_COPYRIGHT_HOLDER : string := "PIC_X_COPYRIGHT_HOLDER".
Definition SETTING_WORKING_DIR : string := "PIC_X_WORKING_DIR".
Definition SETTING_AUTOGENERATE : string := "PIC_X_AUTOGENERATE".
Definition SETTING_DEVELOPMENT_MODE : string := "PIC_X_DEVELOPMENT_MODE".
Definition SETTING_ISSUER : string := "PIC_X_ISSUER".
Definition SETTING_PUBLIC_PATH_PREFIX : string := "PIC_X_PUBLIC_PATH_PREFIX".
Definition SETTING_PUBLIC_HTTP_ADDR : string := "PIC_X_PUBLIC_HTTP_ADDR".
Definition SETTING_TELEMETRY_ADDR : string := "PIC_X_TELEMETRY_ADDR".
Definition SETTING_ADMIN_ADDR : string := "PIC_X_ADMIN_ADDR".
Definition SETTING_PUBLIC_TLS_CERT : string := "PIC_X_PUBLIC_TLS_CERT".
Definition SETTING_PUBLIC_TLS_KEY : string := "PIC_X_PUBLIC_TLS_KEY".
Definition SETTING_PUBLIC_TLS_CLIENT_CA : string := "PIC_X_PUBLIC_TLS_CLIENT_CA".
Definition SETTING_PUBLIC_TLS_CRL : string := "PIC_X_PUBLIC_TLS_CRL".
Definition SETTING_PUBLIC_TLS_MIN_VERSION : string := "PIC_X_PUBLIC_TLS_MIN_VERSION".
Definition SETTING_PUBLIC_TLS_ALLOW : string := "PIC_X_PUBLIC_TLS_ALLOW".
Definition SETTING_PUBLIC_DISCLOSE_BUILD : string := "PIC_X_PUBLIC_DISCLOSE_BUILD".
Definition SETTING_ADMIN_TLS_CERT : string := "PIC_X_ADMIN_TLS_CERT".
Definition SETTING_ADMIN_TLS_KEY : string := "PIC_X_ADMIN_TLS_KEY".
Definition SETTING_ADMIN_TLS_CLIENT_CA : string := "PIC_X_ADMIN_TLS_CLIENT_CA".
Definition SETTING_ADMIN_TLS_CRL : string := "PIC_X_ADMIN_TLS_CRL".
Definition SETTING_ADMIN_TLS_MIN_VERSION : string := "PIC_X_ADMIN_TLS_MIN_VERSION".
Definition SETTING_ADMIN_ALLOW : string := "PIC_X_ADMIN_ALLOW".
Definition SETTING_TELEMETRY_TLS_CERT : string := "PIC_X_TELEMETRY_TLS_CERT".
Definition SETTING_TELEMETRY_TLS_KEY : string := "PIC_X_TELEMETRY_TLS_KEY".
Definition SETTING_TELEMETRY_TLS_MIN_VERSION : string := "PIC_X_TELEMETRY_TLS_MIN_VERSION".
Definition SETTING_TLS_RELOAD : string := "PIC_X_TLS_RELOAD".
Definition SETTING_TLS_RELOAD_INTERVAL : string := "PIC_X_TLS_RELOAD_INTERVAL".
Definition SETTING_LIMITS_CONNECTIONS : string := "PIC_X_LIMITS_CONNECTIONS".
Definition SETTING_LIMITS_CONNECTIONS_PER_PEER : string := "PIC_X_LIMITS_CONNECTIONS_PER_PEER".
Definition SETTING_LIMITS_PEER_EXEMPT : string := "PIC_X_LIMITS_PEER_EXEMPT".
Definition SETTING_LIMITS_CONNECTION_LIFETIME : string := "PIC_X_LIMITS_CONNECTION_LIFETIME".
Definition SETTING_LIMITS_WRITE_STALL_TIMEOUT : string := "PIC_X_LIMITS_WRITE_STALL_TIMEOUT".
Definition SETTING_LIMITS_CONCURRENT_REQUESTS : string := "PIC_X_LIMITS_CONCURRENT_REQUESTS".
Definition SETTING_LIMITS_REQUEST_TIMEOUT : string := "PIC_X_LIMITS_REQUEST_TIMEOUT".
Definition SETTING_LIMITS_HANDSHAKE_TIMEOUT : string := "PIC_X_LIMITS_HANDSHAKE_TIMEOUT".
Definition SETTING_LIMITS_HEADER_TIMEOUT : string := "PIC_X_LIMITS_HEADER_TIMEOUT".
Definition SETTING_LIMITS_BODY_BYTES : string := "PIC_X_LIMITS_BODY_BYTES".
Definition SETTING_LIMITS_HEADER_BYTES : string := "PIC_X_LIMITS_HEADER_BYTES".
Definition SETTING_LOG_LEVEL : string := "PIC_X_LOG_LEVEL".
Definition SETTING_LOG_FORMAT : string := "PIC_X_LOG_FORMAT".
Definition SETTING_SHUTDOWN_TIMEOUT : string := "PIC_X_SHUTDOWN_TIMEOUT".
Definition SETTING_SECRETS_PROVIDER : string := "PIC_X_SECRETS_PROVIDER".
Definition SETTING_SECRETS_DIRECTORY : string := "PIC_X_SECRETS_DIRECTORY".
Definition SETTING_SECRETS_ENV_PREFIX : string := "PIC_X_SECRETS_ENV_PREFIX".
Definition SETTING_AUDIT_PSEUDONYM_ENABLED : string := "PIC_X_AUDIT_PSEUDONYM_ENABLED".
Definition SETTING_AUDIT_PSEUDONYM_KEY_REF : string := "PIC_X_AUDIT_PSEUDONYM_KEY_REF".
Definition SETTING_AUDIT_PSEUDONYM_KEY_VERSION : string := "PIC_X_AUDIT_PSEUDONYM_KEY_VERSION".
Definition SETTING_AUDIT_SINK : string := "PIC_X_AUDIT_SINK".
Definition SETTING_AUDIT_DIRECTORY : string := "PIC_X_AUDIT_DIRECTORY".
Definition SETTING_AUDIT_RETENTION : string := "PIC_X_AUDIT_RETENTION".
Definition SETTING_KEYS_ENABLED : string := "PIC_X_KEYS_ENABLED".
Definition SETTING_KEYS_DIRECTORY : string := "PIC_X_KEYS_DIRECTORY".
Definition SETTING_KEYS_PUBLISH_AHEAD : string := "PIC_X_KEYS_PUBLISH_AHEAD".
Definition SETTING_KEYS_ROTATE_EVERY : string := "PIC_X_KEYS_ROTATE_EVERY".
Definition SETTING_KEYS_RETAIN : string := "PIC_X_KEYS_RETAIN".
Definition SETTING_KEYS_MAINTENANCE_INTERVAL : string := "PIC_X_KEYS_MAINTENANCE_INTERVAL".

(** ** Defaults *)

Definition DEFAULT_KEY_VERSION : string := "v1".
Definition DEFAULT_TLS_RELOAD_INTERVAL : Z := 30.
Definition DEFAULT_KEYS_PUBLISH_AHEAD : Z := 60 * 60.
Definition DEFAULT_KEYS_ROTATE_EVERY : Z := 30 * 24 * 60 * 60.
Definition DEFAULT_KEYS_MAINTENANCE_INTERVAL : Z := 60.
Definition DEFAULT_KEYS_RETAIN : Z := 365 * 24 * 60 * 60.
Definition DEFAULT_AUDIT_RETENTION : Z := 90 * 24 * 60 * 60.
Definition DEFAULT_KEYS_SUBDIRECTORY : string := "operations/keys".
Definition DEFAULT_AUDIT_SUBDIRECTORY : string := "operations/audit".
Definition DEFAULT_SHUTDOWN_TIMEOUT : Z := 30.
Definition DEFAULT_WORKING_DIR : string := ".volume".
Definition DEFAULT_SECRETS_SUBDIRECTORY : string := "operations/secrets".
Definition DEFAULT_VERSION : string := "0.0.0".
Definition DEFAULT_COPYRIGHT_YEAR : string := "0000".
Definition DEFAULT_COPYRIGHT_HOLDER : string := "PIC-X".

(** ** The record *)

Record Layers := mkLayers {
  layer_file : list (string * string);
  layer_environment : list (string * string);
  layer_command_line : list (string * string) }.

Record BuildSettings := mkBuild {
  build_version : string; build_commit : string; build_copyright_year : string; build_copyright_holder : string }.

Record Config := mkConfig {
  cfg_version : string;
  cfg_commit : string;
  cfg_copyright_year : string;
  cfg_copyright_holder : string;
  cfg_working_dir : option string;
  cfg_autogenerate : bool;
  cfg_development_mode : bool;
  cfg_disclose_build : bool;
  cfg_issuer : option string;
  cfg_public_path_prefix : string;
  cfg_public_http_addr : option string;
  cfg_telemetry_addr : option string;
  cfg_admin_addr : option string;
  cfg_admin_allow : list AllowedPeer;
  cfg_log_level : LogLevel;
  cfg_log_format : LogFormat;
  cfg_public_tls : option TlsSettings;
  cfg_admin_tls : option TlsSettings;
  cfg_telemetry_tls : option TlsSettings;
  cfg_tls_reload : bool;
  cfg_tls_reload_interval : Z;
  cfg_limits : Limits;
  cfg_shutdown_timeout : Z;
  cfg_secrets_provider : SecretProvider;
  cfg_secrets_directory : option string;
  cfg_secrets_env_prefix : string;
  cfg_audit_destination : AuditDestination;
  cfg_audit_directory : option string;
  cfg_audit_retention : Z;
  cfg_audit_pseudonym_enabled : bool;
  cfg_audit_pseudonym_key_ref : option SecretRef;
  cfg_audit_pseudonym_key_version : string;
  cfg_keys_enabled : bool;
  cfg_keys_directory : option string;
  cfg_keys_publish_ahead : Z;
  cfg_keys_rotate_every : Z;
  cfg_keys_retain : Z;
  cfg_keys_maintenance_interval : Z;
  cfg_keys_lifecycle_declared : gset string;
  cfg_realms : list RealmConfig;
  cfg_declared : gset string;
  cfg_declared_values : gmap string string }.

(** [Config::default]. *)
Definition config_default : Config :=
  mkConfig DEFAULT_VERSION "unknown" DEFAULT_COPYRIGHT_YEAR DEFAULT_COPYRIGHT_HOLDER
    None false false true None "" None None None [] LevelInfo FormatJson None None None
    true DEFAULT_TLS_RELOAD_INTERVAL default_limits DEFAULT_SHUTDOWN_TIMEOUT
    ProviderNone None "PIC_X_SECRET" DestTracing None DEFAULT_AUDIT_RETENTION
    false None DEFAULT_KEY_VERSION false None
    DEFAULT_KEYS_PUBLISH_AHEAD DEFAULT_KEYS_ROTATE_EVERY DEFAULT_KEYS_RETAIN
    DEFAULT_KEYS_MAINTENANCE_INTERVAL ∅ [] ∅ ∅.

(** ** Reading layers *)

(** The settings of one layer: an empty value is a setting that was not given, and of several values
    under one name the last counts. *)
Definition settings_of (inputs : list (string * string)) : gmap string string :=
  fold_left (fun m '(key, value) => if is_empty value then m else <[key := value]> m) inputs ∅.

(** [if let Some(value) = settings.get(key) { self.field = read(value)?; }]. *)
Definition setting {A} (settings : gmap string string) (key : string) (read : string -> result A Error)
  (previous : A) : result A Error :=
  match settings !! key with
  | Some value => read value
  | None => Ok previous
  end.

Definition reading {A} (key : string) (parse : string -> result A Error) (value : string) : result A Error :=
  with_context ("reading " +:+ key) (parse value).

Definition as_text (value : string) : result string Error := Ok value.
Definition as_some_text (value : string) : result (option string) Error := Ok (Some value).
Definition without_slashes (value : string) : string := trim_end_matches (one_of [47]) value.

(** The settings of a surface's TLS block besides its certificate and key. *)
Record TlsKeys := mkTlsKeys {
  client_ca_key : option string; crl_key : option string; allow_key : option string; min_version_key : string }.

Definition optional_setting (settings : gmap string string) (key : option string) : option string :=
  key ≫= fun k => settings !! k.

(** [tls_of]. *)
Definition tls_of (settings : gmap string string) (cert_key key_key : string) (keys : TlsKeys)
  (previous : option TlsSettings) : result (option TlsSettings) Error :=
  match settings !! cert_key, settings !! key_key with
  | None, None => Ok previous
  | Some _, None => bail (cert_key +:+ " is set but " +:+ key_key +:+ " is not")
  | None, Some _ => bail (key_key +:+ " is set but " +:+ cert_key +:+ " is not")
  | Some cert, Some key =>
    let? allow := match allow_key keys with
      | Some k => match settings !! k with
                  | Some value => reading k parse_allowed value
                  | None => Ok []
                  end
      | None => Ok []
      end in
    let? version := match settings !! min_version_key keys with
      | Some value => reading (min_version_key keys) parse_tls_version value
      | None => Ok V1_3
      end in
    Ok (Some (mkTls cert key (optional_setting settings (client_ca_key keys))
                (optional_setting settings (crl_key keys)) allow version None))
  end.

Definition PUBLIC_TLS_KEYS : TlsKeys :=
  mkTlsKeys (Some SETTING_PUBLIC_TLS_CLIENT_CA) (Some SETTING_PUBLIC_TLS_CRL) (Some SETTING_PUBLIC_TLS_ALLOW)
    SETTING_PUBLIC_TLS_MIN_VERSION.
Definition ADMIN_TLS_KEYS : TlsKeys :=
  mkTlsKeys (Some SETTING_ADMIN_TLS_CLIENT_CA) (Some SETTING_ADMIN_TLS_CRL) None SETTING_ADMIN_TLS_MIN_VERSION.
Definition TELEMETRY_TLS_KEYS : TlsKeys :=
  mkTlsKeys None None None SETTING_TELEMETRY_TLS_MIN_VERSION.

(** The reader of [connections_per_peer], where zero is the way to switch the bound off. *)
Definition read_per_peer (value : string) : result Z Error :=
  ok_or (parse_uint U32_MAX (bytes_of (trim value)))
    ["reading " +:+ SETTING_LIMITS_CONNECTIONS_PER_PEER +:+ ": `" +:+ value +:+ "` is not a count"].

Definition read_lifetime (value : string) : result (option Z) Error :=
  let? lifetime := reading SETTING_LIMITS_CONNECTION_LIFETIME parse_duration_allow_zero value in
  Ok (if lifetime =? 0 then None else Some lifetime).

(** The limits of [apply_pairs]. *)
Definition apply_limits (s : gmap string string) (l : Limits) : result Limits Error :=
  let? connections := setting s SETTING_LIMITS_CONNECTIONS (reading SETTING_LIMITS_CONNECTIONS parse_count) (connections l) in
  let? per_peer := setting s SETTING_LIMITS_CONNECTIONS_PER_PEER read_per_peer (connections_per_peer l) in
  let? exempt := setting s SETTING_LIMITS_PEER_EXEMPT (parse_exempt SETTING_LIMITS_PEER_EXEMPT) (peer_exempt l) in
  let? lifetime := setting s SETTING_LIMITS_CONNECTION_LIFETIME read_lifetime (connection_lifetime l) in
  let? stall := setting s SETTING_LIMITS_WRITE_STALL_TIMEOUT
                  (reading SETTING_LIMITS_WRITE_STALL_TIMEOUT parse_duration) (write_stall_timeout l) in
  let? requests := setting s SETTING_LIMITS_CONCURRENT_REQUESTS
                     (reading SETTING_LIMITS_CONCURRENT_REQUESTS parse_count) (concurrent_requests l) in
  let? request := setting s SETTING_LIMITS_REQUEST_TIMEOUT
                    (reading SETTING_LIMITS_REQUEST_TIMEOUT parse_duration) (request_timeout l) in
  let? handshake := setting s SETTING_LIMITS_HANDSHAKE_TIMEOUT
                      (reading SETTING_LIMITS_HANDSHAKE_TIMEOUT parse_duration) (handshake_timeout l) in
  let? header := setting s SETTING_LIMITS_HEADER_TIMEOUT
                   (reading SETTING_LIMITS_HEADER_TIMEOUT parse_duration) (header_timeout l) in
  let? body := setting s SETTING_LIMITS_BODY_BYTES (reading SETTING_LIMITS_BODY_BYTES parse_bytes) (body_bytes l) in
  let? head := setting s SETTING_LIMITS_HEADER_BYTES (reading SETTING_LIMITS_HEADER_BYTES parse_bytes) (header_bytes l) in
  Ok (mkLimits connections per_peer exempt requests request handshake header body head lifetime stall).

Definition read_destination (value : string) : result AuditDestination Error :=
  reading SETTING_AUDIT_SINK (fun v => map_err (fun e => [e]) (parse_destination v)) value.

(** The lifecycle settings a layer stated. *)
Definition declares (s : gmap string string) (key : string) : gset string :=
  match s !! key with Some _ => {[key]} | None => ∅ end.

(** [Config::apply_pairs]: the settings are read in the order of the code, so the first one that
    cannot be read is the one reported. *)
Definition apply_pairs (inputs : list (string * string)) (c : Config) : result Config Error :=
  let s := settings_of inputs in
  let? version := setting s SETTING_VERSION as_text (cfg_version c) in
  let? year := setting s SETTING_COPYRIGHT_YEAR as_text (cfg_copyright_year c) in
  let? holder := setting s SETTING_COPYRIGHT_HOLDER as_text (cfg_copyright_holder c) in
  let? working_dir := setting s SETTING_WORKING_DIR as_some_text (cfg_working_dir c) in
  let? autogenerate := setting s SETTING_AUTOGENERATE (reading SETTING_AUTOGENERATE parse_bool) (cfg_autogenerate c) in
  let? development := setting s SETTING_DEVELOPMENT_MODE (reading SETTING_DEVELOPMENT_MODE parse_bool)
                        (cfg_development_mode c) in
  let? issuer := setting s SETTING_ISSUER (fun v => Ok (Some (without_slashes v))) (cfg_issuer c) in
  let? prefix := setting s SETTING_PUBLIC_PATH_PREFIX (fun v => Ok (without_slashes v)) (cfg_public_path_prefix c) in
  let? public := setting s SETTING_PUBLIC_HTTP_ADDR as_some_text (cfg_public_http_addr c) in
  let? telemetry := setting s SETTING_TELEMETRY_ADDR as_some_text (cfg_telemetry_addr c) in
  let? admin := setting s SETTING_ADMIN_ADDR as_some_text (cfg_admin_addr c) in
  let? allow := setting s SETTING_ADMIN_ALLOW (reading SETTING_ADMIN_ALLOW parse_allowed) (cfg_admin_allow c) in
  let? level := setting s SETTING_LOG_LEVEL (reading SETTING_LOG_LEVEL parse_log_level) (cfg_log_level c) in
  let? format := setting s SETTING_LOG_FORMAT (reading SETTING_LOG_FORMAT parse_log_format) (cfg_log_format c) in
  let? disclose := setting s SETTING_PUBLIC_DISCLOSE_BUILD (reading SETTING_PUBLIC_DISCLOSE_BUILD parse_bool)
                     (cfg_disclose_build c) in
  let? public_tls := tls_of s SETTING_PUBLIC_TLS_CERT SETTING_PUBLIC_TLS_KEY PUBLIC_TLS_KEYS (cfg_public_tls c) in
  let? admin_tls := tls_of s SETTING_ADMIN_TLS_CERT SETTING_ADMIN_TLS_KEY ADMIN_TLS_KEYS (cfg_admin_tls c) in
  let? telemetry_tls := tls_of s SETTING_TELEMETRY_TLS_CERT SETTING_TELEMETRY_TLS_KEY TELEMETRY_TLS_KEYS
                          (cfg_telemetry_tls c) in
  let? tls_reload := setting s SETTING_TLS_RELOAD (reading SETTING_TLS_RELOAD parse_bool) (cfg_tls_reload c) in
  let? reload_interval := setting s SETTING_TLS_RELOAD_INTERVAL (reading SETTING_TLS_RELOAD_INTERVAL parse_duration)
                            (cfg_tls_reload_interval c) in
  let? limits := apply_limits s (cfg_limits c) in
  let? shutdown := setting s SETTING_SHUTDOWN_TIMEOUT (reading SETTING_SHUTDOWN_TIMEOUT parse_duration)
                     (cfg_shutdown_timeout c) in
  let? provider := setting s SETTING_SECRETS_PROVIDER (reading SETTING_SECRETS_PROVIDER parse_secret_provider)
                     (cfg_secrets_provider c) in
  let? secrets_dir := setting s SETTING_SECRETS_DIRECTORY as_some_text (cfg_secrets_directory c) in
  let? env_prefix := setting s SETTING_SECRETS_ENV_PREFIX as_text (cfg_secrets_env_prefix c) in
  let? pseudonym := setting s SETTING_AUDIT_PSEUDONYM_ENABLED (reading SETTING_AUDIT_PSEUDONYM_ENABLED parse_bool)
                      (cfg_audit_pseudonym_enabled c) in
  let? key_ref := setting s SETTING_AUDIT_PSEUDONYM_KEY_REF as_some_text (cfg_audit_pseudonym_key_ref c) in
  let? key_version := setting s SETTING_AUDIT_PSEUDONYM_KEY_VERSION as_text (cfg_audit_pseudonym_key_version c) in
  let? destination := setting s SETTING_AUDIT_SINK read_destination (cfg_audit_destination c) in
  let? audit_dir := setting s SETTING_AUDIT_DIRECTORY as_some_text (cfg_audit_directory c) in
  let? retention := setting s SETTING_AUDIT_RETENTION (reading SETTING_AUDIT_RETENTION parse_duration)
                      (cfg_audit_retention c) in
  let? keys := setting s SETTING_KEYS_ENABLED (reading SETTING_KEYS_ENABLED parse_bool) (cfg_keys_enabled c) in
  let? keys_dir := setting s SETTING_KEYS_DIRECTORY as_some_text (cfg_keys_directory c) in
  let? ahead := setting s SETTING_KEYS_PUBLISH_AHEAD (reading SETTING_KEYS_PUBLISH_AHEAD parse_duration)
                  (cfg_keys_publish_ahead c) in
  let? rotate := setting s SETTING_KEYS_ROTATE_EVERY (reading SETTING_KEYS_ROTATE_EVERY parse_duration)
                   (cfg_keys_rotate_every c) in
  let? retain := setting s SETTING_KEYS_RETAIN (reading SETTING_KEYS_RETAIN parse_duration) (cfg_keys_retain c) in
  let? interval := setting s SETTING_KEYS_MAINTENANCE_INTERVAL
                     (reading SETTING_KEYS_MAINTENANCE_INTERVAL parse_duration) (cfg_keys_maintenance_interval c) in
  Ok (mkConfig version (cfg_commit c) year holder working_dir autogenerate development disclose issuer prefix
        public telemetry admin allow level format public_tls admin_tls telemetry_tls tls_reload reload_interval
        limits shutdown provider secrets_dir env_prefix destination audit_dir retention pseudonym key_ref
        key_version keys keys_dir ahead rotate retain interval
        (cfg_keys_lifecycle_declared c ∪ declares s SETTING_KEYS_PUBLISH_AHEAD
           ∪ declares s SETTING_KEYS_ROTATE_EVERY ∪ declares s SETTING_KEYS_RETAIN)
        (cfg_realms c) (cfg_declared c)
        (filter (fun kv => fst kv ∈ cfg_declared c) s ∪ cfg_declared_values c)).

(** [Config::apply_build_settings]. *)
Definition apply_build_settings (b : BuildSettings) (declared : gset string) : Config :=
  let d := config_default in
  mkConfig (build_version b) (build_commit b) (build_copyright_year b) (build_copyright_holder b)
    (cfg_working_dir d) (cfg_autogenerate d) (cfg_development_mode d) (cfg_disclose_build d) (cfg_issuer d)
    (cfg_public_path_prefix d) (cfg_public_http_addr d) (cfg_telemetry_addr d) (cfg_admin_addr d)
    (cfg_admin_allow d) (cfg_log_level d) (cfg_log_format d) (cfg_public_tls d) (cfg_admin_tls d)
    (cfg_telemetry_tls d) (cfg_tls_reload d) (cfg_tls_reload_interval d) (cfg_limits d)
    (cfg_shutdown_timeout d) (cfg_secrets_provider d) (cfg_secrets_directory d) (cfg_secrets_env_prefix d)
    (cfg_audit_destination d) (cfg_audit_directory d) (cfg_audit_retention d) (cfg_audit_pseudonym_enabled d)
    (cfg_audit_pseudonym_key_ref d) (cfg_audit_pseudonym_key_version d) (cfg_keys_enabled d)
    (cfg_keys_directory d) (cfg_keys_publish_ahead d) (cfg_keys_rotate_every d) (cfg_keys_retain d)
    (cfg_keys_maintenance_interval d) (cfg_keys_lifecycle_declared d) (cfg_realms d) declared
    (cfg_declared_values d).

(** [Config::from_layers]. *)
Definition from_layers (b : BuildSettings) (declared : gset string) (layers : Layers) : result Config Error :=
  let c := apply_build_settings b declared in
  let? c := apply_pairs (layer_file layers) c in
  let? c := apply_pairs (layer_environment layers) c in
  apply_pairs (layer_command_line layers) c.

(** ** Paths and public names *)

Definition working_dir (c : Config) : string := default DEFAULT_WORKING_DIR (cfg_working_dir c).
(** [Config::resolve]. *)
Definition resolve (c : Config) (path : string) : string :=
  if is_absolute path then path else path_join (working_dir c) path.

Definition secrets_directory (c : Config) : string :=
  resolve c (default DEFAULT_SECRETS_SUBDIRECTORY (cfg_secrets_directory c)).
Definition audit_directory (c : Config) : string :=
  resolve c (default DEFAULT_AUDIT_SUBDIRECTORY (cfg_audit_directory c)).
Definition keys_directory (c : Config) : string :=
  resolve c (default DEFAULT_KEYS_SUBDIRECTORY (cfg_keys_directory c)).
Definition realm_keys_directory (c : Config) (realm : string) : string :=
  resolve c ("realms/" +:+ realm +:+ "/operations/keys").
Definition realm_token_keys_directory (c : Config) (realm : string) : string :=
  resolve c ("realms/" +:+ realm +:+ "/keys").
Definition realm_audit_directory (c : Config) (realm : string) : string :=
  resolve c ("realms/" +:+ realm +:+ "/operations/audit").
Definition realm_secrets_directory (c : Config) (realm : string) : string :=
  resolve c ("realms/" +:+ realm +:+ "/operations/secrets").

(** [Config::public_url]. *)
Definition public_url (c : Config) (path : string) : string :=
  match cfg_issuer c with
  | Some issuer => without_slashes issuer +:+ path
  | None => path
  end.

(** [Config::resolved_tls]. *)
Definition resolved_tls (c : Config) (settings : option TlsSettings) : option TlsSettings :=
  (fun t =>
     let r := resolved_in (working_dir c) t in
     mkTls (certificate r) (tls_key r) (client_ca r) (crl r) (tls_allow r) (min_version r)
       (if cfg_tls_reload c then Some (cfg_tls_reload_interval c) else None)) <$> settings.

(** ** Realms of the file *)

Definition parse_token_initial_expiry_policy (value : string) : result TokenInitialExpiryPolicy Error :=
  let v := trim value in
  if bool_decide (v = "later") then Ok Later
  else if bool_decide (v = "pic") then Ok Pic
  else if bool_decide (v = "oauth") then Ok OAuth
  else bail ("`" +:+ v +:+ "` is not an initial token expiry policy: expected later, pic or oauth").

Section Uppercase.
(** The upper-case mapping of Unicode outside ASCII. *)
Context (unicode_uppercase : Z -> list Z).

(** [str::to_uppercase]. *)
Definition char_to_uppercase (c : Z) : list Z :=
  if (97 <=? c) && (c <=? 122) then [c - 32]
  else if c <? 128 then [c] else unicode_uppercase c.
Definition to_uppercase (s : string) : string := of_chars (flat_map char_to_uppercase (chars s)).

(** [str::replace] of characters of a set by another character. *)
Definition replace_chars (p : Z -> bool) (by_ : Z) (s : string) : string :=
  of_chars (map (fun c => if p c then by_ else c) (chars s)).

Section ResolveRealm.
Context (c : Config) (input : RealmInput).

Definition for_realm (what : string) : string :=
  "reading `" +:+ what +:+ "` for the realm `" +:+ in_name input +:+ "`".

(** A setting of the realm, or the server's. *)
Definition inherit {A} (value : option string) (server : A) (field : string) (parse : string -> result A Error)
  : result A Error :=
  match value with
  | Some v => with_context (for_realm field) (parse v)
  | None => Ok server
  end.

(** A setting a realm that signs tokens has to state. *)
Definition require_token (enabled : bool) (value : option string) (field : string) : result Z Error :=
  match value with
  | Some v => with_context (for_realm ("keys." +:+ field)) (parse_duration v)
  | None =>
    if negb enabled then Ok 0
    else bail ("the realm `" +:+ in_name input +:+ "` signs tokens but declares no `keys." +:+ field
      +:+ "`: a signing-key lifecycle has to be stated, this build does not default one. Set the realm's "
      +:+ "`keys.publish_ahead`, `keys.rotate_every` and `keys.retain`, or `keys.enabled: false` if it issues nothing")
  end.

Definition read_token_lifetime (enabled : bool) : result Z Error :=
  match in_token_lifetime input with
  | Some v => with_context ("the realm `" +:+ in_name input +:+ "` has an invalid `token_lifetime`") (parse_duration v)
  | None =>
    if negb enabled then Ok 0
    else bail ("the realm `" +:+ in_name input +:+ "` issues tokens but declares no `token_lifetime`: how long "
      +:+ "issued authority stays valid is a deployment decision, and this build does not default one. Set the "
      +:+ "realm's `token_lifetime`, or `keys.enabled: false` if it issues nothing")
  end.

Definition read_signing_algorithm : result string Error :=
  match in_token_signing_algorithm input with
  | None => Ok "EdDSA"
  | Some a =>
    if bool_decide (a = "EdDSA") then Ok "EdDSA"
    else if bool_decide (a = "ES256") then Ok "ES256"
    else bail ("the realm `" +:+ in_name input +:+ "` names the signing algorithm `" +:+ a
               +:+ "`, which this build cannot produce: use `EdDSA` or `ES256`")
  end.

(** [Config::resolve_realm]. *)
Definition resolve_realm : result RealmConfig Error :=
  let name := in_name input in
  let? listed := inherit (in_listed input) false "listed" parse_bool in
  let? provider := match in_secrets_provider input with
    | Some v => with_context ("reading the secrets provider for the realm `" +:+ name +:+ "`") (parse_secret_provider v)
    | None => Ok (cfg_secrets_provider c)
    end in
  let? destination := match in_audit_sink input with
    | Some v => with_context ("reading the audit sink for the realm `" +:+ name +:+ "`")
                  (map_err (fun e => [e]) (parse_destination v))
    | None => Ok (cfg_audit_destination c)
    end in
  let issuer := match in_issuer input with
    | Some i => Some i
    | None => (fun base => without_slashes base +:+ "/realms/" +:+ name) <$> cfg_issuer c
    end in
  let? tokens := inherit (in_token_keys_enabled input) true "keys.enabled" parse_bool in
  let? ahead := require_token tokens (in_token_keys_publish_ahead input) "publish_ahead" in
  let? rotate := require_token tokens (in_token_keys_rotate_every input) "rotate_every" in
  let? retain := require_token tokens (in_token_keys_retain input) "retain" in
  let? lifetime := read_token_lifetime tokens in
  let? policy := match in_token_initial_expiry_policy input with
    | Some v => with_context ("the realm `" +:+ name +:+ "` has an invalid `token_initial_expiry_policy`")
                  (parse_token_initial_expiry_policy v)
    | None => Ok Later
    end in
  let? stale := match in_key_cache_stale_for input with
    | Some v => with_context ("the realm `" +:+ name +:+ "` has an invalid `key_cache_stale_for`")
                  (parse_duration_allow_zero v)
    | None => Ok 3600
    end in
  let? algorithm := read_signing_algorithm in
  let? ops := inherit (in_operations_keys_enabled input) (cfg_keys_enabled c) "operations.keys.enabled" parse_bool in
  let? ops_ahead := inherit (in_operations_keys_publish_ahead input) (cfg_keys_publish_ahead c)
                      "operations.keys.publish_ahead" parse_duration in
  let? ops_rotate := inherit (in_operations_keys_rotate_every input) (cfg_keys_rotate_every c)
                       "operations.keys.rotate_every" parse_duration in
  let? ops_retain := inherit (in_operations_keys_retain input) (cfg_keys_retain c)
                       "operations.keys.retain" parse_duration in
  let? retention := inherit (in_audit_retention input) (cfg_audit_retention c) "audit.retention" parse_duration in
  let? pseudonym := inherit (in_audit_pseudonym_enabled input) (cfg_audit_pseudonym_enabled c)
                      "audit.pseudonym.enabled" parse_bool in
  Ok (mkRealmConfig name ("/realms/" +:+ name) issuer listed tokens ahead rotate retain lifetime policy stale
        algorithm ops ops_ahead ops_rotate ops_retain destination retention pseudonym
        (match in_audit_pseudonym_key_ref input with Some r => Some r | None => cfg_audit_pseudonym_key_ref c end)
        (default (cfg_audit_pseudonym_key_version c) (in_audit_pseudonym_key_version input))
        provider
        (default (cfg_secrets_env_prefix c +:+ "_" +:+ replace_chars (one_of [45]) 95 (to_uppercase name))
           (in_secrets_env_prefix input))
        (in_exchange_profiles input) (in_trusted_attesters input)).
End ResolveRealm.

(** [self.realms = realms]. *)
Definition set_realms (rs : list RealmConfig) (c : Config) : Config :=
  mkConfig (cfg_version c) (cfg_commit c) (cfg_copyright_year c) (cfg_copyright_holder c)
    (cfg_working_dir c) (cfg_autogenerate c) (cfg_development_mode c) (cfg_disclose_build c) (cfg_issuer c)
    (cfg_public_path_prefix c) (cfg_public_http_addr c) (cfg_telemetry_addr c) (cfg_admin_addr c)
    (cfg_admin_allow c) (cfg_log_level c) (cfg_log_format c) (cfg_public_tls c) (cfg_admin_tls c)
    (cfg_telemetry_tls c) (cfg_tls_reload c) (cfg_tls_reload_interval c) (cfg_limits c)
    (cfg_shutdown_timeout c) (cfg_secrets_provider c) (cfg_secrets_directory c) (cfg_secrets_env_prefix c)
    (cfg_audit_destination c) (cfg_audit_directory c) (cfg_audit_retention c) (cfg_audit_pseudonym_enabled c)
    (cfg_audit_pseudonym_key_ref c) (cfg_audit_pseudonym_key_version c) (cfg_keys_enabled c)
    (cfg_keys_directory c) (cfg_keys_publish_ahead c) (cfg_keys_rotate_every c) (cfg_keys_retain c)
    (cfg_keys_maintenance_interval c) (cfg_keys_lifecycle_declared c) rs (cfg_declared c)
    (cfg_declared_values c).

(** [Config::with_realms]. *)
Definition with_realms (inputs : list RealmInput) (c : Config) : result Config Error :=
  let? rs := collect_all (resolve_realm c) inputs in Ok (set_realms rs c).
End Uppercase.
