(* ===== verification/ConfigRules.v ===== *)
(** * The rules of a configuration ([Config::validate] of [crates/pic-x-core/src/config.rs])

    Each rule is the code's, in the code's order; the first one that does not hold is the error. *)
From S2P Require Import Prelude Rust Text AuditEvents Access Limits Settings KeyCache ExchangeMap Realms Config.
Local Open Scope Z_scope.
Local Open Scope rust_scope.

(** [KEY_SET_MAX_AGE] of [keys.rs]. *)
Definition KEY_SET_MAX_AGE : Z := 300.

(** [if !holds { bail!(text) }]. *)
Definition ensure (holds : bool) (text : string) : result unit Error :=
  if holds then Ok tt else bail text.

Fixpoint each {A} (check : A -> result unit Error) (l : list A) : result unit Error :=
  match l with
  | [] => Ok tt
  | x :: r => let? _ := check x in each check r
  end.

Definition is_blank (s : string) : bool := is_empty (trim s).

(** How a [Duration] of whole seconds is printed. *)
Definition show_duration (d : Z) : string := string_of (dec d) +:+ "s".

Section Rules.
Context (c : Config).

(** [Config::require_public_https]. *)
Definition require_public_https (url field : string) : result unit Error :=
  ensure (cfg_development_mode c || starts_with "https://" url)
    ("the " +:+ field +:+ " " +:+ url +:+ " is not https: it is a public identity clients are told to trust and "
     +:+ "fetch their verification keys from, so it must use https (RFC 8414). Put it behind something that "
     +:+ "terminates TLS and state the https URL here, or say `development_mode: true` for a local run").

(** [Config::validate_development]. *)
Definition validate_development : result unit Error :=
  ensure (negb (cfg_autogenerate c && negb (cfg_development_mode c)))
    ("generating missing material is only offered in development: set `development_mode: true` if this is one, "
     +:+ "or supply the material this deployment is missing").

(** [Config::validate_admin_access]. *)
Definition validate_admin_access : result unit Error :=
  match cfg_admin_addr c with
  | None => Ok tt
  | Some address =>
    let mutual := match cfg_admin_tls c with Some t => is_mutual t | None => false end in
    if negb mutual then
      ensure (is_loopback address || cfg_development_mode c)
        ("the administrative surface is bound to " +:+ address +:+ ", which is reachable from outside this host, "
         +:+ "and demands no client certificate: set `admin.tls.client_ca`, bind it to a loopback address, or say "
         +:+ "`development_mode: true`")
    else
      ensure (negb (bool_decide (cfg_admin_allow c = []) && negb (cfg_development_mode c)))
        ("the administrative surface demands a client certificate but names nobody: list the peers that may "
         +:+ "administer it under `admin.allow`, because a certificate authority signs every client it was built "
         +:+ "for and mutual TLS alone would admit all of them")
  end.

(** [Config::check_key_lifecycle]. *)
Definition check_key_lifecycle (publish_ahead rotate_every retain : Z) (who : string) : result unit Error :=
  let? _ := ensure (publish_ahead <? rotate_every)
    ("for " +:+ who +:+ ", a key would be replaced after " +:+ show_duration rotate_every +:+ " but is only published "
     +:+ show_duration publish_ahead +:+ " before it signs: it would never get a turn") in
  let? _ := ensure (rotate_every <=? retain)
    ("for " +:+ who +:+ ", a retired key is kept for " +:+ show_duration retain +:+ " but keys are replaced every "
     +:+ show_duration rotate_every +:+ ", which leaves signatures made in between with no published key to verify against") in
  ensure ((KEY_SET_MAX_AGE <=? publish_ahead) || cfg_development_mode c)
    ("for " +:+ who +:+ ", a key would start signing " +:+ show_duration publish_ahead +:+ " after it is published, but "
     +:+ "the key set is served with a cache of " +:+ show_duration KEY_SET_MAX_AGE +:+ ": every verifier holding a cached "
     +:+ "copy would reject the signatures made in between. Publish it at least " +:+ show_duration KEY_SET_MAX_AGE +:+ " ahead").

(** [Config::validate_key_lifecycle]. *)
Definition validate_key_lifecycle : result unit Error :=
  if negb (cfg_keys_enabled c) then Ok tt
  else
    let? _ := each (fun '(key, field) =>
        ensure (bool_decide (key ∈ cfg_keys_lifecycle_declared c))
          ("the operations keys are enabled but `operations.keys." +:+ field +:+ "` is not set: a signing-key "
           +:+ "lifecycle has to be stated, this build does not default one"))
      [(SETTING_KEYS_PUBLISH_AHEAD, "publish_ahead"); (SETTING_KEYS_ROTATE_EVERY, "rotate_every");
       (SETTING_KEYS_RETAIN, "retain")] in
    check_key_lifecycle (cfg_keys_publish_ahead c) (cfg_keys_rotate_every c) (cfg_keys_retain c) "the server".

(** ** Attesters *)

Definition check_attester (realm id : string) (a : TrustedAttesterConfig) : result unit Error :=
  let at_ := "the attester `" +:+ id +:+ "` in realm `" +:+ realm +:+ "`" in
  let? _ := ensure (negb (is_blank (attester_issuer a))) (at_ +:+ " has an empty issuer") in
  let? _ := ensure (negb (is_blank (jwks_uri a))) (at_ +:+ " has an empty jwks_uri") in
  let? _ := require_public_https (attester_issuer a) ("issuer of attester `" +:+ id +:+ "` in realm `" +:+ realm +:+ "`") in
  let? _ := require_public_https (jwks_uri a) ("jwks_uri of attester `" +:+ id +:+ "` in realm `" +:+ realm +:+ "`") in
  let? _ := ensure (negb (bool_decide (proof_types a = []))) (at_ +:+ " declares no proof types") in
  let? _ := ensure (bool_decide ("sd-jwt" ∈ proof_types a)) (at_ +:+ " does not support Profile 0.2 proof type `sd-jwt`") in
  let? _ := ensure (negb (bool_decide (formats a = []))) (at_ +:+ " declares no formats") in
  ensure (bool_decide ("sd-jwt" ∈ formats a)) (at_ +:+ " does not publish Profile 0.2 format `sd-jwt`").

Fixpoint check_attesters (realm : string) (seen : gset string) (l : list TrustedAttesterConfig) : result unit Error :=
  match l with
  | [] => Ok tt
  | a :: rest =>
    let id := trim (attester_id a) in
    let? _ := ensure (negb (is_empty id)) ("the realm `" +:+ realm +:+ "` declares an attester with an empty id") in
    let? _ := ensure (negb (bool_decide (id ∈ seen)))
                ("the realm `" +:+ realm +:+ "` declares the attester `" +:+ id +:+ "` twice") in
    let? _ := check_attester realm id a in
    check_attesters realm ({[id]} ∪ seen) rest
  end.

(** [Config::validate_trusted_attesters]. *)
Definition validate_trusted_attesters (l : list TrustedAttesterConfig) (realm : string) : result unit Error :=
  check_attesters realm ∅ l.
End Rules.

(** ** Exchange profiles *)

Definition has_text (o : option string) : bool :=
  match o with Some v => negb (is_blank v) | None => false end.

Section Profile.
Context (realm id : string).

Definition in_profile : string := "the exchange profile `" +:+ id +:+ "` in realm `" +:+ realm +:+ "`".

Definition check_mapping (entry : string * ClaimMapping) : result unit Error :=
  let '(claim, mapping) := entry in
  ensure (negb (Bool.eqb (has_text (from mapping)) (has_text (mapped_value mapping))))
    ("the identity-context mapping `" +:+ claim +:+ "` in exchange profile `" +:+ id +:+ "` of realm `" +:+ realm
     +:+ "` must declare exactly one of `from` or `value`").

Definition check_emit (rule : PrivilegeRule) (entry : string * string) : result unit Error :=
  let '(field, template) := entry in
  ensure (negb (is_blank template))
    (in_profile +:+ " emits an empty `" +:+ field +:+ "` from rule `" +:+ rule_name rule +:+ "`").

Definition check_rule (names : gset string) (priorities : gset Z) (rule : PrivilegeRule) : result unit Error :=
  let? _ := ensure (negb (is_blank (rule_name rule)))
    ("an exchange profile rule in `" +:+ id +:+ "` of realm `" +:+ realm +:+ "` has an empty name") in
  let? _ := ensure (negb (bool_decide (rule_name rule ∈ names)))
    (in_profile +:+ " declares rule `" +:+ rule_name rule +:+ "` twice") in
  let? _ := ensure (negb (bool_decide (priority rule ∈ priorities)))
    (in_profile +:+ " reuses priority " +:+ string_of (pad 0 (priority rule))
     +:+ "; rules with equal priority have unspecified order") in
  let? _ := ensure (negb (is_blank (pattern rule)))
    (in_profile +:+ " has an empty pattern for rule `" +:+ rule_name rule +:+ "`") in
  each (check_emit rule)
    [("scope", emit_scope (emit rule)); ("operation", emit_operation (emit rule));
     ("resource_type", emit_resource_type (emit rule)); ("resource_id", emit_resource_id (emit rule))].

Fixpoint check_rules (names : gset string) (priorities : gset Z) (l : list PrivilegeRule) : result unit Error :=
  match l with
  | [] => Ok tt
  | rule :: rest =>
    let? _ := check_rule names priorities rule in
    check_rules ({[rule_name rule]} ∪ names) ({[priority rule]} ∪ priorities) rest
  end.

(** One profile of [Config::validate_exchange_profiles]. *)
Definition check_profile (p : ExchangeProfileConfig) : result unit Error :=
  let? _ := ensure (bool_decide (token_type p = EXCHANGE_SOURCE_OAUTH_ACCESS_TOKEN))
    (in_profile +:+ " has unsupported source token type `" +:+ token_type p +:+ "`; this build supports `"
     +:+ EXCHANGE_SOURCE_OAUTH_ACCESS_TOKEN +:+ "` for initialization") in
  let? _ := ensure (bool_decide (source_format p = EXCHANGE_SOURCE_FORMAT_JWT))
    (in_profile +:+ " has unsupported source format `" +:+ source_format p +:+ "`; this build supports `"
     +:+ EXCHANGE_SOURCE_FORMAT_JWT +:+ "`") in
  let? _ := ensure (negb (is_blank (profile_issuer p))) (in_profile +:+ " has an empty source issuer") in
  let? _ := ensure (negb (is_blank (audience p))) (in_profile +:+ " has an empty source audience") in
  let? _ := ensure (negb (bool_decide (allowed_algorithms p = [])))
    (in_profile +:+ " declares no allowed source JWT algorithms") in
  let? _ := ensure (require_expiration p) (in_profile +:+ " must require expiration on incoming access tokens") in
  let? _ := ensure (has_text (require_token_type p)) (in_profile +:+ " must require an explicit source JWT `typ`") in
  let? _ := each check_mapping (identity_context p) in
  let? _ := ensure (match from (scopes_mapping p) with Some v => negb (is_empty v) | None => false end)
    (in_profile +:+ " must map `claims.scopes.from`") in
  let? _ := ensure (bool_decide (value_type (scopes_mapping p) = Some "set"))
    (in_profile +:+ " must map `claims.scopes.type: set`") in
  let? _ := ensure (bool_decide (privileges_source p = "scopes"))
    (in_profile +:+ " has unsupported privileges source `" +:+ privileges_source p +:+ "`; use `scopes`") in
  let? _ := ensure (negb (bool_decide (rules p = []))) (in_profile +:+ " declares no privilege rules") in
  let? _ := check_rules ∅ ∅ (rules p) in
  ensure (bool_decide (on_unmatched_scope p = EXCHANGE_ON_UNMATCHED_SCOPE_REJECT))
    (in_profile +:+ " has unsupported on_unmatched_scope `" +:+ on_unmatched_scope p +:+ "`; use `"
     +:+ EXCHANGE_ON_UNMATCHED_SCOPE_REJECT +:+ "`").
End Profile.

Fixpoint check_profiles (realm : string) (seen : gset string) (l : list ExchangeProfileConfig) : result unit Error :=
  match l with
  | [] => Ok tt
  | p :: rest =>
    let id := trim (profile_name p) in
    let? _ := ensure (negb (is_empty id))
                ("the realm `" +:+ realm +:+ "` declares an exchange profile with an empty id") in
    let? _ := ensure (negb (bool_decide (id ∈ seen)))
                ("the realm `" +:+ realm +:+ "` declares the exchange profile `" +:+ id +:+ "` twice") in
    let? _ := check_profile realm id p in
    check_profiles realm ({[id]} ∪ seen) rest
  end.

(** [Config::validate_exchange_profiles]. *)
Definition validate_exchange_profiles (l : list ExchangeProfileConfig) (realm : string) : result unit Error :=
  check_profiles realm ∅ l.

(** ** Realms *)

Definition name_byte (b : byte) : bool := between 97 122 b || between 48 57 b || bool_decide (b = x2d).

(** The shape of a realm name. *)
Definition shaped (name : string) : bool :=
  negb (is_empty name) && (str_len name <=? 40) && forallb name_byte (bytes_of name)
  && negb (starts_with "-" name) && negb (ends_with "-" name).

Section Validate.
Context (is_file : string -> bool) (c : Config).

Definition check_realm (realm : RealmConfig) : result unit Error :=
  let name := rc_name realm in
  let? _ := ensure (shaped name)
    ("the realm name `" +:+ name +:+ "` is not usable: a name becomes a URL path and a directory, so it must be "
     +:+ "1 to 40 characters of lowercase letters, digits and internal hyphens — nothing else") in
  let? _ := match rc_issuer realm with
    | Some issuer => require_public_https c issuer ("issuer of the realm `" +:+ name +:+ "`")
    | None => Ok tt
    end in
  let? _ := if rc_operations_keys_enabled realm then
      check_key_lifecycle c (rc_operations_keys_publish_ahead realm) (rc_operations_keys_rotate_every realm)
        (rc_operations_keys_retain realm) ("the operations ring of the realm `" +:+ name +:+ "`")
    else Ok tt in
  let? _ := if rc_token_keys_enabled realm then
      check_key_lifecycle c (rc_token_keys_publish_ahead realm) (rc_token_keys_rotate_every realm)
        (rc_token_keys_retain realm) ("the token ring of the realm `" +:+ name +:+ "`")
    else Ok tt in
  let? _ := if rc_audit_pseudonym_enabled realm then
      let? _ := ensure (negb (bool_decide (rc_secrets_provider realm = ProviderNone)))
        ("the realm `" +:+ name +:+ "` enables audit pseudonymisation but resolves secrets from nowhere: give it a "
         +:+ "`secrets.provider`, or turn its pseudonymisation off") in
      ensure (bool_decide (is_Some (rc_audit_pseudonym_key_ref realm)))
        ("the realm `" +:+ name +:+ "` enables audit pseudonymisation but names no secret: set `audit.pseudonym.key_ref`")
    else Ok tt in
  let? _ := validate_exchange_profiles (rc_exchange_profiles realm) name in
  validate_trusted_attesters c (rc_trusted_attesters realm) name.

Fixpoint check_realms (seen : gset string) (l : list RealmConfig) : result unit Error :=
  match l with
  | [] => Ok tt
  | realm :: rest =>
    let? _ := ensure (negb (bool_decide (rc_name realm ∈ seen)))
      ("two realms are named `" +:+ rc_name realm +:+ "`: a realm name has to be unique, because it is what decides "
       +:+ "whose keys sign and whose trail records") in
    let? _ := check_realm realm in
    check_realms ({[rc_name realm]} ∪ seen) rest
  end.

(** [Config::validate_realms]. *)
Definition validate_realms : result unit Error := check_realms ∅ (cfg_realms c).

(** [Config::declared_addresses]. *)
Definition declared_addresses : list (string * string) :=
  omap (fun '(label, addr) => (fun a => (label, a)) <$> addr)
    [("public", cfg_public_http_addr c); ("telemetry", cfg_telemetry_addr c); ("admin", cfg_admin_addr c)].

Definition check_tls (entry : string * option TlsSettings) : result unit Error :=
  let '(surface, tls) := entry in
  match tls with
  | Some t => with_context ("validating the " +:+ surface +:+ " TLS material") (tls_validate_in is_file (working_dir c) t)
  | None => Ok tt
  end.

Definition validate_pseudonyms : result unit Error :=
  if cfg_audit_pseudonym_enabled c then
    let? _ := ensure (negb (bool_decide (cfg_secrets_provider c = ProviderNone)))
      ("audit pseudonymisation is enabled but no secret provider is configured: the key is named by "
       +:+ "`audit.pseudonym.key_ref` and has to be resolved from somewhere") in
    let? _ := ensure (bool_decide (is_Some (cfg_audit_pseudonym_key_ref c)))
      ("audit pseudonymisation is enabled but names no secret: set `audit.pseudonym.key_ref` to the name of the key "
       +:+ "in the secret store") in
    ensure (negb (is_blank (cfg_audit_pseudonym_key_version c))) "the audit pseudonymisation key version is empty"
  else Ok tt.

(** [Config::validate]. *)
Definition validate : result unit Error :=
  let? _ := ensure (match cfg_public_tls c with
                    | Some t => bool_decide (tls_allow t = []) || is_mutual t
                    | None => true
                    end)
    ("the public surface names peers it answers but demands no client certificate: an allow list with no identity "
     +:+ "to check is a list nothing can satisfy — set `public.tls.client_ca`, or remove `public.tls.allow`") in
  let? _ := ensure (bool_decide (is_Some (cfg_public_http_addr c)))
    "the configuration defines no public listen address: set `public.http`, or pass --public-http-addr" in
  let? _ := each (fun '(label, addr) => ensure (negb (is_blank addr)) ("the " +:+ label +:+ " listen address is empty"))
              declared_addresses in
  let? _ := match cfg_issuer c with Some issuer => require_public_https c issuer "issuer" | None => Ok tt end in
  let? _ := ensure (is_empty (cfg_public_path_prefix c) || starts_with "/" (cfg_public_path_prefix c))
    ("the public path prefix " +:+ cfg_public_path_prefix c +:+ " does not start with a slash") in
  let? _ := each check_tls [("public", cfg_public_tls c); ("admin", cfg_admin_tls c); ("telemetry", cfg_telemetry_tls c)] in
  let? _ := validate_development c in
  let? _ := validate_admin_access c in
  let? _ := validate_key_lifecycle c in
  let? _ := validate_realms in
  validate_pseudonyms.
End Validate.
