(* ===== verification/ConfigLayers.v ===== *)
(** * How the layers of a configuration combine ([Config::from_layers])

    The reference is one line: a setting has the last value that any layer gave it, the file being
    read first, the environment after it and the command line last, and an empty value being no
    value. [later_layers_win] shows that reading layer by layer, field by field, computes it. *)
From S2P Require Import Prelude Rust Text AuditEvents Access Limits Settings KeyCache ExchangeMap Realms Config.
Local Open Scope Z_scope.
Local Open Scope rust_scope.

(** ** The reference *)

(** The last value given to a setting. *)
Definition last_given (key : string) (inputs : list (string * string)) : option string :=
  last (map snd (List.filter (fun kv => bool_decide (fst kv = key) && negb (is_empty (snd kv))) inputs)).

Lemma last_given_app key a b :
  last_given key (a ++ b) = match last_given key b with Some v => Some v | None => last_given key a end.
Proof. unfold last_given. by rewrite List.filter_app, map_app, last_app. Qed.

Lemma settings_of_snoc inputs key value :
  settings_of (inputs ++ [(key, value)]) =
  if is_empty value then settings_of inputs else <[key := value]> (settings_of inputs).
Proof. unfold settings_of. by rewrite fold_left_app. Qed.

(** The table of one layer holds the last value of each setting. *)
Lemma settings_of_last inputs key : settings_of inputs !! key = last_given key inputs.
Proof.
  induction inputs as [|[k v] inputs IH] using rev_ind; [done|].
  rewrite settings_of_snoc, last_given_app, <- IH. unfold last_given. simpl.
  destruct (is_empty v); rewrite ?andb_false_r, ?andb_true_r; [done|].
  case_bool_decide as E; simpl; [by rewrite E, lookup_insert_eq|by rewrite lookup_insert_ne].
Qed.

(** ** The settings that fill one field *)

Record Plain := mkPlain {
  plain_type : Type;
  plain_key : string;
  plain_read : string -> result plain_type Error;
  plain_field : Config -> plain_type }.
Arguments mkPlain {plain_type} _ _ _.

Definition duration_setting (key : string) (field : Config -> Z) : Plain := mkPlain key (reading key parse_duration) field.
Definition bool_setting (key : string) (field : Config -> bool) : Plain := mkPlain key (reading key parse_bool) field.
Definition text_setting (key : string) (field : Config -> string) : Plain := mkPlain key as_text field.
Definition optional_text (key : string) (field : Config -> option string) : Plain := mkPlain key as_some_text field.
Definition limit_setting {A} (key : string) (read : string -> result A Error) (field : Limits -> A) : Plain :=
  mkPlain key read (fun c => field (cfg_limits c)).

(** Every setting but those of the TLS blocks. *)
Definition PLAIN_SETTINGS : list Plain :=
  [ text_setting SETTING_VERSION cfg_version; text_setting SETTING_COPYRIGHT_YEAR cfg_copyright_year;
    text_setting SETTING_COPYRIGHT_HOLDER cfg_copyright_holder; optional_text SETTING_WORKING_DIR cfg_working_dir;
    bool_setting SETTING_AUTOGENERATE cfg_autogenerate; bool_setting SETTING_DEVELOPMENT_MODE cfg_development_mode;
    mkPlain SETTING_ISSUER (fun v => Ok (Some (without_slashes v))) cfg_issuer;
    mkPlain SETTING_PUBLIC_PATH_PREFIX (fun v => Ok (without_slashes v)) cfg_public_path_prefix;
    optional_text SETTING_PUBLIC_HTTP_ADDR cfg_public_http_addr; optional_text SETTING_TELEMETRY_ADDR cfg_telemetry_addr;
    optional_text SETTING_ADMIN_ADDR cfg_admin_addr;
    mkPlain SETTING_ADMIN_ALLOW (reading SETTING_ADMIN_ALLOW parse_allowed) cfg_admin_allow;
    mkPlain SETTING_LOG_LEVEL (reading SETTING_LOG_LEVEL parse_log_level) cfg_log_level;
    mkPlain SETTING_LOG_FORMAT (reading SETTING_LOG_FORMAT parse_log_format) cfg_log_format;
    bool_setting SETTING_PUBLIC_DISCLOSE_BUILD cfg_disclose_build; bool_setting SETTING_TLS_RELOAD cfg_tls_reload;
    duration_setting SETTING_TLS_RELOAD_INTERVAL cfg_tls_reload_interval;
    limit_setting SETTING_LIMITS_CONNECTIONS (reading SETTING_LIMITS_CONNECTIONS parse_count) connections;
    limit_setting SETTING_LIMITS_CONNECTIONS_PER_PEER read_per_peer connections_per_peer;
    limit_setting SETTING_LIMITS_PEER_EXEMPT (parse_exempt SETTING_LIMITS_PEER_EXEMPT) peer_exempt;
    limit_setting SETTING_LIMITS_CONNECTION_LIFETIME read_lifetime connection_lifetime;
    limit_setting SETTING_LIMITS_WRITE_STALL_TIMEOUT (reading SETTING_LIMITS_WRITE_STALL_TIMEOUT parse_duration)
      write_stall_timeout;
    limit_setting SETTING_LIMITS_CONCURRENT_REQUESTS (reading SETTING_LIMITS_CONCURRENT_REQUESTS parse_count)
      concurrent_requests;
    limit_setting SETTING_LIMITS_REQUEST_TIMEOUT (reading SETTING_LIMITS_REQUEST_TIMEOUT parse_duration) request_timeout;
    limit_setting SETTING_LIMITS_HANDSHAKE_TIMEOUT (reading SETTING_LIMITS_HANDSHAKE_TIMEOUT parse_duration)
      handshake_timeout;
    limit_setting SETTING_LIMITS_HEADER_TIMEOUT (reading SETTING_LIMITS_HEADER_TIMEOUT parse_duration) header_timeout;
    limit_setting SETTING_LIMITS_BODY_BYTES (reading SETTING_LIMITS_BODY_BYTES parse_bytes) body_bytes;
    limit_setting SETTING_LIMITS_HEADER_BYTES (reading SETTING_LIMITS_HEADER_BYTES parse_bytes) header_bytes;
    duration_setting SETTING_SHUTDOWN_TIMEOUT cfg_shutdown_timeout;
    mkPlain SETTING_SECRETS_PROVIDER (reading SETTING_SECRETS_PROVIDER parse_secret_provider) cfg_secrets_provider;
    optional_text SETTING_SECRETS_DIRECTORY cfg_secrets_directory; text_setting SETTING_SECRETS_ENV_PREFIX cfg_secrets_env_prefix;
    bool_setting SETTING_AUDIT_PSEUDONYM_ENABLED cfg_audit_pseudonym_enabled;
    optional_text SETTING_AUDIT_PSEUDONYM_KEY_REF cfg_audit_pseudonym_key_ref;
    text_setting SETTING_AUDIT_PSEUDONYM_KEY_VERSION cfg_audit_pseudonym_key_version;
    mkPlain SETTING_AUDIT_SINK read_destination cfg_audit_destination; optional_text SETTING_AUDIT_DIRECTORY cfg_audit_directory;
    duration_setting SETTING_AUDIT_RETENTION cfg_audit_retention; bool_setting SETTING_KEYS_ENABLED cfg_keys_enabled;
    optional_text SETTING_KEYS_DIRECTORY cfg_keys_directory; duration_setting SETTING_KEYS_PUBLISH_AHEAD cfg_keys_publish_ahead;
    duration_setting SETTING_KEYS_ROTATE_EVERY cfg_keys_rotate_every; duration_setting SETTING_KEYS_RETAIN cfg_keys_retain;
    duration_setting SETTING_KEYS_MAINTENANCE_INTERVAL cfg_keys_maintenance_interval ].

(** ** One layer *)

(** What a layer that gives [given] makes of a field that was [before]. *)
Definition field_after (p : Plain) (given : option string) (before after : Config) : Prop :=
  match given with
  | Some v => plain_read p v = Ok (plain_field p after)
  | None => plain_field p after = plain_field p before
  end.

Lemma setting_inv {A} s key (read : string -> result A Error) previous x :
  setting s key read previous = Ok x ->
  match s !! key with Some v => read v = Ok x | None => x = previous end.
Proof. unfold setting. destruct (s !! key); [done|]. by intros [= ->]. Qed.

Lemma apply_pairs_fields inputs c c' :
  apply_pairs inputs c = Ok c' ->
  Forall (fun p => field_after p (settings_of inputs !! plain_key p) c c') PLAIN_SETTINGS.
Proof.
  unfold apply_pairs, apply_limits. intros H. run_inv. unfold PLAIN_SETTINGS.
  repeat (apply Forall_cons; split; [match goal with
    | H : setting _ ?k _ _ = Ok _ |- field_after ?p _ _ _ => unify (plain_key p) k; exact (setting_inv _ _ _ _ _ H)
    end|]).
  apply Forall_nil; done.
Qed.

(** Why a layer cannot be read: a value its reader refuses, or a TLS block that is incomplete or
    has such a value. *)
Definition refuses (s : gmap string string) (e : Error) (p : Plain) : Prop :=
  exists v, s !! plain_key p = Some v /\ plain_read p v = Err e.

Definition TLS_BLOCKS : list (string * string * TlsKeys) :=
  [ (SETTING_PUBLIC_TLS_CERT, SETTING_PUBLIC_TLS_KEY, PUBLIC_TLS_KEYS);
    (SETTING_ADMIN_TLS_CERT, SETTING_ADMIN_TLS_KEY, ADMIN_TLS_KEYS);
    (SETTING_TELEMETRY_TLS_CERT, SETTING_TELEMETRY_TLS_KEY, TELEMETRY_TLS_KEYS) ].

Definition refuses_tls (s : gmap string string) (e : Error) (block : string * string * TlsKeys) : Prop :=
  let '(cert_key, key_key, keys) := block in
  (is_Some (s !! cert_key) /\ s !! key_key = None /\ e = [cert_key +:+ " is set but " +:+ key_key +:+ " is not"]) \/
  (s !! cert_key = None /\ is_Some (s !! key_key) /\ e = [key_key +:+ " is set but " +:+ cert_key +:+ " is not"]) \/
  (exists k v, allow_key keys = Some k /\ s !! k = Some v /\ reading k parse_allowed v = Err e) \/
  (exists v, s !! min_version_key keys = Some v /\ reading (min_version_key keys) parse_tls_version v = Err e).

Lemma setting_refuses {A} s key (read : string -> result A Error) previous e :
  setting s key read previous = Err e -> exists v, s !! key = Some v /\ read v = Err e.
Proof. unfold setting. destruct (s !! key); [eauto|done]. Qed.

Lemma tls_of_refuses s cert key keys previous e :
  tls_of s cert key keys previous = Err e -> refuses_tls s e (cert, key, keys).
Proof.
  unfold tls_of. simpl. destruct (s !! cert), (s !! key); [|intros [= <-]; eauto 10..|done].
  intros [H|(allow & _ & [H|(version & _ & [=])]%bind_result_Err)]%bind_result_Err.
  - destruct (allow_key keys) as [k|]; [|done]. destruct (s !! k) eqn:E; [|done]. right; right; left. eauto.
  - destruct (s !! min_version_key keys) eqn:E; [|done]. right; right; right. eauto.
Qed.

Lemma apply_pairs_refuses inputs c e :
  apply_pairs inputs c = Err e ->
  Exists (refuses (settings_of inputs) e) PLAIN_SETTINGS \/ Exists (refuses_tls (settings_of inputs) e) TLS_BLOCKS.
Proof.
  unfold apply_pairs, apply_limits. intros H.
  repeat match goal with
  | H : bind_result _ _ = Err _ |- _ => apply bind_result_Err in H as [H|(? & _ & H)]
  end; try done.
  all: match goal with
  | H : tls_of _ _ _ _ _ = Err _ |- _ =>
    right; apply tls_of_refuses in H; unfold TLS_BLOCKS; repeat first [apply Exists_cons_hd; exact H | apply Exists_cons_tl]
  | H : setting _ ?k _ _ = Err _ |- _ =>
    left; apply setting_refuses in H; unfold PLAIN_SETTINGS;
    repeat match goal with
    | |- Exists _ (?p :: _) => first [unify (plain_key p) k; apply Exists_cons_hd; exact H | apply Exists_cons_tl]
    end
  end.
Qed.

Definition LIFECYCLE_SETTINGS : list string := [SETTING_KEYS_PUBLISH_AHEAD; SETTING_KEYS_ROTATE_EVERY; SETTING_KEYS_RETAIN].

Lemma declares_elem s key k : k ∈ declares s key <-> k = key /\ is_Some (s !! key).
Proof.
  unfold declares. destruct (s !! key) eqn:E; [rewrite elem_of_singleton; split; [eauto|tauto]|].
  split; [set_solver|]. by intros [_ [? [=]]].
Qed.

(** The settings a build declared of its own, and the lifecycle settings the layer stated. *)
Lemma apply_pairs_declared inputs c c' :
  apply_pairs inputs c = Ok c' ->
  cfg_declared c' = cfg_declared c /\
  (forall k, k ∈ cfg_keys_lifecycle_declared c' <->
     k ∈ cfg_keys_lifecycle_declared c \/ (k ∈ LIFECYCLE_SETTINGS /\ is_Some (last_given k inputs))) /\
  (forall k, k ∈ cfg_declared c -> cfg_declared_values c' !! k =
     match last_given k inputs with Some v => Some v | None => cfg_declared_values c !! k end) /\
  (forall k, k ∉ cfg_declared c -> cfg_declared_values c' !! k = cfg_declared_values c !! k).
Proof.
  unfold apply_pairs. intros H. run_inv. simpl. split_and!; [done| | |].
  - intros k. rewrite !elem_of_union, !declares_elem, !settings_of_last. unfold LIFECYCLE_SETTINGS.
    rewrite !elem_of_cons, elem_of_nil. naive_solver.
  - intros k Hk. rewrite lookup_union, <- settings_of_last. destruct (settings_of inputs !! k) as [v|] eqn:E.
    + rewrite (map_lookup_filter_Some_2 _ _ _ v) by done. by destruct (cfg_declared_values c !! k).
    + rewrite (proj2 (map_lookup_filter_None _ _ _)) by (by left). by destruct (cfg_declared_values c !! k).
  - intros k Hk. rewrite lookup_union, (proj2 (map_lookup_filter_None _ _ _)); [by destruct (cfg_declared_values c !! k)|].
    right. by intros v _.
Qed.

(** ** Three layers *)

(** Everything the layers give, in the order they are read. *)
Definition all_inputs (l : Layers) : list (string * string) :=
  layer_file l ++ layer_environment l ++ layer_command_line l.

Lemma field_after_step p before c c' a b :
  field_after p (last_given (plain_key p) a) before c -> field_after p (last_given (plain_key p) b) c c' ->
  field_after p (last_given (plain_key p) (a ++ b)) before c'.
Proof.
  rewrite last_given_app. unfold field_after. destruct (last_given _ b); [done|].
  intros Ha Hb. destruct (last_given _ a); congruence.
Qed.

Lemma apply_pairs_last inputs c c' p :
  apply_pairs inputs c = Ok c' -> p ∈ PLAIN_SETTINGS -> field_after p (last_given (plain_key p) inputs) c c'.
Proof.
  intros H Hp. apply apply_pairs_fields in H. rewrite Forall_forall in H. rewrite <- settings_of_last. exact (H p Hp).
Qed.

Lemma from_layers_steps b declared layers c :
  from_layers b declared layers = Ok c -> exists c1 c2,
    apply_pairs (layer_file layers) (apply_build_settings b declared) = Ok c1 /\
    apply_pairs (layer_environment layers) c1 = Ok c2 /\ apply_pairs (layer_command_line layers) c2 = Ok c.
Proof.
  unfold from_layers. intros (c1 & H1 & (c2 & H2 & H3)%bind_result_Ok)%bind_result_Ok.
  exists c1, c2. exact (conj H1 (conj H2 H3)).
Qed.

(** Why the layers together cannot be read: one of them cannot. *)
Definition unreadable (e : Error) (inputs : list (string * string)) : Prop :=
  Exists (refuses (settings_of inputs) e) PLAIN_SETTINGS \/ Exists (refuses_tls (settings_of inputs) e) TLS_BLOCKS.

Lemma from_layers_Err b declared layers e :
  from_layers b declared layers = Err e ->
  Exists (unreadable e) [layer_file layers; layer_environment layers; layer_command_line layers].
Proof.
  unfold from_layers. intros [H|(c1 & _ & [H|(c2 & _ & H)]%bind_result_Err)]%bind_result_Err;
    apply apply_pairs_refuses in H; rewrite !Exists_cons; unfold unreadable; tauto.
Qed.

(** However the settings are spread over the configuration file, the environment and the
    command line: when they are accepted, every field outside the TLS blocks is what its reader
    makes of the last non-empty value given to it, the command line over the environment over the
    file, and the build's own value when none was given; the settings a build declared hold the
    last value given to them and nothing else is kept; and the lifecycle settings known as stated
    are exactly those that were. When they are refused, the error is that of a value a layer gives
    and its reader refuses, or of a TLS block a layer gives half of. *)
Theorem later_layers_win b declared layers :
  match from_layers b declared layers with
  | Ok c =>
    (forall p, p ∈ PLAIN_SETTINGS ->
       field_after p (last_given (plain_key p) (all_inputs layers)) (apply_build_settings b declared) c) /\
    (forall k, cfg_declared_values c !! k =
       if bool_decide (k ∈ declared) then last_given k (all_inputs layers) else None) /\
    (forall k, k ∈ cfg_keys_lifecycle_declared c <->
       k ∈ LIFECYCLE_SETTINGS /\ is_Some (last_given k (all_inputs layers)))
  | Err e => Exists (unreadable e) [layer_file layers; layer_environment layers; layer_command_line layers]
  end.
Proof.
  destruct (from_layers b declared layers) as [c|e] eqn:H; [|by eapply from_layers_Err].
  destruct (from_layers_steps _ _ _ _ H) as (c1 & c2 & H1 & H2 & H3). unfold all_inputs. split_and!.
  - intros p Hp. rewrite app_assoc.
    exact (field_after_step _ _ _ _ _ _
      (field_after_step _ _ _ _ _ _ (apply_pairs_last _ _ _ _ H1 Hp) (apply_pairs_last _ _ _ _ H2 Hp))
      (apply_pairs_last _ _ _ _ H3 Hp)).
  - intros k. destruct (apply_pairs_declared _ _ _ H1) as (D1 & _ & V1 & N1), (apply_pairs_declared _ _ _ H2) as (D2 & _ & V2 & N2),
      (apply_pairs_declared _ _ _ H3) as (D3 & _ & V3 & N3). rewrite !last_given_app. rewrite D1 in *. rewrite D2 in *.
    case_bool_decide as E.
    + rewrite V3, V2, V1 by done. simpl. rewrite lookup_empty. by repeat case_match.
    + by rewrite N3, N2, N1.
  - intros k. destruct (apply_pairs_declared _ _ _ H1) as (_ & L1 & _), (apply_pairs_declared _ _ _ H2) as (_ & L2 & _),
      (apply_pairs_declared _ _ _ H3) as (_ & L3 & _). rewrite L3, L2, L1, !last_given_app. simpl.
    rewrite elem_of_empty. unfold is_Some. repeat case_match; naive_solver.
Qed.

(** ** The values a configuration holds fit their types *)

Definition positive_u64 (d : Z) : Prop := 0 < d <= U64_MAX.
Definition positive_u32 (n : Z) : Prop := 0 < n <= U32_MAX.

Definition DURATIONS : list (string * (Config -> Z)) :=
  [ (SETTING_TLS_RELOAD_INTERVAL, cfg_tls_reload_interval); (SETTING_SHUTDOWN_TIMEOUT, cfg_shutdown_timeout);
    (SETTING_AUDIT_RETENTION, cfg_audit_retention); (SETTING_KEYS_PUBLISH_AHEAD, cfg_keys_publish_ahead);
    (SETTING_KEYS_ROTATE_EVERY, cfg_keys_rotate_every); (SETTING_KEYS_RETAIN, cfg_keys_retain);
    (SETTING_KEYS_MAINTENANCE_INTERVAL, cfg_keys_maintenance_interval);
    (SETTING_LIMITS_WRITE_STALL_TIMEOUT, fun c => write_stall_timeout (cfg_limits c));
    (SETTING_LIMITS_REQUEST_TIMEOUT, fun c => request_timeout (cfg_limits c));
    (SETTING_LIMITS_HANDSHAKE_TIMEOUT, fun c => handshake_timeout (cfg_limits c));
    (SETTING_LIMITS_HEADER_TIMEOUT, fun c => header_timeout (cfg_limits c)) ].

(** Durations are positive and counted in 64 bits, counts are positive and in 32, sizes positive and
    in 64; only the bound per peer may be zero, and only the lifetime of a connection may be none. *)
Record Fits (c : Config) : Prop := {
  fits_durations : Forall (fun kf => positive_u64 (snd kf c)) DURATIONS;
  fits_connections : positive_u32 (connections (cfg_limits c));
  fits_requests : positive_u32 (concurrent_requests (cfg_limits c));
  fits_per_peer : 0 <= connections_per_peer (cfg_limits c) <= U32_MAX;
  fits_body : positive_u64 (body_bytes (cfg_limits c));
  fits_header : positive_u64 (header_bytes (cfg_limits c));
  fits_exempt : Forall block_wf (peer_exempt (cfg_limits c));
  fits_lifetime : forall t, connection_lifetime (cfg_limits c) = Some t -> positive_u64 t }.

Lemma parse_uint_range max bs n : parse_uint max bs = Some n -> 0 <= n <= max.
Proof. unfold parse_uint, in_range. intros H. repeat case_match; simplify_eq; bool_to_prop; lia. Qed.

Lemma parse_duration_range v n : parse_duration v = Ok n -> positive_u64 n.
Proof.
  unfold parse_duration. cbv zeta.
  match goal with |- context [let '(_, _) := ?p in _] => set (pair := p) end.
  assert (Hm : 0 < snd pair) by (unfold pair; repeat case_match; reflexivity). destruct pair as [digits scale]. simpl in Hm.
  intros H. run_inv. match goal with H : parse_uint _ _ = Some _ |- _ => apply parse_uint_range in H as [Hn _] end.
  destruct (x =? 0) eqn:E; [done|]. run_inv. unfold checked_mul_u64 in *. case_match; [|done]. simplify_eq. bool_to_prop.
  unfold positive_u64. nia.
Qed.

Lemma parse_bytes_range v n : parse_bytes v = Ok n -> positive_u64 n.
Proof.
  unfold parse_bytes. cbv zeta.
  match goal with |- context [let '(_, _) := ?p in _] => set (pair := p) end.
  assert (Hm : 0 < snd pair) by (unfold pair; repeat case_match; reflexivity). destruct pair as [digits scale]. simpl in Hm.
  intros H. run_inv. match goal with H : parse_uint _ _ = Some _ |- _ => apply parse_uint_range in H as [Hn _] end.
  destruct (x =? 0) eqn:E; [done|]. run_inv. unfold checked_mul_u64 in *. case_match; [|done]. simplify_eq. bool_to_prop.
  unfold positive_u64. nia.
Qed.

Lemma parse_count_range v n : parse_count v = Ok n -> positive_u32 n.
Proof.
  unfold parse_count. intros H. run_inv.
  match goal with H : parse_uint _ _ = Some _ |- _ => apply parse_uint_range in H end.
  destruct (x =? 0) eqn:E; [done|]. simplify_eq. bool_to_prop. unfold positive_u32. lia.
Qed.

Lemma reading_Ok {A} key (parse : string -> result A Error) v x : reading key parse v = Ok x -> parse v = Ok x.
Proof. unfold reading, with_context. by destruct (parse v). Qed.

Lemma read_per_peer_range v n : read_per_peer v = Ok n -> 0 <= n <= U32_MAX.
Proof. unfold read_per_peer. intros H. run_inv. by eapply parse_uint_range. Qed.

Lemma read_lifetime_range v o : read_lifetime v = Ok o -> forall t, o = Some t -> positive_u64 t.
Proof.
  unfold read_lifetime. intros H. run_inv. intros t. destruct (x =? 0) eqn:E; [done|]. intros [= ->].
  match goal with H : reading _ _ _ = Ok _ |- _ => apply reading_Ok in H; revert H end. unfold parse_duration_allow_zero.
  case_bool_decide; [|apply parse_duration_range]. intros [= <-]. done.
Qed.

Lemma parse_exempt_wf key v blocks : parse_exempt key v = Ok blocks -> Forall block_wf blocks.
Proof.
  unfold parse_exempt. generalize (List.filter (fun entry => negb (is_empty entry)) (map trim (split x2c v))).
  intros l. revert blocks. induction l as [|x l IH]; intros blocks; simpl; [intros [= <-]; constructor|].
  intros H. run_inv. constructor; [|by apply IH].
  destruct (block_from_str x) eqn:E; simpl in *; simplify_eq. by eapply block_from_str_wf.
Qed.

(** What holds of a field and of everything its reader returns holds after a layer. *)
Lemma field_keeps (p : Plain) (P : plain_type p -> Prop) inputs c c' :
  p ∈ PLAIN_SETTINGS -> (forall v x, plain_read p v = Ok x -> P x) ->
  apply_pairs inputs c = Ok c' -> P (plain_field p c) -> P (plain_field p c').
Proof.
  intros Hp Hr H Hc. pose proof (apply_pairs_last _ _ _ _ H Hp) as Ha. unfold field_after in Ha.
  destruct (last_given (plain_key p) inputs); [exact (Hr _ _ Ha)|]. rewrite Ha. exact Hc.
Qed.

(** A setting is found in the table by walking it. *)
Ltac plain_member :=
  unfold PLAIN_SETTINGS; repeat match goal with |- ?p ∈ ?q :: _ =>
    first [unify (plain_key p) (plain_key q); left | right] end.

Lemma duration_keeps key field inputs c c' :
  (key, field) ∈ DURATIONS -> apply_pairs inputs c = Ok c' -> positive_u64 (field c) -> positive_u64 (field c').
Proof.
  intros Hin. assert (Hp : duration_setting key field ∈ PLAIN_SETTINGS).
  { unfold DURATIONS in Hin. rewrite !elem_of_cons, elem_of_nil in Hin.
    destruct_or! Hin; try done; injection Hin as -> ->; plain_member. }
  apply (field_keeps (duration_setting key field) positive_u64 _ _ _ Hp). intros v x Hx%reading_Ok. by eapply parse_duration_range.
Qed.

Lemma apply_pairs_fits inputs c c' : apply_pairs inputs c = Ok c' -> Fits c -> Fits c'.
Proof.
  intros H [Hd Hc Hr Hp Hb Hh He Hl]. constructor.
  - rewrite Forall_forall in *. intros [key field] Hin. exact (duration_keeps _ _ _ _ _ Hin H (Hd _ Hin)).
  - refine (field_keeps (limit_setting SETTING_LIMITS_CONNECTIONS _ connections) positive_u32 _ _ _ _ _ H Hc);
      [plain_member|]. intros v x Hx%reading_Ok. by eapply parse_count_range.
  - refine (field_keeps (limit_setting SETTING_LIMITS_CONCURRENT_REQUESTS _ concurrent_requests) positive_u32 _ _ _ _ _ H Hr);
      [plain_member|]. intros v x Hx%reading_Ok. by eapply parse_count_range.
  - refine (field_keeps (limit_setting SETTING_LIMITS_CONNECTIONS_PER_PEER _ connections_per_peer) (fun n => 0 <= n <= U32_MAX) _ _ _ _ _ H Hp);
      [plain_member|]. apply read_per_peer_range.
  - refine (field_keeps (limit_setting SETTING_LIMITS_BODY_BYTES _ body_bytes) positive_u64 _ _ _ _ _ H Hb);
      [plain_member|]. intros v x Hx%reading_Ok. by eapply parse_bytes_range.
  - refine (field_keeps (limit_setting SETTING_LIMITS_HEADER_BYTES _ header_bytes) positive_u64 _ _ _ _ _ H Hh);
      [plain_member|]. intros v x Hx%reading_Ok. by eapply parse_bytes_range.
  - refine (field_keeps (limit_setting SETTING_LIMITS_PEER_EXEMPT _ peer_exempt) (Forall block_wf) _ _ _ _ _ H He);
      [plain_member|]. apply parse_exempt_wf.
  - refine (field_keeps (limit_setting SETTING_LIMITS_CONNECTION_LIFETIME _ connection_lifetime)
      (fun o => forall t, o = Some t -> positive_u64 t) _ _ _ _ _ H Hl); [plain_member|]. apply read_lifetime_range.
Qed.

Lemma build_fits b declared : Fits (apply_build_settings b declared).
Proof.
  constructor; [|by split..|constructor|done]. unfold DURATIONS. repeat (apply Forall_cons; split; [by split|]). apply Forall_nil_2.
Qed.

(** C25: Every configuration that can be read holds values of the types the code keeps them in: each
    duration and size is positive and fits 64 bits, each count is positive and fits 32, the bound
    per peer may be zero and nothing else, a connection's lifetime is none or positive, and every
    exempt block is an address with a prefix no longer than it. *)
Theorem configuration_fits_its_types b declared layers c :
  from_layers b declared layers = Ok c -> Fits c.
Proof.
  intros (c1 & c2 & H1 & H2 & H3)%from_layers_steps.
  exact (apply_pairs_fits _ _ _ H3 (apply_pairs_fits _ _ _ H2 (apply_pairs_fits _ _ _ H1 (build_fits b declared)))).
Qed.

(** ** A TLS block is taken from one layer, whole *)

(** A layer that gives a certificate and a key decides the whole block: nothing of the block an
    earlier layer gave survives, its client authority and its allow list included. *)
Lemma tls_of_forgets s cert key keys previous previous' :
  is_Some (s !! cert) -> tls_of s cert key keys previous = tls_of s cert key keys previous'.
Proof. intros [v Hv]. unfold tls_of. rewrite Hv. by destruct (s !! key). Qed.

Definition build : BuildSettings := mkBuild "1.0" "abc" "2025" "PIC-X".

Definition tls_layers (environment : list (string * string)) : Layers :=
  mkLayers [(SETTING_PUBLIC_HTTP_ADDR, "0.0.0.0:443"); (SETTING_PUBLIC_TLS_CERT, "a.pem"); (SETTING_PUBLIC_TLS_KEY, "a.key");
            (SETTING_PUBLIC_TLS_CLIENT_CA, "ca.pem"); (SETTING_PUBLIC_TLS_ALLOW, "cn:client")]
    environment [].

Definition public_tls_of (r : result Config Error) : option TlsSettings :=
  match r with Ok c => cfg_public_tls c | Err _ => None end.

(** Naming another certificate in the environment turns client authentication off; naming another
    authority there changes nothing. *)
Theorem another_certificate_drops_client_authentication :
  (exists t, public_tls_of (from_layers build ∅ (tls_layers [])) = Some t /\ is_mutual t = true /\ tls_allow t <> []) /\
  public_tls_of (from_layers build ∅
    (tls_layers [(SETTING_PUBLIC_TLS_CERT, "b.pem"); (SETTING_PUBLIC_TLS_KEY, "b.key")])) = Some (tls_new "b.pem" "b.key") /\
  public_tls_of (from_layers build ∅ (tls_layers [(SETTING_PUBLIC_TLS_CLIENT_CA, "other.pem")])) =
  public_tls_of (from_layers build ∅ (tls_layers [])).
Proof.
  split_and!; [|vm_compute; reflexivity|vm_compute; reflexivity].
  eexists. split_and!; [vm_compute; reflexivity|reflexivity|discriminate].
Qed.

(** The command line over the environment over the file; an empty value is no value. *)
Example layers_in_order :
  match from_layers build {["MY_SETTING"]}
    (mkLayers [(SETTING_SHUTDOWN_TIMEOUT, "10s"); (SETTING_ISSUER, "https://a/"); ("MY_SETTING", "x"); ("OTHER", "y")]
       [(SETTING_SHUTDOWN_TIMEOUT, "20s"); (SETTING_ISSUER, "")]
       [(SETTING_SHUTDOWN_TIMEOUT, "30s"); (SETTING_SHUTDOWN_TIMEOUT, "2m")]) with
  | Ok c => cfg_shutdown_timeout c = 120 /\ cfg_issuer c = Some "https://a" /\ cfg_log_level c = LevelInfo /\
            cfg_declared_values c = {["MY_SETTING" := "x"]}
  | Err _ => False
  end.
Proof. vm_compute. auto. Qed.

Example unreadable_layer :
  from_layers build ∅ (mkLayers [(SETTING_SHUTDOWN_TIMEOUT, "soon")] [(SETTING_SHUTDOWN_TIMEOUT, "20s")] []) =
  Err ["reading PIC_X_SHUTDOWN_TIMEOUT"; "`soon` is not a duration: expected something like 30s, 2m, 1h or 90d"].
Proof. vm_compute. reflexivity. Qed.

Lemma configuration_fits_its_types_witness :
  exists c, from_layers build ∅ (mkLayers [(SETTING_LIMITS_CONNECTION_LIFETIME, "5m"); (SETTING_LIMITS_CONNECTIONS_PER_PEER, "0")] [] []) = Ok c /\
    Fits c /\ connection_lifetime (cfg_limits c) = Some 300.
Proof.
  destruct (from_layers build ∅ (mkLayers [(SETTING_LIMITS_CONNECTION_LIFETIME, "5m"); (SETTING_LIMITS_CONNECTIONS_PER_PEER, "0")] [] []))
    as [c|e] eqn:E; [|vm_compute in E; discriminate E].
  exists c. split; [reflexivity|]. split; [exact (configuration_fits_its_types _ _ _ _ E)|].
  vm_compute in E. injection E as <-. reflexivity.
Defined.
