(* ===== verification/ConfigProperties.v ===== *)
(** * What a validated configuration guarantees

    [Valid] states the rules of a configuration as one record of plain conditions, and
    [validation_decides_the_rules] shows that the checks of the code accept exactly the
    configurations that satisfy it. The rest of the file draws the consequences: who can reach the
    administration interface, that no realm shares a directory or a mount with another, and that
    the rules of an exchange profile decide every scope the same way in whatever order they are
    written. *)
From S2P Require Import Prelude Rust Text AuditEvents Access Limits Settings KeyCache ExchangeMap ExchangeMapProperties.
From S2P Require Import Realms Config ConfigRules.
Local Open Scope Z_scope.
Local Open Scope rust_scope.

(** ** The combinators of the checks *)

Lemma ensure_Ok b text : ensure b text = Ok tt <-> b = true.
Proof. by destruct b. Qed.

Lemma then_Ok (a b : result unit Error) : (let? _ := a in b) = Ok tt <-> a = Ok tt /\ b = Ok tt.
Proof. destruct a as [[]|]; simpl; naive_solver. Qed.

Lemma each_Ok {A} (check : A -> result unit Error) l : each check l = Ok tt <-> Forall (fun x => check x = Ok tt) l.
Proof. induction l as [|x l IH]; [done|]. cbn [each]. by rewrite then_Ok, IH, Forall_cons. Qed.

Lemma unless_Ok (b : bool) (r : result unit Error) : (if b then r else Ok tt) = Ok tt <-> (b = true -> r = Ok tt).
Proof. destruct b; naive_solver. Qed.

Lemma negb_decide (P : Prop) `{!Decision P} : negb (bool_decide P) = true <-> ~ P.
Proof. case_bool_decide; naive_solver. Qed.

Lemma starts_with_iff p s : starts_with p s = true <-> exists r, s = p +:+ r.
Proof.
  unfold starts_with. rewrite bool_decide_eq_true. unfold is_Some.
  split; intros [r H]; exists r; by apply strip_prefix_Some.
Qed.

(** A text with something in it besides white space. *)
Definition stated (s : string) : Prop := trim s <> "".

Lemma is_blank_iff s : negb (is_blank s) = true <-> stated s.
Proof. unfold is_blank, is_empty. by rewrite negb_decide. Qed.

Lemma is_empty_iff s : negb (is_empty s) = true <-> s <> "".
Proof. unfold is_empty. by rewrite negb_decide. Qed.

Lemma bool_or b c : b || c = true <-> b = true \/ c = true.
Proof. apply orb_true_iff. Qed.

Lemma not_elem_union {A} `{Countable A} (key : A) (l : list A) (seen : gset A) :
  NoDup (key :: l) /\ Forall (fun k => k ∉ seen) (key :: l) <->
  key ∉ seen /\ NoDup l /\ Forall (fun k => k ∉ ({[key]} ∪ seen)) l.
Proof.
  rewrite NoDup_cons, Forall_cons, !Forall_forall. split.
  - intros [[Hn Hd] [Hs Hf]]. split_and!; [done|done|]. intros k Hk. rewrite not_elem_of_union, not_elem_of_singleton.
    split; [by intros ->|auto].
  - intros (Hs & Hd & Hf). split_and!; [|done|done|].
    + intros Hin. specialize (Hf key Hin). set_solver.
    + intros k Hk. specialize (Hf k Hk). set_solver.
Qed.

(** ** The rules, stated *)

Section Stated.
Context (c : Config).

(** An address clients are told to trust: https, outside development. *)
Definition public_identity (url : string) : Prop :=
  cfg_development_mode c = true \/ exists rest, url = "https://" +:+ rest.

(** A key signs only after it was published, for longer than the key set is cached, and is still
    published when the last of its signatures was made. *)
Definition sound_windows (publish_ahead rotate_every retain : Z) : Prop :=
  publish_ahead < rotate_every /\ rotate_every <= retain /\
  (KEY_SET_MAX_AGE <= publish_ahead \/ cfg_development_mode c = true).

Definition sound_attester (a : TrustedAttesterConfig) : Prop :=
  stated (attester_issuer a) /\ stated (jwks_uri a) /\ public_identity (attester_issuer a) /\ public_identity (jwks_uri a) /\
  "sd-jwt" ∈ proof_types a /\ "sd-jwt" ∈ formats a.

Lemma require_public_https_Ok url field : require_public_https c url field = Ok tt <-> public_identity url.
Proof. unfold require_public_https, public_identity. by rewrite ensure_Ok, bool_or, starts_with_iff. Qed.

Lemma check_key_lifecycle_Ok a r t who : check_key_lifecycle c a r t who = Ok tt <-> sound_windows a r t.
Proof.
  unfold check_key_lifecycle, sound_windows. by rewrite !then_Ok, !ensure_Ok, bool_or, Z.ltb_lt, !Z.leb_le.
Qed.

Lemma check_attester_Ok realm id a : check_attester c realm id a = Ok tt <-> sound_attester a.
Proof.
  unfold check_attester, sound_attester. rewrite !then_Ok, !ensure_Ok, !require_public_https_Ok, !is_blank_iff, !negb_decide,
    !bool_decide_eq_true. split; [tauto|]. intros (? & ? & ? & ? & Hp & Hf). split_and!; try done.
  - intros E. rewrite E in Hp. by apply not_elem_of_nil in Hp.
  - intros E. rewrite E in Hf. by apply not_elem_of_nil in Hf.
Qed.

(** The identifiers a list declares, each stated and none twice. *)
Definition sound_ids (ids : list string) : Prop := NoDup ids /\ Forall (fun id => id <> "") ids.

Lemma check_attesters_Ok realm seen l :
  check_attesters c realm seen l = Ok tt <->
  sound_ids (map (fun a => trim (attester_id a)) l) /\ Forall (fun id => id ∉ seen) (map (fun a => trim (attester_id a)) l) /\
  Forall sound_attester l.
Proof.
  revert seen. induction l as [|a l IH]; intros seen; unfold sound_ids; cbn [check_attesters map].
  { split; [|done]. intros _. split_and!; try apply NoDup_nil_2; constructor. }
  rewrite !then_Ok, !ensure_Ok, is_empty_iff, negb_decide, check_attester_Ok, IH. unfold sound_ids.
  pose proof (not_elem_union (trim (attester_id a)) (map (fun a => trim (attester_id a)) l) seen) as E.
  rewrite !Forall_cons in *. tauto.
Qed.
End Stated.

(** ** Exchange profiles *)

(** Exactly one of two sources. *)
Definition has (o : option string) : Prop := exists v, o = Some v /\ stated v.

Lemma has_text_iff o : has_text o = true <-> has o.
Proof.
  unfold has_text, has. destruct o as [v|]; [|naive_solver]. rewrite is_blank_iff. naive_solver.
Qed.

Definition sound_mapping (m : ClaimMapping) : Prop :=
  (has (from m) /\ ~ has (mapped_value m)) \/ (~ has (from m) /\ has (mapped_value m)).

Definition sound_rule (r : PrivilegeRule) : Prop :=
  stated (rule_name r) /\ stated (pattern r) /\ stated (emit_scope (emit r)) /\ stated (emit_operation (emit r)) /\
  stated (emit_resource_type (emit r)) /\ stated (emit_resource_id (emit r)).

(** A profile reads one issuer's access tokens, with an expiry and a type, and has rules of
    distinct names and priorities that map every scope or refuse it. *)
Record SoundProfile (p : ExchangeProfileConfig) : Prop := {
  sound_token_type : token_type p = EXCHANGE_SOURCE_OAUTH_ACCESS_TOKEN;
  sound_format : source_format p = EXCHANGE_SOURCE_FORMAT_JWT;
  sound_issuer : stated (profile_issuer p);
  sound_audience : stated (audience p);
  sound_algorithms : allowed_algorithms p <> [];
  sound_expiration : require_expiration p = true;
  sound_typ : has (require_token_type p);
  sound_context : Forall (fun entry => sound_mapping (snd entry)) (identity_context p);
  sound_scopes : exists v, from (scopes_mapping p) = Some v /\ v <> "";
  sound_set : value_type (scopes_mapping p) = Some "set";
  sound_privileges : privileges_source p = "scopes";
  sound_nonempty : rules p <> [];
  sound_names : NoDup (map rule_name (rules p));
  sound_priorities : NoDup (map priority (rules p));
  sound_rules : Forall sound_rule (rules p);
  sound_unmatched : on_unmatched_scope p = EXCHANGE_ON_UNMATCHED_SCOPE_REJECT }.

Lemma check_mapping_Ok realm id entry : check_mapping realm id entry = Ok tt <-> sound_mapping (snd entry).
Proof.
  destruct entry as [claim m]. unfold check_mapping, sound_mapping. rewrite ensure_Ok, <- !has_text_iff. simpl.
  destruct (has_text (from m)), (has_text (mapped_value m)); simpl; naive_solver.
Qed.

Lemma check_rule_Ok realm id names priorities r :
  check_rule realm id names priorities r = Ok tt <->
  rule_name r ∉ names /\ priority r ∉ priorities /\ sound_rule r.
Proof.
  unfold check_rule, sound_rule, check_emit. rewrite !then_Ok, each_Ok, !Forall_cons, !ensure_Ok, !is_blank_iff, !negb_decide.
  pose proof (Forall_nil_2 (fun x : string * string => (let '(field, template) := x in
    ensure (negb (is_blank template)) (in_profile realm id +:+ " emits an empty `" +:+ field +:+ "` from rule `"
      +:+ rule_name r +:+ "`")) = Ok tt)). tauto.
Qed.

Lemma check_rules_Ok realm id names priorities l :
  check_rules realm id names priorities l = Ok tt <->
  (NoDup (map rule_name l) /\ Forall (fun n => n ∉ names) (map rule_name l)) /\
  (NoDup (map priority l) /\ Forall (fun n => n ∉ priorities) (map priority l)) /\ Forall sound_rule l.
Proof.
  revert names priorities. induction l as [|r l IH]; intros names priorities; cbn [check_rules map].
  { split; [|done]. intros _. split_and!; try apply NoDup_nil_2; constructor. }
  rewrite then_Ok, check_rule_Ok, IH, !not_elem_union, (Forall_cons sound_rule). tauto.
Qed.

Lemma check_profile_Ok realm id p : check_profile realm id p = Ok tt <-> SoundProfile p.
Proof.
  unfold check_profile.
  rewrite !then_Ok, each_Ok, !ensure_Ok, check_rules_Ok, has_text_iff, !is_blank_iff, !negb_decide, !bool_decide_eq_true.
  rewrite (Forall_iff _ _ _ (check_mapping_Ok realm id)).
  assert (Hs : (match from (scopes_mapping p) with Some v => negb (is_empty v) | None => false end) = true <->
               exists v, from (scopes_mapping p) = Some v /\ v <> "").
  { destruct (from (scopes_mapping p)); [rewrite is_empty_iff|]; naive_solver. }
  rewrite Hs. split.
  - intros H. decompose [and] H. by constructor.
  - intros []. split_and!; try done; apply Forall_forall; set_solver.
Qed.

Lemma check_profiles_Ok realm seen l :
  check_profiles realm seen l = Ok tt <->
  sound_ids (map (fun p => trim (profile_name p)) l) /\ Forall (fun id => id ∉ seen) (map (fun p => trim (profile_name p)) l) /\
  Forall SoundProfile l.
Proof.
  revert seen. induction l as [|p l IH]; intros seen; unfold sound_ids; cbn [check_profiles map].
  { split; [|done]. intros _. split_and!; try apply NoDup_nil_2; constructor. }
  rewrite !then_Ok, !ensure_Ok, is_empty_iff, negb_decide, check_profile_Ok, IH. unfold sound_ids.
  pose proof (not_elem_union (trim (profile_name p)) (map (fun p => trim (profile_name p)) l) seen) as E.
  rewrite !Forall_cons in *. tauto.
Qed.

(** ** Realms and the configuration *)

(** Pseudonyms need a key, and a key needs somewhere to be read from. *)
Definition sound_pseudonyms (enabled : bool) (provider : SecretProvider) (key_ref : option SecretRef) : Prop :=
  enabled = true -> provider <> ProviderNone /\ is_Some key_ref.

Record SoundRealm (c : Config) (r : RealmConfig) : Prop := {
  sound_name : shaped (rc_name r) = true;
  sound_realm_issuer : forall issuer, rc_issuer r = Some issuer -> public_identity c issuer;
  sound_operations : rc_operations_keys_enabled r = true ->
    sound_windows c (rc_operations_keys_publish_ahead r) (rc_operations_keys_rotate_every r) (rc_operations_keys_retain r);
  sound_tokens : rc_token_keys_enabled r = true ->
    sound_windows c (rc_token_keys_publish_ahead r) (rc_token_keys_rotate_every r) (rc_token_keys_retain r);
  sound_realm_pseudonyms :
    sound_pseudonyms (rc_audit_pseudonym_enabled r) (rc_secrets_provider r) (rc_audit_pseudonym_key_ref r);
  sound_profile_ids : sound_ids (map (fun p => trim (profile_name p)) (rc_exchange_profiles r));
  sound_profiles : Forall SoundProfile (rc_exchange_profiles r);
  sound_attester_ids : sound_ids (map (fun a => trim (attester_id a)) (rc_trusted_attesters r));
  sound_attesters : Forall (sound_attester c) (rc_trusted_attesters r) }.

(** The files of a TLS block exist, and a revocation list has an authority to check against. *)
Definition sound_tls (is_file : string -> bool) (dir : string) (t : TlsSettings) : Prop :=
  (is_Some (crl t) -> is_mutual t = true) /\
  Forall (fun file => is_file (resolve_in dir file) = true) (tls_files t).

Record Valid (is_file : string -> bool) (c : Config) : Prop := {
  valid_public : exists address, cfg_public_http_addr c = Some address;
  valid_addresses : Forall (fun o => forall address, o = Some address -> stated address)
    [cfg_public_http_addr c; cfg_telemetry_addr c; cfg_admin_addr c];
  valid_allow : forall t, cfg_public_tls c = Some t -> tls_allow t <> [] -> is_mutual t = true;
  valid_issuer : forall issuer, cfg_issuer c = Some issuer -> public_identity c issuer;
  valid_prefix : cfg_public_path_prefix c = "" \/ exists rest, cfg_public_path_prefix c = "/" +:+ rest;
  valid_tls : Forall (fun o => forall t, o = Some t -> sound_tls is_file (working_dir c) t)
    [cfg_public_tls c; cfg_admin_tls c; cfg_telemetry_tls c];
  valid_generation : cfg_autogenerate c = true -> cfg_development_mode c = true;
  valid_admin : forall address, cfg_admin_addr c = Some address -> cfg_development_mode c = false ->
    (exists t, cfg_admin_tls c = Some t /\ is_mutual t = true /\ cfg_admin_allow c <> []) \/
    ((forall t, cfg_admin_tls c = Some t -> is_mutual t = false) /\ is_loopback address = true);
  valid_keys : cfg_keys_enabled c = true ->
    Forall (fun k => k ∈ cfg_keys_lifecycle_declared c)
      [SETTING_KEYS_PUBLISH_AHEAD; SETTING_KEYS_ROTATE_EVERY; SETTING_KEYS_RETAIN] /\
    sound_windows c (cfg_keys_publish_ahead c) (cfg_keys_rotate_every c) (cfg_keys_retain c);
  valid_names : NoDup (map rc_name (cfg_realms c));
  valid_realms : Forall (SoundRealm c) (cfg_realms c);
  valid_pseudonyms : sound_pseudonyms (cfg_audit_pseudonym_enabled c) (cfg_secrets_provider c) (cfg_audit_pseudonym_key_ref c);
  valid_key_version : cfg_audit_pseudonym_enabled c = true -> stated (cfg_audit_pseudonym_key_version c) }.

Section Decides.
Context (is_file : string -> bool) (c : Config).

Lemma issuer_Ok (o : option string) field :
  match o with Some issuer => require_public_https c issuer field | None => Ok tt end = Ok tt <->
  forall issuer, o = Some issuer -> public_identity c issuer.
Proof. destruct o; [rewrite require_public_https_Ok|]; naive_solver. Qed.

Lemma check_realm_Ok r : check_realm c r = Ok tt <-> SoundRealm c r.
Proof.
  unfold check_realm, validate_exchange_profiles, validate_trusted_attesters.
  rewrite !then_Ok, !unless_Ok, !then_Ok, !ensure_Ok, issuer_Ok, !check_key_lifecycle_Ok, negb_decide, bool_decide_eq_true,
    check_profiles_Ok, check_attesters_Ok. split.
  - intros H. decompose [and] H. constructor; try done.
  - intros []. split_and!; try done; apply Forall_forall; set_solver.
Qed.

Lemma check_realms_Ok seen l :
  check_realms c seen l = Ok tt <->
  (NoDup (map rc_name l) /\ Forall (fun n => n ∉ seen) (map rc_name l)) /\ Forall (SoundRealm c) l.
Proof.
  revert seen. induction l as [|r l IH]; intros seen; cbn [check_realms map].
  { split; [|done]. intros _. split_and!; try apply NoDup_nil_2; constructor. }
  rewrite !then_Ok, ensure_Ok, negb_decide, check_realm_Ok, IH, not_elem_union, (Forall_cons (SoundRealm c)). tauto.
Qed.

Lemma require_files_Ok dir l :
  require_files is_file dir l = Ok tt <->
  Forall (fun file => is_file (resolve_in dir file) = true) (omap snd l).
Proof.
  induction l as [|[what [path|]] l IH]; simpl; [split; [constructor|done]| |done].
  rewrite Forall_cons. destruct (is_file _); naive_solver.
Qed.

Lemma tls_validate_Ok dir t : tls_validate_in is_file dir t = Ok tt <-> sound_tls is_file dir t.
Proof.
  unfold tls_validate_in, sound_tls, is_mutual, tls_files. destruct (crl t), (client_ca t);
    rewrite ?require_files_Ok; simpl; rewrite ?Forall_cons; naive_solver.
Qed.

Lemma check_tls_Ok surface o :
  check_tls is_file c (surface, o) = Ok tt <-> forall t, o = Some t -> sound_tls is_file (working_dir c) t.
Proof.
  destruct o as [t|]; simpl; [|naive_solver]. pose proof (tls_validate_Ok (working_dir c) t) as H.
  destruct (tls_validate_in is_file (working_dir c) t) as [[]|]; simpl; naive_solver.
Qed.

Lemma forall_some_iff {A} (P : A -> Prop) (o : option A) :
  (forall x, o = Some x -> P x) <-> match o with Some x => P x | None => True end.
Proof. destruct o; naive_solver. Qed.

Lemma declared_addresses_Ok :
  Forall (fun la : string * string => let '(label, addr) := la in
    ensure (negb (is_blank addr)) ("the " +:+ label +:+ " listen address is empty") = Ok tt) (declared_addresses c) <->
  Forall (fun o => forall address, o = Some address -> stated address)
    [cfg_public_http_addr c; cfg_telemetry_addr c; cfg_admin_addr c].
Proof.
  unfold declared_addresses. rewrite !Forall_cons, !(forall_some_iff stated).
  pose proof (Forall_nil_2 (fun o : option string => forall address, o = Some address -> stated address)).
  destruct (cfg_public_http_addr c), (cfg_telemetry_addr c), (cfg_admin_addr c); simpl;
    rewrite ?Forall_cons, ?Forall_nil, ?ensure_Ok, ?is_blank_iff; tauto.
Qed.

Lemma validate_admin_access_Ok :
  validate_admin_access c = Ok tt <->
  forall address, cfg_admin_addr c = Some address -> cfg_development_mode c = false ->
    (exists t, cfg_admin_tls c = Some t /\ is_mutual t = true /\ cfg_admin_allow c <> []) \/
    ((forall t, cfg_admin_tls c = Some t -> is_mutual t = false) /\ is_loopback address = true).
Proof.
  unfold validate_admin_access. destruct (cfg_admin_addr c) as [a|]; [|naive_solver].
  destruct (match cfg_admin_tls c with Some t => is_mutual t | None => false end) eqn:M; cbn [negb]; rewrite ensure_Ok.
  - destruct (cfg_admin_tls c) as [t|]; [|done]. case_bool_decide as E; destruct (cfg_development_mode c); simpl; naive_solver.
  - rewrite bool_or. assert (Hn : forall t, cfg_admin_tls c = Some t -> is_mutual t = false).
    { intros t Ht. by rewrite Ht in M. }
    split; [|intros H; destruct (cfg_development_mode c); [by right|]; left].
    + intros [Hl|Hd] address [= <-] Hdev; [by right|congruence].
    + destruct (H a eq_refl eq_refl) as [(t & Ht & Hm & _)|[_ Hl]]; [by rewrite Hn in Hm|done].
Qed.

Lemma validate_key_lifecycle_Ok :
  validate_key_lifecycle c = Ok tt <->
  (cfg_keys_enabled c = true ->
    Forall (fun k => k ∈ cfg_keys_lifecycle_declared c)
      [SETTING_KEYS_PUBLISH_AHEAD; SETTING_KEYS_ROTATE_EVERY; SETTING_KEYS_RETAIN] /\
    sound_windows c (cfg_keys_publish_ahead c) (cfg_keys_rotate_every c) (cfg_keys_retain c)).
Proof.
  unfold validate_key_lifecycle. destruct (cfg_keys_enabled c); cbn [negb]; [|naive_solver].
  rewrite then_Ok, each_Ok, check_key_lifecycle_Ok, !Forall_cons, !ensure_Ok, !bool_decide_eq_true.
  split; [intros [(? & ? & ? & _) ?] _|intros H; destruct (H eq_refl) as [(? & ? & ? & _) ?]];
    (split; [split_and!; try done; apply Forall_nil_2|done]).
Qed.

Lemma validate_pseudonyms_Ok :
  validate_pseudonyms c = Ok tt <->
  sound_pseudonyms (cfg_audit_pseudonym_enabled c) (cfg_secrets_provider c) (cfg_audit_pseudonym_key_ref c) /\
  (cfg_audit_pseudonym_enabled c = true -> stated (cfg_audit_pseudonym_key_version c)).
Proof.
  unfold validate_pseudonyms, sound_pseudonyms.
  rewrite unless_Ok, !then_Ok, !ensure_Ok, negb_decide, bool_decide_eq_true, is_blank_iff. tauto.
Qed.

Lemma validate_development_Ok :
  validate_development c = Ok tt <-> (cfg_autogenerate c = true -> cfg_development_mode c = true).
Proof. unfold validate_development. rewrite ensure_Ok. destruct (cfg_autogenerate c), (cfg_development_mode c); naive_solver. Qed.

Lemma validated_realms : validate is_file c = Ok tt -> NoDup (map rc_name (cfg_realms c)) /\ Forall (SoundRealm c) (cfg_realms c).
Proof. unfold validate, validate_realms. rewrite !then_Ok, check_realms_Ok. tauto. Qed.

(** C19: Validation accepts a configuration exactly when it satisfies every rule of [Valid]: a
    public address; an allow list only beside client certificates; every public identity https
    outside development; generated material only in development; an administration interface that
    is mutual and names its peers, or is bound to this host; signing windows that publish a key for
    longer than it is cached before it signs and keep it until its last signature can be checked;
    realms of distinct, well-formed names; sound profiles and attesters; and a key for every
    pseudonym. *)
Theorem validation_decides_the_rules : validate is_file c = Ok tt <-> Valid is_file c.
Proof.
  unfold validate, validate_realms.
  rewrite !then_Ok, !each_Ok, (Forall_cons (fun x => check_tls is_file c x = Ok tt)), (Forall_cons (fun x => check_tls is_file c x = Ok tt)),
    (Forall_singleton (fun x => check_tls is_file c x = Ok tt)), !check_tls_Ok, issuer_Ok, validate_admin_access_Ok,
    validate_key_lifecycle_Ok, check_realms_Ok, validate_pseudonyms_Ok, validate_development_Ok.
  rewrite !ensure_Ok, bool_decide_eq_true, bool_or, starts_with_iff.
  assert (Ha : (match cfg_public_tls c with Some t => bool_decide (tls_allow t = []) || is_mutual t | None => true end) = true <->
               forall t, cfg_public_tls c = Some t -> tls_allow t <> [] -> is_mutual t = true).
  { destruct (cfg_public_tls c) as [t|]; [|naive_solver]. rewrite bool_or, bool_decide_eq_true.
    split; [naive_solver|]. intros H. destruct (decide (tls_allow t = [])); [by left|right; by apply H]. }
  assert (He : is_empty (cfg_public_path_prefix c) = true <-> cfg_public_path_prefix c = "").
  { unfold is_empty. by rewrite bool_decide_eq_true. }
  pose proof declared_addresses_Ok as Hd. rewrite Ha, He. split.
  - intros H. decompose [and] H. constructor; try done; [|rewrite !Forall_cons; split_and!; try done; apply Forall_nil_2].
    apply Hd. eapply Forall_impl; [eassumption|]. by intros [].
  - intros []. match goal with H : Forall _ [cfg_public_tls c; _; _] |- _ => rewrite !Forall_cons in H; destruct H as (? & ? & ? & _) end.
    split_and!; try done; [|apply Forall_forall; set_solver].
    eapply Forall_impl; [by apply Hd|]. by intros [].
Qed.
End Decides.

(** ** Realms do not share a path *)

Lemma app_string_inj_r a b b' : a +:+ b = a +:+ b' -> b = b'.
Proof. intros H. apply (f_equal bytes_of) in H. rewrite !bytes_of_app in H. simplify_list_eq. by apply (inj bytes_of). Qed.

(** A realm's name is one path component: it is not empty, has no slash, and is neither [.] nor [..]. *)
Lemma shaped_component n : shaped n = true -> n <> "" /\ x2f ∉ bytes_of n /\ x2e ∉ bytes_of n.
Proof.
  unfold shaped, is_empty. intros H. bool_to_prop. split; [done|].
  match goal with H : forallb _ _ = true |- _ => rewrite forallb_forall in H; rename H into Hb end.
  split; intros Hin; apply list_elem_of_In in Hin; by apply Hb in Hin.
Qed.

Lemma split_at_first {A} (x : A) a b u v : x ∉ a -> x ∉ u -> a ++ x :: b = u ++ x :: v -> a = u.
Proof.
  revert u. induction a as [|y a IH]; intros [|z u] Ha Hu H; simplify_list_eq; [done|set_solver|set_solver|].
  f_equal. apply IH; set_solver.
Qed.

Lemma component_inj n n' r r' :
  shaped n = true -> shaped n' = true -> n +:+ "/" +:+ r = n' +:+ "/" +:+ r' -> n = n'.
Proof.
  intros (_ & Hn & _)%shaped_component (_ & Hn' & _)%shaped_component H. apply (f_equal bytes_of) in H.
  rewrite !bytes_of_app in H. apply (inj bytes_of). exact (split_at_first x2f _ _ _ _ Hn Hn' H).
Qed.

(** A relative path is joined to the volume by a prefix that does not depend on it. *)
Lemma resolve_prefix c : exists p, forall path, is_absolute path = false -> resolve c path = p +:+ path.
Proof.
  destruct (is_empty (working_dir c)) eqn:E; [|destruct (ends_with "/" (working_dir c)) eqn:D].
  all: eexists; intros path Hp; unfold resolve, path_join; rewrite Hp, E, ?D.
  - instantiate (1 := ""). done.
  - reflexivity.
  - instantiate (1 := working_dir c +:+ "/"). apply (inj bytes_of). by rewrite !bytes_of_app, app_assoc.
Qed.

(** What belongs to a realm on disk. *)
Definition realm_place (c : Config) (name path : string) : Prop :=
  exists rest, path = resolve c ("realms/" +:+ name +:+ "/" +:+ rest).

Lemma realm_place_unique c n n' path :
  shaped n = true -> shaped n' = true -> realm_place c n path -> realm_place c n' path -> n = n'.
Proof.
  intros Hn Hn' [r ->] [r' H]. destruct (resolve_prefix c) as [p Hp]. rewrite !Hp in H by done.
  apply app_string_inj_r, (app_string_inj_r "realms/") in H. by eapply component_inj.
Qed.

(** ** The registry of realms *)

Section Registry.
Context {A K V : Type} `{Countable K} (key : A -> K) (value : A -> V).

Definition table (l : list A) : gmap K V := fold_left (fun m x => <[key x := value x]> m) l ∅.

Lemma table_lookup l k v :
  NoDup (map key l) -> table l !! k = Some v <-> exists x, x ∈ l /\ key x = k /\ value x = v.
Proof.
  unfold table. induction l as [|x l IH] using rev_ind; intros Hd.
  { simpl. rewrite lookup_empty. split; [done|]. intros (x & Hx & _). by apply not_elem_of_nil in Hx. }
  rewrite fold_left_app. simpl. rewrite map_app, NoDup_app in Hd. destruct Hd as (Hd & Hx & _).
  destruct (decide (key x = k)) as [<-|Hk].
  - rewrite lookup_insert_eq. split; [intros [= <-]; exists x; set_solver|].
    intros (y & [Hy| ->%list_elem_of_singleton]%elem_of_app & Hk & <-); [|done]. exfalso. apply (Hx (key y)).
    + by apply list_elem_of_fmap_2.
    + rewrite Hk. simpl. set_solver.
  - rewrite lookup_insert_ne, IH by done. split; intros (y & Hy & E & Ev); exists y; (split; [|done]).
    + apply elem_of_app. by left.
    + apply elem_of_app in Hy as [Hy| ->%list_elem_of_singleton]; done.
Qed.
End Registry.

Section Isolation.
Context {Ring Sink Policy : Type} (assemble : RealmConfig -> Realm Ring Sink Policy).
Hypothesis assemble_name : forall r, realm_name (assemble r) = rc_name r.
Hypothesis assemble_mount : forall r, realm_mount_path (assemble r) = rc_mount_path r.

Lemma realms_new_tables (l : list (Realm Ring Sink Policy)) :
  realms_new l = mkRealms (table realm_name (fun r => r) l) (table realm_mount_path realm_name l).
Proof.
  unfold realms_new, table. induction l as [|r l IH] using rev_ind; [done|]. by rewrite !fold_left_app, IH.
Qed.

Lemma assembled_names l : map realm_name (map assemble l) = map rc_name l.
Proof. induction l as [|r l IH]; simpl; [done|]. by rewrite assemble_name, IH. Qed.

Lemma assembled_mounts l : map realm_mount_path (map assemble l) = map rc_mount_path l.
Proof. induction l as [|r l IH]; simpl; [done|]. by rewrite assemble_mount, IH. Qed.

Lemma registry_by_name l n x :
  NoDup (map rc_name l) ->
  by_name (realms_new (map assemble l)) n = Some x <-> exists r, r ∈ l /\ rc_name r = n /\ x = assemble r.
Proof.
  intros Hd. rewrite realms_new_tables. unfold by_name. simpl. rewrite table_lookup by (by rewrite assembled_names).
  split.
  - intros (y & (r & -> & Hr)%list_elem_of_fmap & <- & <-). exists r. by rewrite assemble_name.
  - intros (r & Hr & <- & ->). exists (assemble r). rewrite assemble_name. split_and!; try done. by apply list_elem_of_fmap_2.
Qed.

Lemma registry_by_mount l path x :
  NoDup (map rc_name l) -> NoDup (map rc_mount_path l) ->
  by_mount (realms_new (map assemble l)) path = Some x <-> exists r, r ∈ l /\ rc_mount_path r = path /\ x = assemble r.
Proof.
  intros Hd Hm. unfold by_mount. rewrite bind_Some. setoid_rewrite (registry_by_name _ _ _ Hd).
  rewrite realms_new_tables. simpl. setoid_rewrite table_lookup; [|by rewrite assembled_mounts]. split.
  - intros (n & (y & (r & -> & Hr)%list_elem_of_fmap & <- & <-) & (r' & Hr' & E & ->)).
    rewrite assemble_name in E. rewrite assemble_mount. exists r'. split_and!; try done.
    apply list_elem_of_lookup in Hr as [i Hi], Hr' as [j Hj].
    assert (i = j) as ->; [|congruence].
    eapply NoDup_lookup; [exact Hd| |]; rewrite list_lookup_fmap; [rewrite Hi; reflexivity|rewrite Hj; simpl; by rewrite E].
  - intros (r & Hr & <- & ->). exists (rc_name r). split; [|by exists r].
    exists (assemble r). rewrite assemble_name, assemble_mount. split_and!; try done. by apply list_elem_of_fmap_2.
Qed.

Context (unicode_uppercase : Z -> list Z).

Lemma resolve_realm_mount c input r :
  resolve_realm unicode_uppercase c input = Ok r -> rc_name r = in_name input /\ rc_mount_path r = "/realms/" +:+ in_name input.
Proof. unfold resolve_realm. intros H. run_inv. done. Qed.

Lemma with_realms_mounts inputs c0 c :
  with_realms unicode_uppercase inputs c0 = Ok c ->
  Forall (fun r => rc_mount_path r = "/realms/" +:+ rc_name r) (cfg_realms c).
Proof.
  unfold with_realms. intros (rs & H & [= <-])%bind_result_Ok. simpl. revert rs H.
  induction inputs as [|i inputs IH]; intros rs; simpl; [intros [= <-]; constructor|].
  intros (r & Hr & (rest & Hrest & [= <-])%bind_result_Ok)%bind_result_Ok. constructor; [|by apply IH].
  destruct (resolve_realm_mount _ _ _ Hr) as [-> ->]. done.
Qed.

(** C20: Realms of a validated configuration share nothing they are told apart by. Whatever the
    realms are assembled into: a name and a mount path each find exactly the realm they belong to
    and no other path finds any; a path that belongs to one realm on disk belongs to no other; the
    rings, trail and secrets of a realm are kept in places of its own; and its name is a single path
    component, so none of them is outside the volume. *)
Theorem realms_are_isolated is_file inputs c0 c :
  with_realms unicode_uppercase inputs c0 = Ok c -> validate is_file c = Ok tt ->
  (forall name x, by_name (realms_new (map assemble (cfg_realms c))) name = Some x <->
     exists r, r ∈ cfg_realms c /\ rc_name r = name /\ x = assemble r) /\
  (forall path x, by_mount (realms_new (map assemble (cfg_realms c))) path = Some x <->
     exists r, r ∈ cfg_realms c /\ path = "/realms/" +:+ rc_name r /\ x = assemble r) /\
  (forall r r' path, r ∈ cfg_realms c -> r' ∈ cfg_realms c ->
     realm_place c (rc_name r) path -> realm_place c (rc_name r') path -> rc_name r = rc_name r') /\
  (forall r, r ∈ cfg_realms c ->
     Forall (realm_place c (rc_name r))
       [realm_keys_directory c (rc_name r); realm_token_keys_directory c (rc_name r);
        realm_audit_directory c (rc_name r); realm_secrets_directory c (rc_name r)] /\
     rc_name r <> "" /\ x2f ∉ bytes_of (rc_name r) /\ x2e ∉ bytes_of (rc_name r)).
Proof.
  intros Hw%with_realms_mounts Hv%validated_realms. destruct Hv as [Hd Hs].
  assert (Hm : map rc_mount_path (cfg_realms c) = map (fun n => "/realms/" +:+ n) (map rc_name (cfg_realms c))).
  { rewrite map_map. apply map_ext_Forall. exact Hw. }
  rewrite Forall_forall in Hw, Hs.
  split_and!.
  - intros name x. by apply registry_by_name.
  - intros path x. rewrite registry_by_mount; [|done|].
    + split; intros (r & Hr & E & ->); exists r; (split; [done|split; [|done]]); specialize (Hw r Hr); congruence.
    + rewrite Hm. apply NoDup_fmap_2; [|done]. intros a b. apply app_string_inj_r.
  - intros r r' path Hr Hr'. apply realm_place_unique; apply (sound_name c); auto.
  - intros r Hr. split; [|by apply shaped_component, (sound_name c), Hs].
    rewrite !Forall_cons. split_and!; [| | | |apply Forall_nil_2].
    + by exists "operations/keys".
    + by exists "keys".
    + by exists "operations/audit".
    + by exists "operations/secrets".
Qed.
End Isolation.

(** ** The order of the rules of a profile *)

Definition with_rules (p : ExchangeProfileConfig) (rs : list PrivilegeRule) : ExchangeProfileConfig :=
  mkProfile (profile_source p) (token_type p) (source_format p) (audience p) (allowed_algorithms p) (require_expiration p)
    (require_token_type p) (identity_context p) (scopes_mapping p) (privileges_source p) rs (on_unmatched_scope p).

Lemma insert_perm {A} (prio : A -> Z) x l : insert_by_priority prio x l ≡ₚ x :: l.
Proof. induction l as [|y l IH]; simpl; [done|]. destruct (_ <=? _); [done|]. rewrite IH. constructor. Qed.

Lemma sort_perm {A} (prio : A -> Z) l : sort_by_priority prio l ≡ₚ l.
Proof. induction l as [|x l IH]; simpl; [done|]. by rewrite insert_perm, IH. Qed.

Section RuleOrder.
Context {Regex : Type} (regex_new : string -> result Regex string)
  (regex_captures : Regex -> string -> option Captures) (cmp : Invariant -> Invariant -> comparison).

(** With distinct priorities there is one order to sort into. *)
Lemma sort_unique (l l' : list (PrivilegeRule * Regex)) :
  NoDup (map rule_priority l) -> l ≡ₚ l' -> sort_by_priority rule_priority l = sort_by_priority rule_priority l'.
Proof.
  intros Hd Hp. eapply (StronglySorted_unique_strong (fun a b => rule_priority b <= rule_priority a)).
  - intros x y Hx Hy H1 H2. rewrite sort_perm in Hx. rewrite sort_perm, <- Hp in Hy.
    apply list_elem_of_lookup in Hx as [i Hi], Hy as [j Hj].
    assert (i = j) as ->; [|congruence]. eapply NoDup_lookup; [exact Hd| |]; rewrite list_lookup_fmap.
    + by rewrite Hi.
    + rewrite Hj. simpl. f_equal. lia.
  - apply sort_descending.
  - apply sort_descending.
  - by rewrite !sort_perm.
Qed.

Lemma collect_perm {A B E} (f : A -> result B E) l l' ys :
  l ≡ₚ l' -> collect f l = Ok ys -> exists ys', collect f l' = Ok ys' /\ ys ≡ₚ ys'.
Proof.
  intros Hp. revert ys. induction Hp as [|x l l' _ IH|x y l|l1 l2 l3 _ IH1 _ IH2]; intros ys; simpl.
  - intros [= <-]. by exists [].
  - intros (a & Ha & (b & Hb & [= <-])%bind_result_Ok)%bind_result_Ok.
    destruct (IH _ Hb) as (b' & Hb' & Hpb). rewrite Ha, Hb'. exists (a :: b'). split; [done|by constructor].
  - intros (a & Ha & (b & (a2 & Ha2 & (b2 & Hb2 & [= <-])%bind_result_Ok)%bind_result_Ok & [= <-])%bind_result_Ok)%bind_result_Ok.
    rewrite Ha, Ha2, Hb2. eexists. split; [reflexivity|constructor].
  - intros H. destruct (IH1 _ H) as (y1 & H1 & P1), (IH2 _ H1) as (y2 & H2 & P2). exists y2. split; [done|by etrans].
Qed.

Lemma compiled_priorities p rs cs :
  collect (compile_rule regex_new p) rs = Ok cs -> map rule_priority cs = map priority rs.
Proof.
  intros H%collect_compiled. induction H as [|r x rs cs [Hf _] _ IH]; simpl; [done|]. f_equal; [|done].
  unfold rule_priority. by rewrite Hf.
Qed.

Definition uncompilable (p : ExchangeProfileConfig) : Prop := exists r e, r ∈ rules p /\ regex_new (pattern r) = Err e.

Lemma collect_uncompilable p rs e :
  collect (compile_rule regex_new p) rs = Err e -> exists r e', r ∈ rs /\ regex_new (pattern r) = Err e'.
Proof.
  induction rs as [|r rs IH]; simpl; [done|]. intros [H|(x & _ & H)]%bind_result_Err.
  - unfold compile_rule in H. destruct (regex_new (pattern r)) eqn:E; [done|]. exists r. eexists. split; [left|done].
  - apply bind_result_Err in H as [H|(ys & _ & [=])]. destruct (IH H) as (r' & e' & Hr & He). exists r', e'. split; [by right|done].
Qed.

(** The order in which a validated profile writes its rules does not matter: the mapping of
    scopes to authority is the same for every order of the same rules (the same invariants, or the
    same refusal), unless a pattern is not a regular expression, in which case every order is
    refused. *)
Theorem rule_order_is_irrelevant realm profiles p rs scopes :
  validate_exchange_profiles profiles realm = Ok tt -> p ∈ profiles -> rules p ≡ₚ rs ->
  map_invariants regex_new regex_captures cmp (with_rules p rs) scopes =
    map_invariants regex_new regex_captures cmp p scopes \/
  (uncompilable p /\ is_ok (map_invariants regex_new regex_captures cmp p scopes) = false /\
   is_ok (map_invariants regex_new regex_captures cmp (with_rules p rs) scopes) = false).
Proof.
  intros (_ & _ & Hs)%check_profiles_Ok Hp Hr. rewrite Forall_forall in Hs. specialize (Hs p Hp).
  unfold map_invariants. change (compile_rule regex_new (with_rules p rs)) with (compile_rule regex_new p).
  change (rules (with_rules p rs)) with rs.
  destruct (collect (compile_rule regex_new p) (rules p)) as [cs|e] eqn:E.
  - left. destruct (collect_perm _ _ _ _ Hr E) as (cs' & E' & Hcs). rewrite E'. simpl.
    rewrite <- (sort_unique cs cs'); [|by rewrite (compiled_priorities _ _ _ E); apply sound_priorities|done].
    assert (L : forall acc, map_scope_loop regex_captures cmp (with_rules p rs) (sort_by_priority rule_priority cs) scopes acc =
                map_scope_loop regex_captures cmp p (sort_by_priority rule_priority cs) scopes acc); [|by rewrite L].
    induction scopes as [|s scopes IH]; intros acc; simpl; [done|].
    destruct (first_match _ _ _) as [[r c]|]; [|by rewrite IH].
    destruct (emit_invariant _ _ _); [apply IH|done].
  - right. split; [by eapply collect_uncompilable|split; [done|]].
    destruct (collect (compile_rule regex_new p) rs) as [cs'|e'] eqn:E'; [|done].
    symmetry in Hr. destruct (collect_perm _ _ _ _ Hr E') as (cs & E2 & _). congruence.
Qed.
End RuleOrder.

(** ** A deployment with two realms *)

Module Deployment.
Definition build : BuildSettings := mkBuild "1.0" "abc" "2025" "PIC-X".

Definition server : Config :=
  match from_layers build ∅
    (mkLayers [(SETTING_PUBLIC_HTTP_ADDR, "0.0.0.0:443"); (SETTING_ISSUER, "https://pic.example"); (SETTING_WORKING_DIR, "/srv/pic");
               (SETTING_ADMIN_ADDR, "127.0.0.1:9000")] [] []) with
  | Ok c => c
  | Err _ => config_default
  end.

Definition rule (name pattern : string) (prio : Z) : PrivilegeRule :=
  mkRule name prio pattern (mkEmit "{{rest}}" "read" "api" "orders").

Definition profile : ExchangeProfileConfig :=
  mkProfile (mkProfileSource "main" "https://idp.example" None) EXCHANGE_SOURCE_OAUTH_ACCESS_TOKEN EXCHANGE_SOURCE_FORMAT_JWT
    "https://pic.example" ["RS256"] true (Some "at+jwt") [] (mkClaimMapping (Some "scope") None (Some "set") None) "scopes"
    [rule "orders" "orders:" 10; rule "any" "o" 1] EXCHANGE_ON_UNMATCHED_SCOPE_REJECT.

Definition realm (name : string) : RealmInput :=
  mkRealmInput name None None None (Some "10m") (Some "30d") (Some "60d") None None None None None None None None None
    None None (Some "1h") None None None [profile] [].

(** The upper case of characters outside ASCII does not occur in these names. *)
Definition no_uppercase (c : Z) : list Z := [c].

Definition config : Config :=
  match with_realms no_uppercase [realm "a"; realm "a-b"] server with Ok c => c | Err _ => server end.

Definition blank : RealmConfig :=
  mkRealmConfig "" "" None false false 0 0 0 0 Later 0 "" false 0 0 0 DestTracing 0 false None "" ProviderNone "" [] [].
Definition hosted (i : nat) : RealmConfig := List.nth i (cfg_realms config) blank.

Definition assemble (r : RealmConfig) : Realm unit unit unit :=
  realm_new (rc_name r) (rc_mount_path r) (rc_issuer r) (rc_listed r) None None tt None.

Lemma accepted : validate (fun _ => true) config = Ok tt.
Proof. vm_compute. reflexivity. Qed.
End Deployment.

Lemma realms_are_isolated_witness :
  by_mount (realms_new (map Deployment.assemble (cfg_realms Deployment.config))) "/realms/a-b" =
    Some (Deployment.assemble (Deployment.hosted 1)) /\
  ~ realm_place Deployment.config "a-b" (realm_audit_directory Deployment.config "a").
Proof.
  destruct (realms_are_isolated Deployment.assemble (fun r => eq_refl) (fun r => eq_refl) Deployment.no_uppercase (fun _ => true)
    [Deployment.realm "a"; Deployment.realm "a-b"] Deployment.server Deployment.config)
    as (_ & Hm & Hu & _); [vm_compute; reflexivity|exact Deployment.accepted|].
  split; [apply Hm; exists (Deployment.hosted 1); split_and!; [|vm_compute; reflexivity|reflexivity]|].
  { apply list_elem_of_lookup. by exists 1%nat. }
  intros H. apply (Hu (Deployment.hosted 0) (Deployment.hosted 1)) in H.
  - vm_compute in H. discriminate.
  - apply list_elem_of_lookup. by exists 0%nat.
  - apply list_elem_of_lookup. by exists 1%nat.
  - by exists "operations/audit".
Defined.

(** Two orders of the same two rules map a scope to the same authority. *)
Lemma rule_order_is_irrelevant_witness :
  exists i, map_invariants (Regex := string) Ok ToyRules.regex_captures ToyRules.cmp Deployment.profile ["orders:read"] = Ok [i] /\
    map_invariants (Regex := string) Ok ToyRules.regex_captures ToyRules.cmp
      (with_rules Deployment.profile (reverse (rules Deployment.profile))) ["orders:read"] = Ok [i].
Proof.
  eexists. split; [vm_compute; reflexivity|].
  destruct (rule_order_is_irrelevant (Regex := string) Ok ToyRules.regex_captures ToyRules.cmp "a" [Deployment.profile]
    Deployment.profile (reverse (rules Deployment.profile)) ["orders:read"]) as [H|(_ & H & _)].
  - vm_compute. reflexivity.
  - left.
  - by rewrite reverse_Permutation.
  - rewrite H. vm_compute. reflexivity.
  - vm_compute in H. discriminate.
Defined.
