(* ===== verification/Volume.v ===== *)
(** * The file system of a volume

    The part of [std::fs] that provisioning, the witness of a pseudonymisation key and the secret
    stores use: the directories that exist and the files with their contents and their mode. Every
    call may fail, at the will of [io], which is asked once per call; a write that fails may leave a
    file it opened cut short, because [fs::write] truncates before it writes. Text of an error is
    the context the code gives it. *)
From S2P Require Import Prelude Rust Text Settings.
Local Open Scope Z_scope.
Local Open Scope rust_scope.

Inductive IoKind := IoNotFound | IoDenied | IoOther.

#[global] Instance io_kind_eq_dec : EqDecision IoKind.
Proof. solve_decision. Defined.

Record File := mkFile { contents : list byte; mode : Z }.

Record Fs := mkFs {
  fs_files : gmap string File;
  fs_dirs : gset string;
  fs_calls : nat }.

(** How a call fails: with what, and for a write how much of the file was written, if it was opened. *)
Record Failure := mkFailure { failure_kind : IoKind; failure_written : option nat }.

Definition SLASH : byte := x2f.

(** [Path::parent]: of a relative path of one component it is the empty path. *)
Definition parent (path : string) : option string :=
  if bool_decide (path = "" \/ path = "/") then None
  else match rsplit_once SLASH path with
       | Some (dir, _) => Some (if is_empty dir then "/" else dir)
       | None => Some ""
       end.

(** A path and the directories above it. *)
Fixpoint ancestors_from (fuel : nat) (path : string) : list string :=
  match fuel with
  | O => []
  | S fuel => path :: match parent path with Some dir => ancestors_from fuel dir | None => [] end
  end.
Definition ancestors (path : string) : list string := ancestors_from (S (length (bytes_of path))) path.

(** The files a computation may change are those of [ps]. *)
Definition only_files (ps : gset string) (s s' : Fs) : Prop :=
  forall path, path ∉ ps -> fs_files s' !! path = fs_files s !! path.

#[export] Instance only_files_preorder ps : PreOrder (only_files ps).
Proof. split; [by intros s path|]. intros a b c H1 H2 path Hp. by rewrite H2, H1. Qed.

Section Calls.
(** What becomes of the n-th call, and the mode a new file gets. *)
Context (io : nat -> option Failure) (default_mode : Z).

Abbreviation FsM := (M Fs IoKind).

Definition tick (s : Fs) : Fs := mkFs (fs_files s) (fs_dirs s) (S (fs_calls s)).
Definition put_file (path : string) (f : File) (s : Fs) : Fs := mkFs (<[path := f]> (fs_files s)) (fs_dirs s) (fs_calls s).

(** [Path::exists]: a path that cannot be looked at is taken for absent. *)
Definition exists_ (unseen : string -> bool) (path : string) (s : Fs) : bool :=
  negb (unseen path) && bool_decide (is_Some (fs_files s !! path) \/ path ∈ fs_dirs s).

(** [fs::create_dir_all]: a file in the way is an error. *)
Definition in_the_way (s : Fs) (path : string) : bool :=
  existsb (fun p => bool_decide (is_Some (fs_files s !! p))) (ancestors path).

Definition create_dir_all (path : string) : FsM unit := fun s =>
  match io (fs_calls s) with
  | Some f => (Err (failure_kind f), tick s)
  | None =>
    if in_the_way s path then (Err IoOther, tick s)
    else (Ok tt, tick (mkFs (fs_files s) (list_to_set (ancestors path) ∪ fs_dirs s) (fs_calls s)))
  end.

(** [fs::set_permissions] with [Permissions::from_mode]. *)
Definition set_permissions (path : string) (m : Z) : FsM unit := fun s =>
  match io (fs_calls s) with
  | Some f => (Err (failure_kind f), tick s)
  | None =>
    match fs_files s !! path with
    | Some f => (Ok tt, tick (put_file path (mkFile (contents f) m) s))
    | None => if bool_decide (path ∈ fs_dirs s) then (Ok tt, tick s) else (Err IoNotFound, tick s)
    end
  end.

(** Whether the directory a path lies in exists: the root and the current directory always do. *)
Definition has_directory (s : Fs) (path : string) : bool :=
  match parent path with
  | Some dir => bool_decide (dir = "" \/ dir = "/" \/ dir ∈ fs_dirs s)
  | None => true
  end.

(** [fs::write]: an existing file is cut and keeps its mode. *)
Definition mode_at (s : Fs) (path : string) : Z :=
  match fs_files s !! path with Some f => mode f | None => default_mode end.

Definition write (path : string) (bs : list byte) : FsM unit := fun s =>
  match io (fs_calls s) with
  | Some f =>
    (Err (failure_kind f),
     tick (match failure_written f with
           | Some n => put_file path (mkFile (take n bs) (mode_at s path)) s
           | None => s
           end))
  | None =>
    if bool_decide (path ∈ fs_dirs s) then (Err IoOther, tick s)
    else if has_directory s path then (Ok tt, tick (put_file path (mkFile bs (mode_at s path)) s))
    else (Err IoNotFound, tick s)
  end.

(** [fs::read]. *)
Definition read_bytes (path : string) : FsM (list byte) := fun s =>
  (match io (fs_calls s) with
   | Some f => Err (failure_kind f)
   | None =>
     match fs_files s !! path with
     | Some f => Ok (contents f)
     | None => Err (if bool_decide (path ∈ fs_dirs s) then IoOther else IoNotFound)
     end
   end, tick s).

(** [fs::read_to_string]. *)
Definition read_to_string (path : string) : FsM string :=
  let! bs := read_bytes path in
  match from_utf8 bs with
  | Some text => mret text
  | None => mfail IoOther
  end.

(** [fs::metadata(..).permissions().mode()], of a file. *)
Definition file_mode (path : string) : FsM Z := fun s =>
  (match io (fs_calls s) with
   | Some f => Err (failure_kind f)
   | None => match fs_files s !! path with Some f => Ok (mode f) | None => Err IoNotFound end
   end, tick s).

(** [Context::with_context]: what was being done, before the error of the system. *)
Definition doing {A} (what : string) (m : FsM A) : M Fs Error A := fun s =>
  match m s with
  | (Ok a, s') => (Ok a, s')
  | (Err _, s') => (Err [what], s')
  end.

(** [restrict], in [provision.rs] and in [witness.rs]. *)
Definition restrict (path : string) (m : Z) : M Fs Error unit := doing ("restricting " +:+ path) (set_permissions path m).

(** ** What a call leaves alone *)

Lemma only_files_mono ps qs s s' : ps ⊆ qs -> only_files ps s s' -> only_files qs s s'.
Proof. intros Hs H path Hp. apply H. set_solver. Qed.

Lemma put_file_only path f s : only_files {[path]} s (tick (put_file path f s)).
Proof. intros p Hp. simpl. rewrite lookup_insert_ne; [done|]. set_solver. Qed.

Lemma create_dir_all_only ps path : preserves (only_files ps) (create_dir_all path).
Proof. intros s r s'. unfold create_dir_all. destruct (io _); [|destruct (in_the_way s path)]; intros [= _ <-]; by intros p. Qed.

Lemma set_permissions_only path m : preserves (only_files {[path]}) (set_permissions path m).
Proof.
  intros s r s'. unfold set_permissions. destruct (io _); [intros [= _ <-]; by intros p|].
  destruct (fs_files s !! path); [intros [= _ <-]; apply put_file_only|]. case_bool_decide; intros [= _ <-]; by intros p.
Qed.

Lemma write_only path bs : preserves (only_files {[path]}) (write path bs).
Proof.
  intros s r s'. unfold write. destruct (io _) as [f|].
  - destruct (failure_written f); intros [= _ <-]; [apply put_file_only|by intros p].
  - case_bool_decide; [|destruct (has_directory s path)]; intros [= _ <-]; try by intros p. apply put_file_only.
Qed.

Lemma preserves_only_mono {E A} ps qs (m : M Fs E A) : ps ⊆ qs -> preserves (only_files ps) m -> preserves (only_files qs) m.
Proof. intros Hs H s r s' Hr. eapply only_files_mono; [done|]. by eapply H. Qed.

(** Nothing is removed. *)
Definition grows (s s' : Fs) : Prop :=
  (forall path, is_Some (fs_files s !! path) -> is_Some (fs_files s' !! path)) /\ fs_dirs s ⊆ fs_dirs s'.

#[export] Instance grows_preorder : PreOrder grows.
Proof.
  split; [by intros s; split|]. intros a b c [H1 H2] [H3 H4]. split; [auto|by etrans].
Qed.

Lemma put_file_grows path f s : grows s (tick (put_file path f s)).
Proof. split; [|done]. intros p Hp. simpl. destruct (decide (path = p)) as [->|]; [rewrite lookup_insert_eq; eauto|by rewrite lookup_insert_ne]. Qed.

Lemma create_dir_all_grows path : preserves grows (create_dir_all path).
Proof.
  intros s r s'. unfold create_dir_all. destruct (io _); [|destruct (in_the_way s path)]; intros [= _ <-]; split; try done. set_solver.
Qed.

Lemma set_permissions_grows path m : preserves grows (set_permissions path m).
Proof.
  intros s r s'. unfold set_permissions. destruct (io _); [by intros [= _ <-]|].
  destruct (fs_files s !! path); [intros [= _ <-]; apply put_file_grows|]. case_bool_decide; by intros [= _ <-].
Qed.

Lemma write_grows path bs : preserves grows (write path bs).
Proof.
  intros s r s'. unfold write. destruct (io _) as [f|].
  - destruct (failure_written f); intros [= _ <-]; [apply put_file_grows|done].
  - case_bool_decide; [|destruct (has_directory s path)]; intros [= _ <-]; try done. apply put_file_grows.
Qed.

Lemma doing_preserves {A} (R : Fs -> Fs -> Prop) what (m : FsM A) : preserves R m -> preserves R (doing what m).
Proof. intros H s r s'. unfold doing. destruct (m s) as [[a|e] s1] eqn:E; intros [= _ <-]; by eapply H. Qed.

Lemma grows_exists unseen path s s' : grows s s' -> exists_ unseen path s = true -> exists_ unseen path s' = true.
Proof.
  intros [Hf Hd]. unfold exists_. destruct (unseen path); [done|]. simpl. rewrite !bool_decide_eq_true. intros [H|H]; [left; auto|right; auto].
Qed.

(** A successful write leaves the file it was told to. *)
Lemma write_Ok path bs s u s' :
  write path bs s = (Ok u, s') -> fs_files s' !! path = Some (mkFile bs (mode_at s path)).
Proof.
  unfold write. destruct (io _); [done|]. case_bool_decide; [done|]. destruct (has_directory s path); [|done].
  intros [= _ <-]. simpl. by rewrite lookup_insert_eq.
Qed.
End Calls.

#[export] Hint Resolve create_dir_all_only set_permissions_only write_only create_dir_all_grows set_permissions_grows
  write_grows doing_preserves : picx.
