(* ===== verification/ConfigFile.v ===== *)
(** * The configuration file ([crates/pic-x-core/src/config_file.rs], and [App::config_for] with what
    it calls of [crates/pic-x-server/src/app.rs])

    The sections of the file, the directory of realm files it may name, the layer of settings it
    contributes and the configuration assembled from it. The reader of YAML is a package: what it
    makes of a text is a parameter, and so is the part of the file system that a load reads. The
    names of directory entries are text. *)
From S2P Require Import Prelude Rust Text Order AuditEvents Access Limits Settings KeyCache ExchangeMap Realms Config Volume.
Local Open Scope Z_scope.
Local Open Scope rust_scope.

(** ** The sections of the file *)

Record ClaimMappingSection := mkClaimMappingSection {
  cm_from : option string; cm_value : option string; cm_type : option string; cm_encoding : option string }.

Record ExchangeTokenValidationSection := mkValidationSection {
  ev_allowed_algorithms : list string; ev_require_expiration : option bool; ev_require_token_type : option string }.

Record ExchangeProfileSourceSection := mkSourceSection {
  es_token_type : string; es_format : string; es_issuer : string; es_discovery_url : option string; es_audience : string;
  es_validation : ExchangeTokenValidationSection }.

Record ExchangeProfileClaimsSection := mkClaimsSection {
  ec_identity_context : list (string * ClaimMappingSection); ec_scopes : ClaimMappingSection }.

Record PrivilegeEmitSection := mkEmitSection {
  pe_scope : string; pe_operation : string; pe_resource_type : string; pe_resource_id : string }.

Record PrivilegeRuleSection := mkRuleSection { pr_name : string; pr_priority : Z; pr_pattern : string; pr_emit : PrivilegeEmitSection }.

Record ExchangeProfilePrivilegesSection := mkPrivilegesSection { ep_source : string; ep_rules : list PrivilegeRuleSection }.

Record ExchangeProfileSection := mkProfileSection {
  xp_id : string; xp_source : ExchangeProfileSourceSection; xp_claims : ExchangeProfileClaimsSection;
  xp_privileges : ExchangeProfilePrivilegesSection; xp_on_unmatched_scope : option string }.

Record TrustedAttesterSection := mkAttesterSection {
  ta_id : string; ta_issuer : string; ta_jwks_uri : string; ta_proof_types : list string; ta_formats : list string }.

Record RealmKeysSection := mkRealmKeys {
  rk_enabled : option string; rk_publish_ahead : option string; rk_rotate_every : option string; rk_retain : option string }.

Record PseudonymSection := mkPseudonym { ps_enabled : option string; ps_key_ref : option string; ps_key_version : option string }.

Record RealmAuditSection := mkRealmAudit { ra_sink : option string; ra_retention : option string; ra_pseudonym : PseudonymSection }.

Record RealmSecretsSection := mkRealmSecrets { rs_provider : option string; rs_env_prefix : option string }.

Record RealmOperationsSection := mkRealmOperations {
  ro_keys : RealmKeysSection; ro_audit : RealmAuditSection; ro_secrets : RealmSecretsSection }.

Record RealmSection := mkRealmSection {
  realm_section_name : string;
  rsec_token_lifetime : option string; rsec_token_initial_expiry_policy : option string;
  rsec_key_cache_stale_for : option string; rsec_token_signing_algorithm : option string;
  rsec_issuer : option string; rsec_listed : option string;
  rsec_keys : RealmKeysSection; rsec_operations : RealmOperationsSection;
  rsec_exchange_profiles : list ExchangeProfileSection; rsec_attesters : list TrustedAttesterSection }.

Record TlsSection := mkTlsSection {
  ts_cert : option string; ts_allow : option (list string); ts_key : option string; ts_client_ca : option string;
  ts_crl : option string; ts_min_version : option string }.

Record PublicSection := mkPublicSection {
  pub_http : option string; pub_disclose_build : option string; pub_url : option string; pub_path_prefix : option string;
  pub_tls : TlsSection }.

Record TransportSection := mkTransportSection { tr_reload : option string; tr_reload_interval : option string }.

Record LimitsSection := mkLimitsSection {
  lim_connections : option string; lim_connections_per_peer : option string; lim_peer_exempt : option (list string);
  lim_connection_lifetime : option string; lim_write_stall_timeout : option string; lim_concurrent_requests : option string;
  lim_request_timeout : option string; lim_handshake_timeout : option string; lim_header_timeout : option string;
  lim_body_bytes : option string; lim_header_bytes : option string }.

Record KeysSection := mkKeysSection {
  ks_enabled : option string; ks_directory : option string; ks_publish_ahead : option string; ks_rotate_every : option string;
  ks_retain : option string; ks_maintenance_interval : option string }.

Record AuditSection := mkAuditSection {
  as_sink : option string; as_directory : option string; as_retention : option string; as_pseudonym : PseudonymSection }.

Record SecretsSection := mkSecretsSection { ss_provider : option string; ss_directory : option string; ss_env_prefix : option string }.

Record OperationsSection := mkOperationsSection { ops_keys : KeysSection; ops_audit : AuditSection; ops_secrets : SecretsSection }.

Record TelemetryTlsSection := mkTelemetryTls { tt_cert : option string; tt_key : option string; tt_min_version : option string }.
Record TelemetrySection := mkTelemetrySection { tel_addr : option string; tel_tls : TelemetryTlsSection }.
Record AdminSection := mkAdminSection { adm_addr : option string; adm_tls : TlsSection; adm_allow : list string }.
Record LogSection := mkLogSection { log_level : option string; log_format : option string }.

Section Values.
(** A value of the file that nothing here reads. *)
Context {Value : Type}.

Record ConfigFile := mkConfigFile {
  f_working_dir : option string; f_autogenerate : option string; f_development_mode : option string;
  f_public : PublicSection; f_telemetry : TelemetrySection; f_admin : AdminSection; f_tls : TransportSection;
  f_limits : LimitsSection; f_log : LogSection; f_shutdown_timeout : option string; f_operations : OperationsSection;
  f_realms : list RealmSection; f_realms_from : option string; f_sections : list (string * Value) }.

Definition set_file_realms (f : ConfigFile) (realms : list RealmSection) : ConfigFile :=
  mkConfigFile (f_working_dir f) (f_autogenerate f) (f_development_mode f) (f_public f) (f_telemetry f) (f_admin f) (f_tls f)
    (f_limits f) (f_log f) (f_shutdown_timeout f) (f_operations f) realms (f_realms_from f) (f_sections f).
End Values.
Arguments ConfigFile : clear implicits.

Definition KNOWN_SECTIONS : list string := ["public"; "telemetry"; "admin"; "tls"; "limits"; "log"; "shutdown"; "operations"].

(** ** What a section says, in the types of the configuration *)

(** [ClaimMappingSection::to_input]. *)
Definition claim_to_input (m : ClaimMappingSection) : ClaimMapping := mkClaimMapping (cm_from m) (cm_value m) (cm_type m) (cm_encoding m).

(** [PrivilegeRuleSection::to_input]. *)
Definition rule_to_input (r : PrivilegeRuleSection) : PrivilegeRule :=
  mkRule (pr_name r) (pr_priority r) (pr_pattern r)
    (mkEmit (pe_scope (pr_emit r)) (pe_operation (pr_emit r)) (pe_resource_type (pr_emit r)) (pe_resource_id (pr_emit r))).

(** [ExchangeProfileSection::to_input]. *)
Definition profile_to_input (p : ExchangeProfileSection) : ExchangeProfileConfig :=
  let s := xp_source p in
  let v := es_validation s in
  mkProfile (mkProfileSource (xp_id p) (es_issuer s) (es_discovery_url s)) (es_token_type s) (es_format s) (es_audience s)
    (ev_allowed_algorithms v) (default false (ev_require_expiration v)) (ev_require_token_type v)
    (map (fun '(k, m) => (k, claim_to_input m)) (ec_identity_context (xp_claims p))) (claim_to_input (ec_scopes (xp_claims p)))
    (ep_source (xp_privileges p)) (map rule_to_input (ep_rules (xp_privileges p))) (default "reject" (xp_on_unmatched_scope p)).

(** [TrustedAttesterSection::to_input]. *)
Definition attester_to_input (a : TrustedAttesterSection) : TrustedAttesterConfig :=
  mkAttester (ta_id a) (ta_issuer a) (ta_jwks_uri a) (ta_proof_types a) (ta_formats a).

(** One realm of [ConfigFile::realms]. *)
Definition realm_to_input (r : RealmSection) : RealmInput :=
  let ops := rsec_operations r in
  mkRealmInput (realm_section_name r) (rsec_issuer r) (rsec_listed r)
    (rk_enabled (rsec_keys r)) (rk_publish_ahead (rsec_keys r)) (rk_rotate_every (rsec_keys r)) (rk_retain (rsec_keys r))
    (rk_enabled (ro_keys ops)) (rk_publish_ahead (ro_keys ops)) (rk_rotate_every (ro_keys ops)) (rk_retain (ro_keys ops))
    (ra_sink (ro_audit ops)) (ra_retention (ro_audit ops))
    (ps_enabled (ra_pseudonym (ro_audit ops))) (ps_key_ref (ra_pseudonym (ro_audit ops))) (ps_key_version (ra_pseudonym (ro_audit ops)))
    (rs_provider (ro_secrets ops)) (rs_env_prefix (ro_secrets ops))
    (rsec_token_lifetime r) (rsec_token_initial_expiry_policy r) (rsec_key_cache_stale_for r) (rsec_token_signing_algorithm r)
    (map profile_to_input (rsec_exchange_profiles r)) (map attester_to_input (rsec_attesters r)).

(** ** Paths and the file system a load reads *)

(** [Path::join]. *)
Definition path_join (dir name : string) : string :=
  if starts_with "/" name then name
  else if is_empty dir || ends_with "/" dir then dir +:+ name else dir +:+ "/" +:+ name.

Definition DOT : byte := x2e.

(** [Path::extension] and [Path::file_stem] of a file name. *)
Definition split_extension (name : string) : option (string * string) :=
  match rsplit_once DOT name with
  | Some (stem, ext) => if is_empty stem then None else Some (stem, ext)
  | None => None
  end.
Definition extension (name : string) : option string := snd <$> split_extension name.
Definition file_stem (name : string) : string := match split_extension name with Some (stem, _) => stem | None => name end.

Record Disk := mkDisk {
  disk_read : string -> result string Error;
  disk_list : string -> result (list (result string Error)) Error;
  disk_is_file : string -> bool }.

Section Reading.
Context {Value : Type}.
(** What the YAML reader makes of the text of a file and of a realm file. *)
Context (from_str : string -> result (ConfigFile Value) Error) (realm_from_str : string -> result RealmSection Error).
(** The environment of the process and the sections a build adds. *)
Context (disk : Disk).

(** [ConfigFile::parse]. *)
Definition parse_file (text : string) : result (ConfigFile Value) Error := from_str text.

Definition hidden (name : string) : bool := starts_with "." name.

Definition is_realm_file (directory name : string) : bool :=
  disk_is_file disk (path_join directory name) && bool_decide (extension name = Some "yml" \/ extension name = Some "yaml").

(** The loop over the entries of the directory. *)
Fixpoint realm_files (directory : string) (entries : list (result string Error)) : result (list string) Error :=
  match entries with
  | [] => Ok []
  | entry :: rest =>
    let? name := with_context ("reading the realms directory " +:+ directory) entry in
    if hidden name then realm_files directory rest
    else if is_realm_file directory name then let? names := realm_files directory rest in Ok (name :: names)
    else bail ("the realms directory " +:+ directory +:+ " contains `" +:+ name +:+
               "`, which is not a realm file: every visible entry is one realm, `<name>.yml`")
  end.

(** The loop over the files: what a file declares is appended to the realms. *)
Fixpoint read_realms (directory : string) (names : list string) (realms : list RealmSection) : result (list RealmSection) Error :=
  match names with
  | [] => Ok realms
  | name :: rest =>
    let path := path_join directory name in
    let? text := with_context ("reading the realm file " +:+ path) (disk_read disk path) in
    let? realm := with_context ("parsing the realm file " +:+ path) (realm_from_str text) in
    if bool_decide (realm_section_name realm <> file_stem name) then
      bail ("the realm file " +:+ path +:+ " declares a realm named `" +:+ realm_section_name realm +:+
            "`: a realm file is named after its realm, so the directory listing is the realm listing")
    else if existsb (fun r => bool_decide (realm_section_name r = realm_section_name realm)) realms then
      bail ("the realm file " +:+ path +:+ " declares `" +:+ realm_section_name realm +:+
            "` again: a realm name has to be unique, because it is what decides whose keys sign and whose trail records")
    else read_realms directory rest (realms ++ [realm])
  end.

Definition realms_directory (config_path named : string) : string :=
  match parent config_path with
  | Some dir => if is_empty dir then named else path_join dir named
  | None => named
  end.

Definition admin_tls_allows (f : ConfigFile Value) : bool :=
  match ts_allow (adm_tls (f_admin f)) with Some (_ :: _) => true | _ => false end.

(** [ConfigFile::gather_realms_from]. *)
Definition gather_realms_from (config_path : string) (f : ConfigFile Value) : result (ConfigFile Value) Error :=
  match f_realms_from f with
  | None => Ok f
  | Some named =>
    let directory := realms_directory config_path named in
    let? entries := with_context ("reading the realms directory " +:+ directory) (disk_list disk directory) in
    let? files := realm_files directory entries in
    let? realms := read_realms directory (sort_by String.compare id files) (f_realms f) in
    if admin_tls_allows f then
      bail "`admin.tls.allow` is not read: the administrative surface's peers are listed under `admin.allow`"
    else Ok (set_file_realms f realms)
  end.

(** [ConfigFile::load]. *)
Definition load_file (path : string) : result (ConfigFile Value) Error :=
  let? text := with_context ("reading the configuration file " +:+ path) (disk_read disk path) in
  let? f := with_context ("parsing the configuration file " +:+ path) (parse_file text) in
  gather_realms_from path f.
End Reading.

Section Settings.
Context {Value : Type}.
Implicit Type f : ConfigFile Value.

(** ** The layer of settings *)

Definition some_entries (l : option (list string)) : option (list string) :=
  match l with Some (x :: r) => Some (x :: r) | _ => None end.

Definition LF_text : string := string_of [LF].

(** The candidates of [ConfigFile::settings], in its order. *)
Definition candidates (f : ConfigFile Value) : list (string * option string) :=
  let limits := f_limits f in
  let ops := f_operations f in
  let pseudonym := as_pseudonym (ops_audit ops) in
  let public := f_public f in
  [ (SETTING_WORKING_DIR, f_working_dir f); (SETTING_AUTOGENERATE, f_autogenerate f); (SETTING_DEVELOPMENT_MODE, f_development_mode f);
    (SETTING_ISSUER, pub_url public);
    (SETTING_ADMIN_ALLOW, join LF_text <$> some_entries (Some (adm_allow (f_admin f))));
    (SETTING_TLS_RELOAD, tr_reload (f_tls f)); (SETTING_TLS_RELOAD_INTERVAL, tr_reload_interval (f_tls f));
    (SETTING_LIMITS_CONNECTIONS, lim_connections limits); (SETTING_LIMITS_CONNECTIONS_PER_PEER, lim_connections_per_peer limits);
    (SETTING_LIMITS_PEER_EXEMPT, join "," <$> some_entries (lim_peer_exempt limits));
    (SETTING_LIMITS_CONNECTION_LIFETIME, lim_connection_lifetime limits);
    (SETTING_LIMITS_WRITE_STALL_TIMEOUT, lim_write_stall_timeout limits);
    (SETTING_LIMITS_CONCURRENT_REQUESTS, lim_concurrent_requests limits); (SETTING_LIMITS_REQUEST_TIMEOUT, lim_request_timeout limits);
    (SETTING_LIMITS_HANDSHAKE_TIMEOUT, lim_handshake_timeout limits); (SETTING_LIMITS_HEADER_TIMEOUT, lim_header_timeout limits);
    (SETTING_LIMITS_HEADER_BYTES, lim_header_bytes limits); (SETTING_LIMITS_BODY_BYTES, lim_body_bytes limits);
    (SETTING_PUBLIC_TLS_CRL, ts_crl (pub_tls public));
    (SETTING_PUBLIC_TLS_ALLOW, join LF_text <$> some_entries (ts_allow (pub_tls public)));
    (SETTING_PUBLIC_DISCLOSE_BUILD, pub_disclose_build public); (SETTING_ADMIN_TLS_CRL, ts_crl (adm_tls (f_admin f)));
    (SETTING_AUDIT_SINK, as_sink (ops_audit ops)); (SETTING_AUDIT_DIRECTORY, as_directory (ops_audit ops));
    (SETTING_AUDIT_RETENTION, as_retention (ops_audit ops));
    (SETTING_KEYS_ENABLED, ks_enabled (ops_keys ops)); (SETTING_KEYS_DIRECTORY, ks_directory (ops_keys ops));
    (SETTING_KEYS_PUBLISH_AHEAD, ks_publish_ahead (ops_keys ops)); (SETTING_KEYS_ROTATE_EVERY, ks_rotate_every (ops_keys ops));
    (SETTING_KEYS_RETAIN, ks_retain (ops_keys ops)); (SETTING_KEYS_MAINTENANCE_INTERVAL, ks_maintenance_interval (ops_keys ops));
    (SETTING_PUBLIC_PATH_PREFIX, pub_path_prefix public); (SETTING_PUBLIC_HTTP_ADDR, pub_http public);
    (SETTING_TELEMETRY_ADDR, tel_addr (f_telemetry f)); (SETTING_ADMIN_ADDR, adm_addr (f_admin f));
    (SETTING_LOG_LEVEL, log_level (f_log f));
    (SETTING_PUBLIC_TLS_CERT, ts_cert (pub_tls public)); (SETTING_PUBLIC_TLS_KEY, ts_key (pub_tls public));
    (SETTING_PUBLIC_TLS_CLIENT_CA, ts_client_ca (pub_tls public)); (SETTING_PUBLIC_TLS_MIN_VERSION, ts_min_version (pub_tls public));
    (SETTING_ADMIN_TLS_CERT, ts_cert (adm_tls (f_admin f))); (SETTING_ADMIN_TLS_KEY, ts_key (adm_tls (f_admin f)));
    (SETTING_ADMIN_TLS_CLIENT_CA, ts_client_ca (adm_tls (f_admin f)));
    (SETTING_ADMIN_TLS_MIN_VERSION, ts_min_version (adm_tls (f_admin f)));
    (SETTING_TELEMETRY_TLS_CERT, tt_cert (tel_tls (f_telemetry f))); (SETTING_TELEMETRY_TLS_KEY, tt_key (tel_tls (f_telemetry f)));
    (SETTING_TELEMETRY_TLS_MIN_VERSION, tt_min_version (tel_tls (f_telemetry f)));
    (SETTING_LOG_FORMAT, log_format (f_log f)); (SETTING_SHUTDOWN_TIMEOUT, f_shutdown_timeout f);
    (SETTING_SECRETS_PROVIDER, ss_provider (ops_secrets ops)); (SETTING_SECRETS_DIRECTORY, ss_directory (ops_secrets ops));
    (SETTING_SECRETS_ENV_PREFIX, ss_env_prefix (ops_secrets ops));
    (SETTING_AUDIT_PSEUDONYM_ENABLED, ps_enabled pseudonym); (SETTING_AUDIT_PSEUDONYM_KEY_REF, ps_key_ref pseudonym);
    (SETTING_AUDIT_PSEUDONYM_KEY_VERSION, ps_key_version pseudonym) ].

Definition defined (l : list (string * option string)) : list (string * string) :=
  flat_map (fun '(key, value) => match value with Some v => [(key, v)] | None => [] end) l.

(** [ConfigFile::settings]. *)
Definition file_settings (f : ConfigFile Value) : list (string * string) := defined (candidates f).

(** [ConfigFile::section]. *)
Definition file_section (f : ConfigFile Value) (name : string) : option Value :=
  snd <$> List.find (fun s => bool_decide (fst s = name)) (f_sections f).

(** [ConfigFile::realms]. *)
Definition file_realms (f : ConfigFile Value) : list RealmInput := map realm_to_input (f_realms f).

(** [ConfigFile::reject_unknown_sections]. *)
Definition reject_unknown_sections (claimed : list string) (f : ConfigFile Value) : result unit Error :=
  let unknown := List.filter (fun name => negb (bool_decide (name ∈ claimed))) (map fst (f_sections f)) in
  match unknown with
  | [] => Ok tt
  | _ => bail ("the configuration file declares unknown section(s): " +:+ join ", " unknown +:+
               ". Known sections: " +:+ join ", " (KNOWN_SECTIONS ++ claimed))
  end.
End Settings.

(** ** The configuration of an invocation *)

Record AppSections (Value : Type) := mkAppSections {
  claimed_sections : list string;
  section_readers : list (string * (Value -> result (list (string * string)) Error));
  section_parsers : list (string * (Config -> Value -> result Config Error)) }.
Arguments claimed_sections {Value} _.
Arguments section_readers {Value} _.
Arguments section_parsers {Value} _.

(** The layers an action contributes: a file to serve from, and its flags. *)
Inductive Invocation := Serve (config_file : string) (flags : list (string * string)) | Named (flags : list (string * string)).

Definition setting_inputs (a : Invocation) : list (string * string) :=
  match a with Serve _ flags => flags | Named flags => flags end.

Section App.
Context {Value : Type}.
Context (unicode_uppercase : Z -> list Z).
Context (from_str : string -> result (ConfigFile Value) Error) (realm_from_str : string -> result RealmSection Error).
Context (disk : Disk) (app : AppSections Value) (b : BuildSettings) (declared : gset string) (environment : list (string * string)).

(** [App::load]. *)
Definition app_load (path : string) : result (ConfigFile Value) Error :=
  let? f := load_file from_str realm_from_str disk path in
  let? _ := with_context ("parsing the configuration file " +:+ path) (reject_unknown_sections (claimed_sections app) f) in
  Ok f.

(** [App::file_inputs]. *)
Fixpoint read_sections (path : string) (f : ConfigFile Value)
  (readers : list (string * (Value -> result (list (string * string)) Error))) (settings : list (string * string)) :
  result (list (string * string)) Error :=
  match readers with
  | [] => Ok settings
  | (name, reader) :: rest =>
    match file_section f name with
    | None => read_sections path f rest settings
    | Some value =>
      let? more := with_context ("reading the `" +:+ name +:+ "` section of the configuration file " +:+ path) (reader value) in
      read_sections path f rest (settings ++ more)
    end
  end.
Definition file_inputs (path : string) (f : ConfigFile Value) : result (list (string * string)) Error :=
  read_sections path f (section_readers app) (file_settings f).

(** [App::apply_sections], over what the parsers add to. *)
Fixpoint apply_parsers {C : Type} (path : string) (f : ConfigFile Value) (parsers : list (string * (C -> Value -> result C Error)))
  (c : C) : result C Error :=
  match parsers with
  | [] => Ok c
  | (name, parse) :: rest =>
    match file_section f name with
    | None => apply_parsers path f rest c
    | Some value =>
      let? c := with_context ("in the configuration file " +:+ path) (parse c value) in apply_parsers path f rest c
    end
  end.

(** [App::config_for]. *)
Definition config_for (action : Invocation) : result Config Error :=
  match action with
  | Serve path flags =>
    let? f := app_load path in
    let? inputs := file_inputs path f in
    let? c := from_layers b declared (mkLayers inputs environment (setting_inputs action)) in
    let? c := with_context ("in the configuration file " +:+ path) (with_realms unicode_uppercase (file_realms f) c) in
    apply_parsers path f (section_parsers app) c
  | Named flags => from_layers b declared (mkLayers [] environment (setting_inputs action))
  end.
End App.
