(* ===== verification/ConfigFileProperties.v ===== *)
(** * What loading a configuration file does

    [loading_decides] characterises the files and realm directories that load and what is read
    from them; [file_reaches_the_configuration] follows the settings and the realms of a file into
    the configuration an invocation runs with. *)
From stdpp Require Import sorting.
From S2P Require Import Prelude Rust Text Order AuditEvents Access Limits Settings KeyCache ExchangeMap Realms Config ConfigRules.
From S2P Require Import ConfigLayers ConfigProperties Volume ConfigFile.
Local Open Scope Z_scope.
Local Open Scope rust_scope.

Section Loading.
Context {Value : Type}.
Context (from_str : string -> result (ConfigFile Value) Error) (realm_from_str : string -> result RealmSection Error).
Context (disk : Disk).

(** The entries of a directory that are shown. *)
Definition visible (names : list string) : list string := List.filter (fun n => negb (hidden n)) names.

(** A file that declares the realm it is named after. *)
Definition declares (directory name : string) (r : RealmSection) : Prop :=
  exists text, disk_read disk (path_join directory name) = Ok text /\ realm_from_str text = Ok r /\ realm_section_name r = file_stem name.

Lemma realm_files_Ok directory entries names :
  realm_files disk directory entries = Ok names <->
  exists listed, entries = map Ok listed /\ names = visible listed /\ Forall (fun n => is_realm_file disk directory n = true) names.
Proof.
  revert names. induction entries as [|entry entries IH]; intros names; simpl.
  { split; [intros [= <-]; by exists []|]. by intros ([|] & ? & -> & _). }
  split.
  - intros (name & He & H)%bind_result_Ok. destruct entry as [n|e]; [injection He as ->|done].
    destruct (hidden name) eqn:Eh.
    + apply IH in H as (listed & -> & -> & Hf). exists (name :: listed). split_and!; [done| |done]. unfold visible. simpl. by rewrite Eh.
    + destruct (is_realm_file disk directory name) eqn:Ef; [|done]. apply bind_result_Ok in H as (ns & (listed & -> & -> & Hf)%IH & [= <-]).
      exists (name :: listed). split_and!; [done| |by constructor]. unfold visible. simpl. by rewrite Eh.
  - intros ([|n listed] & [= -> ->] & Hn & Hf). simpl. unfold visible in Hn. simpl in Hn. destruct (hidden n) eqn:Eh; simpl in Hn.
    + apply IH. by exists listed.
    + subst names. apply Forall_cons in Hf as [-> Hf]. apply bind_result_Ok. exists (visible listed). split; [|done]. apply IH. by exists listed.
Qed.

Lemma existsb_named name (realms : list RealmSection) :
  existsb (fun r => bool_decide (realm_section_name r = name)) realms = true <-> name ∈ map realm_section_name realms.
Proof.
  rewrite existsb_exists, list_elem_of_fmap. split.
  - intros (r & Hr & H%bool_decide_eq_true). exists r. split; [done|by apply list_elem_of_In].
  - intros (r & -> & Hr). exists r. split; [by apply list_elem_of_In|by apply bool_decide_eq_true].
Qed.

(** Names that are distinct and new, one at a time. *)
Definition fresh_names (ns before : list string) : Prop := NoDup ns /\ forall n, n ∈ ns -> n ∉ before.

Lemma fresh_cons n ns before : fresh_names (n :: ns) before <-> n ∉ before /\ fresh_names ns (before ++ [n]).
Proof.
  unfold fresh_names. rewrite NoDup_cons. split.
  - intros [[Hn Hd] Hf]. split_and!; [apply Hf; set_solver|done|]. intros x Hx. pose proof (Hf x). set_solver.
  - intros (Hb & Hd & Hf). split_and!; [|done|].
    + intros Hn. apply (Hf n Hn). set_solver.
    + intros x [->|Hx]%elem_of_cons; [done|]. pose proof (Hf x Hx). set_solver.
Qed.

(** Appending keeps names apart exactly when each new name is new. *)
Lemma read_realms_Ok directory names before after :
  read_realms realm_from_str disk directory names before = Ok after <->
  exists realms, after = before ++ realms /\ Forall2 (declares directory) names realms /\
    fresh_names (map realm_section_name realms) (map realm_section_name before).
Proof.
  revert before. induction names as [|name names IH]; intros before; simpl.
  { split; [intros [= <-]; exists []; rewrite app_nil_r; split; [done|]; split; [constructor|]; split; [apply NoDup_nil_2|set_solver]|].
    intros (realms & -> & H & _). inversion H. by rewrite app_nil_r. }
  split.
  - intros (text & Ht & (r & Hr & H)%bind_result_Ok)%bind_result_Ok.
    destruct (disk_read disk _) as [t|e] eqn:Ed; [injection Ht as ->|done].
    destruct (realm_from_str text) as [r'|e] eqn:Er; [injection Hr as ->|done].
    case_bool_decide as En; [done|]. destruct (existsb _ before) eqn:Ex; [done|].
    apply IH in H as (realms & -> & HF & Hf). exists (r :: realms). rewrite <- app_assoc. split_and!; [done| |].
    + constructor; [|done]. exists text. split_and!; done.
    + apply fresh_cons. rewrite map_app in Hf. split; [|done]. rewrite <- existsb_named. by rewrite Ex.
  - intros (realms & -> & HF & Hf). inversion HF as [|? r ? realms' (text & Ht & Hr & Hs) HF']; subst.
    apply fresh_cons in Hf as [Hb Hf]. rewrite Ht. simpl. rewrite Hr. simpl.
    rewrite bool_decide_false by tauto. rewrite <- existsb_named in Hb. destruct (existsb _ before); [done|].
    apply IH. exists realms'. rewrite <- app_assoc, map_app. done.
Qed.

(** What a directory of realm files adds to the realms of a file. *)
Definition adds_realms (directory : string) (f : ConfigFile Value) (realms : list RealmSection) : Prop :=
  exists listed, disk_list disk directory = Ok (map Ok listed) /\
    Forall (fun n => is_realm_file disk directory n = true) (visible listed) /\
    Forall2 (declares directory) (sort_by String.compare id (visible listed)) realms /\
    fresh_names (map realm_section_name realms) (map realm_section_name (f_realms f)).

Lemma gather_Ok path f f' :
  gather_realms_from realm_from_str disk path f = Ok f' <->
  match f_realms_from f with
  | None => f' = f
  | Some named => admin_tls_allows f = false /\
      exists realms, adds_realms (realms_directory path named) f realms /\ f' = set_file_realms f (f_realms f ++ realms)
  end.
Proof.
  unfold gather_realms_from. destruct (f_realms_from f) as [named|]; [|split; [by intros [= <-]|by intros ->]].
  set (dir := realms_directory path named). split.
  - intros (entries & He%with_context_Ok & (files & (listed & -> & -> & Hf)%realm_files_Ok & (all & (realms & -> & HF & Hn)%read_realms_Ok & H)%bind_result_Ok)%bind_result_Ok)%bind_result_Ok.
    destruct (admin_tls_allows f); [done|]. injection H as <-. split; [done|]. exists realms. split; [|done]. exists listed. done.
  - intros (Ha & realms & (listed & Hl & Hf & HF & Hn) & ->). apply bind_result_Ok. exists (map Ok listed).
    rewrite with_context_Ok. split; [done|]. apply bind_result_Ok. exists (visible listed). split; [apply realm_files_Ok; by exists listed|].
    apply bind_result_Ok. exists (f_realms f ++ realms). split; [apply read_realms_Ok; by exists realms|]. by rewrite Ha.
Qed.

(** C26: which files load, and what is read. A configuration file loads exactly when it can be
    read and parsed and, when it names a directory of realms: the directory can be listed, every
    entry that is not hidden is a YAML file, each declares a realm of the file's own name, no two
    declare the same one, none declares a realm the file declares itself, and `admin.tls.allow` is
    not set. The realms are then those of the file followed by those of the directory in the
    order of the names of their files, and nothing else of the file changes. Without such a directory the file
    is taken as it was parsed, whatever `admin.tls.allow` holds. *)
Theorem loading_decides path f' :
  load_file from_str realm_from_str disk path = Ok f' <->
  exists text f, disk_read disk path = Ok text /\ from_str text = Ok f /\
    match f_realms_from f with
    | None => f' = f
    | Some named => admin_tls_allows f = false /\
        exists realms, adds_realms (realms_directory path named) f realms /\ f' = set_file_realms f (f_realms f ++ realms)
    end.
Proof.
  unfold load_file, parse_file. split.
  - intros (text & Ht%with_context_Ok & (f & Hf%with_context_Ok & H%gather_Ok)%bind_result_Ok)%bind_result_Ok. eauto.
  - intros (text & f & Ht & Hf & H). apply bind_result_Ok. exists text. rewrite with_context_Ok. split; [done|].
    apply bind_result_Ok. exists f. rewrite with_context_Ok. split; [done|]. by apply gather_Ok.
Qed.
End Loading.

(** ** The layer of settings *)

Section Layer.
Context {Value : Type}.
Implicit Type f : ConfigFile Value.

Definition FILE_SETTINGS : list string :=
  Eval cbv in map fst (candidates (mkConfigFile (Value := unit) None None None
    (mkPublicSection None None None None (mkTlsSection None None None None None None)) (mkTelemetrySection None (mkTelemetryTls None None None))
    (mkAdminSection None (mkTlsSection None None None None None None) []) (mkTransportSection None None)
    (mkLimitsSection None None None None None None None None None None None) (mkLogSection None None) None
    (mkOperationsSection (mkKeysSection None None None None None None) (mkAuditSection None None None (mkPseudonym None None None))
       (mkSecretsSection None None None)) [] None [])).

Lemma candidate_keys f : map fst (candidates f) = FILE_SETTINGS.
Proof. reflexivity. Qed.

Lemma file_settings_distinct : NoDup FILE_SETTINGS.
Proof. apply (bool_decide_unpack _). vm_compute. exact I. Qed.

(** Every setting but the build's own has its place in the file. *)
Lemma plain_settings_in_file :
  forallb (fun p => bool_decide (plain_key p ∈ FILE_SETTINGS \/ plain_key p ∈ [SETTING_VERSION; SETTING_COPYRIGHT_YEAR; SETTING_COPYRIGHT_HOLDER]))
    PLAIN_SETTINGS = true.
Proof. vm_compute. reflexivity. Qed.

Lemma elem_of_defined k v l : (k, v) ∈ defined l <-> (k, Some v) ∈ l.
Proof.
  unfold defined. rewrite !list_elem_of_In, in_flat_map. split.
  - intros ([k' [v'|]] & Hin & H); simpl in H; [|done]. destruct H as [[= <- <-]|[]]. exact Hin.
  - intros Hin. exists (k, Some v). split; [exact Hin|by left].
Qed.

Lemma defined_keys l : NoDup (map fst l) -> NoDup (map fst (defined l)).
Proof.
  induction l as [|[k [v|]] l IH]; simpl; [done|..]; intros [Hk Hl]%NoDup_cons; [|by apply IH]. constructor; [|by apply IH].
  intros ([k' v'] & Hk' & Hin)%list_elem_of_fmap. simpl in Hk'. subst k'. apply elem_of_defined in Hin. destruct Hk.
  apply list_elem_of_fmap. by exists (k, Some v').
Qed.

(** A setting given once has the value it was given. *)
Lemma last_given_once k v l : NoDup (map fst l) -> (k, v) ∈ l -> v <> "" -> last_given k l = Some v.
Proof.
  intros Hn Hin Hv. induction l as [|[k' v'] l IH]; [by apply elem_of_nil in Hin|]. simpl in Hn. apply NoDup_cons in Hn as [Hk Hn].
  change ((k', v') :: l) with ([(k', v')] ++ l). rewrite last_given_app. apply elem_of_cons in Hin as [[= <- <-]|Hin]; [|by rewrite IH].
  assert (last_given k l = None) as ->.
  { unfold last_given. assert (List.filter (fun kv => bool_decide (fst kv = k) && negb (is_empty (snd kv))) l = []) as ->; [|done].
    clear IH Hn. induction l as [|[k' v'] l IH]; [done|]. simpl. rewrite bool_decide_false by set_solver. apply IH. set_solver. }
  unfold last_given, is_empty. simpl. rewrite bool_decide_true, bool_decide_false by done. done.
Qed.

Lemma file_setting_given f k v : (k, Some v) ∈ candidates f -> v <> "" -> last_given k (file_settings f) = Some v.
Proof.
  intros Hc Hv. apply last_given_once; [|by apply elem_of_defined|done]. apply defined_keys. rewrite candidate_keys. apply file_settings_distinct.
Qed.
End Layer.

(** Realms are no part of the settings. *)
Lemma plain_field_set_realms rs c : Forall (fun p => plain_field p (set_realms rs c) = plain_field p c) PLAIN_SETTINGS.
Proof. unfold PLAIN_SETTINGS. repeat (apply Forall_cons; split; [reflexivity|]). by apply Forall_nil. Qed.

Section Configured.
Context {Value : Type}.
Context (unicode_uppercase : Z -> list Z).
Context (from_str : string -> result (ConfigFile Value) Error) (realm_from_str : string -> result RealmSection Error).
Context (disk : Disk) (app : AppSections Value) (b : BuildSettings) (declared : gset string) (environment : list (string * string)).

Lemma with_realms_names inputs c c' :
  with_realms unicode_uppercase inputs c = Ok c' -> exists rs, c' = set_realms rs c /\ map rc_name rs = map in_name inputs.
Proof.
  unfold with_realms. intros (rs & H & [= <-])%bind_result_Ok. exists rs. split; [done|]. revert rs H.
  induction inputs as [|i inputs IH]; simpl; intros rs; [by intros [= <-]|].
  intros (r & Hr & (rs' & Hrs & [= <-])%bind_result_Ok)%bind_result_Ok. simpl. f_equal; [|by apply IH].
  by apply (resolve_realm_mount unicode_uppercase) in Hr as [? _].
Qed.

Lemma reject_unknown_Ok claimed (f : ConfigFile Value) :
  reject_unknown_sections claimed f = Ok tt <-> forall name value, (name, value) ∈ f_sections f -> name ∈ claimed.
Proof.
  unfold reject_unknown_sections. set (unknown := List.filter _ _). assert (unknown = [] <-> forall name value, (name, value) ∈ f_sections f -> name ∈ claimed) as <-.
  { unfold unknown. split.
    - intros H name value Hin. destruct (decide (name ∈ claimed)) as [|Hn]; [done|]. exfalso.
      assert (In name []) as []. rewrite <- H. apply filter_In. rewrite bool_decide_false by done. split; [|done].
      apply in_map_iff. exists (name, value). split; [done|by apply list_elem_of_In].
    - intros H. induction (f_sections f) as [|[n v] l IH]; [done|]. simpl. rewrite bool_decide_true by (apply (H n v); set_solver). simpl.
      apply IH. intros name value Hin. apply (H name value). by right. }
  destruct unknown; split; done.
Qed.

Definition reads_setting (f : ConfigFile Value) (c : Config) (flags : list (string * string)) : Prop :=
  forall p v, p ∈ PLAIN_SETTINGS -> (plain_key p, Some v) ∈ candidates f -> v <> "" ->
    last_given (plain_key p) environment = None -> last_given (plain_key p) flags = None -> plain_read p v = Ok (plain_field p c).

(** What an invocation that serves from a file ends with: the last value given to each setting, by the file,
    the environment and the flags, and the realms of the file. *)
Lemma served_layers path flags c :
  section_readers app = [] -> section_parsers app = [] ->
  config_for unicode_uppercase from_str realm_from_str disk app b declared environment (Serve path flags) = Ok c ->
  exists f, load_file from_str realm_from_str disk path = Ok f /\
    (forall name value, (name, value) ∈ f_sections f -> name ∈ claimed_sections app) /\
    map rc_name (cfg_realms c) = map realm_section_name (f_realms f) /\
    forall p, p ∈ PLAIN_SETTINGS ->
      field_after p (last_given (plain_key p) ((file_settings f ++ environment) ++ flags)) (apply_build_settings b declared) c.
Proof.
  intros Hr Hp. unfold config_for, app_load, file_inputs. rewrite Hr, Hp. simpl.
  intros (f & (f' & Hf & ([] & Hu%with_context_Ok & [= ->])%bind_result_Ok)%bind_result_Ok
    & (c1 & Hc1 & (c2 & Hc2%with_context_Ok%with_realms_names & [= ->])%bind_result_Ok)%bind_result_Ok)%bind_result_Ok.
  destruct Hc2 as (rs & -> & Hn). exists f. split_and!; [done|by apply reject_unknown_Ok| |].
  - simpl. rewrite Hn. unfold file_realms. rewrite map_map. by apply map_ext.
  - intros p Hin. destruct (from_layers_steps _ _ _ _ Hc1) as (d1 & d2 & H1 & H2 & H3).
    pose proof (field_after_step _ _ _ _ _ _ (field_after_step _ _ _ _ _ _ (apply_pairs_last _ _ _ _ H1 Hin)
      (apply_pairs_last _ _ _ _ H2 Hin)) (apply_pairs_last _ _ _ _ H3 Hin)) as Ha. simpl in Ha.
    pose proof (plain_field_set_realms rs c1) as Hs. rewrite Forall_forall in Hs. unfold field_after in *. by rewrite (Hs p Hin).
Qed.

End Configured.

(** ** A deployment with a directory of realms *)
Module Directory.
Definition no_tls : TlsSection := mkTlsSection None None None None None None.

Definition realm_section (name : string) : RealmSection :=
  mkRealmSection name (Some "1h") None None None None None (mkRealmKeys None (Some "10m") (Some "30d") (Some "60d"))
    (mkRealmOperations (mkRealmKeys None None None None) (mkRealmAudit None None (mkPseudonym None None None)) (mkRealmSecrets None None)) [] [].

Definition file (admin : AdminSection) (realms_from : option string) : ConfigFile unit :=
  mkConfigFile None None None (mkPublicSection (Some "0.0.0.0:5556") None (Some "https://pic.example/") None no_tls)
    (mkTelemetrySection None (mkTelemetryTls None None None)) admin (mkTransportSection None None)
    (mkLimitsSection None None (Some ["10.0.0.0/8"; "192.168.1.1"]) None None None None None None (Some "1M") None) (mkLogSection None None) (Some "30s")
    (mkOperationsSection (mkKeysSection None None None None None None) (mkAuditSection None None None (mkPseudonym None None None))
       (mkSecretsSection None None None)) [realm_section "inline"] realms_from [].

Definition admin : AdminSection := mkAdminSection None no_tls [].
Definition open_admin : AdminSection := mkAdminSection None (mkTlsSection None (Some ["cn:operator"]) None None None None) [].

(** Texts stand for what the YAML reader makes of them. *)
Definition from_str (text : string) : result (ConfigFile unit) Error :=
  if bool_decide (text = "directory") then Ok (file admin (Some "realms.d"))
  else if bool_decide (text = "open") then Ok (file open_admin None)
  else if bool_decide (text = "open directory") then Ok (file open_admin (Some "realms.d"))
  else bail "not a configuration file".
Definition realm_from_str (text : string) : result RealmSection Error := Ok (realm_section text).

Definition disk : Disk :=
  mkDisk (fun path =>
      if bool_decide (path = "etc/pic.yml") then Ok "directory"
      else if bool_decide (path = "etc/open.yml") then Ok "open"
      else if bool_decide (path = "etc/both.yml") then Ok "open directory"
      else if bool_decide (path = "etc/realms.d/b.yml") then Ok "b"
      else if bool_decide (path = "etc/realms.d/a.yaml") then Ok "a" else bail "no such file")
    (fun dir => if bool_decide (dir = "etc/realms.d") then Ok [Ok "b.yml"; Ok ".swp"; Ok "a.yaml"] else bail "no such directory")
    (fun path => bool_decide (path ∈ ["etc/realms.d/b.yml"; "etc/realms.d/a.yaml"])).

Definition app : AppSections unit := mkAppSections unit [] [] [].
Definition configured : result Config Error :=
  config_for (fun c => [c]) from_str realm_from_str disk app (mkBuild "1.0.0" "" "2022" "PIC-X") ∅ [(SETTING_LOG_LEVEL, "debug")]
    (Serve "etc/pic.yml" [(SETTING_SHUTDOWN_TIMEOUT, "10s")]).
Definition config : Config := match configured with Ok c => c | Err _ => apply_build_settings (mkBuild "" "" "" "") ∅ end.
End Directory.


(** `admin.tls.allow` is refused only in a file that names a directory of realms. *)
Example admin_allow_refusal_depends_on_realms_from :
  load_file Directory.from_str Directory.realm_from_str Directory.disk "etc/open.yml" = Ok (Directory.file Directory.open_admin None) /\
  is_ok (load_file Directory.from_str Directory.realm_from_str Directory.disk "etc/both.yml") = false.
Proof. split; vm_compute; reflexivity. Qed.
