(* ===== verification/Witness.v ===== *)
(** * The witness of a pseudonymisation key ([crates/pic-x-server/src/witness.rs])

    Per key version, the server remembers what the key of that version made of one fixed input, and
    refuses to start when a version makes something else of it. [version_names_one_key] shows that
    this ties a version to one key over any number of restarts, as long as a write either happens or
    does not; a write that is cut short, and a version with a tab in it, escape it. *)
From S2P Require Import Prelude Rust Text Encoding AuditEvents Access Limits Settings KeyCache ExchangeMap Realms Config Volume.
Local Open Scope Z_scope.
Local Open Scope rust_scope.

Definition WITNESS_INPUT : string := "pic-x:audit-pseudonym-key-witness".
Definition WITNESS_FILE : string := "operations/state/audit-pseudonym-versions".
Definition TAB : byte := x09.

Definition witness_path (c : Config) : string := resolve c WITNESS_FILE.

Section Check.
Context (io : nat -> option Failure) (default_mode : Z).

(** [fs::read_to_string], where a file that is not there is empty. *)
Definition text_or_empty (path : string) : M Fs Error string := fun s =>
  match read_to_string io path s with
  | (Ok text, s') => (Ok text, s')
  | (Err IoNotFound, s') => (Ok "", s')
  | (Err _, s') => (Err ["reading " +:+ path], s')
  end.

(** The versions of a text, one to a line, a tab before what the version produced. *)
Definition witnesses_of (text : string) : list (string * string) :=
  omap (fun line => split_once TAB (string_of line)) (lines (bytes_of text)).

(** [read]. *)
Definition read_witnesses (path : string) : M Fs Error (list (string * string)) :=
  let! text := text_or_empty path in mret (witnesses_of text).

Definition witness_line (version witness : string) : string := version +:+ string_of [TAB] +:+ witness +:+ string_of [LF].

Definition with_newline (text : string) : string :=
  if negb (is_empty text) && negb (ends_with (string_of [LF]) text) then text +:+ string_of [LF] else text.

(** [append]. *)
Definition append_witness (path version witness : string) : M Fs Error unit :=
  let! _ := match parent path with
    | Some dir =>
      let! _ := doing ("creating " +:+ dir) (create_dir_all io dir) in
      restrict io dir 448
    | None => mret tt
    end in
  let! text := text_or_empty path in
  let! _ := doing ("writing " +:+ path)
              (write io default_mode path (bytes_of (with_newline text +:+ witness_line version witness))) in
  restrict io path 384.

Definition changed_key (path version : string) : Error :=
  ["the audit pseudonymisation key changed but its version did not: version `" +:+ version
   +:+ "` has already produced records under a different key, and writing more under the same version would make "
   +:+ "the two indistinguishable. Give the new key a new `audit.pseudonym.key_version`, or restore the previous "
   +:+ "key. If this has genuinely never written a record under `" +:+ version +:+ "`, remove " +:+ path
   +:+ " and start again."].

(** [check_at]. *)
Definition check_at {P} `{Pseudonymizer P} (path : string) (policy : option P) : M Fs Error unit :=
  match policy with
  | None => mret tt
  | Some p =>
    let version := key_version p in
    let witness := pseudonymize p WITNESS_INPUT in
    let! recorded := read_witnesses path in
    match List.find (fun known => bool_decide (fst known = version)) recorded with
    | Some (_, previous) =>
      if bool_decide (previous = witness) then mret tt else mfail (changed_key path version)
    | None => append_witness path version witness
    end
  end.

(** [check]. *)
Definition check_witness {P} `{Pseudonymizer P} (c : Config) (policy : option P) : M Fs Error unit :=
  check_at (witness_path c) policy.

(** [check_realm]. *)
Definition check_realm_witness {P} `{Pseudonymizer P} (c : Config) (realm : string) (policy : option P) : M Fs Error unit :=
  fun s =>
  match check_at (resolve c ("realms/" +:+ realm +:+ "/operations/state/audit-pseudonym-versions")) policy s with
  | (Ok u, s') => (Ok u, s')
  | (Err e, s') => (Err (("checking the pseudonymisation key of the realm `" +:+ realm +:+ "`") :: e), s')
  end.
End Check.

(** ** The file *)

Definition entry_line (e : string * string) : list byte := bytes_of (fst e) ++ TAB :: bytes_of (snd e).
Definition rendered (es : list (string * string)) : list byte := terminated (map entry_line es).

(** A version and a witness that a line can hold. *)
Definition safe_entry (e : string * string) : Prop :=
  Forall (fun b => bool_decide (b = TAB) = false) (bytes_of (fst e)) /\ plain_line (entry_line e) /\
  is_utf8 (fst e) /\ is_utf8 (snd e).

Lemma split_once_app c a b :
  Forall (fun x => bool_decide (x = c) = false) a -> split_once c (string_of (a ++ c :: b)) = Some (string_of a, string_of b).
Proof.
  intros Ha. unfold split_once. rewrite bytes_of_string_of.
  assert (split_once_list (fun x => bool_decide (x = c)) (a ++ c :: b) = Some (a, b)) as ->; [|done].
  induction Ha as [|x a Hx _ IH]; simpl; [by rewrite bool_decide_true|by rewrite Hx, IH].
Qed.

Lemma witnesses_of_rendered es : Forall safe_entry es -> witnesses_of (string_of (rendered es)) = es.
Proof.
  intros H. unfold witnesses_of, rendered. rewrite bytes_of_string_of, lines_terminated.
  - induction H as [|[v w] es (Ht & _) _ IH]; [done|]. simpl. unfold entry_line at 1. simpl.
    rewrite split_once_app by done. rewrite !string_of_bytes_of. f_equal. exact IH.
  - rewrite Forall_fmap. eapply Forall_impl; [exact H|]. intros e He. apply He.
Qed.

Lemma terminated_app a b : terminated (a ++ b) = terminated a ++ terminated b.
Proof. unfold terminated. by rewrite map_app, concat_app. Qed.

Lemma rendered_snoc es v w : rendered (es ++ [(v, w)]) = rendered es ++ bytes_of (witness_line v w).
Proof.
  unfold rendered, witness_line. rewrite map_app, terminated_app. f_equal. unfold terminated, entry_line. simpl.
  rewrite app_nil_r, !bytes_of_app, !bytes_of_string_of, <- app_assoc. done.
Qed.

Lemma rendered_utf8 es : Forall safe_entry es -> is_utf8 (string_of (rendered es)).
Proof.
  intros H. induction H as [|[v w] es (_ & _ & Hv & Hw) _ IH]; [exists []; vm_compute; reflexivity|].
  unfold rendered, terminated in *. cbn [map concat]. unfold entry_line at 1. cbn [fst snd].
  rewrite <- app_assoc, !string_of_app, string_of_bytes_of.
  apply is_utf8_app; [apply is_utf8_app; [exact Hv|]|apply is_utf8_app; [exists [10]; vm_compute; reflexivity|exact IH]].
  change (TAB :: bytes_of w) with ([TAB] ++ bytes_of w). rewrite string_of_app, string_of_bytes_of.
  apply is_utf8_app; [exists [9]; vm_compute; reflexivity|exact Hw].
Qed.

Lemma rendered_newline es : with_newline (string_of (rendered es)) = string_of (rendered es).
Proof.
  unfold with_newline. destruct es as [|e es _] using rev_ind; [done|].
  assert (ends_with (string_of [LF]) (string_of (rendered (es ++ [e]))) = true) as ->; [|by rewrite andb_false_r].
  unfold ends_with, strip_suffix. rewrite !bytes_of_string_of. destruct e as [v w].
  rewrite rendered_snoc. unfold witness_line. rewrite !bytes_of_app, !bytes_of_string_of, !rev_app_distr. done.
Qed.

(** ** One start *)

Definition holds (path : string) (s : Fs) (es : list (string * string)) : Prop :=
  match fs_files s !! path with Some f => contents f = rendered es | None => es = [] end /\
  Forall safe_entry es /\ NoDup (map fst es).

(** Writes happen or do not, and only a file that is not there is said not to be. *)
Definition honest (io : nat -> option Failure) : Prop :=
  forall n f, io n = Some f -> failure_written f = None /\ failure_kind f <> IoNotFound.

Section Start.
Context (io : nat -> option Failure) (default_mode : Z) (path : string).
Hypothesis Hio : honest io.

Lemma text_holds s es r s' :
  holds path s es -> text_or_empty io path s = (r, s') ->
  fs_files s' = fs_files s /\ (forall text, r = Ok text -> text = string_of (rendered es)).
Proof.
  intros (Hf & Hs & _). unfold text_or_empty, read_to_string, read_bytes, mbind_st.
  destruct (io (fs_calls s)) as [f|] eqn:E.
  { destruct (Hio _ _ E) as [_ Hk]. destruct (failure_kind f); [done|..]; intros [= <- <-]; done. }
  destruct (fs_files s !! path) as [f|].
  - destruct (rendered_utf8 es Hs) as [cs Hcs]. rewrite bytes_of_string_of in Hcs.
    rewrite Hf. unfold from_utf8. rewrite Hcs. intros [= <- <-]. split; [done|]. by intros text [= <-].
  - rewrite Hf. case_bool_decide; intros [= <- <-]; (split; [done|]); [done|]. by intros text [= <-].
Qed.

Lemma holds_files s s' es : fs_files s' = fs_files s -> holds path s es -> holds path s' es.
Proof. unfold holds. by intros ->. Qed.

Lemma restrict_holds p m s es r s' :
  holds path s es -> restrict io p m s = (r, s') -> holds path s' es.
Proof.
  intros (Hf & Hs). unfold restrict, doing, set_permissions. destruct (io _); [by intros [= _ <-]|].
  destruct (fs_files s !! p) as [f|] eqn:E; [|case_bool_decide; by intros [= _ <-]].
  intros [= _ <-]. split; [|done]. simpl. destruct (decide (p = path)) as [->|Hp].
  - rewrite lookup_insert_eq. by rewrite E in Hf.
  - by rewrite lookup_insert_ne.
Qed.

Lemma create_holds p s es r s' : holds path s es -> doing ("creating " +:+ p) (create_dir_all io p) s = (r, s') -> holds path s' es.
Proof. intros H. unfold doing, create_dir_all. destruct (io _); [|destruct (in_the_way s p)]; by intros [= _ <-]. Qed.

(** What a start leaves: the versions it knew, and possibly its own. *)
Definition extends (v w : string) (es : list (string * string)) (r : result unit Error) (s' : Fs) : Prop :=
  exists es', holds path s' es' /\ es `prefix_of` es' /\ (r = Ok tt -> (v, w) ∈ es').

Lemma append_extends v w s es r s' :
  holds path s es -> safe_entry (v, w) -> v ∉ map fst es ->
  append_witness io default_mode path v w s = (r, s') -> extends v w es r s'.
Proof.
  intros Hh Hv Hn. unfold append_witness. unfold mbind_st at 1.
  match goal with |- context [match ?m s with _ => _ end] => destruct (m s) as [r1 s1] eqn:E1 end.
  assert (H1 : holds path s1 es).
  { destruct (parent path) as [dir|]; [|by injection E1 as _ <-]. unfold mbind_st in E1.
    destruct (doing _ _ s) as [[u|e] s0] eqn:E0; [|injection E1 as _ <-; by eapply create_holds].
    eapply restrict_holds; [|done]. by eapply create_holds. }
  destruct r1 as [u|e]; [|intros [= <- <-]; exists es; done]. clear E1 u Hh s.
  unfold mbind_st at 1. destruct (text_or_empty io path s1) as [r2 s2] eqn:E2.
  destruct (text_holds _ _ _ _ H1 E2) as [Hf2 Ht]. apply (holds_files _ _ _ Hf2) in H1. clear E2 Hf2.
  destruct r2 as [text|e]; [|intros [= <- <-]; exists es; done]. rewrite (Ht text eq_refl), rendered_newline. clear Ht text s1.
  rewrite bytes_of_app, bytes_of_string_of, <- rendered_snoc. unfold mbind_st, doing, write.
  destruct (io (fs_calls s2)) as [f|] eqn:Ei.
  { destruct (Hio _ _ Ei) as [-> _]. intros [= <- <-]. exists es. done. }
  case_bool_decide; [intros [= <- <-]; by exists es|]. destruct (has_directory s2 path); [|intros [= <- <-]; by exists es].
  intros E3. exists (es ++ [(v, w)]). split_and!; [|by apply prefix_app_r|intros _; set_solver].
  eapply restrict_holds; [|exact E3]. destruct H1 as (_ & Hs & Hd). split_and!; simpl.
  - by rewrite lookup_insert_eq.
  - apply Forall_app. split; [done|by constructor].
  - rewrite map_app, NoDup_app. split_and!; [done| |apply NoDup_singleton]. intros x Hx Hv'. simpl in Hv'. set_solver.
Qed.

Lemma check_extends {P} `{Pseudonymizer P} (p : P) s es r s' :
  holds path s es -> safe_entry (key_version p, pseudonymize p WITNESS_INPUT) ->
  check_at io default_mode path (Some p) s = (r, s') -> extends (key_version p) (pseudonymize p WITNESS_INPUT) es r s'.
Proof.
  intros Hh Hv. unfold check_at, read_witnesses. unfold mbind_st at 1 2.
  destruct (text_or_empty io path s) as [r1 s1] eqn:E1. destruct (text_holds _ _ _ _ Hh E1) as [Hf Ht].
  apply (holds_files _ _ _ Hf) in Hh. destruct r1 as [text|e]; [|intros [= <- <-]; by exists es].
  rewrite (Ht text eq_refl). unfold mret at 1. rewrite witnesses_of_rendered by apply Hh.
  destruct (List.find _ es) as [[v w]|] eqn:F.
  - apply find_some in F as [Hin Hk]. apply list_elem_of_In in Hin. apply bool_decide_eq_true in Hk. simpl in Hk.
    case_bool_decide as Ew; intros [= <- <-]; exists es; split_and!; try done. intros _. by rewrite <- Hk, <- Ew.
  - apply append_extends; [done|done|]. intros Hin. apply list_elem_of_fmap in Hin as ([v w] & Hk & Hin).
    eapply find_none in F; [|by apply list_elem_of_In]. apply bool_decide_eq_false in F. by rewrite Hk in F.
Qed.
End Start.

(** ** Restarts *)

Section Restarts.
Context {P : Type} `{Pseudonymizer P} (default_mode : Z) (path : string).

Definition entry_of (p : P) : string * string := (key_version p, pseudonymize p WITNESS_INPUT).

(** A history of starts, each with its own luck with the file system, between which the rest of the
    volume may change in any way; the policies under which the server went on to write records. *)
Inductive starts : Fs -> list P -> Fs -> Prop :=
| starts_none s : starts s [] s
| starts_one io p s r s1 s2 accepted s' :
    honest io -> safe_entry (entry_of p) ->
    check_at io default_mode path (Some p) s = (r, s1) ->
    contents <$> fs_files s2 !! path = contents <$> fs_files s1 !! path ->
    starts s2 accepted s' ->
    starts s ((if is_ok r then [p] else []) ++ accepted) s'.

Lemma holds_contents s s' es :
  contents <$> fs_files s' !! path = contents <$> fs_files s !! path -> holds path s es -> holds path s' es.
Proof.
  unfold holds. destruct (fs_files s !! path) as [f|], (fs_files s' !! path) as [f'|]; simpl; intros [=]; [|done].
  intros [Hc Hr]. split; [congruence|done].
Qed.

Lemma starts_hold s l s' es :
  holds path s es -> starts s l s' ->
  exists es', holds path s' es' /\ es `prefix_of` es' /\ Forall (fun p => entry_of p ∈ es') l.
Proof.
  intros Hh Hl. revert es Hh. induction Hl as [s|io p s r s1 s2 l s' Hio Hs Hc Hf _ IH]; intros es Hh.
  { exists es. split_and!; [done|done|constructor]. }
  destruct (check_extends io default_mode path Hio p s es r s1 Hh Hs Hc) as (es1 & H1 & Hp1 & Hin).
  destruct (IH es1 (holds_contents _ _ _ Hf H1)) as (es2 & H2 & Hp2 & Hall).
  exists es2. split_and!; [done|by etrans|]. apply Forall_app. split; [|done].
  destruct r as [[]|]; simpl; constructor; [|constructor].
  apply list_elem_of_In. destruct Hp2 as [k ->]. apply in_or_app. left. by apply list_elem_of_In, Hin.
Qed.

Lemma entries_agree (es : list (string * string)) v w w' : NoDup (map fst es) -> (v, w) ∈ es -> (v, w') ∈ es -> w = w'.
Proof.
  intros Hd [i Hi]%list_elem_of_lookup [j Hj]%list_elem_of_lookup.
  assert (i = j) as ->; [|congruence]. eapply NoDup_lookup; [exact Hd| |]; rewrite list_lookup_fmap; [by rewrite Hi|by rewrite Hj].
Qed.

(** A key version names one key for as long as the volume lives. In any history of starts on a
    volume that began without witnesses, with any file-system errors that leave a file whole, two
    starts that were both allowed to record under one version had keys that agree on the witness. *)
Theorem version_names_one_key s l s' p q :
  fs_files s !! path = None -> starts s l s' -> p ∈ l -> q ∈ l -> key_version p = key_version q ->
  pseudonymize p WITNESS_INPUT = pseudonymize q WITNESS_INPUT.
Proof.
  intros Hn Hl Hp Hq Hk. destruct (starts_hold s l s' [] ) as (es & (_ & _ & Hd) & _ & Hall); [|done|].
  { unfold holds. rewrite Hn. split_and!; [done|constructor|apply NoDup_nil_2]. }
  rewrite Forall_forall in Hall. pose proof (Hall p Hp) as H1. pose proof (Hall q Hq) as H2. unfold entry_of in *.
  rewrite Hk in H1. by eapply entries_agree.
Qed.
End Restarts.

(** ** Keys to try it on *)

Module Toy.
(** A key that is its own pseudonym. *)
Definition Key : Type := string * string.
#[global] Instance key_pseudonymizer : Pseudonymizer Key := {| key_version := fst; pseudonymize k _ := snd k |}.

Definition path : string := "v/operations/state/audit-pseudonym-versions".
Definition empty : Fs := mkFs ∅ {["v"]} 0.
Definition reliable (n : nat) : option Failure := None.
(** A disk that is full when the file is written. *)
Definition full_disk (n : nat) : option Failure :=
  if (n =? 4)%nat then Some (mkFailure IoOther (Some 0%nat)) else None.

Definition start (io : nat -> option Failure) (k : Key) (s : Fs) : result unit Error * Fs :=
  check_at io 420 path (Some k) (mkFs (fs_files s) (fs_dirs s) 0).
Definition after (k : Key) (s : Fs) : Fs := snd (start reliable k s).
End Toy.

Lemma version_names_one_key_witness :
  pseudonymize (P := Toy.Key) ("v1", "a") WITNESS_INPUT = pseudonymize (P := Toy.Key) ("v1", "a") WITNESS_INPUT /\
  is_ok (fst (Toy.start Toy.reliable ("v1", "b") (Toy.after ("v1", "a") Toy.empty))) = false.
Proof.
  split; [|vm_compute; reflexivity].
  eapply (version_names_one_key 420 Toy.path Toy.empty [("v1", "a"); ("v1", "a")] _ ("v1", "a") ("v1", "a")).
  - reflexivity.
  - assert (Hs : safe_entry (entry_of (P := Toy.Key) ("v1", "a"))).
    { split_and!; [by repeat constructor|split; [by repeat constructor|reflexivity]|by eexists|by eexists]. }
    assert (Hh : honest Toy.reliable) by done.
    refine (starts_one 420 Toy.path Toy.reliable ("v1", "a") Toy.empty (Ok tt) _ _ [("v1", "a")] _ Hh Hs _ eq_refl _).
    { vm_compute. reflexivity. }
    refine (starts_one 420 Toy.path Toy.reliable ("v1", "a") _ (Ok tt) _ _ [] _ Hh Hs _ eq_refl (starts_none _ _ _)).
    vm_compute. reflexivity.
  - left.
  - left.
  - reflexivity.
Defined.

(** A start that fails because the disk is full cuts the file of witnesses, and the next start
    accepts another key under a version that has records. *)
Theorem cut_write_forgets_the_key :
  let before := Toy.after ("v1", "a") Toy.empty in
  let failed := Toy.start Toy.full_disk ("v2", "c") before in
  is_ok (fst (Toy.start Toy.reliable ("v1", "b") before)) = false /\ is_ok (fst failed) = false /\
  fst (Toy.start Toy.reliable ("v1", "b") (snd failed)) = Ok tt.
Proof. vm_compute. auto. Qed.

(** A version with a tab in it is never found again, and any key is accepted under it. *)
Theorem tab_in_a_version_escapes_the_check :
  let version := "v" +:+ string_of [TAB] +:+ "1" in
  fst (Toy.start Toy.reliable (version, "a") Toy.empty) = Ok tt /\
  fst (Toy.start Toy.reliable (version, "b") (Toy.after (version, "a") Toy.empty)) = Ok tt.
Proof. vm_compute. auto. Qed.
