(* ===== verification/Provision.v ===== *)
(** * Preparing a volume ([crates/pic-x-std/src/provision.rs])

    Before a configuration is validated the directories of the volume are made, and where
    [autogenerate] allows it the secrets and the certificates that are missing. The material itself
    comes from the random source and from the certificate library, which are parameters, each asked
    with the number of file-system calls made so far so that it may answer differently every time.
    What is shown is what provisioning leaves alone. *)
From S2P Require Import Prelude Rust Text AuditEvents Access Limits Settings KeyCache ExchangeMap Realms Config ConfigRules Volume.
Local Open Scope Z_scope.
Local Open Scope rust_scope.

Definition SECRET_BYTES : nat := 32.

(** ** The volume *)

Definition volume_tls (c : Config) : string := path_join (working_dir c) "tls".
Definition volume_data (c : Config) : string := path_join (working_dir c) "data".
Definition volume_operations (c : Config) : string := path_join (working_dir c) "operations".
Definition volume_state (c : Config) : string := path_join (volume_operations c) "state".

(** The certificate and the key of the authority, the server and the client, and the revocation list. *)
Definition authority_files (c : Config) : string * string := (path_join (volume_tls c) "ca.pem", path_join (volume_tls c) "ca.key").
Definition server_files (c : Config) : string * string := (path_join (volume_tls c) "server.pem", path_join (volume_tls c) "server.key").
Definition client_files (c : Config) : string * string := (path_join (volume_tls c) "client.pem", path_join (volume_tls c) "client.key").
Definition revocation_file (c : Config) : string := path_join (volume_tls c) "ca.crl".

Section Prepare.
Context (io : nat -> option Failure) (default_mode : Z) (unseen : string -> bool).
(** [SystemRandom::fill] of so many bytes. *)
Context (fill : nat -> nat -> option (list byte)).
(** The certificate library: a certificate with its key, for the authority, the server and the
    client, and an empty revocation list. *)
Context (issue_authority issue_server issue_client : nat -> result (list byte * list byte) Error)
  (issue_revocations : nat -> result (list byte) Error).

Abbreviation Prep := (M Fs Error).

(** [create_directory]. *)
Definition create_directory (path : string) : Prep unit :=
  let! _ := doing ("creating " +:+ path) (create_dir_all io path) in restrict io path 448.

Fixpoint create_directories (paths : list string) : Prep unit :=
  match paths with
  | [] => mret tt
  | p :: rest => let! _ := create_directory p in create_directories rest
  end.

(** [write_private], [write_public]. *)
Definition write_private (path : string) (bs : list byte) : Prep unit :=
  let! _ := doing ("writing " +:+ path) (write io default_mode path bs) in restrict io path 384.
Definition write_public (path : string) (bs : list byte) : Prep unit :=
  doing ("writing " +:+ path) (write io default_mode path bs).

(** A step of a library that depends on how often the file system was called. *)
Definition drawn {A} (f : nat -> result A Error) : Prep A := fun s => (f (fs_calls s), s).

(** [generate_secret]. *)
Definition generate_secret (path : string) : Prep unit := fun s =>
  if exists_ unseen path s then (Ok tt, s)
  else
    (let! material := drawn (fun n => ok_or (fill n SECRET_BYTES)
        ["drawing random bytes for a generated secret"; "the system random number generator refused"]) in
     write_private path (bytes_of (hex material))) s.

(** The loop of [prepare_secrets] over the realms. *)
Fixpoint prepare_realm_secrets (c : Config) (realms : list RealmConfig) : Prep unit :=
  match realms with
  | [] => mret tt
  | realm :: rest =>
    let! _ :=
      if negb (rc_audit_pseudonym_enabled realm) || negb (bool_decide (rc_secrets_provider realm = ProviderDirectory))
      then mret tt
      else match rc_audit_pseudonym_key_ref realm with
           | None => mret tt
           | Some reference =>
             let directory := realm_secrets_directory c (rc_name realm) in
             let! _ := create_directory directory in
             generate_secret (path_join directory reference)
           end in
    prepare_realm_secrets c rest
  end.

(** [prepare_secrets]. *)
Definition prepare_secrets (c : Config) : Prep unit :=
  let! _ :=
    if cfg_audit_pseudonym_enabled c then
      match cfg_audit_pseudonym_key_ref c with
      | Some reference => generate_secret (path_join (secrets_directory c) reference)
      | None => mret tt
      end
    else mret tt in
  prepare_realm_secrets c (cfg_realms c).

(** [issue]. *)
Definition issue (c : Config) : Prep unit :=
  let! authority := drawn issue_authority in
  let! _ := write_public (fst (authority_files c)) (fst authority) in
  let! _ := write_private (snd (authority_files c)) (snd authority) in
  let! server := drawn issue_server in
  let! _ := write_public (fst (server_files c)) (fst server) in
  let! _ := write_private (snd (server_files c)) (snd server) in
  let! client := drawn issue_client in
  let! _ := write_public (fst (client_files c)) (fst client) in
  let! _ := write_private (snd (client_files c)) (snd client) in
  let! revocations := drawn issue_revocations in
  write_public (revocation_file c) revocations.

Definition pair_present (files : string * string) (s : Fs) : bool :=
  exists_ unseen (fst files) s && exists_ unseen (snd files) s.

(** How many of the three pairs are complete. *)
Definition pairs_present (c : Config) (s : Fs) : nat :=
  length (List.filter (fun files => pair_present files s) [authority_files c; server_files c; client_files c]).

(** [prepare_certificates]. *)
Definition prepare_certificates (c : Config) : Prep unit := fun s =>
  match cfg_public_tls c, cfg_admin_tls c, cfg_telemetry_tls c with
  | None, None, None => (Ok tt, s)
  | _, _, _ =>
    match pairs_present c s with
    | 3%nat => (Ok tt, s)
    | O => issue c s
    | _ => (bail ("the generated certificates under " +:+ volume_tls c +:+ " are incomplete: remove them and start again, "
                  +:+ "because a server certificate signed by an authority that is no longer there verifies against nothing"), s)
    end
  end.

(** The directories of [prepare], which are made whatever the configuration allows. *)
Definition prepare_directories (c : Config) : Prep unit :=
  let! _ := fun s => match create_directory (working_dir c) s with
    | (Ok u, s') => (Ok u, s')
    | (Err e, s') => (Err (("preparing the volume at " +:+ working_dir c) :: e), s')
    end in
  let! _ := create_directories [volume_data c; volume_operations c; volume_state c] in
  let! _ := if cfg_keys_enabled c then create_directory (keys_directory c) else mret tt in
  match cfg_audit_destination c with
  | DestFile => create_directory (audit_directory c)
  | DestTracing => mret tt
  end.

(** [prepare]. *)
Definition prepare (c : Config) : Prep unit :=
  let! _ := prepare_directories c in
  if negb (cfg_autogenerate c) then mret tt
  else
    let! _ := create_directories [secrets_directory c; volume_tls c] in
    let! _ := prepare_secrets c in
    prepare_certificates c.

(** ** What provisioning leaves alone *)

Definition certificate_paths (c : Config) : gset string :=
  {[fst (authority_files c); snd (authority_files c); fst (server_files c); snd (server_files c);
    fst (client_files c); snd (client_files c); revocation_file c]}.

Lemma create_directory_files path : preserves (fun s s' => fs_files s' = fs_files s) (create_directory path).
Proof.
  intros s r s'. unfold create_directory, mbind_st, doing, create_dir_all. destruct (io (fs_calls s)); [by intros [= _ <-]|].
  destruct (in_the_way s path) eqn:W; [by intros [= _ <-]|]. unfold restrict, doing, set_permissions.
  destruct (io _); [by intros [= _ <-]|]. simpl.
  assert (fs_files s !! path = None) as ->.
  { apply eq_None_not_Some. intros Hs. unfold in_the_way in W. apply not_true_iff_false in W. apply W.
    apply existsb_exists. exists path. split; [by left|by apply bool_decide_eq_true]. }
  case_bool_decide; by intros [= _ <-].
Qed.

#[local] Instance same_files_preorder : PreOrder (fun s s' => fs_files s' = fs_files s).
Proof. split; [by intros s|]. intros a b d H1 H2. congruence. Qed.

Lemma create_directories_files paths : preserves (fun s s' => fs_files s' = fs_files s) (create_directories paths).
Proof.
  induction paths as [|p paths IH]; simpl; [apply preserves_ret; exact _|].
  apply preserves_bind; [exact _|apply create_directory_files|by intros _].
Qed.

Lemma write_private_only path bs : preserves (only_files {[path]}) (write_private path bs).
Proof. unfold write_private, restrict. preserve_steps. Qed.

Lemma write_public_only path bs : preserves (only_files {[path]}) (write_public path bs).
Proof. unfold write_public. preserve_steps. Qed.

Lemma drawn_any {A} (R : Fs -> Fs -> Prop) `{!PreOrder R} (f : nat -> result A Error) : preserves R (drawn f).
Proof. intros s r s' [= _ <-]. reflexivity. Qed.

Lemma issue_only c : preserves (only_files (certificate_paths c)) (issue c).
Proof.
  assert (Hpub : forall path bs, path ∈ certificate_paths c -> preserves (only_files (certificate_paths c)) (write_public path bs)).
  { intros path bs Hp. eapply preserves_only_mono; [|apply write_public_only]. set_solver. }
  assert (Hpriv : forall path bs, path ∈ certificate_paths c -> preserves (only_files (certificate_paths c)) (write_private path bs)).
  { intros path bs Hp. eapply preserves_only_mono; [|apply write_private_only]. set_solver. }
  unfold issue, certificate_paths in *.
  repeat (apply preserves_bind; [exact _|first [apply drawn_any; exact _|apply Hpub; set_solver|apply Hpriv; set_solver]|intros ?]).
  apply Hpub. set_solver.
Qed.

(** Files that were there stay as they were, but for those of [ps]. *)
Definition keeps (ps : gset string) (s s' : Fs) : Prop :=
  forall path f, fs_files s !! path = Some f -> path ∉ ps -> fs_files s' !! path = Some f.

#[local] Instance keeps_preorder ps : PreOrder (keeps ps).
Proof. split; [by intros s path f|]. intros a b d H1 H2 path f Hf Hp. by apply H2, Hp; apply H1. Qed.

Lemma files_keep ps s s' : fs_files s' = fs_files s -> keeps ps s s'.
Proof. intros E path f Hf _. by rewrite E. Qed.

Lemma create_directory_keeps ps path : preserves (keeps ps) (create_directory path).
Proof. intros s r s' H. by apply files_keep, (create_directory_files _ _ _ _ H). Qed.

Lemma create_directories_keeps ps paths : preserves (keeps ps) (create_directories paths).
Proof. intros s r s' H. by apply files_keep, (create_directories_files _ _ _ _ H). Qed.

Section Seen.
Hypothesis all_seen : forall path, unseen path = false.

Lemma generate_secret_keeps path : preserves (keeps ∅) (generate_secret path).
Proof.
  intros s r s'. unfold generate_secret. destruct (exists_ unseen path s) eqn:E; [intros [= _ <-]; reflexivity|].
  intros H p f Hf _. assert (Hp : p <> path).
  { intros ->. unfold exists_ in E. rewrite all_seen in E. simpl in E. apply bool_decide_eq_false in E. apply E. left. by eexists. }
  unfold drawn, mbind_st in H. destruct (ok_or _ _); [|injection H as _ <-; done].
  apply write_private_only in H. rewrite H; [done|set_solver].
Qed.

Lemma prepare_realm_secrets_keeps c realms : preserves (keeps ∅) (prepare_realm_secrets c realms).
Proof.
  induction realms as [|realm realms IH]; cbn [prepare_realm_secrets]; [apply preserves_ret; exact _|].
  apply preserves_bind; [exact _| |by intros _]. destruct (_ || _); [apply preserves_ret; exact _|].
  destruct (rc_audit_pseudonym_key_ref realm); [|apply preserves_ret; exact _].
  apply preserves_bind; [exact _|apply create_directory_keeps|intros _; apply generate_secret_keeps].
Qed.

Lemma prepare_secrets_keeps c : preserves (keeps ∅) (prepare_secrets c).
Proof.
  unfold prepare_secrets. apply preserves_bind; [exact _| |intros _; apply prepare_realm_secrets_keeps].
  destruct (cfg_audit_pseudonym_enabled c); [|apply preserves_ret; exact _].
  destruct (cfg_audit_pseudonym_key_ref c); [apply generate_secret_keeps|apply preserves_ret; exact _].
Qed.

Lemma prepare_directories_files c : preserves (fun s s' => fs_files s' = fs_files s) (prepare_directories c).
Proof.
  unfold prepare_directories. apply preserves_bind; [exact _| |intros _].
  { intros s r s'. destruct (create_directory (working_dir c) s) as [[u|e] s1] eqn:E; intros [= _ <-];
      exact (create_directory_files _ _ _ _ E). }
  apply preserves_bind; [exact _|apply create_directories_files|intros _].
  apply preserves_bind; [exact _| |intros _].
  - destruct (cfg_keys_enabled c); [apply create_directory_files|apply preserves_ret; exact _].
  - destruct (cfg_audit_destination c); [apply preserves_ret; exact _|apply create_directory_files].
Qed.

(** *** What is there afterwards *)

Lemma create_directory_grows path : preserves grows (create_directory path).
Proof. unfold create_directory, restrict. preserve_steps. Qed.

Lemma create_directories_grows paths : preserves grows (create_directories paths).
Proof.
  induction paths as [|p paths IH]; simpl; [apply preserves_ret; exact _|].
  apply preserves_bind; [exact _|apply create_directory_grows|by intros _].
Qed.

Lemma write_private_grows path bs : preserves grows (write_private path bs).
Proof. unfold write_private, restrict. preserve_steps. Qed.

Lemma write_public_grows path bs : preserves grows (write_public path bs).
Proof. unfold write_public. preserve_steps. Qed.

Lemma generate_secret_grows path : preserves grows (generate_secret path).
Proof.
  intros s r s'. unfold generate_secret. destruct (exists_ unseen path s); [by intros [= _ <-]|].
  revert s r s'. apply preserves_bind; [exact _|apply drawn_any; exact _|intros ?; apply write_private_grows].
Qed.

Lemma issue_grows c : preserves grows (issue c).
Proof.
  unfold issue.
  repeat (apply preserves_bind; [exact _|first [apply drawn_any; exact _|apply write_public_grows|apply write_private_grows]|intros ?]).
  apply write_public_grows.
Qed.

Lemma prepare_certificates_grows c : preserves grows (prepare_certificates c).
Proof.
  intros s r s'. unfold prepare_certificates.
  destruct (cfg_public_tls c), (cfg_admin_tls c), (cfg_telemetry_tls c); try by intros [= _ <-].
  all: destruct (pairs_present c s) as [|[|[|[|]]]]; try (by intros [= _ <-]); apply issue_grows.
Qed.

Lemma generate_secret_exists path s u s' : generate_secret path s = (Ok u, s') -> exists_ unseen path s' = true.
Proof.
  unfold generate_secret. destruct (exists_ unseen path s) eqn:E; [by intros [= _ <-]|].
  unfold drawn, write_private, doing. intros H. apply mbind_st_Ok in H as (bs & s1 & [= _ <-] & H).
  apply mbind_st_Ok in H as (v & s2 & Hw & Hr). destruct (write io default_mode path _ s) as [[x|e] s3] eqn:W; [|done].
  injection Hw as _ <-. apply write_Ok in W.
  assert (grows s3 s') as [Hg _]. { revert Hr. unfold restrict. apply doing_preserves, set_permissions_grows. }
  unfold exists_. rewrite all_seen. simpl. apply bool_decide_eq_true. left. apply Hg. by eexists.
Qed.

(** The secrets the configuration reads from a directory, or generates in one. *)
Definition realm_secret (c : Config) (realm : RealmConfig) : option string :=
  if rc_audit_pseudonym_enabled realm && bool_decide (rc_secrets_provider realm = ProviderDirectory)
  then path_join (realm_secrets_directory c (rc_name realm)) <$> rc_audit_pseudonym_key_ref realm
  else None.

Definition server_secret (c : Config) : option string :=
  if cfg_audit_pseudonym_enabled c then path_join (secrets_directory c) <$> cfg_audit_pseudonym_key_ref c else None.

Definition wanted_secrets (c : Config) : list string := option_list (server_secret c) ++ omap (realm_secret c) (cfg_realms c).

Lemma prepare_realm_secrets_grows c realms : preserves grows (prepare_realm_secrets c realms).
Proof.
  induction realms as [|realm realms IH]; cbn [prepare_realm_secrets]; [apply preserves_ret; exact _|].
  apply preserves_bind; [exact _| |by intros _]. destruct (_ || _); [apply preserves_ret; exact _|].
  destruct (rc_audit_pseudonym_key_ref realm); [|apply preserves_ret; exact _].
  apply preserves_bind; [exact _|apply create_directory_grows|intros _; apply generate_secret_grows].
Qed.

Lemma prepare_realm_secrets_exist c realms s u s' :
  prepare_realm_secrets c realms s = (Ok u, s') -> Forall (fun path => exists_ unseen path s' = true) (omap (realm_secret c) realms).
Proof.
  revert s u. induction realms as [|realm realms IH]; intros s u; cbn [prepare_realm_secrets]; [constructor|].
  intros (v & s1 & H1 & H2)%mbind_st_Ok. pose proof (IH _ _ H2) as IH'. apply prepare_realm_secrets_grows in H2.
  cbn [omap list_omap]. unfold realm_secret at 1. destruct (rc_audit_pseudonym_enabled realm), (bool_decide _); simpl in *; try exact IH'.
  destruct (rc_audit_pseudonym_key_ref realm) as [reference|]; [|exact IH']. simpl. constructor; [|exact IH'].
  apply mbind_st_Ok in H1 as (w & s0 & _ & H1). apply generate_secret_exists in H1. by eapply grows_exists.
Qed.

Lemma prepare_secrets_exist c s u s' :
  prepare_secrets c s = (Ok u, s') -> Forall (fun path => exists_ unseen path s' = true) (wanted_secrets c).
Proof.
  unfold prepare_secrets, wanted_secrets. intros (v & s1 & H1 & H2)%mbind_st_Ok. apply Forall_app. split.
  - apply prepare_realm_secrets_grows in H2. unfold server_secret. destruct (cfg_audit_pseudonym_enabled c); [|constructor].
    destruct (cfg_audit_pseudonym_key_ref c); [|constructor]. simpl. constructor; [|constructor].
    apply generate_secret_exists in H1. by eapply grows_exists.
  - by eapply prepare_realm_secrets_exist.
Qed.

(** A complete pair keeps the certificates from being issued. *)
Lemma certificates_keep c s r s' :
  prepare_certificates c s = (r, s') ->
  keeps (certificate_paths c) s s' /\
  (forall files, files ∈ [authority_files c; server_files c; client_files c] -> pair_present files s = true -> s' = s).
Proof.
  unfold prepare_certificates. intros H.
  assert (s' = s \/ (pairs_present c s = 0%nat /\ issue c s = (r, s'))) as [->|[Hn Hi]].
  { destruct (cfg_public_tls c), (cfg_admin_tls c), (cfg_telemetry_tls c); try (injection H as _ <-; by left).
    all: destruct (pairs_present c s) as [|[|[|[|]]]]; try (injection H as _ <-; by left); by right. }
  - split; [by intros path f|done].
  - split.
    + intros path f Hf Hp. apply issue_only in Hi. by rewrite Hi.
    + intros files Hin Hp. exfalso. apply length_zero_iff_nil in Hn. apply list_elem_of_In in Hin.
      assert (Hx : In files []) by (rewrite <- Hn; by apply filter_In). done.
Qed.

Lemma prepare_cases c s r s' :
  prepare c s = (r, s') ->
  (fs_files s' = fs_files s /\ (cfg_autogenerate c = true -> r <> Ok tt)) \/
  exists s1 r2 s2, fs_files s1 = fs_files s /\ cfg_autogenerate c = true /\ prepare_secrets c s1 = (r2, s2) /\
    match r2 with Ok _ => prepare_certificates c s2 = (r, s') | Err e => r = Err e /\ s' = s2 end.
Proof.
  unfold prepare. unfold mbind_st at 1. destruct (prepare_directories c s) as [[u|e] s0] eqn:E0;
    pose proof (prepare_directories_files _ _ _ _ E0) as F0; simpl in F0; [|intros [= <- <-]; by left].
  destruct (cfg_autogenerate c) eqn:A; cbn [negb]; [|intros [= <- <-]; left; by split].
  unfold mbind_st at 1. destruct (create_directories _ s0) as [[v|e] s1] eqn:E1;
    pose proof (create_directories_files _ _ _ _ E1) as F1; simpl in F1; [|intros [= <- <-]; left; split; [congruence|done]].
  unfold mbind_st. destruct (prepare_secrets c s1) as [r2 s2] eqn:E2. intros H. right. exists s1, r2, s2.
  split_and!; [congruence|done|done|]. destruct r2; [done|]. by injection H as <- <-.
Qed.

(** C23: What provisioning does to a volume, whatever fails on the way. Without permission to
    generate it writes no file at all. With it, every file that was there stays as it was but for
    the seven files of the generated authority, and those stay too as soon as one certificate is
    there with its key; and when it reports success every secret the configuration generates is
    there to be read. *)
Theorem provisioning_is_conservative c s r s' :
  prepare c s = (r, s') ->
  (cfg_autogenerate c = false -> fs_files s' = fs_files s) /\
  keeps (certificate_paths c) s s' /\
  (forall files, files ∈ [authority_files c; server_files c; client_files c] ->
     is_Some (fs_files s !! fst files) -> is_Some (fs_files s !! snd files) -> keeps ∅ s s') /\
  (cfg_autogenerate c = true -> r = Ok tt -> Forall (fun path => exists_ unseen path s' = true) (wanted_secrets c)).
Proof.
  intros [[Hf Hr]|(s1 & r2 & s2 & Hf & Ha & Hs & Hc)]%prepare_cases.
  { split_and!; [done|by apply files_keep|intros; by apply files_keep|]. intros Hg Hok. by destruct (Hr Hg). }
  pose proof (prepare_secrets_keeps _ _ _ _ Hs) as K2.
  assert (K1 : keeps ∅ s s2) by (etrans; [by apply files_keep|done]).
  assert (mono : forall ps, keeps ps s s2) by (intros ps path f Hp _; apply K1; [done|set_solver]).
  split; [congruence|]. destruct r2 as [[]|e].
  - destruct (certificates_keep _ _ _ _ Hc) as [K3 K4]. split_and!.
    + by etrans; [apply mono|].
    + intros files Hin [f1 H1] [f2 H2]. rewrite (K4 files Hin); [done|]. unfold pair_present, exists_. rewrite !all_seen. simpl.
      rewrite (K1 _ _ H1), (K1 _ _ H2) by set_solver. rewrite !bool_decide_true; [done|left; by eexists..].
    + intros _ _. apply prepare_secrets_exist in Hs. apply prepare_certificates_grows in Hc.
      eapply Forall_impl; [exact Hs|]. intros path. by apply grows_exists.
  - destruct Hc as [-> ->]. split_and!; [done|done|]. done.
Qed.
End Seen.
End Prepare.

(** ** Volumes to try it on *)

Module Trial.
Definition build : BuildSettings := mkBuild "1.0" "abc" "2025" "PIC-X".

Definition config_of (file : list (string * string)) : Config :=
  match from_layers build ∅ (mkLayers ((SETTING_WORKING_DIR, "v") :: (SETTING_PUBLIC_HTTP_ADDR, "127.0.0.1:80") :: file) [] []) with
  | Ok c => c
  | Err _ => config_default
  end.

Definition local_tls : list (string * string) :=
  [(SETTING_AUTOGENERATE, "true"); (SETTING_PUBLIC_TLS_CERT, "tls/server.pem"); (SETTING_PUBLIC_TLS_KEY, "tls/server.key")].
Definition pseudonyms : list (string * string) :=
  [(SETTING_AUDIT_PSEUDONYM_ENABLED, "true"); (SETTING_AUDIT_PSEUDONYM_KEY_REF, "audit-pseudonym"); (SETTING_SECRETS_PROVIDER, "directory")].

Definition run (c : Config) (s : Fs) : result unit Error * Fs :=
  prepare (fun _ => None) 420 (fun _ => false) (fun _ n => Some (repeat x2a n))
    (fun _ => Ok (bytes_of "ca", bytes_of "ca key")) (fun _ => Ok (bytes_of "server", bytes_of "server key"))
    (fun _ => Ok (bytes_of "client", bytes_of "client key")) (fun _ => Ok (bytes_of "crl")) c s.

Definition blank : Fs := mkFs ∅ ∅ 0.
Definition text_of (path : string) (s : Fs) : option string := string_of ∘ contents <$> fs_files s !! path.
End Trial.

Lemma provisioning_is_conservative_witness :
  let c := Trial.config_of (Trial.local_tls ++ Trial.pseudonyms) in
  let supplied := mkFs {["v/operations/secrets/audit-pseudonym" := mkFile (bytes_of "supplied") 384]} ∅ 0 in
  fst (Trial.run c supplied) = Ok tt /\
  fs_files (snd (Trial.run c supplied)) !! "v/operations/secrets/audit-pseudonym" = Some (mkFile (bytes_of "supplied") 384) /\
  Trial.text_of "v/tls/server.pem" (snd (Trial.run c supplied)) = Some "server".
Proof.
  intros c supplied. split; [vm_compute; reflexivity|]. split; [|vm_compute; reflexivity].
  refine (proj1 (proj2 (provisioning_is_conservative (fun _ => None) 420 (fun _ => false) (fun _ n => Some (repeat x2a n))
    (fun _ => Ok (bytes_of "ca", bytes_of "ca key")) (fun _ => Ok (bytes_of "server", bytes_of "server key"))
    (fun _ => Ok (bytes_of "client", bytes_of "client key")) (fun _ => Ok (bytes_of "crl")) (fun _ => eq_refl) c supplied
    (fst (Trial.run c supplied)) (snd (Trial.run c supplied)) _)) _ _ _ _).
  - unfold Trial.run. apply surjective_pairing.
  - reflexivity.
  - vm_compute. intros H. repeat (destruct H as [H|H]; [discriminate|]). done.
Defined.

(** An authority that was supplied without its private key is overwritten by a generated one. *)
Theorem lone_authority_is_overwritten :
  let supplied := mkFs {["v/tls/ca.pem" := mkFile (bytes_of "the company's authority") 420]} ∅ 0 in
  let after := Trial.run (Trial.config_of Trial.local_tls) supplied in
  fst after = Ok tt /\ Trial.text_of "v/tls/ca.pem" (snd after) = Some "ca".
Proof. vm_compute. auto. Qed.

(** Material is generated for a configuration that validation then refuses because it may not be:
    what was written stays, and the next start finds it supplied. *)
Theorem generation_precedes_validation :
  let c := Trial.config_of (Trial.local_tls ++ Trial.pseudonyms) in
  let after := Trial.run c Trial.blank in
  is_ok (validate (fun _ => true) c) = false /\ fst after = Ok tt /\
  is_Some (Trial.text_of "v/tls/ca.key" (snd after)) /\ is_Some (Trial.text_of "v/operations/secrets/audit-pseudonym" (snd after)).
Proof. split_and!; [vm_compute; reflexivity..|by eexists; vm_compute|by eexists; vm_compute]. Qed.
