(* ===== verification/Secrets.v ===== *)
(** * Secret stores ([crates/pic-x-core/src/secrets.rs], [crates/pic-x-std/src/secrets.rs])

    A reference names a secret; a store says what it is: a file of a directory, a variable of the
    environment, or what a build holds in memory. *)
From S2P Require Import Prelude Rust Text Encoding Errors AuditEvents Access Limits Settings KeyCache ExchangeMap Realms Config ConfigRules.
From S2P Require Import ConfigProperties Volume.
Local Open Scope Z_scope.
Local Open Scope rust_scope.

(** [str::contains] of a text. *)
Fixpoint contains_list (p l : list byte) : bool :=
  bool_decide (is_Some (strip_prefix_list p l)) || match l with [] => false | _ :: r => contains_list p r end.
Definition contains_text (p s : string) : bool := contains_list (bytes_of p) (bytes_of s).

(** ** The directory *)

(** [DirectorySecretStore::path_of]. *)
Definition path_of (directory : string) (reference : SecretRef) : option string :=
  if is_empty reference || contains_text ".." reference || contains_text "/" reference
     || contains_text (string_of [x5c]) reference || is_absolute reference
  then None
  else Some (path_join directory reference).

(** [trim_trailing_newline]. *)
Definition pop_last (b : byte) (l : list byte) : list byte :=
  match rev l with
  | x :: r => if bool_decide (x = b) then rev r else l
  | [] => l
  end.
Definition trim_trailing_newline (material : list byte) : list byte := pop_last CR (pop_last LF material).

Section Directory.
Context (io : nat -> option Failure) (show_io : IoKind -> Cause).

(** [check_permissions]: the bits [0o022]; the bits [0o044] are only warned about. *)
Definition check_permissions (path : string) (reference : SecretRef) : M Fs SecretError unit := fun s =>
  match file_mode io path s with
  | (Ok m, s') => (if negb (Z.land m 18 =? 0) then Err (SecretDenied reference) else Ok tt, s')
  | (Err _, s') => (Ok tt, s')
  end.

(** [DirectorySecretStore::resolve]. *)
Definition directory_resolve (directory : string) (reference : SecretRef) : M Fs SecretError (list byte) :=
  match path_of directory reference with
  | None => mfail (SecretDenied reference)
  | Some path =>
    let! _ := check_permissions path reference in
    fun s => match read_bytes io path s with
             | (Ok material, s') => (Ok (trim_trailing_newline material), s')
             | (Err IoNotFound, s') => (Err (SecretNotFound reference), s')
             | (Err IoDenied, s') => (Err (SecretDenied reference), s')
             | (Err IoOther, s') => (Err (SecretUnavailable (show_io IoOther)), s')
             end
  end.
End Directory.

(** ** The environment, and memory *)

Section Environment.
Context (unicode_uppercase : Z -> list Z).

(** [EnvironmentSecretStore::variable_of]. *)
Definition variable_of (prefix : string) (reference : SecretRef) : string :=
  let name := to_uppercase unicode_uppercase (replace_chars (one_of [45; 46]) 95 reference) in
  if is_empty prefix then name else prefix +:+ "_" +:+ name.

(** [EnvironmentSecretStore::resolve]. *)
Definition environment_resolve (env : gmap string string) (prefix : string) (reference : SecretRef)
  : result (list byte) SecretError :=
  match env !! variable_of prefix reference with
  | Some material => Ok (bytes_of material)
  | None => Err (SecretNotFound reference)
  end.
End Environment.

(** [InMemorySecretStore]. *)
Definition memory_with (reference : string) (material : list byte) (m : gmap string (list byte)) : gmap string (list byte) :=
  <[reference := material]> m.
Definition memory_resolve (m : gmap string (list byte)) (reference : SecretRef) : result (list byte) SecretError :=
  ok_or (m !! reference) (SecretNotFound reference).

(** ** A directory of secrets is one directory *)

Lemma contains_list_iff p l : contains_list p l = true <-> exists a b, l = a ++ p ++ b.
Proof.
  induction l as [|x l IH]; simpl; rewrite orb_true_iff, bool_decide_eq_true; unfold is_Some; setoid_rewrite strip_prefix_list_Some.
  - split; [intros [[b Hb]|]; [by exists [], b|done]|]. intros (a & b & H). left. exists b. by destruct a.
  - rewrite IH. split.
    + intros [[b Hb]|(a & b & ->)]; [by exists [], b|by exists (x :: a), b].
    + intros ([|y a] & b & H); [left; by exists b|right; simplify_list_eq; eauto].
Qed.

Lemma contains_byte b s : contains_text (string_of [b]) s = true <-> b ∈ bytes_of s.
Proof.
  unfold contains_text. rewrite bytes_of_string_of, contains_list_iff. split.
  - intros (x & y & ->). set_solver.
  - intros (x & y & ->)%list_elem_of_split. by exists x, y.
Qed.

(** A reference that names a file of the directory and nothing else. *)
Definition one_component (reference : string) : Prop :=
  reference <> "" /\ x2f ∉ bytes_of reference /\ x5c ∉ bytes_of reference /\
  ~ exists a b, bytes_of reference = a ++ bytes_of ".." ++ b.

Lemma path_of_Some directory reference path :
  path_of directory reference = Some path <-> one_component reference /\ path = path_join directory reference.
Proof.
  unfold path_of, one_component. change "/" with (string_of [x2f]) at 1.
  destruct (is_empty reference) eqn:E0; unfold is_empty in E0; bool_to_prop; simpl; [naive_solver|].
  destruct (contains_text ".." reference) eqn:E1; unfold contains_text in E1; simpl.
  { apply contains_list_iff in E1. naive_solver. }
  assert (N1 : ~ exists a b, bytes_of reference = a ++ bytes_of ".." ++ b)
    by (intros H; apply contains_list_iff in H; congruence).
  destruct (contains_text (string_of [x2f]) reference) eqn:E2; simpl; [apply contains_byte in E2; naive_solver|].
  assert (N2 : x2f ∉ bytes_of reference) by (intros H; apply contains_byte in H; congruence).
  destruct (contains_text (string_of [x5c]) reference) eqn:E3; simpl; [apply contains_byte in E3; naive_solver|].
  assert (N3 : x5c ∉ bytes_of reference) by (intros H; apply contains_byte in H; congruence).
  assert (is_absolute reference = false) as ->; [|naive_solver].
  apply not_true_iff_false. unfold is_absolute. rewrite starts_with_iff. intros [r ->]. apply N2.
  rewrite bytes_of_app. by left.
Qed.

Lemma path_join_inj directory a b :
  one_component a -> one_component b -> path_join directory a = path_join directory b -> a = b.
Proof.
  assert (Hr : forall x, one_component x -> is_absolute x = false).
  { intros x (_ & Hx & _). apply not_true_iff_false. unfold is_absolute. rewrite starts_with_iff. intros [r ->]. apply Hx.
    rewrite bytes_of_app. by left. }
  intros Ha Hb. unfold path_join. rewrite !Hr by done. destruct (is_empty directory); [done|].
  destruct (ends_with "/" directory); intros H; [by apply app_string_inj_r in H|].
  by apply app_string_inj_r, (app_string_inj_r "/") in H.
Qed.

Section Contained.
Context (io : nat -> option Failure) (show_io : IoKind -> Cause).

Lemma check_permissions_run path reference s r s' :
  check_permissions io path reference s = (r, s') ->
  s' = tick s /\
  (r = Ok tt /\ (is_Some (io (fs_calls s)) \/ fs_files s !! path = None \/
                 exists f, fs_files s !! path = Some f /\ Z.land (mode f) 18 = 0) \/
   r = Err (SecretDenied reference) /\ exists f, fs_files s !! path = Some f /\ Z.land (mode f) 18 <> 0).
Proof.
  unfold check_permissions, file_mode. destruct (io (fs_calls s)); [intros [= <- <-]; eauto 6|].
  destruct (fs_files s !! path) as [f|] eqn:E; [|intros [= <- <-]; eauto 6].
  destruct (Z.land (mode f) 18 =? 0) eqn:M; simpl; intros [= <- <-]; bool_to_prop; (split; [done|]); [left|right]; eauto 7.
Qed.

(** A directory of secrets answers only with what is in it. Resolving changes no file; material
    comes from the file of that very name in the directory, less the line end it closes with, and
    never from one that others may write to (unless its mode could not be read); a name that is not a
    single component is denied without the file system being asked; no two names share a file; and
    a secret is said not to exist only when the file system said so. *)
Theorem directory_secrets_are_contained directory reference s r s' :
  directory_resolve io show_io directory reference s = (r, s') ->
  fs_files s' = fs_files s /\
  (forall other, one_component reference -> one_component other ->
     path_join directory other = path_join directory reference -> other = reference) /\
  match r with
  | Ok material => one_component reference /\ exists f, fs_files s !! path_join directory reference = Some f /\
      material = trim_trailing_newline (contents f) /\ (Z.land (mode f) 18 = 0 \/ is_Some (io (fs_calls s)))
  | Err (SecretDenied name) => name = reference /\
      (~ one_component reference /\ s' = s \/ one_component reference /\
       ((exists f, fs_files s !! path_join directory reference = Some f /\ Z.land (mode f) 18 <> 0) \/
        exists f, io (S (fs_calls s)) = Some f /\ failure_kind f = IoDenied))
  | Err (SecretNotFound name) => name = reference /\ one_component reference /\
      (fs_files s !! path_join directory reference = None \/ exists f, io (S (fs_calls s)) = Some f /\ failure_kind f = IoNotFound)
  | Err (SecretUnavailable _) => one_component reference
  | Err (SecretBackend _) => False
  end.
Proof.
  unfold directory_resolve. destruct (path_of directory reference) as [path|] eqn:P.
  2: { intros [= <- <-]. split; [done|]. split; [intros other Hr Ho E; exact (path_join_inj _ _ _ Ho Hr E)|]. split; [done|]. left. split; [|done].
       intros Hc. assert (H : path_of directory reference = Some (path_join directory reference)) by (by apply path_of_Some).
       congruence. }
  apply path_of_Some in P as [Hc ->]. unfold mbind_st.
  destruct (check_permissions io (path_join directory reference) reference s) as [r1 s1] eqn:E1.
  apply check_permissions_run in E1 as [-> Hp]. intros H.
  assert (Hinj : forall other, one_component reference -> one_component other ->
     path_join directory other = path_join directory reference -> other = reference)
    by (intros other Hr Ho E; exact (path_join_inj _ _ _ Ho Hr E)).
  destruct Hp as [[-> Hm]|[-> (f & Hf & Hm)]].
  2: { injection H as <- <-. split_and!; [done|done|done|]. right. split; [done|]. left. by exists f. }
  unfold read_bytes in H. simpl in H. destruct (io (S (fs_calls s))) as [f|] eqn:Ei.
  { destruct (failure_kind f) eqn:K; injection H as <- <-; split_and!; eauto. right. split; [done|]. right. by exists f. }
  destruct (fs_files s !! path_join directory reference) as [f|] eqn:Ef.
  - injection H as <- <-. split_and!; [done|done|done|]. exists f. split_and!; [done|done|].
    destruct Hm as [Hi|[[=]|(f' & [= <-] & Hm)]]; [by right|by left].
  - case_bool_decide; injection H as <- <-; split_and!; eauto.
Qed.
End Contained.

(** ** Variables of the environment *)

(** A realm's name as part of a variable. *)
Definition mangle (b : byte) : byte := if between 97 122 b then byte_of_Z (u8 b - 32) else if bool_decide (b = x2d) then x5f else b.

Lemma mangle_inj a b : name_byte a = true -> name_byte b = true -> mangle a = mangle b -> a = b.
Proof.
  assert (H : forallb (fun x => forallb (fun y => negb (name_byte (byte_of_Z x) && name_byte (byte_of_Z y)
      && bool_decide (mangle (byte_of_Z x) = mangle (byte_of_Z y))) || (x =? y))
    (map Z.of_nat (seq 0 256))) (map Z.of_nat (seq 0 256)) = true) by (vm_compute; reflexivity).
  intros Ha Hb Hm. pose proof (u8_range a) as Ra. pose proof (u8_range b) as Rb.
  pose proof (forallb_range _ _ (forallb_range _ _ H (u8 a) ltac:(lia)) (u8 b) ltac:(lia)) as Hc. cbv beta in Hc.
  rewrite !byte_of_Z_u8, Ha, Hb, bool_decide_true in Hc by done. simpl in Hc. apply Z.eqb_eq in Hc. by apply u8_inj.
Qed.

Lemma mangle_list_inj a b :
  forallb name_byte a = true -> forallb name_byte b = true -> map mangle a = map mangle b -> a = b.
Proof.
  revert b. induction a as [|x a IH]; intros [|y b] Ha Hb H; simpl in *; try done.
  bool_to_prop. injection H as Hx Hy. f_equal; [by apply mangle_inj|by apply IH].
Qed.

Section Variables.
Context (unicode_uppercase : Z -> list Z).

Definition upper (b : byte) : Z := if between 97 122 b then u8 b - 32 else u8 b.

Lemma name_byte_upper b : name_byte b = true ->
  char_to_uppercase unicode_uppercase (u8 b) = [upper b] /\ is_ascii_char (upper b) /\
  byte_of_Z (if one_of [45] (upper b) then 95 else upper b) = mangle b /\ is_ascii_char (u8 b) /\
  is_ascii_char (if one_of [45] (upper b) then 95 else upper b).
Proof.
  intros H. assert (C : 97 <= u8 b <= 122 \/ 48 <= u8 b <= 57 \/ b = x2d).
  { unfold name_byte in H. bool_to_prop. destruct H as [H|H]; [|right; right; by apply bool_decide_eq_true in H].
    bool_to_prop. destruct H as [H|H]; apply between_spec in H; tauto. }
  unfold char_to_uppercase, upper, mangle, one_of, is_ascii_char. simpl existsb.
  destruct C as [C|[C| ->]]; [| |vm_compute; repeat split; discriminate].
  - rewrite between_true by lia. rewrite (proj2 (Z.leb_le 97 _)), (proj2 (Z.leb_le _ 122)) by lia.
    rewrite (proj2 (Z.eqb_neq _ 45)) by lia. simpl. split_and!; try lia; done.
  - rewrite between_false by lia. rewrite (proj2 (Z.leb_gt 97 _)) by lia. rewrite (proj2 (Z.ltb_lt _ 128)) by lia.
    rewrite (proj2 (Z.eqb_neq _ 45)) by lia. rewrite bool_decide_false by (intros ->; change (u8 x2d) with 45 in C; lia).
    simpl. rewrite byte_of_Z_u8. split_and!; try lia; done.
Qed.

Lemma flat_map_upper bs : forallb name_byte bs = true ->
  flat_map (char_to_uppercase unicode_uppercase) (map u8 bs) = map upper bs.
Proof.
  induction bs as [|b bs IH]; simpl; [done|]. intros H. bool_to_prop.
  match goal with H : name_byte b = true |- _ => destruct (name_byte_upper b H) as (-> & _) end. simpl. by rewrite IH.
Qed.

(** The prefix of a realm: its letters in upper case, its hyphens as underscores. *)
Lemma realm_prefix_bytes name : shaped name = true ->
  bytes_of (replace_chars (one_of [45]) 95 (to_uppercase unicode_uppercase name)) = map mangle (bytes_of name).
Proof.
  unfold shaped. intros H. bool_to_prop. match goal with H : forallb _ _ = true |- _ => rename H into Hn end.
  assert (Hall : Forall (fun b => name_byte b = true) (bytes_of name)).
  { apply Forall_forall. intros b Hb. rewrite forallb_forall in Hn. apply Hn. by apply list_elem_of_In. }
  assert (Hc : chars name = map u8 (bytes_of name)).
  { rewrite <- (string_of_bytes_of name) at 1. rewrite chars_ascii; [done|].
    eapply Forall_impl; [exact Hall|]. intros b Hb. destruct (name_byte_upper b Hb) as (_ & _ & _ & Ha & _).
    unfold is_ascii_char in Ha. lia. }
  unfold replace_chars, to_uppercase. rewrite Hc, flat_map_upper by done.
  rewrite chars_of_chars.
  2: { apply ascii_scalar. rewrite Forall_fmap. eapply Forall_impl; [exact Hall|]. intros b Hb. by apply name_byte_upper. }
  rewrite map_map, bytes_of_ascii_chars.
  - rewrite map_map. apply map_ext_Forall. eapply Forall_impl; [exact Hall|]. intros b Hb. by apply name_byte_upper.
  - rewrite Forall_fmap. eapply Forall_impl; [exact Hall|]. intros b Hb. by apply name_byte_upper.
Qed.

Lemma app_string_inj_l a a' b : a +:+ b = a' +:+ b -> a = a'.
Proof. intros H. apply (f_equal bytes_of) in H. rewrite !bytes_of_app in H. simplify_list_eq. by apply (inj bytes_of). Qed.

Lemma resolved_prefix c input r :
  resolve_realm unicode_uppercase c input = Ok r -> in_secrets_env_prefix input = None ->
  rc_secrets_env_prefix r =
    cfg_secrets_env_prefix c +:+ "_" +:+ replace_chars (one_of [45]) 95 (to_uppercase unicode_uppercase (rc_name r)).
Proof. unfold resolve_realm. intros H Hn. run_inv. simpl. by rewrite Hn. Qed.

(** Realms that resolve one reference from the environment under the prefixes they are given
    by default read different variables: two realms of well-formed names that read the same variable
    have the same name. *)
Theorem one_reference_is_read_apart c i i' r r' reference :
  resolve_realm unicode_uppercase c i = Ok r -> resolve_realm unicode_uppercase c i' = Ok r' ->
  in_secrets_env_prefix i = None -> in_secrets_env_prefix i' = None ->
  shaped (rc_name r) = true -> shaped (rc_name r') = true ->
  variable_of unicode_uppercase (rc_secrets_env_prefix r) reference =
    variable_of unicode_uppercase (rc_secrets_env_prefix r') reference ->
  rc_name r = rc_name r'.
Proof.
  intros H H' Hn Hn' Hs Hs'. rewrite (resolved_prefix _ _ _ H Hn), (resolved_prefix _ _ _ H' Hn').
  set (p := replace_chars (one_of [45]) 95 (to_uppercase unicode_uppercase (rc_name r))).
  set (p' := replace_chars (one_of [45]) 95 (to_uppercase unicode_uppercase (rc_name r'))).
  assert (E : forall q, is_empty (cfg_secrets_env_prefix c +:+ "_" +:+ q) = false).
  { intros q. unfold is_empty. apply bool_decide_eq_false. intros X. apply (f_equal bytes_of) in X. rewrite !bytes_of_app in X.
    by destruct (bytes_of (cfg_secrets_env_prefix c)). }
  unfold variable_of. rewrite !E. intros X.
  apply app_string_inj_l, app_string_inj_r, (app_string_inj_r "_"), (f_equal bytes_of) in X. unfold p, p' in X.
  rewrite !realm_prefix_bytes in X by done. apply (inj bytes_of), mangle_list_inj; [| |exact X].
  - unfold shaped in Hs. by bool_to_prop.
  - unfold shaped in Hs'. by bool_to_prop.
Qed.
End Variables.

Module Example_.
Definition realm_a : RealmConfig := Deployment.hosted 0.
Definition realm_ab : RealmConfig := Deployment.hosted 1.
Definition variable (r : RealmConfig) (reference : string) : string :=
  variable_of Deployment.no_uppercase (rc_secrets_env_prefix r) reference.
End Example_.

Lemma one_reference_is_read_apart_witness :
  Example_.variable Example_.realm_a "key" <> Example_.variable Example_.realm_ab "key".
Proof.
  intros H. assert (X : rc_name Example_.realm_a = rc_name Example_.realm_ab); [|vm_compute in X; discriminate].
  refine (one_reference_is_read_apart Deployment.no_uppercase Deployment.server (Deployment.realm "a") (Deployment.realm "a-b")
    Example_.realm_a Example_.realm_ab "key" _ _ _ _ _ _ H); vm_compute; reflexivity.
Defined.

(** Different references can meet: the realm [a] and its secret [b-key] read the variable that the
    realm [a-b] reads for its secret [key], and the server reads it for [a-b-key]. *)
Theorem different_references_share_a_variable :
  Example_.variable Example_.realm_a "b-key" = "PIC_X_SECRET_A_B_KEY" /\
  Example_.variable Example_.realm_ab "key" = "PIC_X_SECRET_A_B_KEY" /\
  variable_of Deployment.no_uppercase (cfg_secrets_env_prefix Deployment.config) "a-b-key" = "PIC_X_SECRET_A_B_KEY".
Proof. vm_compute. auto. Qed.

Definition secret_volume : Fs :=
  mkFs {["s/key" := mkFile (bytes_of "0123456789abcdef" ++ [CR; LF]) 420; "s/open" := mkFile (bytes_of "x") 438]} {["s"]} 0.

Lemma directory_secrets_are_contained_witness :
  fst (directory_resolve (fun _ => None) (fun _ => "") "s" "key" secret_volume) = Ok (bytes_of "0123456789abcdef") /\
  exists f, fs_files secret_volume !! "s/key" = Some f /\ Z.land (mode f) 18 = 0.
Proof.
  split; [vm_compute; reflexivity|].
  destruct (directory_secrets_are_contained (fun _ => None) (fun _ => "") "s" "key" secret_volume
    (Ok (bytes_of "0123456789abcdef")) (snd (directory_resolve (fun _ => None) (fun _ => "") "s" "key" secret_volume)))
    as (_ & _ & _ & f & Hf & _ & [Hm|[? [=]]]); [vm_compute; reflexivity|]. exists f. split; [exact Hf|exact Hm].
Defined.

Example secrets_that_are_denied :
  map (fun reference => fst (directory_resolve (fun _ => None) (fun _ => "") "s" reference secret_volume))
    ["../key"; "/etc/shadow"; "a/b"; ""; "open"; "absent"]
  = [Err (SecretDenied "../key"); Err (SecretDenied "/etc/shadow"); Err (SecretDenied "a/b"); Err (SecretDenied "");
     Err (SecretDenied "open"); Err (SecretNotFound "absent")].
Proof. vm_compute. reflexivity. Qed.
