(* ===== verification/App.v ===== *)
(** * Composing a server ([crates/pic-x-server/src/app.rs], [src/main.rs])

    [App] holds what a build is composed of, as factories over the effective configuration; [compose]
    is [App::serve] up to the point where the host takes over, and [pic_x] the build of this
    repository. The parts themselves are elsewhere: provisioning in [Provision], validation in
    [ConfigRules], secrets in [Secrets], witnesses in [Witness], the host in [Host]. Here a key ring
    and a trail are what they are built from; preparing a trail on disk is a parameter. *)
From S2P Require Import Prelude Rust Text Order Errors AuditEvents Access Limits Settings KeyCache ExchangeMap Realms Config ConfigRules.
From S2P Require Import ConfigProperties Volume Witness Secrets Keys.
Local Open Scope Z_scope.
Local Open Scope rust_scope.

Definition MINIMUM_KEY_LENGTH : nat := 16.

(** An error under one more context. *)
Definition in_context {S A} (what : string) (m : M S Error A) : M S Error A := fun s =>
  match m s with
  | (Ok a, s') => (Ok a, s')
  | (Err e, s') => (Err (what :: e), s')
  end.

(** [Realms::all]: the realms in the order of their names. *)
Definition all_realms {R S P} (rs : Realms R S P) : list (Realm R S P) :=
  sort_by String.compare realm_name (map snd (map_to_list (realms_by_name rs))).

Section App.
Context {Ring Sink Policy Store : Type} `{!Pseudonymizer Policy}.
(** [SecretStore::name] and [SecretStore::resolve]. *)
Context (store_name : Store -> string) (store_resolve : Store -> SecretRef -> M Fs SecretError (list byte)).
Context (io : nat -> option Failure) (default_mode : Z).

Record App := mkApp {
  app_audit : Sink;
  app_secrets : option Store;
  provisioner : option (Config -> M Fs Error unit);
  secrets_factory : option (Config -> M Fs Error (option Store));
  pseudonymizer_factory : option (list byte -> string -> Policy);
  keys_factory : option (Config -> M Fs Error (option Ring));
  audit_factory : option (Config -> option Ring -> M Fs Error (option Sink));
  realm_factory : option (Config -> RealmConfig -> M Fs Error (Realm Ring Sink Policy)) }.

Section Compose.
Context (app : App).

(** [App::secrets_for]. *)
Definition secrets_for (c : Config) : M Fs Error (option Store) :=
  match secrets_factory app with
  | Some factory => factory c
  | None => mret None
  end.

(** [App::pseudonymizer_for]. *)
Definition pseudonymizer_for (c : Config) (secrets : option Store) : M Fs Error (option Policy) :=
  if negb (cfg_audit_pseudonym_enabled c) then mret None
  else
    let! factory := mlift (ok_or (pseudonymizer_factory app)
      ["audit pseudonymisation is enabled but this build composes no pseudonymiser"]) in
    let! reference := mlift (ok_or (cfg_audit_pseudonym_key_ref c)
      ["audit pseudonymisation is enabled but names no secret"]) in
    let! store := mlift (ok_or secrets
      ["audit pseudonymisation is enabled but this build resolved no secret store"]) in
    let! key := fun s => match store_resolve store reference s with
      | (Ok key, s') => (Ok key, s')
      | (Err e, s') => (Err ["resolving the audit pseudonymisation key `" +:+ reference +:+ "` from the " +:+ store_name store
                             +:+ " secret store"; show_secret_error e], s')
      end in
    if (length key <? MINIMUM_KEY_LENGTH)%nat
    then mfail ["the secret `" +:+ reference +:+ "` is shorter than 16 bytes, which is too short to derive pseudonyms from"]
    else mret (Some (factory key (cfg_audit_pseudonym_key_version c))).

(** [App::keys_for]. *)
Definition keys_for (c : Config) : M Fs Error (option Ring) :=
  if negb (cfg_keys_enabled c) then mret None
  else
    let! factory := mlift (ok_or (keys_factory app)
      ["signing keys are enabled but this build composes no key manager"]) in
    factory c.

(** [App::audit_for]. *)
Definition audit_for (c : Config) (keys : option Ring) : M Fs Error Sink :=
  let! chosen := match audit_factory app with
                 | Some factory => factory c keys
                 | None => mret None
                 end in
  mret (default (app_audit app) chosen).

(** The loop of [App::realms_for]. *)
Fixpoint assemble_realms (factory : Config -> RealmConfig -> M Fs Error (Realm Ring Sink Policy)) (c : Config)
    (realms : list RealmConfig) : M Fs Error (list (Realm Ring Sink Policy)) :=
  match realms with
  | [] => mret []
  | realm :: rest =>
    let! r := in_context ("assembling the realm `" +:+ rc_name realm +:+ "`") (factory c realm) in
    let! rs := assemble_realms factory c rest in
    mret (r :: rs)
  end.

(** [App::realms_for]. *)
Definition realms_for (c : Config) : M Fs Error (Realms Ring Sink Policy) :=
  match cfg_realms c with
  | [] => mret (realms_new [])
  | realms =>
    let! factory := mlift (ok_or (realm_factory app)
      ["the configuration declares realms but this build composes no realm factory"]) in
    let! rs := assemble_realms factory c realms in
    mret (realms_new rs)
  end.

Fixpoint check_each_realm (c : Config) (realms : list (Realm Ring Sink Policy)) : M Fs Error unit :=
  match realms with
  | [] => mret tt
  | r :: rest =>
    let! _ := check_realm_witness io default_mode c (realm_name r) (realm_pseudonymizer r) in
    check_each_realm c rest
  end.

(** What the host is handed. *)
Record Composed := mkComposed {
  composed_secrets : option Store;
  composed_policy : option Policy;
  composed_keys : option Ring;
  composed_audit : Sink;
  composed_realms : Realms Ring Sink Policy }.

Definition is_file_in (s : Fs) (path : string) : bool := bool_decide (is_Some (fs_files s !! path)).

(** [App::serve], up to the host; [banner] is whether the banner could be written. *)
Definition compose (config_file : string) (banner : result unit Error) (c : Config) : M Fs Error Composed :=
  let! _ := match provisioner app with
            | Some prepare => in_context ("preparing the volume at " +:+ working_dir c) (prepare c)
            | None => mret tt
            end in
  let! volume := mget in
  let! _ := in_context ("validating the configuration loaded from " +:+ config_file)
              (mlift (validate (is_file_in volume) c)) in
  let! _ := match cfg_log_format c with FormatTerminal => mlift banner | FormatJson => mret tt end in
  let! resolved := secrets_for c in
  let secrets := match resolved with Some store => Some store | None => app_secrets app end in
  let! policy := pseudonymizer_for c secrets in
  let! _ := check_witness io default_mode c policy in
  let! keys := keys_for c in
  let! audit := audit_for c keys in
  let! realms := realms_for c in
  let! _ := check_each_realm c (all_realms realms) in
  mret (mkComposed secrets policy keys audit realms).
End Compose.
End App.
Arguments App : clear implicits.
Arguments Composed : clear implicits.

(** ** The build of this repository ([src/main.rs]) *)

(** A ring on disk, and a destination of records. *)
Record DirectoryRing := mkDirectoryRing { ring_directory : string; ring_policy : KeyPolicy; ring_algorithm : RingAlgorithm }.
Inductive Destination :=
| ToTracing
| ToFile (directory : string) (retention : Z) (sealed_by : option DirectoryRing).
Inductive Store := DirectoryStore (directory : string) | EnvironmentStore (prefix : string).

Section PicX.
Context (io : nat -> option Failure) (default_mode : Z) (show_io : IoKind -> Cause)
  (unicode_uppercase : Z -> list Z) (env : gmap string string)
  (hmac_sha256 : list byte -> list byte -> option (list byte)).
(** [FileAuditSink::prepare] of a directory. *)
Context (prepare_trail : string -> M Fs Error unit).
(** [provision::prepare]. *)
Context (provision : Config -> M Fs Error unit).

#[local] Instance hmac_policy : Pseudonymizer HmacPseudonymizer := HmacPseudonymizer_instance hmac_sha256.

Definition resolve_from (store : Store) (reference : SecretRef) : M Fs SecretError (list byte) :=
  match store with
  | DirectoryStore directory => directory_resolve io show_io directory reference
  | EnvironmentStore prefix => mlift (environment_resolve unicode_uppercase env prefix reference)
  end.

Definition name_of_store (store : Store) : string :=
  match store with DirectoryStore _ => "directory" | EnvironmentStore _ => "environment" end.

(** [secret_store_for]. *)
Definition secret_store_for (c : Config) : M Fs Error (option Store) :=
  mret match cfg_secrets_provider c with
       | ProviderNone => None
       | ProviderDirectory => Some (DirectoryStore (secrets_directory c))
       | ProviderEnvironment => Some (EnvironmentStore (cfg_secrets_env_prefix c))
       end.

(** [key_manager_for]. *)
Definition key_manager_for (c : Config) : M Fs Error (option DirectoryRing) :=
  mret (Some (mkDirectoryRing (keys_directory c)
    (mkKeyPolicy (cfg_keys_publish_ahead c) (cfg_keys_rotate_every c) (cfg_keys_retain c) (cfg_audit_retention c)) Ed25519)).

(** [audit_sink_for]. *)
Definition audit_sink_for (c : Config) (keys : option DirectoryRing) : M Fs Error (option Destination) :=
  match cfg_audit_destination c with
  | DestTracing => mret None
  | DestFile =>
    let! _ := prepare_trail (audit_directory c) in
    mret (Some (ToFile (audit_directory c) (cfg_audit_retention c) keys))
  end.

(** The two rings of [build_realm]. *)
Definition realm_operations_ring (c : Config) (r : RealmConfig) : option DirectoryRing :=
  if rc_operations_keys_enabled r then
    Some (mkDirectoryRing (realm_keys_directory c (rc_name r))
      (mkKeyPolicy (rc_operations_keys_publish_ahead r) (rc_operations_keys_rotate_every r)
         (rc_operations_keys_retain r) (rc_audit_retention r)) Ed25519)
  else None.

Definition realm_token_ring (c : Config) (r : RealmConfig) : result (option DirectoryRing) Error :=
  if rc_token_keys_enabled r then
    let? algorithm := map_err (fun e => ["the realm `" +:+ rc_name r +:+ "` cannot sign: " +:+ e])
                        (parse_ring_algorithm (rc_token_signing_algorithm r)) in
    Ok (Some (mkDirectoryRing (realm_token_keys_directory c (rc_name r))
      (mkKeyPolicy (rc_token_keys_publish_ahead r) (rc_token_keys_rotate_every r) (rc_token_keys_retain r)
         (rc_token_keys_retain r)) algorithm))
  else Ok None.

(** The trail of [build_realm]. *)
Definition realm_destination (c : Config) (r : RealmConfig) : M Fs Error Destination :=
  match rc_audit_destination r with
  | DestTracing => mret ToTracing
  | DestFile =>
    let! _ := in_context ("preparing the audit trail for the realm `" +:+ rc_name r +:+ "`")
                (prepare_trail (realm_audit_directory c (rc_name r))) in
    mret (ToFile (realm_audit_directory c (rc_name r)) (rc_audit_retention r) (realm_operations_ring c r))
  end.

(** The pseudonymiser of [build_realm]. *)
Definition realm_policy (c : Config) (r : RealmConfig) : M Fs Error (option HmacPseudonymizer) :=
  if rc_audit_pseudonym_enabled r then
    let! reference := mlift (ok_or (rc_audit_pseudonym_key_ref r)
      ["audit pseudonymisation is enabled but names no secret"]) in
    let! store := match rc_secrets_provider r with
      | ProviderDirectory => mret (DirectoryStore (realm_secrets_directory c (rc_name r)))
      | ProviderEnvironment => mret (EnvironmentStore (rc_secrets_env_prefix r))
      | ProviderNone => mfail ["the realm `" +:+ rc_name r +:+ "` pseudonymises but resolves secrets from nowhere"]
      end in
    let! key := fun s => match resolve_from store reference s with
      | (Ok key, s') => (Ok key, s')
      | (Err e, s') => (Err ["resolving the pseudonymisation key `" +:+ reference +:+ "` for the realm `" +:+ rc_name r +:+ "`";
                             show_secret_error e], s')
      end in
    mret (Some (mkHmac key (rc_audit_pseudonym_key_version r)))
  else mret None.

(** [build_realm]. *)
Definition build_realm (c : Config) (r : RealmConfig) : M Fs Error (Realm DirectoryRing Destination HmacPseudonymizer) :=
  let! tokens := mlift (realm_token_ring c r) in
  let! audit := realm_destination c r in
  let! policy := realm_policy c r in
  mret (mkRealm (rc_name r) (rc_mount_path r) (rc_issuer r) (rc_listed r) (realm_operations_ring c r) tokens audit policy
          (rc_exchange_profiles r) (rc_trusted_attesters r) (rc_token_lifetime r) (rc_token_initial_expiry_policy r)
          (rc_key_cache_stale_for r) (rc_token_signing_algorithm r)).

(** What [main] composes. *)
Definition pic_x : App DirectoryRing Destination HmacPseudonymizer Store :=
  mkApp ToTracing None (Some provision) (Some secret_store_for) (Some mkHmac) (Some key_manager_for)
    (Some audit_sink_for) (Some build_realm).
End PicX.
