(* ===== verification/AppProperties.v ===== *)
(** * What a composed server has been checked for

    [composition_is_checked] follows [App::serve] for any build; [built_realm_is_its_own] the realms
    of the build of this repository. *)
From S2P Require Import Prelude Rust Text Order Errors AuditEvents Access Limits Settings KeyCache ExchangeMap Realms Config ConfigRules.
From S2P Require Import ConfigProperties Volume Witness Secrets Keys App.
Local Open Scope Z_scope.
Local Open Scope rust_scope.

Lemma in_context_Ok {S A} what (m : M S Error A) s a s' : in_context what m s = (Ok a, s') -> m s = (Ok a, s').
Proof. unfold in_context. destruct (m s) as [[x|e] s1]; [by intros [= -> ->]|done]. Qed.

Lemma all_realms_elem {R S P} (rs : Realms R S P) x : x ∈ all_realms rs <-> exists name, by_name rs name = Some x.
Proof.
  unfold all_realms, by_name. rewrite (sort_by_perm String.compare), list_elem_of_fmap. setoid_rewrite <- elem_of_map_to_list. split.
  - intros ([n y] & -> & H). eauto.
  - intros [n H]. by exists (n, x).
Qed.

Section Composition.
Context {Ring Sink Policy Store : Type} `{!Pseudonymizer Policy}
  (store_name : Store -> string) (store_resolve : Store -> SecretRef -> M Fs SecretError (list byte))
  (io : nat -> option Failure) (default_mode : Z) (app : App Ring Sink Policy Store).

Lemma pseudonymizer_for_Ok c secrets s p s' :
  pseudonymizer_for store_name store_resolve app c secrets s = (Ok p, s') ->
  match p with
  | None => cfg_audit_pseudonym_enabled c = false
  | Some policy => cfg_audit_pseudonym_enabled c = true /\ exists factory store reference key t t',
      pseudonymizer_factory app = Some factory /\ secrets = Some store /\ cfg_audit_pseudonym_key_ref c = Some reference /\
      store_resolve store reference t = (Ok key, t') /\ (MINIMUM_KEY_LENGTH <= length key)%nat /\
      policy = factory key (cfg_audit_pseudonym_key_version c)
  end.
Proof.
  unfold pseudonymizer_for. destruct (cfg_audit_pseudonym_enabled c); simpl; [|by intros [= <- <-]].
  intros H. run_inv. rename x into factory, x1 into reference, x3 into store.
  match goal with H : (match store_resolve store reference ?t with _ => _ end) = _ |- _ =>
    destruct (store_resolve store reference t) as [[key|e] t'] eqn:E; simplify_eq end.
  match goal with H : (if ?b then _ else _) _ = _ |- _ => destruct b eqn:L; [done|injection H as <- <-] end.
  split; [done|]. apply Nat.ltb_ge in L. do 6 eexists. split_and!; eauto.
Qed.

Lemma check_each_realm_Ok c (realms : list (Realm Ring Sink Policy)) s u s' :
  check_each_realm io default_mode c realms s = (Ok u, s') ->
  Forall (fun r => exists t t', check_realm_witness io default_mode c (realm_name r) (realm_pseudonymizer r) t = (Ok tt, t')) realms.
Proof.
  revert s. induction realms as [|r realms IH]; intros s; cbn [check_each_realm]; [constructor|].
  intros ([] & s1 & H1 & H2)%mbind_st_Ok. constructor; eauto.
Qed.

Section Realms.
(** A realm is built under the name and the mount of its configuration. *)
Hypothesis factory_names : forall factory c r s x s', realm_factory app = Some factory ->
  factory c r s = (Ok x, s') -> realm_name x = rc_name r /\ realm_mount_path x = rc_mount_path r.

Lemma assemble_realms_Ok factory c realms s xs s' :
  realm_factory app = Some factory -> assemble_realms factory c realms s = (Ok xs, s') ->
  Forall2 (fun r x => exists t t', factory c r t = (Ok x, t')) realms xs.
Proof.
  intros Hf. revert s xs s'. induction realms as [|r realms IH]; intros s xs s'; cbn [assemble_realms].
  { intros [= <- <-]. constructor. }
  intros (x & s1 & H1%in_context_Ok & (ys & s2 & H2 & [= <- <-])%mbind_st_Ok)%mbind_st_Ok. constructor; [eauto|by eapply IH].
Qed.

Lemma realms_for_Ok c s rs s' :
  realms_for app c s = (Ok rs, s') ->
  exists xs, rs = realms_new xs /\
    Forall2 (fun r x => exists factory t t', realm_factory app = Some factory /\ factory c r t = (Ok x, t')) (cfg_realms c) xs.
Proof.
  unfold realms_for. destruct (cfg_realms c) as [|r0 rest] eqn:Er.
  { intros [= <- <-]. exists []. split; [done|constructor]. }
  rewrite <- Er. intros H. run_inv. rename x into factory.
  match goal with H : assemble_realms _ _ _ _ = (Ok ?l, _) |- _ => rename H into Ha; exists l end. split; [done|].
  eapply Forall2_impl; [by eapply assemble_realms_Ok|]. intros r x (t & t' & Hb). by exists factory, t, t'.
Qed.

Lemma realms_for_registry c s rs s' :
  NoDup (map rc_name (cfg_realms c)) -> realms_for app c s = (Ok rs, s') ->
  forall name, (exists r, r ∈ cfg_realms c /\ rc_name r = name) <-> is_Some (by_name rs name).
Proof.
  intros Hd (xs & -> & Hx)%realms_for_Ok name.
  assert (Hn : map realm_name xs = map rc_name (cfg_realms c)).
  { induction Hx as [|r x l xs (factory & t & t' & Hf & Hb) _ IH]; [done|]. simpl. inversion Hd; subst. rewrite IH by done.
    f_equal. by eapply factory_names. }
  rewrite realms_new_tables. unfold by_name. simpl. unfold is_Some.
  setoid_rewrite table_lookup; [|by rewrite Hn].
  assert (E : name ∈ map rc_name (cfg_realms c) <-> name ∈ map realm_name xs) by (by rewrite Hn).
  rewrite !list_elem_of_fmap in E. naive_solver.
Qed.

End Realms.
End Composition.

(** ** The realms of this build *)

Section Built.
Context (io : nat -> option Failure) (show_io : IoKind -> Cause) (unicode_uppercase : Z -> list Z) (env : gmap string string)
  (prepare_trail : string -> M Fs Error unit).

Abbreviation build := (build_realm io show_io unicode_uppercase env prepare_trail).

Lemma build_realm_Ok c r s x s' :
  build c r s = (Ok x, s') ->
  realm_name x = rc_name r /\ realm_mount_path x = rc_mount_path r /\ operations_keys x = realm_operations_ring c r /\
  realm_token_ring c r = Ok (token_keys x) /\
  (exists t t', realm_destination prepare_trail c r t = (Ok (realm_audit x), t')) /\
  exists t t', realm_policy io show_io unicode_uppercase env c r t = (Ok (realm_pseudonymizer x), t').
Proof.
  unfold build_realm. intros (tokens & s1 & Ht & (audit & s2 & Ha & (policy & s3 & Hp & H)%mbind_st_Ok)%mbind_st_Ok)%mbind_st_Ok.
  injection Ht as Ht <-. injection H as <- <-. simpl. split_and!; eauto.
Qed.

(** Where a ring keeps its keys and how long it keeps them. *)
Definition ring_of_realm (c : Config) (r : RealmConfig) (ring : DirectoryRing) : Prop :=
  realm_place c (rc_name r) (ring_directory ring) /\
  sound_windows c (publish_ahead (ring_policy ring)) (rotate_every (ring_policy ring)) (retain (ring_policy ring)).

Definition destination_of_realm (c : Config) (r : RealmConfig) (d : Destination) : Prop :=
  match d with
  | ToTracing => True
  | ToFile directory _ sealed_by => realm_place c (rc_name r) directory /\ sealed_by = realm_operations_ring c r
  end.

Lemma operations_ring_sound c r ring :
  SoundRealm c r -> realm_operations_ring c r = Some ring -> ring_of_realm c r ring.
Proof.
  intros [] H. unfold realm_operations_ring in H. destruct (rc_operations_keys_enabled r); [|done]. injection H as <-.
  split; [by exists "operations/keys"|auto].
Qed.

Lemma token_ring_sound c r ring :
  SoundRealm c r -> realm_token_ring c r = Ok (Some ring) -> ring_of_realm c r ring.
Proof.
  intros [] H. unfold realm_token_ring in H. destruct (rc_token_keys_enabled r); [|done]. run_inv. simplify_eq.
  split; [by exists "keys"|auto].
Qed.

(** What only a resolved realm has: an algorithm the ring knows. *)
Lemma resolved_algorithm c input r :
  resolve_realm unicode_uppercase c input = Ok r -> is_ok (parse_ring_algorithm (rc_token_signing_algorithm r)) = true.
Proof.
  unfold resolve_realm. intros H. run_inv. simpl.
  match goal with H : read_signing_algorithm input = Ok _ |- _ => revert H end. unfold read_signing_algorithm.
  destruct (in_token_signing_algorithm input) as [a|]; [|by intros [= <-]].
  case_bool_decide; [by intros [= <-]|]. case_bool_decide; [by intros [= <-]|done].
Qed.

Lemma with_realms_algorithms inputs c0 c r :
  with_realms unicode_uppercase inputs c0 = Ok c -> r ∈ cfg_realms c ->
  is_ok (parse_ring_algorithm (rc_token_signing_algorithm r)) = true.
Proof.
  unfold with_realms. intros (rs & H & [= <-])%bind_result_Ok. simpl. revert rs H.
  induction inputs as [|i inputs IH]; intros rs; simpl; [intros [= <-] Hr; by apply not_elem_of_nil in Hr|].
  intros (x & Hx & (rest & Hrest & [= <-])%bind_result_Ok)%bind_result_Ok [->|Hr]%elem_of_cons; [by eapply resolved_algorithm|eauto].
Qed.

(** An error of the disk or of the secret store, rather than of the configuration. *)
Definition outside_error (r : RealmConfig) (e : Error) : Prop :=
  (exists rest, e = ("preparing the audit trail for the realm `" +:+ rc_name r +:+ "`") :: rest) \/
  (exists reference rest, rc_audit_pseudonym_key_ref r = Some reference /\
     e = ["resolving the pseudonymisation key `" +:+ reference +:+ "` for the realm `" +:+ rc_name r +:+ "`"; rest]).

Lemma realm_policy_run c r s res s' :
  sound_pseudonyms (rc_audit_pseudonym_enabled r) (rc_secrets_provider r) (rc_audit_pseudonym_key_ref r) ->
  realm_policy io show_io unicode_uppercase env c r s = (res, s') ->
  match res with
  | Ok p => (exists policy, p = Some policy) <-> rc_audit_pseudonym_enabled r = true
  | Err e => outside_error r e
  end.
Proof.
  intros Hs. unfold realm_policy. destruct (rc_audit_pseudonym_enabled r) eqn:E.
  2: { intros [= <- <-]. split; [by intros [? [=]]|done]. }
  destruct (Hs eq_refl) as [Hp [reference Hr]]. rewrite Hr. unfold mbind_st, mlift, mret, ok_or.
  assert (Hx : forall store, match (match resolve_from io show_io unicode_uppercase env store reference s with
      | (Ok key, s') => (Ok key, s')
      | (Err e, s') => (Err ["resolving the pseudonymisation key `" +:+ reference +:+ "` for the realm `" +:+ rc_name r +:+ "`";
                             show_secret_error e], s')
      end) with (Ok x, s'0) => (Ok (Some (mkHmac x (rc_audit_pseudonym_key_version r))), s'0) | (Err e, s'0) => (Err e, s'0) end = (res, s') ->
    match res with
    | Ok p => (exists policy, p = Some policy) <-> true = true
    | Err e => outside_error r e
    end).
  { intros store. destruct (resolve_from io show_io unicode_uppercase env store reference s) as [[key|e] s1]; intros [= <- <-].
    - split; [done|eauto].
    - right. exists reference. eauto. }
  destruct (rc_secrets_provider r); [done|apply Hx|apply Hx].
Qed.

(** A realm of a validated configuration is built of parts of its own. Its rings, its trail and
    the key that seals it lie in places that belong to it alone, its rings publish a key for longer
    than it is cached before it signs and keep it until its last signature can be checked, and it
    pseudonymises exactly when it is configured to; and building it fails only because the trail
    could not be prepared or the secret could not be resolved, never because the configuration does
    not fit the build. *)
Theorem built_realm_is_its_own is_file inputs c0 c r s res s' :
  with_realms unicode_uppercase inputs c0 = Ok c -> validate is_file c = Ok tt -> r ∈ cfg_realms c ->
  build c r s = (res, s') ->
  match res with
  | Ok x => realm_name x = rc_name r /\ realm_mount_path x = "/realms/" +:+ rc_name r /\
      (forall ring, operations_keys x = Some ring -> ring_of_realm c r ring) /\
      (forall ring, token_keys x = Some ring -> ring_of_realm c r ring) /\
      destination_of_realm c r (realm_audit x) /\
      ((exists policy, realm_pseudonymizer x = Some policy) <-> rc_audit_pseudonym_enabled r = true)
  | Err e => outside_error r e
  end.
Proof.
  intros Hw Hv Hr H. apply validated_realms in Hv as [_ Hs]. rewrite Forall_forall in Hs. specialize (Hs r Hr).
  pose proof (with_realms_mounts unicode_uppercase _ _ _ Hw) as Hm. rewrite Forall_forall in Hm. specialize (Hm r Hr).
  assert (Halg : is_ok (parse_ring_algorithm (rc_token_signing_algorithm r)) = true) by (by eapply with_realms_algorithms).
  destruct res as [x|e].
  - apply build_realm_Ok in H as (Hn & Hp & Ho & Ht & (t & t' & Hd) & (u & u' & Hq)).
    apply realm_policy_run in Hq; [|apply Hs]. split_and!; [done|congruence| | | |done].
    + intros ring E. apply operations_ring_sound; [done|congruence].
    + intros ring E. apply token_ring_sound; [done|congruence].
    + unfold realm_destination in Hd. destruct (rc_audit_destination r); [by injection Hd as <- _|].
      apply mbind_st_Ok in Hd as (v & t1 & _ & [= <- _]). split; [by exists "operations/audit"|done].
  - unfold build_realm, mbind_st at 1, mlift in H. destruct (realm_token_ring c r) as [tokens|e'] eqn:Ht.
    2: { exfalso. unfold realm_token_ring in Ht. destruct (rc_token_keys_enabled r); [|done].
         destruct (parse_ring_algorithm _); done. }
    unfold mbind_st at 1 in H. destruct (realm_destination prepare_trail c r s) as [[d|e'] s1] eqn:Hd.
    + unfold mbind_st in H. destruct (realm_policy io show_io unicode_uppercase env c r s1) as [[p|e'] s2] eqn:Hq; [done|].
      injection H as <- <-. apply realm_policy_run in Hq; [done|apply Hs].
    + injection H as <- <-. left. unfold realm_destination in Hd. destruct (rc_audit_destination r); [done|].
      unfold mbind_st, in_context in Hd. destruct (prepare_trail _ s) as [[v|e2] t1]; [done|]. injection Hd as <- _. eauto.
Qed.
End Built.

Module Start.
(** A realm that pseudonymises under a variable of the environment. *)
Definition realm (name : string) : RealmInput :=
  mkRealmInput name None None None (Some "10m") (Some "30d") (Some "60d") None None None None None None (Some "true") (Some "key") None
    (Some "environment") None (Some "1h") None None None [] [].

Definition config : Config :=
  match with_realms Deployment.no_uppercase [realm "a"] Deployment.server with Ok c => c | Err _ => Deployment.server end.

Definition env (value : string) : gmap string string := {["PIC_X_SECRET_A_KEY" := value]}.
Definition volume : Fs := mkFs ∅ {["/srv/pic"; "/srv"]} 0.
(** A toy authentication code. *)
Definition code (key value : list byte) : option (list byte) := Some (key ++ value).

Definition app (value : string) : App DirectoryRing Destination HmacPseudonymizer Store :=
  pic_x (fun _ => None) (fun _ => "") Deployment.no_uppercase (env value) (fun _ => mret tt) (fun _ => mret tt).

Definition run (value : string) : result (Composed DirectoryRing Destination HmacPseudonymizer Store) Error * Fs :=
  compose (Pseudonymizer0 := HmacPseudonymizer_instance code) name_of_store
    (resolve_from (fun _ => None) (fun _ => "") Deployment.no_uppercase (env value)) (fun _ => None) 420 (app value)
    "pic-x.yml" (Ok tt) config volume.
End Start.

Definition good_key : string := "0123456789abcdef".


Lemma built_realm_is_its_own_witness :
  let r := List.nth 0 (cfg_realms Start.config) Deployment.blank in
  let x := build_realm (fun _ => None) (fun _ => "") Deployment.no_uppercase (Start.env good_key) (fun _ => mret tt) Start.config r Start.volume in
  exists built ring, fst x = Ok built /\ token_keys built = Some ring /\ ring_of_realm Start.config r ring.
Proof.
  intros r x. destruct (fst x) as [built|e] eqn:E; [|vm_compute in E; discriminate E].
  pose proof (built_realm_is_its_own (fun _ => None) (fun _ => "") Deployment.no_uppercase (Start.env good_key) (fun _ => mret tt)
    (fun _ => true) [Start.realm "a"] Deployment.server Start.config r Start.volume (Ok built) (snd x)) as H.
  destruct H as (_ & _ & _ & Ht & _).
  - vm_compute. reflexivity.
  - vm_compute. reflexivity.
  - apply list_elem_of_lookup. by exists 0%nat.
  - apply run_is. exact E.
  - destruct (token_keys built) as [ring|] eqn:K; [exists built, ring; eauto|].
    exfalso. vm_compute in E. injection E as <-. discriminate K.
Defined.

(** The key of a realm is not held to the length the server's is: a realm pseudonymises under an
    empty key, and the server refuses one of fifteen bytes. *)
Theorem realm_key_may_be_empty :
  (exists k x, fst (Start.run "") = Ok k /\ by_name (composed_realms k) "a" = Some x /\ realm_pseudonymizer x = Some (mkHmac [] "v1")) /\
  (forall key, (length key < MINIMUM_KEY_LENGTH)%nat ->
     forall c store reference s, cfg_audit_pseudonym_enabled c = true -> cfg_audit_pseudonym_key_ref c = Some reference ->
     is_ok (fst (pseudonymizer_for name_of_store (fun (_ : Store) _ => mret key) (Start.app "") c (Some store) s)) = false).
Proof.
  split.
  - do 2 eexists. split_and!; vm_compute; reflexivity.
  - intros key Hk c store reference s He Hr. unfold pseudonymizer_for. rewrite He, Hr. simpl.
    unfold mbind_st, mlift, mret. simpl. by rewrite (proj2 (Nat.ltb_lt _ _) Hk).
Qed.
