(* ===== verification/Metrics.v ===== *)
(** * Measurements ([crates/pic-x-core/src/metrics.rs], [crates/pic-x-std/src/metrics.rs])

    Declarations of metrics and the registry that holds what was recorded. An [f64] is an IEEE 754
    number of the Standard Library's executable specification, with 53 bits of precision; a count
    of observations is a number without a bound, because nothing records 2^64 of them.
    [registry_reads_its_history] states what the registry publishes in terms of the measurements
    alone. *)
From Stdlib Require Import SpecFloat.
From stdpp Require Import sorting.
From S2P Require Import Prelude Rust Order.
Local Open Scope Z_scope.

(** ** Numbers *)

Definition f64 : Type := spec_float.
Definition f64_add : f64 -> f64 -> f64 := SFadd 53 1024.
Definition f64_zero : f64 := S754_zero false.
Definition f64_one : f64 := binary_normalize 53 1024 1 0 false.

Definition is_finite (x : f64) : bool :=
  match x with S754_zero _ | S754_finite _ _ _ => true | S754_infinity _ | S754_nan => false end.

(** A decimal fraction with so many places, rounded to the nearest number. *)
Definition decimal (digits : Z) (places : positive) : f64 :=
  match digits with
  | Z0 => f64_zero
  | Zpos p => SFdiv 53 1024 (binary_normalize 53 1024 (Zpos p) 0 false) (binary_normalize 53 1024 (Zpos (10 ^ places)) 0 false)
  | Zneg p => SFopp (SFdiv 53 1024 (binary_normalize 53 1024 (Zpos p) 0 false) (binary_normalize 53 1024 (Zpos (10 ^ places)) 0 false))
  end.

(** ** Declarations *)

Inductive Kind := Counter | Gauge | Histogram.

Record Metric := mkMetric { metric_name : string; metric_kind : Kind; help : string; buckets : list f64 }.

Definition counter (name help : string) : Metric := mkMetric name Counter help [].
Definition gauge (name help : string) : Metric := mkMetric name Gauge help [].
Definition histogram (name help : string) (bs : list f64) : Metric := mkMetric name Histogram help bs.

(** [SECONDS], in milliseconds. *)
Definition SECONDS : list f64 :=
  map (fun ms => decimal ms 3) [1; 5; 10; 25; 50; 100; 250; 500; 1000; 2500; 5000; 10000; 30000; 60000].

(** ** The registry *)

Definition SERIES_CEILING : Z := 10000.

(** A series: the name of its metric and the values of its labels. *)
Definition Series : Type := string * list (string * string).

Inductive Held :=
| HeldValue (value : f64)
| HeldDistribution (counts : list Z) (count : Z) (sum : f64).

Record Registry := mkRegistry { series : gmap Series (Metric * Held); overflowed : bool }.

Definition registry_new : Registry := mkRegistry ∅ false.

Definition cmp_label : string * string -> string * string -> comparison := cmp_pair String.compare String.compare.

(** [keyed]. *)
Definition keyed (labels : list (string * string)) : list (string * string) := sort_by cmp_label id labels.

(** [empty]. *)
Definition held_empty (m : Metric) : Held :=
  match metric_kind m with
  | Counter | Gauge => HeldValue f64_zero
  | Histogram => HeldDistribution (map (fun _ => 0) (buckets m)) 0 f64_zero
  end.

(** The loop of [apply] over the boundaries. *)
Fixpoint observe_counts (value : f64) (boundaries : list f64) (counts : list Z) : list Z :=
  match boundaries, counts with
  | b :: bs, n :: ns => (if SFleb value b then n + 1 else n) :: observe_counts value bs ns
  | _, _ => counts
  end.

(** [apply]. *)
Definition held_apply (m : Metric) (h : Held) (value : f64) : Held :=
  match metric_kind m, h with
  | Counter, HeldValue current => if SFleb f64_zero value then HeldValue (f64_add current value) else h
  | Gauge, HeldValue _ => HeldValue value
  | Histogram, HeldDistribution counts count sum =>
    HeldDistribution (observe_counts value (buckets m) counts) (count + 1) (f64_add sum value)
  | _, _ => h
  end.

(** [Registry::record]. *)
Definition registry_record (m : Metric) (labels : list (string * string)) (value : f64) (r : Registry) : Registry :=
  if negb (is_finite value) then r
  else
    let key : Series := (metric_name m, keyed labels) in
    match series r !! key with
    | Some (declared, existing) => mkRegistry (<[key := (declared, held_apply m existing value)]> (series r)) (overflowed r)
    | None =>
      if SERIES_CEILING <=? Z.of_nat (size (series r)) then mkRegistry (series r) true
      else mkRegistry (<[key := (m, held_apply m (held_empty m) value)]> (series r)) (overflowed r)
    end.

Inductive Reading :=
| ReadingValue (value : f64)
| ReadingDistribution (buckets : list (f64 * Z)) (count : Z) (sum : f64).

Record Sample := mkSample { sample_metric : Metric; sample_labels : list (string * string); reading_of : Reading }.

(** [read]. *)
Definition held_read (m : Metric) (h : Held) : Reading :=
  match h with
  | HeldValue v => ReadingValue v
  | HeldDistribution counts count sum => ReadingDistribution (combine (buckets m) counts) count sum
  end.

(** The order of samples: by name, then by labels. *)
Definition sample_key (s : Sample) : Series := (metric_name (sample_metric s), sample_labels s).
Definition cmp_series : Series -> Series -> comparison := cmp_pair String.compare (cmp_list cmp_label).

(** [Registry::snapshot]. *)
Definition snapshot (r : Registry) : list Sample :=
  sort_by cmp_series sample_key
    (map (fun '(key, (m, h)) => mkSample m (snd key) (held_read m h)) (map_to_list (series r))).

(** [Registry::len] and [is_empty]. *)
Definition registry_len (r : Registry) : Z := Z.of_nat (size (series r)).
Definition registry_is_empty (r : Registry) : bool := registry_len r =? 0.

(** The [Metrics] handle: a build without a recorder discards. *)
Definition metrics_record (m : Metric) (labels : list (string * string)) (value : f64) (handle : option Registry) : option Registry :=
  registry_record m labels value <$> handle.
Definition metrics_count (m : Metric) (labels : list (string * string)) : option Registry -> option Registry :=
  metrics_record m labels f64_one.
Definition metrics_snapshot (handle : option Registry) : list Sample :=
  match handle with Some r => snapshot r | None => [] end.

(** ** What the registry holds, in terms of what was measured *)

Record Measurement := mkMeasurement { measured : Metric; measured_labels : list (string * string); measured_value : f64 }.

Definition key_of (e : Measurement) : Series := (metric_name (measured e), keyed (measured_labels e)).

(** The finite values measured for a series, in order. *)
Definition observations (k : Series) (history : list Measurement) : list f64 :=
  List.filter is_finite (map measured_value (List.filter (fun e => bool_decide (key_of e = k)) history)).

Definition record_all (history : list Measurement) : Registry :=
  fold_left (fun r e => registry_record (measured e) (measured_labels e) (measured_value e) r) history registry_new.

(** The reference: a counter is the sum of what was not negative, a gauge the last value, a
    histogram the number of values up to each boundary, with their number and their sum. *)
Definition at_most (b : f64) (vs : list f64) : Z := Z.of_nat (length (List.filter (fun v => SFleb v b) vs)).

Definition summary (m : Metric) (vs : list f64) : Held :=
  match metric_kind m with
  | Counter => HeldValue (fold_left f64_add (List.filter (SFleb f64_zero) vs) f64_zero)
  | Gauge => HeldValue (default f64_zero (last vs))
  | Histogram => HeldDistribution (map (fun b => at_most b vs) (buckets m)) (Z.of_nat (length vs)) (fold_left f64_add vs f64_zero)
  end.

(** One declaration to a name. *)
Definition declared_once (history : list Measurement) : Prop :=
  forall e e', e ∈ history -> e' ∈ history -> metric_name (measured e) = metric_name (measured e') -> measured e = measured e'.

Lemma summary_nil m : summary m [] = held_empty m.
Proof. unfold summary, held_empty. by destruct (metric_kind m). Qed.

Lemma at_most_snoc b vs v : at_most b (vs ++ [v]) = if SFleb v b then at_most b vs + 1 else at_most b vs.
Proof. unfold at_most. rewrite List.filter_app, length_app, Nat2Z.inj_add. cbn [List.filter]. destruct (SFleb v b); [done|]. by rewrite Z.add_0_r. Qed.

Lemma summary_snoc m vs v : summary m (vs ++ [v]) = held_apply m (summary m vs) v.
Proof.
  unfold summary, held_apply. destruct (metric_kind m).
  - rewrite List.filter_app, fold_left_app. cbn [List.filter]. by destruct (SFleb f64_zero v).
  - by rewrite last_snoc.
  - rewrite fold_left_app, length_app, Nat2Z.inj_add. f_equal.
    induction (buckets m) as [|b bs IH]; cbn [map observe_counts]; [done|]. by rewrite at_most_snoc, IH.
Qed.

Lemma observations_snoc k history e :
  observations k (history ++ [e]) =
  if bool_decide (key_of e = k) && is_finite (measured_value e) then observations k history ++ [measured_value e] else observations k history.
Proof.
  unfold observations. rewrite List.filter_app, map_app, List.filter_app. simpl. case_bool_decide; simpl; [|by rewrite app_nil_r].
  destruct (is_finite (measured_value e)); simpl; [done|by rewrite app_nil_r].
Qed.

Lemma record_all_snoc history e :
  record_all (history ++ [e]) = registry_record (measured e) (measured_labels e) (measured_value e) (record_all history).
Proof. unfold record_all. by rewrite fold_left_app. Qed.

(** Nothing is held that was not declared in the history. *)
Lemma held_declared history k m h :
  series (record_all history) !! k = Some (m, h) -> exists e, e ∈ history /\ measured e = m /\ metric_name m = fst k.
Proof.
  revert m h. induction history as [|e history IH] using rev_ind; intros m h; [unfold record_all; simpl; by rewrite lookup_empty|].
  rewrite record_all_snoc. unfold registry_record. destruct (is_finite _); simpl.
  2: { intros (e' & He & Hm)%IH. exists e'. split; [set_solver|done]. }
  fold (key_of e). destruct (series (record_all history) !! key_of e) as [[m' h']|] eqn:E; simpl.
  - destruct (decide (key_of e = k)) as [<-|Hk].
    + rewrite lookup_insert_eq. intros [= -> <-]. destruct (IH _ _ E) as (e' & He & Hm). exists e'. split; [set_solver|done].
    + rewrite lookup_insert_ne by done. intros (e' & He & Hm)%IH. exists e'. split; [set_solver|done].
  - destruct (SERIES_CEILING <=? _); simpl; [intros (e' & He & Hm)%IH; exists e'; split; [set_solver|done]|].
    destruct (decide (key_of e = k)) as [<-|Hk].
    + rewrite lookup_insert_eq. intros [= <- <-]. exists e. split; [set_solver|done].
    + rewrite lookup_insert_ne by done. intros (e' & He & Hm)%IH. exists e'. split; [set_solver|done].
Qed.

(** The state after a history. *)
Definition described (history : list Measurement) (r : Registry) : Prop :=
  Z.of_nat (size (series r)) <= SERIES_CEILING /\
  forall k, match series r !! k with
            | Some (m, h) => h = summary m (observations k history) /\ observations k history <> []
            | None => observations k history = [] \/ Z.of_nat (size (series r)) = SERIES_CEILING
            end.

Lemma record_described history e :
  declared_once (history ++ [e]) -> described history (record_all history) -> described (history ++ [e]) (record_all (history ++ [e])).
Proof.
  intros Hd [Hs Hk]. rewrite record_all_snoc. unfold registry_record.
  destruct (is_finite (measured_value e)) eqn:Ef; simpl.
  2: { split; [done|]. intros k. rewrite observations_snoc, Ef, andb_false_r. apply Hk. }
  fold (key_of e). destruct (series (record_all history) !! key_of e) as [[m h]|] eqn:E; simpl.
  - assert (m = measured e) as ->.
    { destruct (held_declared _ _ _ _ E) as (e' & He & <- & Hn). apply Hd; [set_solver|set_solver|]. exact Hn. }
    split; simpl.
    + rewrite map_size_insert_Some; [done|by eexists].
    + intros k. rewrite observations_snoc, Ef, andb_true_r. pose proof (Hk k) as Hk'. destruct (decide (key_of e = k)) as [<-|Hne].
      * rewrite lookup_insert_eq, bool_decide_true by done. rewrite E in Hk'. destruct Hk' as [-> _].
        split; [by rewrite summary_snoc|by destruct (observations _ history)].
      * rewrite lookup_insert_ne, bool_decide_false by done. destruct (series _ !! k) as [[m' h']|] eqn:E'; [done|].
        rewrite map_size_insert_Some; [done|by eexists].
  - pose proof (Hk (key_of e)) as He. rewrite E in He. destruct (SERIES_CEILING <=? _) eqn:L; bool_to_prop; simpl.
    + split; [done|]. intros k. rewrite observations_snoc, Ef, andb_true_r. simpl. pose proof (Hk k) as Hk'.
      case_bool_decide as Hne; [subst k; rewrite E; right; lia|exact Hk'].
    + destruct He as [He|He]; [|lia]. split; simpl.
      { rewrite map_size_insert_None by done. lia. }
      intros k. rewrite observations_snoc, Ef, andb_true_r. pose proof (Hk k) as Hk'. destruct (decide (key_of e = k)) as [<-|Hne].
      * rewrite lookup_insert_eq, bool_decide_true by done. rewrite He. split; [|done].
        by rewrite summary_snoc, summary_nil.
      * rewrite lookup_insert_ne, bool_decide_false by done. destruct (series _ !! k) as [[m' h']|]; [done|].
        left. destruct Hk' as [?|Hk']; [done|lia].
Qed.

Lemma declared_once_prefix history e : declared_once (history ++ [e]) -> declared_once history.
Proof. intros Hd e1 e2 H1 H2. apply Hd; set_solver. Qed.

Lemma history_described history : declared_once history -> described history (record_all history).
Proof.
  induction history as [|e history IH] using rev_ind; intros Hd.
  - split; [done|]. intros k. unfold record_all; simpl. rewrite lookup_empty. by left.
  - apply record_described; [done|]. apply IH. by eapply declared_once_prefix.
Qed.

(** ** The snapshot *)

Definition show (e : Series * (Metric * Held)) : Sample :=
  mkSample (fst (snd e)) (snd (fst e)) (held_read (fst (snd e)) (snd (snd e))).

Lemma snapshot_perm r : snapshot r ≡ₚ map show (map_to_list (series r)).
Proof. unfold snapshot. rewrite sort_by_perm. apply reflexive_eq, map_ext. by intros [k [m h]]. Qed.

Lemma snapshot_length r : length (snapshot r) = size (series r).
Proof. rewrite (Permutation_length (snapshot_perm r)), length_map. apply length_map_to_list. Qed.

Lemma elem_of_snapshot r s : s ∈ snapshot r <-> exists k m h, series r !! k = Some (m, h) /\ s = show (k, (m, h)).
Proof.
  rewrite snapshot_perm, list_elem_of_fmap. split.
  - intros ([k [m h]] & -> & Hk%elem_of_map_to_list). eauto.
  - intros (k & m & h & Hk & ->). exists (k, (m, h)). by rewrite elem_of_map_to_list.
Qed.

Lemma show_key history k m h : series (record_all history) !! k = Some (m, h) -> sample_key (show (k, (m, h))) = k.
Proof. intros (e & _ & _ & Hn)%held_declared. destruct k as [n ls]. unfold sample_key, show; simpl in *. by rewrite Hn. Qed.

Lemma snapshot_keys history : NoDup (map sample_key (snapshot (record_all history))).
Proof.
  rewrite snapshot_perm, map_map. rewrite (map_ext_in _ fst); [apply NoDup_fst_map_to_list|].
  intros [k [m h]] Hk%list_elem_of_In%elem_of_map_to_list. by apply (show_key history).
Qed.

(** The same labels in another order name the same series. *)
Lemma keyed_permutation l l' : l ≡ₚ l' -> keyed l = keyed l'.
Proof. apply (sort_by_unique cmp_label id). done. Qed.

(** C30: what a scrape reads is what was measured. After any sequence of measurements in which a name
    has one declaration, the snapshot holds at most [SERIES_CEILING] series, in strictly ascending
    order of name and labels; each series reads the summary of every finite value measured under
    its name and labels, in the order they came, where labels given in another order are the same
    series; and a series that was measured is missing only when the ceiling has been reached. *)
Theorem registry_reads_its_history history :
  declared_once history ->
  let shown := snapshot (record_all history) in
  Z.of_nat (length shown) <= SERIES_CEILING /\
  StronglySorted (fun a b => cmp_series (sample_key a) (sample_key b) = Lt) shown /\
  (forall s, s ∈ shown ->
     observations (sample_key s) history <> [] /\
     reading_of s = held_read (sample_metric s) (summary (sample_metric s) (observations (sample_key s) history))) /\
  (forall m labels labels', labels ≡ₚ labels' -> observations (metric_name m, keyed labels') history <> [] ->
     Z.of_nat (length shown) < SERIES_CEILING -> exists s, s ∈ shown /\ sample_key s = (metric_name m, keyed labels)).
Proof.
  intros Hd shown. destruct (history_described history Hd) as [Hs Hk]. unfold shown. rewrite snapshot_length. split_and!.
  - exact Hs.
  - apply ascending_strict; [apply _|apply snapshot_keys|apply sort_by_sorted, _].
  - intros s (k & m & h & E & ->)%elem_of_snapshot. rewrite (show_key history) by done.
    specialize (Hk k). rewrite E in Hk. destruct Hk as [-> Ho]. done.
  - intros m labels labels' Hp Ho Hc. rewrite (keyed_permutation _ _ Hp). set (k := ((metric_name m, keyed labels') : Series)) in *.
    specialize (Hk k). destruct (series (record_all history) !! k) as [[m' h]|] eqn:E.
    + exists (show (k, (m', h))). split; [apply elem_of_snapshot; eauto|by apply (show_key history)].
    + destruct Hk; [done|lia].
Qed.

(** Two requests and a refusal, a level that moved, and a measurement that is not a number. *)
Definition served_requests : Metric := counter "picx_requests_total" "Requests served.".
Definition open_connections : Metric := gauge "picx_connections" "Connections held.".
Definition sampled_history : list Measurement :=
  [mkMeasurement served_requests [("status", "2xx"); ("method", "GET")] f64_one;
   mkMeasurement open_connections [] (decimal 4 1);
   mkMeasurement served_requests [("method", "GET"); ("status", "2xx")] f64_one;
   mkMeasurement served_requests [] S754_nan;
   mkMeasurement open_connections [] f64_one].

Lemma sampled_once : declared_once sampled_history.
Proof.
  intros e e' He He'. unfold sampled_history in *.
  rewrite !elem_of_cons in He, He'. rewrite !elem_of_nil in He, He'.
  destruct_or!; subst; simpl; done.
Qed.

Lemma registry_reads_its_history_witness :
  declared_once sampled_history /\
  map (fun s => (metric_name (sample_metric s), sample_labels s, reading_of s)) (snapshot (record_all sampled_history))
  = [("picx_connections", [], ReadingValue f64_one);
     ("picx_requests_total", [("method", "GET"); ("status", "2xx")], ReadingValue (f64_add f64_one f64_one))] /\
  Z.of_nat (length (snapshot (record_all sampled_history))) <= SERIES_CEILING.
Proof.
  split; [apply sampled_once|]. split; [vm_compute; reflexivity|].
  apply (registry_reads_its_history sampled_history sampled_once).
Defined.
