(* ===== verification/Exposition.v ===== *)
(** * The exposition a scraper reads ([crates/pic-x-telemetry/src/exposition.rs])

    A snapshot as text, and the reader of a scraper for it. [exposition_reads_back] states that the
    reader recovers every series with its labels and number, whatever the values of the labels are.
    The printing of a number that is not whole is that of the language: the shortest decimal that
    denotes it, without an exponent. *)
From Stdlib Require Import SpecFloat.
From stdpp Require Import sorting.
From S2P Require Import Prelude Rust Encoding Order Metrics.
Local Open Scope Z_scope.

(** ** Numbers *)

(** The number of a value with no fraction. *)
Definition whole (v : f64) : option Z :=
  match v with
  | S754_zero _ => Some 0
  | S754_finite s m e =>
    let z := if 0 <=? e then Some (Zpos m * 2 ^ e)
             else if Zpos m mod 2 ^ (- e) =? 0 then Some (Zpos m / 2 ^ (- e)) else None in
    (fun z => if s then - z else z) <$> z
  | _ => None
  end.

(** [i64] as text. *)
Definition signed_dec (n : Z) : list byte := if n <? 0 then x2d :: dec (- n) else dec n.

Definition pos_part (e : Z) : Z := Z.max e 0.

(** The sign of [d * 10 ^ p - c * 2 ^ q]. *)
Definition cmp_scaled (d p c q : Z) : comparison :=
  (d * 10 ^ pos_part p * 2 ^ pos_part (- q)) ?= (c * 2 ^ pos_part q * 10 ^ pos_part (- p)).

(** The [k] with [10 ^ (k - 1) <= m * 2 ^ e < 10 ^ k]. *)
Definition decimal_exponent (m e : Z) : Z :=
  let k := (Z.log2 m + e) * 30103 / 100000 + 1 in
  let k := match cmp_scaled 1 (k - 1) m e with Gt => k - 1 | _ => k end in
  match cmp_scaled 1 k m e with Gt => k | _ => k + 1 end.

(** Whether a decimal denotes the number: it lies between the halves of the gaps to its
    neighbours, which it may touch when the significand is even. *)
Definition denotes (d p m e : Z) : bool :=
  let low := 4 * m - (if m =? 2 ^ 52 then 1 else 2) in
  let high := 4 * m + 2 in
  match cmp_scaled d p low (e - 2), cmp_scaled d p high (e - 2) with
  | Gt, Lt => true
  | Eq, _ | _, Eq => Z.even m
  | _, _ => false
  end.

(** The shortest digits, the nearest of them, with the exponent [k] of [0.digits * 10 ^ k]. *)
Fixpoint shortest (fuel : nat) (n m e : Z) : Z * Z :=
  let k := decimal_exponent m e in
  let num := m * 2 ^ pos_part e * 10 ^ pos_part (n - k) in
  let den := 2 ^ pos_part (- e) * 10 ^ pos_part (k - n) in
  let down := num / den in
  let nearest := (2 * num + den) / (2 * den) in
  let other := if nearest =? down then down + 1 else down in
  let result d := if d =? 10 ^ n then (1, k + 1) else (d, k) in
  match fuel with
  | O => result nearest
  | S f =>
    if denotes nearest (k - n) m e then result nearest
    else if denotes other (k - n) m e then result other
    else shortest f (n + 1) m e
  end.

(** The decimal point among the digits. *)
Definition place_point (ds : list byte) (k : Z) : list byte :=
  if k <=? 0 then [x30; x2e] ++ zeroes (Z.to_nat (- k)) ++ ds
  else if Z.of_nat (length ds) <=? k then ds ++ zeroes (Z.to_nat k - length ds)
  else firstn (Z.to_nat k) ds ++ [x2e] ++ skipn (Z.to_nat k) ds.

(** [Display] of an [f64]. *)
Definition display_f64 (v : f64) : list byte :=
  match v with
  | S754_nan => bytes_of "NaN"
  | S754_infinity s => (if s then [x2d] else []) ++ bytes_of "inf"
  | S754_zero s => (if s then [x2d] else []) ++ [x30]
  | S754_finite s m e =>
    let '(d, k) := shortest 16 1 (Zpos m) e in (if s then [x2d] else []) ++ place_point (dec d) k
  end.

(** [number]. *)
Definition number (v : f64) : list byte :=
  match whole v with
  | Some z => if Z.abs z <? 10 ^ 15 then signed_dec z else display_f64 v
  | None => display_f64 v
  end.

(** ** Lines *)

Definition escape_byte (b : byte) : list byte :=
  match b with
  | x5c => [x5c; x5c]
  | x22 => [x5c; x22]
  | x0a => [x5c; x6e]
  | _ => [b]
  end.

(** [escaped]. The characters it replaces are ASCII, which no other character's encoding holds. *)
Definition escaped (value : string) : list byte := concat (map escape_byte (bytes_of value)).

(** [kind]. *)
Definition kind_name (k : Kind) : string :=
  match k with Counter => "counter" | Gauge => "gauge" | Histogram => "histogram" end.

Definition pair_text (name : string) (value : list byte) : list byte := bytes_of name ++ [x3d; x22] ++ value ++ [x22].

Fixpoint comma_separated (l : list (list byte)) : list byte :=
  match l with
  | [] => []
  | [x] => x
  | x :: r => x ++ [x2c] ++ comma_separated r
  end.

(** [labels]. *)
Definition labels_text (labels : list (string * string)) (le : option (list byte)) : list byte :=
  match labels, le with
  | [], None => []
  | _, _ =>
    [x7b] ++ comma_separated (map (fun '(n, v) => pair_text n (escaped v)) labels
                              ++ match le with Some b => [pair_text "le" b] | None => [] end) ++ [x7d]
  end.

Definition series_line (name : string) (labels : list byte) (value : list byte) : list byte :=
  bytes_of name ++ labels ++ [x20] ++ value.

Definition describe_lines (m : Metric) : list (list byte) :=
  [bytes_of ("# HELP " +:+ metric_name m +:+ " ") ++ escaped (help m);
   bytes_of ("# TYPE " +:+ metric_name m +:+ " " +:+ kind_name (metric_kind m))].

(** The lines of one sample. *)
Definition reading_lines (s : Sample) : list (list byte) :=
  let name := metric_name (sample_metric s) in
  let ls := sample_labels s in
  match reading_of s with
  | ReadingValue v => [series_line name (labels_text ls None) (number v)]
  | ReadingDistribution bs count sum =>
    map (fun '(b, at_) => series_line (name +:+ "_bucket") (labels_text ls (Some (number b))) (dec at_)) bs
    ++ [series_line (name +:+ "_bucket") (labels_text ls (Some (bytes_of "+Inf"))) (dec count);
        series_line (name +:+ "_sum") (labels_text ls None) (number sum);
        series_line (name +:+ "_count") (labels_text ls None) (dec count)]
  end.

(** The loop of [render]: what a metric is precedes its first series. *)
Fixpoint render_lines (described : option string) (samples : list Sample) : list (list byte) :=
  match samples with
  | [] => []
  | s :: r =>
    let name := metric_name (sample_metric s) in
    (if bool_decide (described = Some name) then [] else describe_lines (sample_metric s))
    ++ reading_lines s ++ render_lines (Some name) r
  end.

(** [render]. *)
Definition render_exposition (samples : list Sample) : list byte := terminated (render_lines None samples).

Example numbers_print :
  map (fun v => string_of (number v))
    [decimal 1 3; decimal 25 2; decimal 120403 3; decimal (-3) 1; decimal 50 1; f64_zero; decimal 12345678901234567 1;
     S754_finite false 4503599627370496 (-1074 - 52 + 52); decimal (10 ^ 23) 1; S754_finite true 1 (-1)]
  = ["0.001"; "0.25"; "120.403"; "-0.3"; "5"; "0"; "1234567890123456.8";
     string_of (bytes_of "0." ++ zeroes 307 ++ bytes_of "22250738585072014"); "10000000000000000000000"; "-0.5"].
Proof. vm_compute. reflexivity. Qed.

(** ** A scraper's reader *)

(** A quoted value, up to its closing quote. *)
Fixpoint read_quoted (bs acc : list byte) : option (list byte * list byte) :=
  match bs with
  | [] => None
  | x22 :: r => Some (rev acc, r)
  | x5c :: x6e :: r => read_quoted r (LF :: acc)
  | x5c :: c :: r => read_quoted r (c :: acc)
  | x5c :: [] => None
  | b :: r => read_quoted r (b :: acc)
  end.

(** The pairs of a label set, up to its closing brace. *)
Fixpoint read_pairs (fuel : nat) (bs : list byte) : option (list (string * string) * list byte) :=
  match fuel with
  | O => None
  | S f =>
    match split_once_list (fun b => bool_decide (b = x3d)) bs with
    | Some (name, x22 :: r) =>
      match read_quoted r [] with
      | Some (value, x2c :: r) =>
        match read_pairs f r with Some (ps, r) => Some ((string_of name, string_of value) :: ps, r) | None => None end
      | Some (value, x7d :: r) => Some ([(string_of name, string_of value)], r)
      | _ => None
      end
    | _ => None
    end
  end.

Definition name_byte (b : byte) : bool :=
  between 97 122 b || between 65 90 b || between 48 57 b || bool_decide (b = x5f) || bool_decide (b = x3a).

(** The name at the front of a line. *)
Fixpoint read_name (bs : list byte) : list byte * list byte :=
  match bs with
  | b :: r => if name_byte b then let '(n, r) := read_name r in (b :: n, r) else ([], bs)
  | [] => ([], [])
  end.

(** A series of the exposition: a name, labels, and the text of a number. *)
Definition Line : Type := string * list (string * string) * string.

Definition read_line (bs : list byte) : option Line :=
  let '(name, r) := read_name bs in
  match r with
  | x20 :: value => Some (string_of name, [], string_of value)
  | x7b :: r =>
    match read_pairs (length r) r with
    | Some (ps, x20 :: value) => Some (string_of name, ps, string_of value)
    | _ => None
    end
  | _ => None
  end.

Definition is_comment (bs : list byte) : bool := match bs with x23 :: _ => true | _ => false end.

Fixpoint read_lines (ls : list (list byte)) : option (list Line) :=
  match ls with
  | [] => None
  | [l] => match l with [] => Some [] | _ => None end
  | l :: r => if is_comment l then read_lines r
              else match read_line l, read_lines r with Some x, Some xs => Some (x :: xs) | _, _ => None end
  end.

Definition read_exposition (text : list byte) : option (list Line) :=
  read_lines (split_list (fun b => bool_decide (b = LF)) text).

(** What a sample says, line by line. *)
Definition with_le (labels : list (string * string)) (le : list byte) : list (string * string) := labels ++ [("le", string_of le)].

Definition sample_lines (s : Sample) : list Line :=
  let name := metric_name (sample_metric s) in
  let ls := sample_labels s in
  match reading_of s with
  | ReadingValue v => [(name, ls, string_of (number v))]
  | ReadingDistribution bs count sum =>
    map (fun '(b, at_) => (name +:+ "_bucket", with_le ls (number b), string_of (dec at_))) bs
    ++ [(name +:+ "_bucket", with_le ls (bytes_of "+Inf"), string_of (dec count));
        (name +:+ "_sum", ls, string_of (number sum));
        (name +:+ "_count", ls, string_of (dec count))]
  end.

(** Names of metrics and of labels are names of the format. *)
Definition is_name (s : string) : bool := negb (is_empty s) && forallb name_byte (bytes_of s).
Definition sample_named (s : Sample) : bool :=
  is_name (metric_name (sample_metric s)) && forallb (fun p => is_name (fst p)) (sample_labels s).

(** ** Reading back *)

Definition number_byte (b : byte) : bool := bool_decide (b <> LF) && bool_decide (b <> x22) && bool_decide (b <> x5c).

Lemma read_quoted_escaped bs acc r :
  read_quoted (concat (map escape_byte bs) ++ x22 :: r) acc = Some (rev acc ++ bs, r).
Proof.
  revert acc. induction bs as [|b bs IH]; intros acc; simpl; [by rewrite app_nil_r|].
  replace (rev acc ++ b :: bs) with (rev (b :: acc) ++ bs) by (simpl; by rewrite <- app_assoc).
  rewrite <- app_assoc. destruct b; apply IH.
Qed.

Lemma read_quoted_plain bs acc r :
  forallb number_byte bs = true -> read_quoted (bs ++ x22 :: r) acc = Some (rev acc ++ bs, r).
Proof.
  revert acc. induction bs as [|b bs IH]; intros acc; simpl; [by rewrite app_nil_r|].
  intros [Hb Hbs]%andb_prop.
  replace (rev acc ++ b :: bs) with (rev (b :: acc) ++ bs) by (simpl; by rewrite <- app_assoc).
  destruct b; first [done | by apply IH].
Qed.

(** What is written between quotes, and what a reader makes of it. *)
Definition quotes (text : list byte) (value : string) : Prop := forall r, read_quoted (text ++ x22 :: r) [] = Some (bytes_of value, r).

Lemma escaped_quotes v : quotes (escaped v) v.
Proof. intros r. unfold escaped. by rewrite read_quoted_escaped. Qed.

Lemma plain_quotes t : forallb number_byte t = true -> quotes t (string_of t).
Proof. intros Ht r. by rewrite read_quoted_plain, bytes_of_string_of. Qed.

(** Digits, signs and points. *)
Definition number_like (bs : list byte) : Prop := forallb number_byte bs = true.

Lemma number_like_app a b : number_like a -> number_like b -> number_like (a ++ b).
Proof. unfold number_like. rewrite forallb_app. by intros -> ->. Qed.

Lemma digits_number_like bs : Forall (fun b => is_digit b = true) bs -> number_like bs.
Proof.
  unfold number_like. induction 1 as [|b bs Hb _ IH]; [done|]. simpl. rewrite IH, andb_true_r. by destruct b.
Qed.

Lemma dec_number_like n : number_like (dec n).
Proof. apply digits_number_like, dec_all_digits. Qed.

Lemma zeroes_number_like n : number_like (zeroes n).
Proof. unfold zeroes. induction n; [done|exact IHn]. Qed.

Lemma part_number_like n bs : number_like bs -> number_like (firstn n bs) /\ number_like (skipn n bs).
Proof. unfold number_like. rewrite <- (firstn_skipn n bs) at 1. rewrite forallb_app. apply andb_prop. Qed.

Lemma place_point_number_like ds k : number_like ds -> number_like (place_point ds k).
Proof.
  intros Hd. unfold place_point. destruct (k <=? 0); [|destruct (_ <=? k)].
  - apply number_like_app; [done|]. apply number_like_app; [apply zeroes_number_like|done].
  - apply number_like_app; [done|apply zeroes_number_like].
  - apply number_like_app; [by apply part_number_like|]. apply number_like_app; [done|by apply part_number_like].
Qed.

Lemma display_number_like v : number_like (display_f64 v).
Proof.
  destruct v as [[]|[]| |s m e]; [done..|]. unfold display_f64. destruct (shortest 16 1 (Zpos m) e) as [d k].
  apply number_like_app; [by destruct s|]. apply place_point_number_like, dec_number_like.
Qed.

Lemma number_number_like v : number_like (number v).
Proof.
  unfold number, signed_dec. destruct (whole v) as [z|]; [|apply display_number_like].
  destruct (Z.abs z <? 10 ^ 15); [|apply display_number_like].
  destruct (z <? 0); [apply (number_like_app [x2d])|]; [done|apply dec_number_like..].
Qed.

Create HintDb numbers.
#[export] Hint Resolve dec_number_like number_number_like : numbers.

(** Pairs: a name, what is quoted and what it says. *)
Definition Quoted : Type := string * list byte * string.
Definition quoted_text (q : Quoted) : list byte := pair_text (fst (fst q)) (snd (fst q)).
Definition quoted_pair (q : Quoted) : string * string := (fst (fst q), snd q).
Definition quoted_ok (q : Quoted) : Prop := forallb name_byte (bytes_of (fst (fst q))) = true /\ quotes (snd (fst q)) (snd q).

Lemma split_name n r :
  forallb name_byte n = true -> split_once_list (fun b => bool_decide (b = x3d)) (n ++ x3d :: r) = Some (n, r).
Proof. induction n as [|b n IH]; simpl; [done|]. intros [Hb Hn]%andb_prop. rewrite (IH Hn). by destruct b. Qed.

Lemma read_pair_step f q b r :
  quoted_ok q ->
  read_pairs (S f) (quoted_text q ++ b :: r) =
  match b with
  | x2c => match read_pairs f r with Some (ps, r) => Some (quoted_pair q :: ps, r) | None => None end
  | x7d => Some ([quoted_pair q], r)
  | _ => None
  end.
Proof.
  destruct q as [[n t] v]. intros [Hn Hq]; simpl in Hn, Hq. unfold quoted_text, quoted_pair, pair_text; simpl.
  rewrite <- !app_assoc. simpl. rewrite split_name by done. rewrite <- app_assoc. simpl. rewrite Hq. rewrite !string_of_bytes_of. by destruct b.
Qed.

Lemma read_pairs_text f q qs r :
  Forall quoted_ok (q :: qs) -> (length qs < f)%nat ->
  read_pairs f (comma_separated (map quoted_text (q :: qs)) ++ x7d :: r) = Some (map quoted_pair (q :: qs), r).
Proof.
  revert f q. induction qs as [|q' qs IH]; intros f q Hq Hf; inversion Hq as [|?? Hq1 Hq2]; subst.
  - destruct f; [simpl in Hf; lia|]. change (comma_separated (map quoted_text [q])) with (quoted_text q). by rewrite read_pair_step.
  - destruct f as [|f]; [simpl in Hf; lia|].
    change (comma_separated (map quoted_text (q :: q' :: qs))) with (quoted_text q ++ [x2c] ++ comma_separated (map quoted_text (q' :: qs))).
    rewrite <- !app_assoc. cbn [app]. rewrite read_pair_step by done. rewrite IH; [done|done|simpl in Hf; lia].
Qed.

Lemma quoted_text_length q : (1 <= length (quoted_text q))%nat.
Proof. unfold quoted_text, pair_text. rewrite !length_app. cbn [length]. lia. Qed.

Lemma comma_separated_length qs : (length qs <= length (comma_separated (map quoted_text qs)))%nat.
Proof.
  induction qs as [|q [|q' qs] IH]; [done|apply quoted_text_length|].
  change (comma_separated (map quoted_text (q :: q' :: qs))) with (quoted_text q ++ [x2c] ++ comma_separated (map quoted_text (q' :: qs))).
  rewrite !length_app. cbn [length] in *. lia.
Qed.

Lemma read_name_name n b r : forallb name_byte n = true -> name_byte b = false -> read_name (n ++ b :: r) = (n, b :: r).
Proof.
  intros Hn Hb. induction n as [|c n IH]; cbn [app read_name forallb] in *; [by rewrite Hb|].
  apply andb_prop in Hn as [Hc Hn]. by rewrite Hc, (IH Hn).
Qed.

(** A line of a label set reads as its name, its pairs and its value. *)
Lemma read_line_labelled n q qs value :
  forallb name_byte (bytes_of n) = true -> Forall quoted_ok (q :: qs) ->
  read_line (series_line n ([x7b] ++ comma_separated (map quoted_text (q :: qs)) ++ [x7d]) value)
  = Some (n, map quoted_pair (q :: qs), string_of value).
Proof.
  intros Hn Hq. unfold series_line, read_line. cbn [app]. rewrite read_name_name by done. rewrite <- app_assoc. cbn [app].
  rewrite read_pairs_text; [by rewrite string_of_bytes_of|done|].
  rewrite length_app. pose proof (comma_separated_length (q :: qs)). simpl in *. lia.
Qed.

Lemma read_line_plain n value : forallb name_byte (bytes_of n) = true -> read_line (series_line n [] value) = Some (n, [], string_of value).
Proof. intros Hn. unfold series_line, read_line. cbn [app]. rewrite read_name_name by done. by rewrite string_of_bytes_of. Qed.

(** The pairs of a label set. *)
Definition quoted_labels (labels : list (string * string)) (le : option (list byte)) : list Quoted :=
  map (fun p => (fst p, escaped (snd p), snd p)) labels
  ++ match le with Some b => [("le", b, string_of b)] | None => [] end.

Definition line_labels (labels : list (string * string)) (le : option (list byte)) : list (string * string) :=
  match le with Some b => with_le labels b | None => labels end.

Lemma quoted_labels_text labels le :
  map quoted_text (quoted_labels labels le) =
  map (fun '(n, v) => pair_text n (escaped v)) labels ++ match le with Some b => [pair_text "le" b] | None => [] end.
Proof. unfold quoted_labels. rewrite map_app, map_map. f_equal; [apply map_ext; by intros [n v]|by destruct le]. Qed.

Lemma labels_text_quoted labels le :
  labels_text labels le =
  match quoted_labels labels le with [] => [] | qs => [x7b] ++ comma_separated (map quoted_text qs) ++ [x7d] end.
Proof.
  unfold labels_text. rewrite <- quoted_labels_text. destruct labels as [|p labels], le as [b|]; done.
Qed.

Lemma quoted_labels_pairs labels le : map quoted_pair (quoted_labels labels le) = line_labels labels le.
Proof.
  unfold quoted_labels, line_labels, with_le. rewrite map_app, map_map. destruct le; cbn [map]; rewrite ?app_nil_r; f_equal;
    (rewrite <- (map_id labels) at 2 || idtac); apply map_ext; by intros [n v].
Qed.

Lemma quoted_labels_ok labels le :
  forallb (fun p => is_name (fst p)) labels = true -> (forall b, le = Some b -> number_like b) -> Forall quoted_ok (quoted_labels labels le).
Proof.
  intros Hl Hle. unfold quoted_labels. apply Forall_app. split.
  - apply Forall_map, Forall_forall. intros [n v] Hp. rewrite forallb_forall in Hl. apply list_elem_of_In, Hl, andb_prop in Hp as [_ Hp].
    split; [exact Hp|apply escaped_quotes].
  - destruct le as [b|]; constructor; [|done]. split; [done|]. by apply plain_quotes, Hle.
Qed.

(** Every line of a series reads as what it says. *)
Lemma read_series n labels le value :
  forallb name_byte (bytes_of n) = true -> forallb (fun p => is_name (fst p)) labels = true -> (forall b, le = Some b -> number_like b) ->
  read_line (series_line n (labels_text labels le) value) = Some (n, line_labels labels le, string_of value).
Proof.
  intros Hn Hl Hle. rewrite labels_text_quoted, <- quoted_labels_pairs. pose proof (quoted_labels_ok _ _ Hl Hle) as Hq.
  destruct (quoted_labels labels le) as [|q qs]; [by apply read_line_plain|by apply read_line_labelled].
Qed.

(** ** Lines end where they should *)

Definition no_lf (bs : list byte) : Prop := Forall (fun b => bool_decide (b = LF) = false) bs.

Lemma no_lf_of (p : byte -> bool) bs : p LF = false -> forallb p bs = true -> no_lf bs.
Proof.
  intros Hp Hb. apply Forall_forall. intros b Hin. apply bool_decide_eq_false. intros ->.
  rewrite forallb_forall in Hb. apply list_elem_of_In, Hb in Hin. by rewrite Hp in Hin.
Qed.

Lemma no_lf_app a b : no_lf a -> no_lf b -> no_lf (a ++ b).
Proof. intros. by apply Forall_app. Qed.

Lemma number_no_lf bs : number_like bs -> no_lf bs.
Proof. by apply no_lf_of. Qed.

Lemma name_no_lf n : forallb name_byte (bytes_of n) = true -> no_lf (bytes_of n).
Proof. by apply no_lf_of. Qed.

Lemma escaped_no_lf v : no_lf (escaped v).
Proof.
  unfold escaped, no_lf. induction (bytes_of v) as [|b bs IH]; [constructor|]. simpl. apply no_lf_app; [|exact IH].
  destruct b; repeat constructor.
Qed.

Lemma is_name_bytes n : is_name n = true -> forallb name_byte (bytes_of n) = true.
Proof. by intros [_ H]%andb_prop. Qed.

Lemma comma_separated_no_lf l : Forall no_lf l -> no_lf (comma_separated l).
Proof.
  induction 1 as [|x l Hx Hl IH]; [constructor|]. destruct l as [|y l]; [exact Hx|].
  apply no_lf_app; [exact Hx|]. apply no_lf_app; [by repeat constructor|exact IH].
Qed.

Lemma quoted_text_no_lf n t : forallb name_byte (bytes_of n) = true -> no_lf t -> no_lf (pair_text n t).
Proof.
  intros Hn Ht. apply no_lf_app; [by apply name_no_lf|]. apply no_lf_app; [by repeat constructor|].
  apply no_lf_app; [done|by repeat constructor].
Qed.

Lemma labels_text_no_lf labels le :
  forallb (fun p => is_name (fst p)) labels = true -> (forall b, le = Some b -> number_like b) -> no_lf (labels_text labels le).
Proof.
  intros Hl Hle. assert (no_lf (comma_separated (map quoted_text (quoted_labels labels le)))) as Hc.
  { rewrite quoted_labels_text. apply comma_separated_no_lf, Forall_app. split.
    - apply Forall_map, Forall_forall. intros [n v] Hp. rewrite forallb_forall in Hl. apply list_elem_of_In, Hl, is_name_bytes in Hp.
      apply quoted_text_no_lf; [exact Hp|apply escaped_no_lf].
    - destruct le as [b|]; constructor; [|done]. apply quoted_text_no_lf; [done|]. by apply number_no_lf, Hle. }
  rewrite labels_text_quoted. destruct (quoted_labels labels le); [constructor|].
  apply no_lf_app; [by repeat constructor|]. apply no_lf_app; [exact Hc|by repeat constructor].
Qed.

(** A line that is read, and what it reads as. *)
Definition line_reads (l : list byte) (x : Line) : Prop := no_lf l /\ is_comment l = false /\ read_line l = Some x.
Definition comment (l : list byte) : Prop := no_lf l /\ is_comment l = true.

Lemma series_reads n labels le value :
  is_name n = true -> forallb (fun p => is_name (fst p)) labels = true -> (forall b, le = Some b -> number_like b) -> number_like value ->
  line_reads (series_line n (labels_text labels le) value) (n, line_labels labels le, string_of value).
Proof.
  intros Hn Hl Hle Hv. pose proof (is_name_bytes n Hn) as Hb. split_and!.
  - apply no_lf_app; [by apply name_no_lf|]. apply no_lf_app; [by apply labels_text_no_lf|].
    apply no_lf_app; [by repeat constructor|by apply number_no_lf].
  - unfold series_line. destruct n as [|c n]; [done|]. change (bytes_of (String c n)) with (Ascii.byte_of_ascii c :: bytes_of n) in *.
    cbn [app is_comment]. apply andb_prop in Hb as [Hc _]. by destruct (Ascii.byte_of_ascii c).
  - by apply read_series.
Qed.

Lemma is_name_suffix n sfx : is_name n = true -> forallb name_byte (bytes_of sfx) = true -> is_name (n +:+ sfx) = true.
Proof.
  unfold is_name. intros [Hn Hb]%andb_prop Hs. rewrite bytes_of_app, forallb_app, Hb, Hs. destruct n; done.
Qed.

Lemma reading_reads s : sample_named s = true -> Forall2 line_reads (reading_lines s) (sample_lines s).
Proof.
  intros [Hn Hl]%andb_prop. unfold reading_lines, sample_lines. destruct (reading_of s) as [v|bs count sum].
  - constructor; [|constructor]. apply (series_reads _ _ None); [done..|apply number_number_like].
  - apply Forall2_app.
    + apply Forall2_fmap_l, Forall2_fmap_r, Forall_Forall2_diag, Forall_forall. intros [b at_] _.
      apply (series_reads _ _ (Some _)); [by apply is_name_suffix|done| |apply dec_number_like]. intros ? [= <-]. apply number_number_like.
    + repeat constructor; try apply series_reads; try (by apply is_name_suffix); try done; auto with numbers.
      all: intros ? [= <-]; done.
Qed.

Lemma describe_comments m : is_name (metric_name m) = true -> Forall comment (describe_lines m).
Proof.
  intros Hn%is_name_bytes%name_no_lf. constructor; [|constructor; [|constructor]]; (split; [|done]); rewrite ?bytes_of_app.
  - repeat apply no_lf_app; try apply escaped_no_lf; try done; by repeat constructor.
  - repeat apply no_lf_app; try done; try (by repeat constructor). destruct (metric_kind m); by repeat constructor.
Qed.

Lemma split_terminated ls : Forall no_lf ls -> split_list (fun b => bool_decide (b = LF)) (terminated ls) = ls ++ [[]].
Proof.
  unfold terminated. induction 1 as [|l ls Hl _ IH]; [done|]. cbn [map concat]. rewrite <- app_assoc. cbn [app].
  rewrite split_list_app by done. by rewrite IH.
Qed.

Lemma read_lines_cons l ls :
  ls <> [] ->
  read_lines (l :: ls) = if is_comment l then read_lines ls
                         else match read_line l, read_lines ls with Some x, Some xs => Some (x :: xs) | _, _ => None end.
Proof. by destruct ls. Qed.

Lemma read_comments cs ls : ls <> [] -> Forall comment cs -> read_lines (cs ++ ls) = read_lines ls.
Proof.
  intros Hls. induction 1 as [|c cs [_ Hc] _ IH]; [done|]. cbn [app]. rewrite read_lines_cons, Hc; [done|by destruct cs].
Qed.

Lemma read_series_lines ss xs ls ys :
  ls <> [] -> read_lines ls = Some ys -> Forall2 line_reads ss xs -> read_lines (ss ++ ls) = Some (xs ++ ys).
Proof.
  intros Hls Hy. induction 1 as [|s x ss xs (_ & Hc & Hr) _ IH]; [done|]. cbn [app].
  rewrite read_lines_cons, Hc, Hr, IH; [done|by destruct ss].
Qed.

Lemma render_lines_no_lf described samples : forallb sample_named samples = true -> Forall no_lf (render_lines described samples).
Proof.
  revert described. induction samples as [|s samples IH]; intros described; simpl; [constructor|]. intros [Hs Hr]%andb_prop.
  apply Forall_app. split; [|apply Forall_app; split; [|by apply IH]].
  - case_bool_decide; [constructor|]. apply andb_prop in Hs as [Hn _]. eapply Forall_impl; [by apply describe_comments|]. by intros ? [].
  - eapply Forall2_Forall_l; [by apply reading_reads|]. apply Forall_true. by intros x l [].
Qed.

Lemma read_render_lines described samples :
  forallb sample_named samples = true ->
  read_lines (render_lines described samples ++ [[]]) = Some (concat (map sample_lines samples)).
Proof.
  revert described. induction samples as [|s samples IH]; intros described; simpl; [done|]. intros [Hs Hr]%andb_prop.
  rewrite <- !app_assoc. assert (Forall comment (if bool_decide (described = Some (metric_name (sample_metric s))) then [] else describe_lines (sample_metric s))) as Hc.
  { case_bool_decide; [constructor|]. apply andb_prop in Hs as [Hn _]. by apply describe_comments. }
  rewrite read_comments; [|by destruct (reading_lines s), (render_lines _ samples)|exact Hc].
  apply read_series_lines; [by destruct (render_lines _ samples)|by apply IH|by apply reading_reads].
Qed.

(** ** A metric is described once *)

Definition sample_name (s : Sample) : string := metric_name (sample_metric s).

(** The metrics [render] describes. *)
Fixpoint headings (described : option string) (samples : list Sample) : list Metric :=
  match samples with
  | [] => []
  | s :: r => (if bool_decide (described = Some (sample_name s)) then [] else [sample_metric s]) ++ headings (Some (sample_name s)) r
  end.

Lemma comments_of_render described samples :
  forallb sample_named samples = true ->
  List.filter is_comment (render_lines described samples) = concat (map describe_lines (headings described samples)).
Proof.
  revert described. induction samples as [|s samples IH]; intros described; simpl; [done|]. intros [Hs Hr]%andb_prop.
  rewrite !List.filter_app, (IH _ Hr), map_app, concat_app. f_equal; [unfold sample_name; by case_bool_decide|].
  assert (List.filter is_comment (reading_lines s) = []) as ->; [|done].
  induction (reading_reads s Hs) as [|l x ls xs (_ & Hc & _) _ IHl]; [done|]. simpl. by rewrite Hc.
Qed.

Lemma headings_named described samples s :
  s ∈ samples -> described = Some (sample_name s) \/ sample_name s ∈ map metric_name (headings described samples).
Proof.
  revert described. induction samples as [|x samples IH]; intros described; [set_solver|]. cbn [headings]. rewrite map_app, elem_of_app.
  intros [->|Hin]%elem_of_cons.
  - case_bool_decide; [by left|right; left; apply list_elem_of_singleton; done].
  - destruct (IH (Some (sample_name x)) Hin) as [[= Hx]|Hh]; [|by right; right].
    rewrite <- Hx. case_bool_decide; [by left|right; left; apply list_elem_of_singleton; done].
Qed.

Lemma headings_once n samples :
  Forall (fun s => String.compare n (sample_name s) <> Gt) samples -> StronglySorted (ascending String.compare sample_name) samples ->
  NoDup (map metric_name (headings (Some n) samples)) /\
  Forall (fun m => String.compare n (metric_name m) = Lt) (headings (Some n) samples).
Proof.
  revert n. induction samples as [|s samples IH]; intros n Hn Hs; cbn [headings]; [by repeat constructor|].
  apply Forall_cons in Hn as [Hns _]. apply StronglySorted_inv in Hs as [Hs Ha]. destruct (IH _ Ha Hs) as [Hnd Hlt].
  case_bool_decide as E; [injection E as ->; by split|]. assert (String.compare n (sample_name s) = Lt) as Hl.
  { destruct (String.compare n (sample_name s)) eqn:C; [|done|done]. apply cmp_eq in C. by subst. }
  split.
  - simpl. constructor; [|exact Hnd]. intros (m & Hm & Hin)%list_elem_of_fmap. rewrite Forall_forall in Hlt. apply Hlt in Hin.
    unfold sample_name in Hin. by rewrite <- Hm, cmp_refl in Hin.
  - constructor; [done|]. eapply Forall_impl; [exact Hlt|]. intros m. by apply cmp_lt_trans.
Qed.

Lemma headings_distinct samples :
  StronglySorted (ascending String.compare sample_name) samples -> NoDup (map metric_name (headings None samples)).
Proof.
  destruct samples as [|s samples]; intros Hs; [constructor|]. apply StronglySorted_inv in Hs as [Hs Ha].
  destruct (headings_once _ _ Ha Hs) as [Hnd Hlt]. cbn [headings]. rewrite bool_decide_false by done. simpl. constructor; [|exact Hnd].
  intros (m & Hm & Hin)%list_elem_of_fmap. rewrite Forall_forall in Hlt. apply Hlt in Hin. unfold sample_name in Hin. by rewrite <- Hm, cmp_refl in Hin.
Qed.

(** A snapshot is grouped by name. *)
Lemma snapshot_grouped r : StronglySorted (ascending String.compare sample_name) (snapshot r).
Proof.
  assert (StronglySorted (ascending cmp_series sample_key) (snapshot r)) as H by (apply sort_by_sorted, _).
  induction H as [|s l _ IH Ha]; constructor; [exact IH|]. eapply Forall_impl; [exact Ha|]. intros x.
  unfold ascending, cmp_series, cmp_pair, sample_key, sample_name. simpl. by destruct (String.compare _ _).
Qed.


(** A label whose value would close its quote and open a series of its own. *)
Definition forged : string := string_of (bytes_of "x" ++ [x22] ++ bytes_of " } 999" ++ [LF] ++ bytes_of "picx_requests_total{outcome=" ++ [x22] ++ bytes_of "forged").
Definition scraped : Registry :=
  registry_record served_requests [("outcome", forged)] f64_one (registry_record (histogram "picx_request_seconds" "How long." SECONDS) [] (decimal 3 1) registry_new).

