(* ===== verification/KeyService.v ===== *)
(** * The key service ([crates/pic-x-std/src/keys/service.rs])

    One loop advances every key ring of a deployment: the server's first, then the operations ring
    and the token ring of each realm. A ring is any key manager with a [maintain], which is given
    the time it runs at; what a pass does to the ring of a directory is in [KeyLifecycle]. The
    runtime's timer and the channel that stops the task are the events of a run. *)
From Stdlib Require Import SpecFloat.
From S2P Require Import Prelude Rust Text Order Errors Settings ExchangeMap Realms Keys Metrics App.
Local Open Scope Z_scope.
Local Open Scope rust_scope.

Section Service.
Context {K Sink Policy : Type} `{!KeyManager K}.
(** [KeyManager::maintain] at a time. *)
Context (maintain_ring : Z -> M K KeyError Maintenance).

Definition KEYS_ACTIVE : Metric :=
  gauge "picx_keys_active" "Whether an issuer has an active signing key (1) or not (0), by realm and role.".

Record MaintainedRing := mkServiceRing { ring_realm : option string; ring_role : string; ring_keys : K }.

(** [Ring::label]. *)
Definition ring_label (r : MaintainedRing) : string :=
  match ring_realm r with
  | Some name => "the " +:+ ring_role r +:+ " ring of the realm `" +:+ name +:+ "`"
  | None => "the " +:+ ring_role r +:+ " ring of the server"
  end.

(** What the service says. *)
Inductive Logged :=
| KeysMaintained (realm : option string) (role : string) (report : Maintenance)
| KeysRealmUnavailable (realm role : string) (error : Error)
| KeysReady (realm : option string) (role : string) (active : option string)
| KeysMaintenanceFailed (realm : option string) (role : string) (error : Error)
| KeysDisabled
| KeysStopped.

(** [KeyService::pass]. *)
Definition pass (now : Z) (r : MaintainedRing) : result (list Logged) Error * MaintainedRing :=
  let '(result, keys) := maintain_ring now (ring_keys r) in
  let r' := mkServiceRing (ring_realm r) (ring_role r) keys in
  match result with
  | Err e => (Err ["advancing the key lifecycle for " +:+ ring_label r; show_key_error e], r')
  | Ok report => (Ok (if maintenance_is_empty report then [] else [KeysMaintained (ring_realm r) (ring_role r) report]), r')
  end.

Definition gauge_labels (r : MaintainedRing) : list (string * string) := [("realm", default "server" (ring_realm r)); ("role", ring_role r)].
Definition is_active (r : MaintainedRing) : bool := is_ok (active_key_id (ring_keys r)).
Definition active_value (r : MaintainedRing) : f64 := if is_active r then f64_one else f64_zero.

(** [KeyService::record_active]. *)
Definition record_active (r : MaintainedRing) (metrics : option Registry) : option Registry :=
  metrics_record KEYS_ACTIVE (gauge_labels r) (active_value r) metrics.

(** The rings [start] gathers, from the server's manager and the realms in the order of [Realms::all]. *)
Definition gather_rings (server : option K) (realms : list (Realm K Sink Policy)) : list MaintainedRing :=
  match server with Some keys => [mkServiceRing None "operations" keys] | None => [] end
  ++ flat_map (fun realm =>
       match operations_keys realm with Some keys => [mkServiceRing (Some (realm_name realm)) "operations" keys] | None => [] end
       ++ match token_keys realm with Some keys => [mkServiceRing (Some (realm_name realm)) "tokens" keys] | None => [] end) realms.

(** The state of the service: its rings, the recorder, what was said, and whether the task runs. *)
Record State := mkState { rings : list MaintainedRing; recorder : option Registry; said : list Logged; running : bool }.

(** The startup pass over the rings: those before are done. *)
Fixpoint prepare_rings (now : Z) (todo : list MaintainedRing) (metrics : option Registry) (log : list Logged) :
  result unit Error * (list MaintainedRing * option Registry * list Logged) :=
  match todo with
  | [] => (Ok tt, ([], metrics, log))
  | r :: rest =>
    let '(outcome, r') := pass now r in
    match outcome, ring_realm r with
    | Err e, None => (Err ("the server key ring could not be prepared" :: e), (r' :: rest, metrics, log))
    | Err e, Some name =>
      let '(result, (done, metrics, log)) :=
        prepare_rings now rest (record_active r' metrics) (log ++ [KeysRealmUnavailable name (ring_role r) e]) in
      (result, (r' :: done, metrics, log))
    | Ok lines, realm =>
      let ready := KeysReady realm (ring_role r) (match active_key_id (ring_keys r') with Ok id => Some id | Err _ => None end) in
      let '(result, (done, metrics, log)) := prepare_rings now rest (record_active r' metrics) (log ++ lines ++ [ready]) in
      (result, (r' :: done, metrics, log))
    end
  end.

(** [Service::start]. *)
Definition start (now : Z) (server : option K) (realms : list (Realm K Sink Policy)) (metrics : option Registry) :
  result unit Error * State :=
  match gather_rings server realms with
  | [] => (Ok tt, mkState [] metrics [KeysDisabled] false)
  | gathered =>
    let '(result, (done, metrics, log)) := prepare_rings now gathered metrics [] in
    (result, mkState done metrics log (is_ok result))
  end.

(** One turn of the loop on a tick: every ring, each isolated. *)
Fixpoint maintain_rings (now : Z) (todo : list MaintainedRing) (metrics : option Registry) (log : list Logged) :
  list MaintainedRing * option Registry * list Logged :=
  match todo with
  | [] => ([], metrics, log)
  | r :: rest =>
    let '(outcome, r') := pass now r in
    let lines := match outcome with Ok lines => lines | Err e => [KeysMaintenanceFailed (ring_realm r) (ring_role r) e] end in
    let '(done, metrics, log) := maintain_rings now rest (record_active r' metrics) (log ++ lines) in
    (r' :: done, metrics, log)
  end.

(** What happens to a started service: the timer ticks, or the service is stopped. *)
Inductive Event := Tick (now : Z) | Stop.

Definition on_event (s : State) (e : Event) : State :=
  if negb (running s) then s
  else match e with
       | Tick now => let '(done, metrics, log) := maintain_rings now (rings s) (recorder s) (said s) in mkState done metrics log true
       | Stop => mkState (rings s) (recorder s) (said s ++ [KeysStopped]) false
       end.

Definition run_events (s : State) (events : list Event) : State := fold_left on_event events s.

(** ** Passes *)

Definition after_pass (now : Z) (r : MaintainedRing) : MaintainedRing :=
  mkServiceRing (ring_realm r) (ring_role r) (snd (maintain_ring now (ring_keys r))).

(** A ring after passes at several times. *)
Definition after_passes (times : list Z) (r : MaintainedRing) : MaintainedRing := fold_left (fun r now => after_pass now r) times r.

(** The ticks a service sees before it is stopped. *)
Fixpoint ticks (events : list Event) : list Z :=
  match events with
  | Tick now :: rest => now :: ticks rest
  | Stop :: _ | [] => []
  end.

Definition record_all_active (rs : list MaintainedRing) (metrics : option Registry) : option Registry :=
  fold_left (fun m r => record_active r m) rs metrics.

Lemma pass_ring now r : snd (pass now r) = after_pass now r.
Proof. unfold pass, after_pass. by destruct (maintain_ring now (ring_keys r)) as [[report|e] keys]. Qed.

Lemma pass_fails now r : is_ok (fst (pass now r)) = is_ok (fst (maintain_ring now (ring_keys r))).
Proof. unfold pass. by destruct (maintain_ring now (ring_keys r)) as [[report|e] keys]. Qed.

(** A tick passes over every ring, whatever the others do. *)
Lemma maintain_rings_all now todo metrics log :
  fst (maintain_rings now todo metrics log) = (map (after_pass now) todo, record_all_active (map (after_pass now) todo) metrics).
Proof.
  revert metrics log. induction todo as [|r rest IH]; intros metrics log; [done|]. cbn [maintain_rings map record_all_active fold_left].
  pose proof (pass_ring now r) as Hp. destruct (pass now r) as [outcome r']. simpl in Hp. subst r'.
  specialize (IH (record_active (after_pass now r) metrics)).
  match goal with |- context [maintain_rings now rest _ ?l] => specialize (IH l) end.
  destruct (maintain_rings now rest _ _) as [[done m] l]. simpl in *. by injection IH as -> ->.
Qed.

(** A startup in which no ring of the server's own fails. *)
Lemma prepare_rings_all now todo metrics log :
  Forall (fun r => ring_realm r = None -> is_ok (fst (maintain_ring now (ring_keys r))) = true) todo ->
  exists log', prepare_rings now todo metrics log =
    (Ok tt, (map (after_pass now) todo, record_all_active (map (after_pass now) todo) metrics, log')).
Proof.
  intros H. revert metrics log. induction H as [|r rest Hr _ IH]; intros metrics log; [by exists log|].
  cbn [prepare_rings map record_all_active fold_left]. rewrite <- pass_fails in Hr.
  pose proof (pass_ring now r) as Hp. destruct (pass now r) as [outcome r']. simpl in Hp, Hr. subst r'.
  destruct outcome as [lines|e]; [|destruct (ring_realm r) as [name|]; [|by specialize (Hr eq_refl)]].
  - edestruct (IH (record_active (after_pass now r) metrics)) as [log' ->]. by exists log'.
  - edestruct (IH (record_active (after_pass now r) metrics)) as [log' ->]. by exists log'.
Qed.

Lemma gather_rings_realms server realms :
  gather_rings server realms =
  match server with Some keys => [mkServiceRing None "operations" keys] | None => [] end ++ gather_rings None realms.
Proof. done. Qed.

Lemma realm_rings_named (realms : list (Realm K Sink Policy)) :
  Forall (fun r => exists realm, realm ∈ realms /\ ring_realm r = Some (realm_name realm)) (gather_rings None realms).
Proof.
  apply Forall_forall. intros r Hr. apply list_elem_of_In, in_flat_map in Hr as (realm & Hin & H). exists realm.
  split; [by apply list_elem_of_In|]. destruct (operations_keys realm), (token_keys realm); simpl in H; naive_solver.
Qed.

(** ** The gauge of every ring *)

Definition gauge_key (r : MaintainedRing) : Series := (metric_name KEYS_ACTIVE, keyed (gauge_labels r)).

Lemma gauge_key_is r : gauge_key r = ("picx_keys_active", gauge_labels r).
Proof. reflexivity. Qed.

Definition shows (reg : Registry) (r : MaintainedRing) : Prop := series reg !! gauge_key r = Some (KEYS_ACTIVE, HeldValue (active_value r)).

(** Nothing else was recorded where the gauge of a ring goes. *)
Definition gauge_ready (reg : Registry) (r : MaintainedRing) : Prop :=
  forall m h, series reg !! gauge_key r = Some (m, h) -> m = KEYS_ACTIVE /\ exists v, h = HeldValue v.

Definition missing (reg : Registry) (rs : list MaintainedRing) : nat :=
  length (List.filter (fun r => bool_decide (series reg !! gauge_key r = None)) rs).

(** Every gauge has its place: it is there already, or the registry has room for it. *)
Definition has_room (reg : Registry) (rs : list MaintainedRing) : Prop :=
  (forall r, r ∈ rs -> gauge_ready reg r) /\ Z.of_nat (size (series reg)) + Z.of_nat (missing reg rs) <= SERIES_CEILING.

Lemma active_value_finite r : is_finite (active_value r) = true.
Proof. unfold active_value. destruct (is_active r); vm_compute; reflexivity. Qed.

Lemma record_active_some reg r :
  gauge_ready reg r -> (series reg !! gauge_key r = None -> Z.of_nat (size (series reg)) < SERIES_CEILING) ->
  exists reg', record_active r (Some reg) = Some reg' /\
    series reg' = <[gauge_key r := (KEYS_ACTIVE, HeldValue (active_value r))]> (series reg).
Proof.
  intros Hg Hs. exists (registry_record KEYS_ACTIVE (gauge_labels r) (active_value r) reg). split; [reflexivity|].
  unfold registry_record. rewrite active_value_finite. cbn [negb]. cbv zeta. fold (gauge_key r).
  destruct (series reg !! gauge_key r) as [[m h]|] eqn:E.
  - by destruct (Hg m h E) as [-> [v ->]].
  - specialize (Hs eq_refl). by rewrite (proj2 (Z.leb_gt _ _)).
Qed.

Lemma missing_cons reg r rs : missing reg (r :: rs) = ((if bool_decide (series reg !! gauge_key r = None) then 1 else 0) + missing reg rs)%nat.
Proof. unfold missing. simpl. by case_bool_decide. Qed.

Lemma missing_insert reg reg' r rs x :
  gauge_key r ∉ map gauge_key rs -> series reg' = <[gauge_key r := x]> (series reg) -> missing reg' rs = missing reg rs.
Proof.
  intros Hr Hs. induction rs as [|r' rs IH]; [done|]. rewrite !missing_cons. apply not_elem_of_cons in Hr as [Hr Hrs].
  rewrite Hs, lookup_insert_ne by done. by rewrite IH.
Qed.

Lemma record_all_shows reg rs :
  NoDup (map gauge_key rs) -> has_room reg rs ->
  exists reg', record_all_active rs (Some reg) = Some reg' /\ (forall r, r ∈ rs -> shows reg' r) /\
    (forall k, k ∉ map gauge_key rs -> series reg' !! k = series reg !! k) /\ Z.of_nat (size (series reg')) <= SERIES_CEILING.
Proof.
  revert reg. induction rs as [|r rs IH]; intros reg Hn [Hg Hs].
  { exists reg. split_and!; [done|set_solver|done|unfold missing in Hs; simpl in Hs; lia]. }
  simpl in Hn. apply NoDup_cons in Hn as [Hr Hn]. rewrite missing_cons in Hs.
  destruct (record_active_some reg r) as (reg1 & H1 & Hs1).
  { apply Hg. left. } { intros E. rewrite E, bool_decide_true in Hs by done. lia. }
  destruct (IH reg1 Hn) as (reg' & H' & Hsh & Hk & Hsz).
  { split.
    - intros r' Hr' m h. rewrite Hs1, lookup_insert_ne; [by apply Hg; right|]. intros E. apply Hr. rewrite E. by apply list_elem_of_fmap_2.
    - rewrite (missing_insert reg reg1 r rs _ Hr Hs1), Hs1. destruct (series reg !! gauge_key r) as [y|] eqn:E.
      + rewrite map_size_insert_Some; [|by eexists]. rewrite bool_decide_false in Hs by done. lia.
      + rewrite map_size_insert_None by done. rewrite bool_decide_true in Hs by done. lia. }
  exists reg'. unfold record_all_active. cbn [fold_left]. rewrite H1. split_and!; [exact H'| | |exact Hsz].
  - intros r' [->|Hr']%elem_of_cons; [|by apply Hsh]. unfold shows. rewrite Hk, Hs1, lookup_insert_eq by done. done.
  - intros k Hkr. simpl in Hkr. apply not_elem_of_cons in Hkr as [Hk1 Hk2]. rewrite Hk, Hs1, lookup_insert_ne by done. done.
Qed.

(** A pass changes neither which ring it is nor where its gauge goes. *)
Lemma gauge_key_after now rs : map gauge_key (map (after_pass now) rs) = map gauge_key rs.
Proof. rewrite map_map. by apply map_ext. Qed.

Lemma has_room_keys reg rs rs' : map gauge_key rs = map gauge_key rs' -> has_room reg rs -> has_room reg rs'.
Proof.
  intros Hk [Hg Hs]. split.
  - intros r' Hr'. assert (gauge_key r' ∈ map gauge_key rs) as (r & Hr & Hin)%list_elem_of_fmap by (rewrite Hk; by apply list_elem_of_fmap_2).
    unfold gauge_ready. rewrite Hr. by apply Hg.
  - assert (missing reg rs' = missing reg rs) as ->; [|done]. clear Hg Hs. revert rs' Hk.
    induction rs as [|r rs IH]; intros [|r' rs']; try done. intros Hk. cbn [map] in Hk.
    assert (gauge_key r = gauge_key r' /\ map gauge_key rs = map gauge_key rs') as [Hr Hrs] by (split; congruence).
    by rewrite !missing_cons, (IH rs' Hrs), Hr.
Qed.

Lemma shows_has_room reg rs : (forall r, r ∈ rs -> shows reg r) -> Z.of_nat (size (series reg)) <= SERIES_CEILING -> has_room reg rs.
Proof.
  intros Hsh Hs. split.
  - intros r Hr m h E. rewrite (Hsh r Hr) in E. injection E as <- <-. eauto.
  - assert (missing reg rs = 0%nat) as ->; [|lia]. clear Hs. induction rs as [|r rs IH]; [done|]. rewrite missing_cons, IH by (intros; apply Hsh; by right).
    rewrite (Hsh r) by left. by rewrite bool_decide_false.
Qed.

Definition all_shown (s : State) : Prop :=
  exists reg, recorder s = Some reg /\ (forall r, r ∈ rings s -> shows reg r) /\ Z.of_nat (size (series reg)) <= SERIES_CEILING.

Lemma run_events_cons s e events : run_events s (e :: events) = run_events (on_event s e) events.
Proof. done. Qed.

Lemma stopped_runs s events : running s = false -> run_events s events = s.
Proof. intros Hs. induction events as [|e events IH]; [done|]. rewrite run_events_cons. unfold on_event. by rewrite Hs. Qed.

(** Every tick before the stop is a pass over every ring. *)
Lemma run_events_rings s events :
  running s = true -> rings (run_events s events) = map (after_passes (ticks events)) (rings s).
Proof.
  revert s. induction events as [|[now|] events IH]; intros s Hs; cbn [ticks].
  - symmetry. apply map_id.
  - rewrite run_events_cons. unfold on_event. rewrite Hs. cbn [negb].
    pose proof (maintain_rings_all now (rings s) (recorder s) (said s)) as Hm.
    destruct (maintain_rings now (rings s) (recorder s) (said s)) as [[done m] l]. injection Hm as -> ->.
    rewrite (IH (mkState _ _ _ true)) by done. cbn [rings]. by rewrite map_map.
  - rewrite run_events_cons. unfold on_event. rewrite Hs. cbn [negb]. rewrite stopped_runs by done. symmetry. apply map_id.
Qed.

Lemma run_events_shown s events :
  NoDup (map gauge_key (rings s)) -> all_shown s -> all_shown (run_events s events).
Proof.
  revert s. induction events as [|e events IH]; intros s Hn Hs; [done|]. rewrite run_events_cons.
  unfold on_event. destruct (negb (running s)); [by apply IH|]. destruct e as [now|]; [|by apply (IH (mkState _ _ _ _))].
  destruct Hs as (reg & Hr & Hsh & Hsz). pose proof (maintain_rings_all now (rings s) (recorder s) (said s)) as Hm.
  destruct (maintain_rings now (rings s) (recorder s) (said s)) as [[done m] l]. injection Hm as -> ->. rewrite Hr.
  assert (NoDup (map gauge_key (map (after_pass now) (rings s)))) as Hn' by (by rewrite gauge_key_after).
  apply (IH (mkState _ _ _ _)); [exact Hn'|].
  destruct (record_all_shows reg (map (after_pass now) (rings s)) Hn') as (reg' & -> & Hsh' & _ & Hsz').
  - apply (has_room_keys reg (rings s)); [by rewrite gauge_key_after|]. by apply shows_has_room.
  - by exists reg'.
Qed.

(** Realms of distinct names, none of them named as the server is, have gauges of their own. *)
Definition distinct_issuers (realms : list (Realm K Sink Policy)) : Prop :=
  NoDup (map realm_name realms) /\ "server" ∉ map realm_name realms.

Lemma realm_gauge_keys realms k :
  k ∈ map gauge_key (gather_rings None realms) -> exists realm role, realm ∈ realms /\ k = ("picx_keys_active", [("realm", realm_name realm); ("role", role)]).
Proof.
  intros (r & -> & Hr)%list_elem_of_fmap. pose proof (realm_rings_named realms) as H. rewrite Forall_forall in H.
  destruct (H r Hr) as (realm & Hin & Hn). exists realm, (ring_role r). split; [done|]. rewrite gauge_key_is. unfold gauge_labels. by rewrite Hn.
Qed.

Lemma gather_gauges_distinct server realms : distinct_issuers realms -> NoDup (map gauge_key (gather_rings server realms)).
Proof.
  intros [Hn Hs]. assert (NoDup (map gauge_key (gather_rings None realms))) as Hr.
  { clear Hs. induction realms as [|realm realms IH]; [constructor|]. simpl in Hn. apply NoDup_cons in Hn as [Hname Hn].
    assert (forall role, ("picx_keys_active", [("realm", realm_name realm); ("role", role)]) ∉ map gauge_key (gather_rings None realms)) as Hnew.
    { intros role (realm' & role' & Hin & [= Heq _])%realm_gauge_keys. apply Hname. rewrite Heq. by apply list_elem_of_fmap_2. }
    unfold gather_rings. cbn [flat_map app]. fold (flat_map (A := Realm K Sink Policy) (B := MaintainedRing)).
    change (flat_map _ realms) with (gather_rings None realms). rewrite !map_app. specialize (IH Hn).
    destruct (operations_keys realm), (token_keys realm); cbn [map app]; rewrite ?gauge_key_is; try exact IH.
    - constructor; [|by constructor; [apply Hnew|]]. rewrite elem_of_cons. intros [H|H]; [done|]. by apply (Hnew "operations").
    - constructor; [apply (Hnew "operations")|done].
    - constructor; [apply (Hnew "tokens")|done]. }
  rewrite gather_rings_realms, map_app. destruct server as [keys|]; [|exact Hr]. constructor; [|exact Hr].
  intros (realm & role & Hin & [= Heq _])%realm_gauge_keys. apply Hs. rewrite Heq. by apply list_elem_of_fmap_2.
Qed.

Definition server_ready (now : Z) (server : option K) : bool :=
  match server with Some keys => is_ok (fst (maintain_ring now keys)) | None => true end.

Lemma start_ready now server realms metrics :
  server_ready now server = true ->
  exists log running, start now server realms metrics =
    (Ok tt, mkState (map (after_pass now) (gather_rings server realms)) (record_all_active (map (after_pass now) (gather_rings server realms)) metrics) log running) /\
    (running = true \/ gather_rings server realms = []).
Proof.
  intros Hr. unfold start. destruct (gather_rings server realms) as [|r rs] eqn:E; [by exists [KeysDisabled], false; auto|]. rewrite <- E.
  destruct (prepare_rings_all now (gather_rings server realms) metrics []) as [log ->]; [|by exists log, true; auto].
  rewrite gather_rings_realms. apply Forall_app. split.
  - destruct server; repeat constructor. intros _. exact Hr.
  - eapply Forall_impl; [apply realm_rings_named|]. intros x (realm & _ & ->). done.
Qed.

End Service.

(** ** A realm named as the server is *)
Module Collision.
(** A ring that signs, or does not, and stays as it is. *)
#[local] Instance constant_manager : KeyManager bool :=
  {| public_keys := fun _ => Ok []; active_key_id := fun k : bool => if k then Ok "k1" else Err (KeyNotReady "none"); key_sign := fun _ => mfail (KeyNotReady "none") |}.
Definition keep (now : Z) : M bool KeyError Maintenance := mret maintenance_default.

Definition realm : Realm bool unit unit := realm_new "server" "/realms/server" None false (Some false) None tt None.
Definition started : State := snd (start (Sink := unit) (Policy := unit) keep 0 (Some true) [realm] (Some registry_new)).
Definition reading : option f64 :=
  recorder started ≫= fun reg =>
  match series reg !! ("picx_keys_active", [("realm", "server"); ("role", "operations")]) with
  | Some (_, HeldValue v) => Some v
  | _ => None
  end.

(** The server has a key that signs, and its gauge says it has none. *)
Example realm_named_server_hides_the_server :
  map is_active (rings started) = [true; false] /\ reading = Some f64_zero.
Proof. split; vm_compute; reflexivity. Qed.
End Collision.
