(* ===== verification/KeyFetch.v ===== *)
(** * Fetching a key set ([crates/pic-x-realm/src/key_fetch.rs])

    One request for one document. A URL is what the URL parser makes of it; what the network does is
    the answer: how long each stage takes, in milliseconds, and what it yields. *)
From S2P Require Import Prelude Rust Text Settings.
Local Open Scope Z_scope.
Local Open Scope rust_scope.

Definition MAX_KEY_SET_BYTES : Z := 256 * 1024.
Definition REQUEST_TIMEOUT : Z := 5000.

Record Uri := mkUri { scheme : option string; host : option string; port : option Z }.

(** ** Time *)

(** A stage: how long it takes, and what it yields. *)
Definition Stage (A : Type) : Type := Z * result A Error.

Definition then_stage {A B} (s : Stage A) (k : A -> Stage B) : Stage B :=
  match snd s with
  | Ok a => let '(t, r) := k a in (fst s + t, r)
  | Err e => (fst s, Err e)
  end.

Definition at_once {A} (r : result A Error) : Stage A := (0, r).
Definition stage_context {A} (text : string) (s : Stage A) : Stage A := (fst s, with_context text (snd s)).

(** [tokio::time::timeout]. *)
Definition timeout {A} (limit : Z) (s : Stage A) : Stage A :=
  if fst s <=? limit then s else (limit, bail "the key-set request timed out").

(** ** The trust store *)

Record TrustStore := mkTrustStore { native_certs : Z; store_errors : Z; parsable : Z }.

(** [build_tls_connector]. *)
Definition build_tls_connector (t : TrustStore) : result unit string :=
  if native_certs t =? 0 then
    Err ("the system trust store yielded no certificates (" +:+ string_of (dec (store_errors t)) +:+ " error(s) while reading it)")
  else if parsable t =? 0 then
    Err ("no usable root certificate in the system trust store (" +:+ string_of (dec (native_certs t - parsable t)) +:+ " ignored)")
  else Ok tt.

(** [HttpKeySetFetcher::tls]: the outcome of the first time is kept. *)
Definition Fetcher : Type := option (result unit string).
Definition tls (t : TrustStore) (f : Fetcher) : result unit Error * Fetcher :=
  let outcome := default (build_tls_connector t) f in
  (map_err (fun e => [e]) outcome, Some outcome).

(** ** A response *)

Inductive Frame := DataFrame (chunk : list byte) | OtherFrame | BrokenFrame (error : string).

(** Each stage of an exchange, and the frames of the body with the wait before each. *)
Record Network := mkNetwork {
  valid_server_name : bool;
  connecting : Stage unit;
  tls_handshake : Stage unit;
  http_handshake : Stage unit;
  request_built : result unit Error;
  answering : Stage Z;
  frames : list (Z * Frame);
  ending : Z }.

(** [collect_bounded]. *)
Fixpoint collect_frames (collected : list byte) (ending : Z) (fs : list (Z * Frame)) : Stage (list byte) :=
  match fs with
  | [] => (ending, Ok collected)
  | (wait, frame) :: rest =>
    then_stage (wait, match frame with
      | BrokenFrame e => bail ("reading the key set: " +:+ e)
      | DataFrame chunk =>
        if MAX_KEY_SET_BYTES <? Z.of_nat (length collected) + Z.of_nat (length chunk)
        then bail ("the key set is larger than " +:+ string_of (dec MAX_KEY_SET_BYTES) +:+ " bytes")
        else Ok (collected ++ chunk)
      | OtherFrame => Ok collected
      end) (fun collected => collect_frames collected ending rest)
  end.
Definition collect_bounded (n : Network) : Stage (list byte) := collect_frames [] (ending n) (frames n).

Definition is_success (status : Z) : bool := (200 <=? status) && (status <? 300).

Section Fetch.
(** [Uri::from_str], and how a status is written. *)
Context (parse_uri : string -> result Uri Error) (status_text : Z -> string).

Definition check_status (status : Z) : result unit Error :=
  if is_success status then Ok tt else bail ("the key-set endpoint answered " +:+ status_text status).

(** [get_http]. *)
Definition get_http (n : Network) : Stage (list byte) :=
  then_stage (at_once (with_context "building the key-set request" (request_built n))) (fun _ =>
  then_stage (timeout REQUEST_TIMEOUT (stage_context "requesting the key set" (answering n))) (fun status =>
  then_stage (at_once (check_status status)) (fun _ => collect_bounded n))).

(** [get_https]. *)
Definition get_https (t : TrustStore) (uri : Uri) (n : Network) (f : Fetcher) : Stage (list byte) * Fetcher :=
  match host uri with
  | None => (at_once (bail "the jwks_uri has no host"), f)
  | Some name =>
    if negb (valid_server_name n) then (at_once (bail ("`" +:+ name +:+ "` is not a valid TLS server name")), f)
    else
      let where_ := name +:+ ":" +:+ string_of (dec (default 443 (port uri))) in
      let connected := stage_context ("connecting to " +:+ where_) (connecting n) in
      (* the trust store is read once the connection is there, unless the deadline came first *)
      let '(trust, f') := if is_ok (snd connected) && (fst connected <=? REQUEST_TIMEOUT) then tls t f else (Ok tt, f) in
      (timeout REQUEST_TIMEOUT
        (then_stage connected (fun _ =>
         then_stage (at_once trust) (fun _ =>
         then_stage (stage_context "the TLS handshake with the attester failed" (tls_handshake n)) (fun _ =>
         then_stage (stage_context "the HTTP handshake with the attester failed" (http_handshake n)) (fun _ =>
         then_stage (at_once (with_context "building the key-set request" (request_built n))) (fun _ =>
         then_stage (stage_context "requesting the key set" (answering n)) (fun status =>
         then_stage (at_once (check_status status)) (fun _ => collect_bounded n)))))))), f')
  end.

(** [KeySetFetcher::fetch]. *)
Definition fetch (t : TrustStore) (jwks_uri : string) (n : Network) (f : Fetcher) : Stage (list byte) * Fetcher :=
  match with_context ("`" +:+ jwks_uri +:+ "` is not a URL") (parse_uri jwks_uri) with
  | Err e => (at_once (Err e), f)
  | Ok uri =>
    if bool_decide (scheme uri = Some "https") then get_https t uri n f
    else if bool_decide (scheme uri = Some "http") then (get_http n, f)
    else (at_once (bail ("a jwks_uri must be http or https, got `" +:+ default "no scheme" (scheme uri) +:+ "`")), f)
  end.

(** ** Bounds *)

Definition chunk_of (frame : Frame) : list byte := match frame with DataFrame chunk => chunk | _ => [] end.
Definition body_of (n : Network) : list byte := concat (map (fun f => chunk_of (snd f)) (frames n)).

Lemma then_stage_Ok {A B} (s : Stage A) (k : A -> Stage B) b :
  snd (then_stage s k) = Ok b -> exists a, snd s = Ok a /\ snd (k a) = Ok b.
Proof. unfold then_stage. destruct s as [t [a|e]]; simpl; [|done]. destruct (k a) as [t' r] eqn:E. simpl. intros ->. exists a. by rewrite E. Qed.

Lemma timeout_Ok {A} limit (s : Stage A) a : snd (timeout limit s) = Ok a -> snd s = Ok a.
Proof. unfold timeout. by destruct (fst s <=? limit). Qed.

Lemma collect_frames_Ok collected last fs body :
  Z.of_nat (length collected) <= MAX_KEY_SET_BYTES -> snd (collect_frames collected last fs) = Ok body ->
  body = collected ++ concat (map (fun f => chunk_of (snd f)) fs) /\ Z.of_nat (length body) <= MAX_KEY_SET_BYTES.
Proof.
  revert collected. induction fs as [|[wait frame] fs IH]; intros collected Hl; cbn [collect_frames map concat snd chunk_of].
  { simpl. intros [= <-]. by rewrite app_nil_r. }
  intros (c & Hc & H)%then_stage_Ok. simpl in Hc. destruct frame as [chunk| |e]; simpl.
  - destruct (MAX_KEY_SET_BYTES <? _) eqn:E; [done|]. injection Hc as <-. bool_to_prop. rewrite app_assoc. apply IH; [|done].
    rewrite length_app. lia.
  - injection Hc as <-. by apply IH.
  - done.
Qed.

Definition good_body (n : Network) (body : list byte) : Prop :=
  body = body_of n /\ Z.of_nat (length body) <= MAX_KEY_SET_BYTES /\ exists status, snd (answering n) = Ok status /\ is_success status = true.

Lemma answered_Ok n body :
  snd (then_stage (stage_context "requesting the key set" (answering n)) (fun status =>
       then_stage (at_once (check_status status)) (fun _ => collect_bounded n))) = Ok body -> good_body n body.
Proof.
  intros (status & Hs%with_context_Ok & ([] & Hc & H)%then_stage_Ok)%then_stage_Ok.
  simpl in Hc. unfold check_status in Hc. destruct (is_success status) eqn:E; [|done].
  apply collect_frames_Ok in H as [-> Hl]; [|done]. split_and!; [done..|]. by exists status.
Qed.

Lemma get_http_Ok n body : snd (get_http n) = Ok body -> good_body n body.
Proof.
  unfold get_http. intros ([] & _ & (status & Hs%timeout_Ok & H)%then_stage_Ok)%then_stage_Ok. apply answered_Ok.
  unfold then_stage at 1. rewrite Hs. by destruct (then_stage _ _) as [t r].
Qed.

Lemma get_https_Ok t uri n f body : snd (fst (get_https t uri n f)) = Ok body -> good_body n body.
Proof.
  unfold get_https. destruct (host uri) as [name|]; [|done]. destruct (negb (valid_server_name n)); [done|].
  match goal with |- context [let '(_, _) := ?x in _] => destruct x as [trust f'] end. cbn [fst].
  intros (? & _ & (? & _ & (? & _ & (? & _ & (? & _ & H)%then_stage_Ok)%then_stage_Ok)%then_stage_Ok)%then_stage_Ok)%timeout_Ok%then_stage_Ok.
  by apply answered_Ok.
Qed.

Lemma timeout_within {A} limit (s : Stage A) : fst (timeout limit s) <= limit.
Proof. unfold timeout. destruct (fst s <=? limit) eqn:E; bool_to_prop; simpl; lia. Qed.

(** The trust store is asked at most once in the life of a fetcher. *)
Lemma fetch_keeps_trust t uri n f o : f = Some o -> snd (fetch t uri n f) = Some o.
Proof.
  intros ->. unfold fetch. destruct (with_context _ _) as [u|e]; [|done]. repeat case_bool_decide; try done. unfold get_https.
  destruct (host u); [|done]. destruct (negb _); [done|]. by destruct (is_ok _ && _).
Qed.

(** a fetch is bounded. What a fetch returns is the whole body of one successful answer, no
    redirection followed, and at most 256 KiB; over TLS it takes no more than five seconds in all, and over
    plain HTTP no more than five seconds until the answer begins; a URL of another scheme is
    refused at once; and the outcome of reading the trust store is kept. *)
Theorem fetch_is_bounded t jwks_uri n f :
  (forall body, snd (fst (fetch t jwks_uri n f)) = Ok body -> good_body n body) /\
  (forall o, f = Some o -> snd (fetch t jwks_uri n f) = Some o) /\
  (forall uri, parse_uri jwks_uri = Ok uri ->
     (scheme uri = Some "https" -> fst (fst (fetch t jwks_uri n f)) <= REQUEST_TIMEOUT) /\
     (scheme uri = Some "http" -> REQUEST_TIMEOUT < fst (answering n) -> is_ok (request_built n) = true ->
        fst (fetch t jwks_uri n f) = (REQUEST_TIMEOUT, bail "the key-set request timed out")) /\
     (scheme uri <> Some "https" -> scheme uri <> Some "http" -> fst (fst (fetch t jwks_uri n f)) = 0 /\ is_ok (snd (fst (fetch t jwks_uri n f))) = false)).
Proof.
  split_and!; [|intros; by apply fetch_keeps_trust|].
  - intros body. unfold fetch. destruct (with_context _ _) as [u|e]; [|done]. repeat case_bool_decide; [apply get_https_Ok|apply get_http_Ok|done].
  - intros uri Hu. unfold fetch. rewrite Hu. simpl. split_and!.
    + intros Hs. rewrite bool_decide_true by done. unfold get_https. destruct (host uri); [|done]. destruct (negb _); [done|].
      match goal with |- context [let '(_, _) := ?x in _] => destruct x as [trust f'] end. apply timeout_within.
    + intros Hs Ha Hb. rewrite bool_decide_false, bool_decide_true by congruence. simpl. unfold get_http.
      destruct (request_built n) as [[]|e]; [|done]. unfold then_stage, at_once, timeout. simpl. by rewrite (proj2 (Z.leb_gt _ _)).
    + intros H1 H2. by rewrite !bool_decide_false.
Qed.
End Fetch.

(** Over plain HTTP the deadline ends with the head of the answer: a body may take a day. *)
Example plain_body_has_no_deadline :
  let uri := mkUri (Some "http") (Some "idp.example") None in
  let slow := mkNetwork true (0, Ok tt) (0, Ok tt) (0, Ok tt) (Ok tt) (10, Ok 200) [(86400000, DataFrame (bytes_of "{}"))] 0 in
  fst (fetch (fun _ => Ok uri) (fun _ => "200 OK") (mkTrustStore 1 0 1) "http://idp.example/keys" slow None) = (86400010, Ok (bytes_of "{}")) /\
  fst (fetch (fun _ => Ok (mkUri (Some "https") (Some "idp.example") None)) (fun _ => "200 OK") (mkTrustStore 1 0 1) "https://idp.example/keys" slow None)
  = (REQUEST_TIMEOUT, Err ["the key-set request timed out"]).
Proof. split; vm_compute; reflexivity. Qed.
