(* ===== verification/Documents.v ===== *)
(** * The public surface: its documents and its routes
    ([crates/pic-x-realm/src/routes.rs], [WellKnownService::router] of [crates/pic-x-realm/src/service.rs])

    What each route answers and where it is mounted. A response is its status, its cache directive
    and its document; the renderer of JSON is a package. The page of a landing is the values the code
    fills its template with; [Landing] is the filling. The constants of the protocol's own crate are parameters. *)
From S2P Require Import Prelude Rust Text Order Errors Settings KeyCache ExchangeMap Realms Keys Por Config ConfigRules ConfigProperties App.
Local Open Scope Z_scope.
Local Open Scope rust_scope.

(** ** Escaping *)

(** [str::replace] of one character. *)
Definition replace_byte (c : byte) (with_ : string) (bs : list byte) : list byte :=
  concat (map (fun b => if bool_decide (b = c) then bytes_of with_ else [b]) bs).

(** [escape]. *)
Definition escape (value : string) : string :=
  string_of (replace_byte x27 "&#39;" (replace_byte x22 "&quot;" (replace_byte x3e "&gt;" (replace_byte x3c "&lt;"
    (replace_byte x26 "&amp;" (bytes_of value)))))).

(** The reference: one pass over the characters. *)
Definition escape_char (b : byte) : list byte :=
  match b with
  | x26 => bytes_of "&amp;"
  | x3c => bytes_of "&lt;"
  | x3e => bytes_of "&gt;"
  | x22 => bytes_of "&quot;"
  | x27 => bytes_of "&#39;"
  | _ => [b]
  end.

(** What a browser reads back. *)
Fixpoint unescape (fuel : nat) (bs : list byte) : list byte :=
  match fuel, bs with
  | S f, x26 :: r =>
    let entity name c k := match strip_prefix_list (bytes_of name) r with Some r => c :: unescape f r | None => k end in
    entity "amp;" x26 (entity "lt;" x3c (entity "gt;" x3e (entity "quot;" x22 (entity "#39;" x27 (x26 :: unescape f r)))))
  | S f, b :: r => b :: unescape f r
  | _, _ => []
  end.

Lemma replace_byte_app c w a b : replace_byte c w (a ++ b) = replace_byte c w a ++ replace_byte c w b.
Proof. unfold replace_byte. by rewrite map_app, concat_app. Qed.

(** Replacing one character after another is replacing each by its own entity. *)
Lemma escape_is_one_pass value : escape value = string_of (concat (map escape_char (bytes_of value))).
Proof.
  unfold escape. f_equal. induction (bytes_of value) as [|b bs IH]; [done|]. cbn [map concat]. rewrite <- IH.
  change (b :: bs) with ([b] ++ bs). rewrite !replace_byte_app. f_equal. destruct b; reflexivity.
Qed.

Lemma escape_char_length b : (1 <= length (escape_char b))%nat.
Proof. destruct b; simpl; lia. Qed.

Lemma unescape_escape_char f b r : unescape (S f) (escape_char b ++ r) = b :: unescape f r.
Proof. destruct b; reflexivity. Qed.

Lemma unescape_concat f bs : (length (concat (map escape_char bs)) <= f)%nat -> unescape f (concat (map escape_char bs)) = bs.
Proof.
  revert f. induction bs as [|b bs IH]; intros f Hf; [by destruct f|]. cbn [map concat] in *. rewrite length_app in Hf.
  pose proof (escape_char_length b). destruct f as [|f]; [lia|]. rewrite unescape_escape_char, IH; [done|lia].
Qed.

(** The characters that open a tag, close it or end a quoted attribute. *)
Definition is_markup (b : byte) : bool := match b with x3c | x3e | x22 | x27 => true | _ => false end.

Lemma escaped_no_markup bs : Forall (fun b => is_markup b = false) (concat (map escape_char bs)).
Proof.
  induction bs as [|b bs IH]; [constructor|]. cbn [map concat]. apply Forall_app. split; [|exact IH].
  destruct b; repeat constructor.
Qed.

(** ** Documents *)

Record CatalogRealm := mkCatalogRealm {
  cat_name : string; cat_issuer : option string; configuration_url : string; cat_jwks_uri : string; cat_mount_path : string }.
Record ProfileEntry := mkProfileEntry { profile : string; catalog_realms : list CatalogRealm }.
Record Server := mkServer {
  server_product : string; server_version : string; profiles : list ProfileEntry; server_logo : string; server_tagline : string }.

Record RealmMeta := mkRealmMeta {
  meta_issuer : option string; token_endpoint : string; meta_jwks_uri : string; signing_algorithm : string; workload_algorithms : list string }.

Record AttestationIssuer := mkAttestationIssuer {
  issuer_id : string; issuer_issuer : string; issuer_jwks_uri : string; proof_types_supported : list string; formats_supported : list string }.

Record RealmLanding := mkRealmLanding {
  landing_product : string; landing_version : string; landing_tagline : string; landing_logo : string; landing_name : string;
  landing_mount_path : string }.

Record ProductIdentity := mkIdentity { product_name : string; tagline : string; logo : string }.

(** What the page of a landing is filled with. *)
Record Link := mkLink { link_label : string; href : string }.
Record Page := mkPage { page_title : string; page_logo : string; page_name : string; page_subtitle : string; page_foot : string; links : list Link }.

(** The constants of the [pic] crate the documents name. *)
Record PicConstants := mkPicConstants {
  TOKEN_TYPE_PIC : string; FORMAT_PIC_PCA_COSE : string; PROPOSAL_TYPE_CONTINUITY_INITIAL : string; FORMAT_PIC_TRANSITION_COSE : string;
  FORMAT_PIC_CONTINUITY_COSE : string; FORMAT_PIC_TOKEN_JWT : string }.

Definition PIC_PROFILE : string := "https://pic-protocol.org/profiles/0.2".
Definition KEY_SET_MAX_AGE : string := "public, max-age=300".

(** A block of capabilities: the formats, the algorithms and what else it names. *)
Record Capability := mkCapability { cap_formats : list string; cap_algorithms : list string; cap_more : list (string * list string) }.

Record Discovery := mkDiscovery {
  disc_issuer : option string; disc_profile : string; disc_token_endpoint : string; disc_jwks_uri : string; attestations_endpoint : string;
  grant_types_supported : list string; subject_token_types_supported : list string; issued_token_types_supported : list string;
  artifact_hash_alg_values_supported : list string; token_endpoint_auth_methods_supported : list string;
  token_exchange_parameters_supported : list string;
  pic_context_of_authority : Capability; proposal_parameter : string; proposal_types_supported : list string;
  pic_continuity_transition : Capability; pic_continuity : Capability; pic_token_type : string; pic_token : Capability }.

(** [version_label]. *)
Definition version_label (version : string) : string := if is_empty version then "" else "v" +:+ version.

(** The dash and the quotation marks of the pages. *)
Definition EM_DASH : string := of_chars [8212].
Definition quoted_name (name : string) : string := of_chars [8220] +:+ name +:+ of_chars [8221].
Definition MIDDLE_DOT : string := of_chars [183].

Definition server_configuration_link : Link := mkLink "Server configuration" "/.well-known/server-configuration".

(** [root]. *)
Definition root (s : Server) : Page :=
  mkPage (server_product s) (server_logo s) (server_product s) (version_label (server_version s)) (server_tagline s)
    (server_configuration_link ::
     flat_map (fun p => map (fun r => mkLink ("Realm " +:+ EM_DASH +:+ " " +:+ cat_name r) (cat_mount_path r +:+ "/")) (catalog_realms p)) (profiles s)).

(** [realm_root]. *)
Definition realm_root (r : RealmLanding) : Page :=
  mkPage (landing_product r +:+ " " +:+ EM_DASH +:+ " " +:+ landing_name r) (landing_logo r) (landing_product r)
    (if is_empty (landing_version r) then "realm " +:+ quoted_name (landing_name r)
     else "realm " +:+ quoted_name (landing_name r) +:+ " " +:+ MIDDLE_DOT +:+ " v" +:+ landing_version r)
    (landing_tagline r)
    [server_configuration_link; mkLink "Discovery" (landing_mount_path r +:+ "/.well-known/pic-x-configuration");
     mkLink "Keys" (landing_mount_path r +:+ "/keys"); mkLink "Attestations" (landing_mount_path r +:+ "/attestations")].

(** [endpoint_like]. *)
Definition endpoint_like (token leaf : string) : string :=
  match strip_suffix "/token" token with Some base => base +:+ leaf | None => leaf end.

(** The union of [realm_configuration], in order. *)
Definition either (realm_signed workload : list string) : list string :=
  fold_left (fun both a => if bool_decide (a ∈ both) then both else both ++ [a]) workload realm_signed.

(** [realm_configuration]. *)
Definition realm_configuration (pic : PicConstants) (m : RealmMeta) : Discovery :=
  let realm_signed := [signing_algorithm m] in
  let both := either realm_signed (workload_algorithms m) in
  mkDiscovery (meta_issuer m) PIC_PROFILE (token_endpoint m) (meta_jwks_uri m) (endpoint_like (token_endpoint m) "/attestations")
    ["urn:ietf:params:oauth:grant-type:token-exchange"] ["urn:ietf:params:oauth:token-type:access_token"; TOKEN_TYPE_PIC pic] [TOKEN_TYPE_PIC pic]
    ["sha-256"] ["none"] ["continuity_proposal"]
    (mkCapability [FORMAT_PIC_PCA_COSE pic] realm_signed [])
    "continuity_proposal" [PROPOSAL_TYPE_CONTINUITY_INITIAL pic]
    (mkCapability [FORMAT_PIC_TRANSITION_COSE pic] (workload_algorithms m) [])
    (mkCapability [FORMAT_PIC_CONTINUITY_COSE pic] both
       [("continuity_modes_supported", ["centralized-continuity"]); ("continuity_evidence_levels_supported", ["artifact-linked"])])
    (TOKEN_TYPE_PIC pic) (mkCapability [FORMAT_PIC_TOKEN_JWT pic] both []).

(** The answer of the key-set route: a status, the cache directive and the keys or an error. *)
Inductive KeySetAnswer := Published (cache_control : string) (keys : list Jwk) | Unavailable (error : string).

(** [published] and [jwks]. *)
Definition published_keys (keys : list Jwk) : KeySetAnswer := Published KEY_SET_MAX_AGE keys.
Definition jwks {K} `{!KeyManager K} (ring : option K) : KeySetAnswer :=
  match ring with
  | None => published_keys []
  | Some keys =>
    match public_keys keys with
    | Ok ks => published_keys ks
    | Err _ => Unavailable "the key set is not available"
    end
  end.
Definition answer_status (a : KeySetAnswer) : Z := match a with Published _ _ => 200 | Unavailable _ => 503 end.

(** ** Routes *)

Section Surface.
Context {K Sink Policy : Type}.
Context (pic : PicConstants).

Inductive Handler :=
| HLanding (page : Page)
| HServerConfiguration (server : Server)
| HRealmConfiguration (document : Discovery)
| HAttestations (issuers : list AttestationIssuer)
| HKeys (ring : option K)
| HToken (realm : Realm K Sink Policy).

Record Route := mkRoute { route_method : string; route_path : string; handler : Handler }.
Definition route_key (r : Route) : string * string := (route_method r, route_path r).

(** [Router::nest]: the nested root answers the prefix itself. *)
Definition nested (prefix path : string) : string := if bool_decide (path = "/") then prefix else prefix +:+ path.
Definition nest (prefix : string) (rs : list Route) : list Route :=
  map (fun r => mkRoute (route_method r) (nested prefix (route_path r)) (handler r)) rs.

Definition get_route (path : string) (h : Handler) : Route := mkRoute "GET" path h.

Definition catalog_of (r : Realm K Sink Policy) : CatalogRealm :=
  mkCatalogRealm (realm_name r) (realm_issuer r) (realm_url r "/.well-known/pic-x-configuration") (realm_url r "/keys") (realm_mount_path r).

Definition server_document (id : ProductIdentity) (version : string) (realms : list (Realm K Sink Policy)) : Server :=
  mkServer (product_name id) version [mkProfileEntry PIC_PROFILE (map catalog_of (List.filter realm_listed realms))] (logo id) (tagline id).

Definition meta_of (r : Realm K Sink Policy) : RealmMeta :=
  mkRealmMeta (realm_issuer r) (realm_url r "/token") (realm_url r "/keys") (realm_token_signing_algorithm r) WORKLOAD_COSE_ALGORITHMS.

Definition attestations_of (r : Realm K Sink Policy) : list AttestationIssuer :=
  map (fun a => mkAttestationIssuer (attester_id a) (attester_issuer a) (KeyCache.jwks_uri a) (proof_types a) (formats a)) (realm_trusted_attesters r).

Definition landing_of (id : ProductIdentity) (version : string) (r : Realm K Sink Policy) : RealmLanding :=
  mkRealmLanding (product_name id) version (tagline id) (logo id) (realm_name r) (realm_mount_path r).

(** The issuer surface of one realm, and its landing with a slash after it. *)
Definition realm_routes (id : ProductIdentity) (version : string) (r : Realm K Sink Policy) : list Route :=
  let landing := realm_root (landing_of id version r) in
  nest (realm_mount_path r)
    [get_route "/" (HLanding landing);
     get_route "/.well-known/pic-x-configuration" (HRealmConfiguration (realm_configuration pic (meta_of r)));
     get_route "/attestations" (HAttestations (attestations_of r));
     get_route "/keys" (HKeys (token_keys r));
     mkRoute "POST" "/token" (HToken r)]
  ++ [get_route (realm_mount_path r +:+ "/") (HLanding landing)].

(** [WellKnownService::router], for a surface to which no build adds routes or layers. *)
Definition router (id : ProductIdentity) (c : Config) (realms : list (Realm K Sink Policy)) : list Route :=
  let version := if cfg_disclose_build c then cfg_version c else "" in
  let server := server_document id version realms in
  let routes :=
    [get_route "/" (HLanding (root server)); get_route "/.well-known/server-configuration" (HServerConfiguration server)]
    ++ flat_map (realm_routes id version) realms in
  if is_empty (cfg_public_path_prefix c) then routes else nest (cfg_public_path_prefix c) routes.

(** The route a request finds. *)
Definition find_route (rs : list Route) (method path : string) : option Handler :=
  handler <$> List.find (fun r => bool_decide (route_key r = (method, path))) rs.

Lemma find_route_Some rs method path h :
  NoDup (map route_key rs) -> find_route rs method path = Some h <-> mkRoute method path h ∈ rs.
Proof.
  intros Hn. unfold find_route. induction rs as [|[m p x] rs IH]; [split; [done|by intros ?%elem_of_nil]|].
  simpl in Hn. apply NoDup_cons in Hn as [Hk Hn]. specialize (IH Hn). cbn [List.find]. rewrite elem_of_cons.
  case_bool_decide as E; unfold route_key in E; simpl in E.
  - injection E as -> ->. simpl. split; [intros [= ->]; by left|]. intros [[= ->]|Hin]; [done|]. destruct Hk.
    apply list_elem_of_fmap. by exists (mkRoute method path h).
  - rewrite IH. split; [by right|]. intros [[= -> -> ->]|]; done.
Qed.

(** ** No two routes are the same *)

Definition under_realm (p : string) : Prop := exists n r, p = "/realms/" +:+ n +:+ r.

(** What follows the name of a realm in its routes. *)
Definition REALM_SUFFIXES : list (string * string) :=
  [("GET", ""); ("GET", "/.well-known/pic-x-configuration"); ("GET", "/attestations"); ("GET", "/keys"); ("POST", "/token"); ("GET", "/")].

Lemma string_app_nil_r s : s +:+ "" = s.
Proof. apply (inj bytes_of). rewrite bytes_of_app. apply app_nil_r. Qed.

Lemma realm_routes_keys id version r :
  map route_key (realm_routes id version r) = map (fun '(m, s) => (m, realm_mount_path r +:+ s)) REALM_SUFFIXES.
Proof. unfold realm_routes, nest, route_key, REALM_SUFFIXES. simpl. by rewrite string_app_nil_r. Qed.

Definition is_suffix (s : string) : Prop := s = "" \/ exists r, s = "/" +:+ r.

Lemma realm_suffixes : Forall (fun p => is_suffix (snd p)) REALM_SUFFIXES.
Proof. unfold REALM_SUFFIXES, is_suffix. repeat (apply Forall_cons; split; [first [by left | right; by eexists]|]). by apply Forall_nil. Qed.

Lemma slash_in n r : x2f ∈ bytes_of (n +:+ "/" +:+ r).
Proof. rewrite !bytes_of_app, !elem_of_app. right. left. by apply list_elem_of_singleton. Qed.

(** The name of a realm is read off a path. *)
Lemma named_suffix_inj n n' s s' :
  shaped n = true -> shaped n' = true -> is_suffix s -> is_suffix s' -> n +:+ s = n' +:+ s' -> n = n' /\ s = s'.
Proof.
  intros Hn Hn' Hs Hs' H. assert (n = n') as <-; [|split; [done|by eapply app_string_inj_r]].
  destruct Hs as [->|[r ->]], Hs' as [->|[r' ->]]; rewrite ?string_app_nil_r in H.
  - done.
  - exfalso. subst n. apply shaped_component in Hn as (_ & Hs & _). by apply Hs, slash_in.
  - exfalso. subst n'. apply shaped_component in Hn' as (_ & Hs & _). by apply Hs, slash_in.
  - by eapply component_inj.
Qed.

(** Realms as a validated configuration has them. *)
Definition well_mounted (realms : list (Realm K Sink Policy)) : Prop :=
  NoDup (map realm_name realms) /\
  Forall (fun r => shaped (realm_name r) = true /\ realm_mount_path r = "/realms/" +:+ realm_name r) realms.

Lemma realm_route_path id version r route :
  realm_mount_path r = "/realms/" +:+ realm_name r -> route ∈ realm_routes id version r ->
  exists m s, (m, s) ∈ REALM_SUFFIXES /\ route_key route = (m, "/realms/" +:+ (realm_name r +:+ s)).
Proof.
  intros Hm Hr. assert (route_key route ∈ map route_key (realm_routes id version r)) as H by (by apply list_elem_of_fmap_2).
  rewrite realm_routes_keys in H. apply list_elem_of_fmap in H as ([m s] & Hk & Hin). exists m, s. split; [done|].
  by rewrite Hk, Hm.
Qed.

Lemma NoDup_flat_map {A B} (f : A -> list B) l :
  NoDup l -> (forall a, a ∈ l -> NoDup (f a)) -> (forall a a' b, a ∈ l -> a' ∈ l -> b ∈ f a -> b ∈ f a' -> a = a') -> NoDup (flat_map f l).
Proof.
  induction l as [|a l IH]; intros Hl Hf Hd; [constructor|]. apply NoDup_cons in Hl as [Ha Hl]. cbn [flat_map]. apply NoDup_app. split_and!.
  - apply Hf. left.
  - intros b Hb (a' & Hin & Hb')%list_elem_of_In%in_flat_map. apply list_elem_of_In in Hin, Hb'.
    assert (a = a') as -> by (eapply Hd; [left|by right|exact Hb|exact Hb']). done.
  - apply IH; [done|intros; apply Hf; by right|]. intros x y b Hx Hy. apply Hd; by right.
Qed.

Lemma NoDup_map_inv {A B} (f : A -> B) l : NoDup (map f l) -> NoDup l.
Proof. induction l as [|a l IH]; simpl; [constructor|]. intros [Ha Hl]%NoDup_cons. constructor; [|by apply IH]. intros H. apply Ha. by apply list_elem_of_fmap_2. Qed.

Lemma NoDup_map_eq {A B} (f : A -> B) l a b : NoDup (map f l) -> a ∈ l -> b ∈ l -> f a = f b -> a = b.
Proof.
  induction l as [|x l IH]; [by intros _ ?%elem_of_nil|]. simpl. intros [Hx Hl]%NoDup_cons [->|Ha]%elem_of_cons [->|Hb]%elem_of_cons E; [done| | |by apply IH].
  - destruct Hx. rewrite E. by apply list_elem_of_fmap_2.
  - destruct Hx. rewrite <- E. by apply list_elem_of_fmap_2.
Qed.

Lemma realm_suffixes_distinct : NoDup REALM_SUFFIXES.
Proof. apply (bool_decide_unpack _). vm_compute. exact I. Qed.

Lemma realm_routes_distinct id version realms : well_mounted realms -> NoDup (map route_key (flat_map (realm_routes id version) realms)).
Proof.
  intros [Hn Hw]. rewrite Forall_forall in Hw.
  assert (map route_key (flat_map (realm_routes id version) realms) = flat_map (fun r => map route_key (realm_routes id version r)) realms) as ->.
  { clear. induction realms as [|r realms IH]; [done|]. cbn [flat_map]. by rewrite map_app, IH. }
  apply NoDup_flat_map; [by eapply NoDup_map_inv| |].
  - intros r Hr. rewrite realm_routes_keys. apply NoDup_fmap_2_strong; [|apply realm_suffixes_distinct].
    intros [m s] [m' s'] _ _ [= -> Hs]. f_equal. by eapply app_string_inj_r.
  - intros r r' k Hr Hr' (x & -> & Hx)%list_elem_of_fmap (x' & Hk & Hx')%list_elem_of_fmap.
    destruct (Hw r Hr) as [Hs Hm], (Hw r' Hr') as [Hs' Hm'].
    destruct (realm_route_path _ _ _ _ Hm Hx) as (m & s & Hin & E), (realm_route_path _ _ _ _ Hm' Hx') as (m' & s' & Hin' & E').
    rewrite E, E' in Hk. injection Hk as -> Hk%app_string_inj_r. pose proof realm_suffixes as Hsf. rewrite Forall_forall in Hsf.
    apply named_suffix_inj in Hk as [Hname _]; [|done|done|exact (Hsf _ Hin)|exact (Hsf _ Hin')].
    by apply (NoDup_map_eq realm_name realms).
Qed.

Lemma strip_suffix_suffixed p s : strip_suffix p (s +:+ p) = Some s.
Proof.
  unfold strip_suffix. rewrite bytes_of_app, rev_app_distr.
  assert (strip_prefix_list (rev (bytes_of p)) (rev (bytes_of p) ++ rev (bytes_of s)) = Some (rev (bytes_of s))) as -> by (by apply strip_prefix_list_Some).
  simpl. by rewrite rev_involutive, string_of_bytes_of.
Qed.

(** The endpoints of a realm are advertised under one base. *)
Lemma realm_url_base (r : Realm K Sink Policy) : exists base, forall path, realm_url r path = base +:+ path.
Proof. unfold realm_url. destruct (realm_issuer r) as [issuer|]; by eexists. Qed.

Lemma attestations_advertised (r : Realm K Sink Policy) :
  attestations_endpoint (realm_configuration pic (meta_of r)) = realm_url r "/attestations".
Proof.
  simpl. destruct (realm_url_base r) as [base H]. rewrite !H. unfold endpoint_like. by rewrite strip_suffix_suffixed.
Qed.

(** Where a path of the surface is mounted. *)
Definition located (c : Config) (path : string) : string :=
  if is_empty (cfg_public_path_prefix c) then path else nested (cfg_public_path_prefix c) path.

Definition located_route (c : Config) (r : Route) : Route := mkRoute (route_method r) (located c (route_path r)) (handler r).

Definition unprefixed (id : ProductIdentity) (c : Config) (realms : list (Realm K Sink Policy)) : list Route :=
  let version := if cfg_disclose_build c then cfg_version c else "" in
  let server := server_document id version realms in
  [get_route "/" (HLanding (root server)); get_route "/.well-known/server-configuration" (HServerConfiguration server)]
  ++ flat_map (realm_routes id version) realms.

Lemma router_located id c realms : router id c realms = map (located_route c) (unprefixed id c realms).
Proof.
  unfold router, located_route, located. fold (unprefixed id c realms). destruct (is_empty (cfg_public_path_prefix c)); [|done].
  symmetry. rewrite <- (map_id (unprefixed id c realms)) at 2. apply map_ext. by intros [m p h].
Qed.

Lemma located_inj c p p' : p <> "" -> p' <> "" -> located c p = located c p' -> p = p'.
Proof.
  intros Hp Hp'. unfold located. destruct (is_empty _); [done|]. unfold nested. set (pre := cfg_public_path_prefix c).
  assert (forall q, q <> "" -> pre <> pre +:+ q) as Hne.
  { intros q Hq H. rewrite <- (string_app_nil_r pre) in H at 1. by apply app_string_inj_r in H. }
  case_bool_decide as E1; case_bool_decide as E2; [by subst| | |apply app_string_inj_r]; intros Heq; exfalso.
  - by apply (Hne p').
  - by apply (Hne p).
Qed.

Lemma unprefixed_paths id c realms route : well_mounted realms -> route ∈ unprefixed id c realms ->
  (exists s, route_path route = "/" +:+ s) /\
  (route ∈ flat_map (realm_routes id (if cfg_disclose_build c then cfg_version c else "")) realms -> exists s, route_path route = "/realms/" +:+ s).
Proof.
  intros [_ Hw] Hr. rewrite Forall_forall in Hw.
  assert (forall version, route ∈ flat_map (realm_routes id version) realms -> exists s, route_path route = "/realms/" +:+ s) as H.
  { intros version (r & Hin & Hx)%list_elem_of_In%in_flat_map. apply list_elem_of_In in Hin, Hx. destruct (Hw r Hin) as [_ Hm].
    destruct (realm_route_path _ _ _ _ Hm Hx) as (m & s & _ & E). exists (realm_name r +:+ s). by injection E as _ ->. }
  split; [|apply H]. apply elem_of_app in Hr as [[->|[->|Hr%elem_of_nil]%elem_of_cons]%elem_of_cons|Hr]; [by exists ""|by eexists|done|].
  destruct (H _ Hr) as [s ->]. by eexists.
Qed.

Lemma router_distinct id c realms : well_mounted realms -> NoDup (map route_key (router id c realms)).
Proof.
  intros Hw. rewrite router_located, map_map.
  assert (NoDup (map route_key (unprefixed id c realms))) as Hn.
  { unfold unprefixed. rewrite map_app. set (version := if cfg_disclose_build c then cfg_version c else "").
    cbn [map app]. assert (forall p, ~ (exists s, p = "/realms/" +:+ s) -> ("GET", p) ∉ map route_key (flat_map (realm_routes id version) realms)) as Hout.
    { intros p Hp (x & Hk & Hx)%list_elem_of_fmap. apply Hp. destruct (unprefixed_paths id c realms x Hw) as [_ H]; [by apply elem_of_app; right|].
      destruct (H Hx) as [s Hs]. exists s. unfold route_key in Hk. by injection Hk as _ ->. }
    constructor; [|constructor; [|by apply realm_routes_distinct]].
    - rewrite elem_of_cons. intros [H|H]; [done|]. revert H. apply Hout. by intros [s H].
    - apply Hout. by intros [s H]. }
  apply (NoDup_fmap_2_strong (fun r => route_key (located_route c r))); [|by eapply NoDup_map_inv].
  intros x y Hx Hy E. apply (NoDup_map_eq route_key (unprefixed id c realms)); [done..|]. unfold route_key, located_route in *. simpl in E.
  injection E as Em Ep. f_equal; [done|]. destruct (unprefixed_paths id c realms x Hw Hx) as [[s Hs] _], (unprefixed_paths id c realms y Hw Hy) as [[s' Hs'] _].
  apply (located_inj c); [by rewrite Hs|by rewrite Hs'|done].
Qed.

Lemma found id c realms r method leaf h :
  well_mounted realms -> r ∈ realms ->
  (forall version, mkRoute method (realm_mount_path r +:+ leaf) h ∈ realm_routes id version r) ->
  find_route (router id c realms) method (located c (realm_mount_path r +:+ leaf)) = Some h.
Proof.
  intros Hw Hr Hh. apply find_route_Some; [by apply router_distinct|]. rewrite router_located.
  apply list_elem_of_fmap. exists (mkRoute method (realm_mount_path r +:+ leaf) h). split; [done|].
  apply elem_of_app. right. apply list_elem_of_In, in_flat_map. exists r. split; by apply list_elem_of_In.
Qed.

(** A key set on the surface is that of the token ring of a realm. *)
Lemma keys_of_realm id c realms route ring :
  route ∈ router id c realms -> handler route = HKeys ring ->
  exists r, r ∈ realms /\ ring = token_keys r /\ route_path route = located c (realm_mount_path r +:+ "/keys").
Proof.
  rewrite router_located. intros (x & -> & Hx)%list_elem_of_fmap Hh. simpl in Hh |- *.
  apply elem_of_app in Hx as [[->|[->|Hx%elem_of_nil]%elem_of_cons]%elem_of_cons|Hx]; [done..|].
  apply list_elem_of_In, in_flat_map in Hx as (r & Hin & Hx). exists r. split; [by apply list_elem_of_In|].
  simpl in Hx. destruct Hx as [<-|[<-|[<-|[<-|[<-|[<-|[]]]]]]]; simpl in Hh; try done. injection Hh as <-. by split.
Qed.

(** The realms a validated configuration declares are mounted so. *)
Lemma validated_well_mounted (unicode_uppercase : Z -> list Z) (assemble : RealmConfig -> Realm K Sink Policy) is_file inputs c0 c :
  (forall r, realm_name (assemble r) = rc_name r) -> (forall r, realm_mount_path (assemble r) = rc_mount_path r) ->
  with_realms unicode_uppercase inputs c0 = Ok c -> validate is_file c = Ok tt -> well_mounted (map assemble (cfg_realms c)).
Proof.
  intros Hn Hm Hw%with_realms_mounts Hv%validated_realms. destruct Hv as [Hd Hs]. split; [by rewrite (assembled_names assemble Hn)|].
  apply Forall_map. rewrite Forall_forall in Hw, Hs |- *. intros r Hr. rewrite Hn, Hm. split; [by apply (sound_name c), Hs|by apply Hw].
Qed.

(** C29: every realm is served as itself. On the surface of realms that are mounted as a validated
    configuration mounts them, no method and path have two routes; the key set, the token endpoint,
    the discovery document and the issuers of attestations of a realm are found under its own path, and they are that
    realm's; the endpoints its discovery names all have one base, its issuer when it has one; a key set on this
    surface is always the token ring of some realm, under that realm's path, so that no operations
    ring is published; and the catalogue names exactly the realms that asked to be listed. *)
Theorem every_realm_is_served_as_itself id c realms :
  well_mounted realms ->
  let routes := router id c realms in
  NoDup (map route_key routes) /\
  (forall r, r ∈ realms -> exists d,
     find_route routes "GET" (located c (realm_mount_path r +:+ "/keys")) = Some (HKeys (token_keys r)) /\
     find_route routes "POST" (located c (realm_mount_path r +:+ "/token")) = Some (HToken r) /\
     find_route routes "GET" (located c (realm_mount_path r +:+ "/attestations")) = Some (HAttestations (attestations_of r)) /\
     find_route routes "GET" (located c (realm_mount_path r +:+ "/.well-known/pic-x-configuration")) = Some (HRealmConfiguration d) /\
     disc_issuer d = realm_issuer r /\
     (disc_token_endpoint d, disc_jwks_uri d, attestations_endpoint d) = (realm_url r "/token", realm_url r "/keys", realm_url r "/attestations")) /\
  (forall route ring, route ∈ routes -> handler route = HKeys ring ->
     exists r, r ∈ realms /\ ring = token_keys r /\ route_path route = located c (realm_mount_path r +:+ "/keys")) /\
  (exists server, find_route routes "GET" (located c "/.well-known/server-configuration") = Some (HServerConfiguration server) /\
     forall name, (exists p entry, p ∈ profiles server /\ entry ∈ catalog_realms p /\ cat_name entry = name) <->
       exists r, r ∈ realms /\ realm_listed r = true /\ realm_name r = name).
Proof.
  intros Hw routes. split_and!; [by apply router_distinct| |intros route ring; apply keys_of_realm|].
  - intros r Hr. exists (realm_configuration pic (meta_of r)).
    assert (forall m leaf h, (forall version, mkRoute m (realm_mount_path r +:+ leaf) h ∈ realm_routes id version r) ->
      find_route routes m (located c (realm_mount_path r +:+ leaf)) = Some h) as Hf by (intros m leaf h; by apply found).
    split_and!; [apply Hf; intros version; unfold realm_routes, nest; cbn [map app nested]; set_solver..|done|].
    by rewrite attestations_advertised.
  - exists (server_document id (if cfg_disclose_build c then cfg_version c else "") realms). split.
    + apply find_route_Some; [by apply router_distinct|]. unfold routes. rewrite router_located. apply list_elem_of_fmap.
      eexists (get_route "/.well-known/server-configuration" _). split; [reflexivity|]. apply elem_of_app. left. right. left.
    + intros name. split.
      * intros (p & entry & ->%list_elem_of_singleton & (r & -> & Hr)%list_elem_of_fmap & <-). apply list_elem_of_In, filter_In in Hr as [Hr Hl].
        exists r. split_and!; [by apply list_elem_of_In|done..].
      * intros (r & Hr & Hl & <-). eexists _, (catalog_of r). split_and!; [by apply list_elem_of_singleton| |done].
        apply list_elem_of_fmap_2, list_elem_of_In, filter_In. split; [by apply list_elem_of_In|done].
Qed.
End Surface.

(** what a landing interpolates is inert, and shown as it was written: an escaped value
    holds none of the characters that open or close a tag or end a quoted attribute, and a reader of
    entities recovers exactly the value. *)
Theorem escape_is_inert_and_faithful value :
  Forall (fun b => is_markup b = false) (bytes_of (escape value)) /\
  unescape (length (bytes_of (escape value))) (bytes_of (escape value)) = bytes_of value.
Proof.
  rewrite escape_is_one_pass, bytes_of_string_of. split; [apply escaped_no_markup|]. by apply unescape_concat.
Qed.

(** a key set that cannot be read is not published as one that is empty. The answer is the
    keys of the ring, with the cache directive its lifecycle assumes, or a 503 when there is a ring and it
    cannot be read; an answer of no keys at all means a realm without a ring, or a ring that has none. *)
Theorem unreadable_keys_are_not_empty {K} `{!KeyManager K} (ring : option K) :
  (forall keys cache, jwks ring = Published cache keys -> cache = KEY_SET_MAX_AGE /\
     (ring = None /\ keys = [] \/ exists k, ring = Some k /\ public_keys k = Ok keys)) /\
  (answer_status (jwks ring) = 503 <-> exists k e, ring = Some k /\ public_keys k = Err e).
Proof.
  unfold jwks. destruct ring as [k|].
  - destruct (public_keys k) as [ks|e] eqn:E; simpl; split.
    + intros keys cache [= <- <-]. split; [done|]. right. by exists k.
    + split; [done|]. intros (k' & e & [= <-] & H). congruence.
    + done.
    + split; [|done]. intros _. by exists k, e.
  - simpl. split; [intros keys cache [= <- <-]; split; [done|by left]|]. split; [done|]. by intros (k & e & ? & _).
Qed.

Definition some_constants : PicConstants := mkPicConstants "pic" "pca" "initial" "transition" "continuity" "jwt".
Definition some_identity : ProductIdentity := mkIdentity "PIC-X" "Authority that continues." "".

Lemma every_realm_is_served_as_itself_witness :
  find_route (router some_constants some_identity Deployment.config (map Deployment.assemble (cfg_realms Deployment.config))) "GET" "/realms/a-b/keys" = Some (HKeys None) /\
  NoDup (map route_key (router some_constants some_identity Deployment.config (map Deployment.assemble (cfg_realms Deployment.config)))).
Proof.
  split; [vm_compute; reflexivity|].
  apply (every_realm_is_served_as_itself some_constants some_identity Deployment.config).
  apply (validated_well_mounted Deployment.no_uppercase Deployment.assemble (fun _ => true) [Deployment.realm "a"; Deployment.realm "a-b"] Deployment.server);
    [intros r; reflexivity|intros r; reflexivity|vm_compute; reflexivity|exact Deployment.accepted].
Defined.
