(* ===== verification/Requests.v ===== *)
(** * Naming and measuring requests ([crates/pic-x-transport/src/request.rs], [measure.rs])

    Two of the layers every surface wraps around its handlers: [identified_call] gives a request its
    name and tells the client, [measured_call] times it and counts how it ended. Header names are
    lower case, as the [http] crate keeps them, and header values are byte strings. A service
    answers after some time, panics, or never returns; services run over the state of the process,
    of which the metrics and the system's random source are singled out. *)
From Stdlib Require Import SpecFloat.
From S2P Require Import Prelude Rust Order Access Metrics.
Local Open Scope Z_scope.

(** ** Requests and services *)

Record Request := mkRequest {
  method : string;
  uri : string;
  headers : list (string * string);
  request_id : option string;
  peer : option PeerIdentity;
  body : list byte }.

(** [HeaderMap::get] and [HeaderMap::insert]. *)
Definition get_header (name : string) (hs : list (string * string)) : option string :=
  snd <$> List.find (fun h => bool_decide (fst h = name)) hs.
Definition insert_header (name value : string) (hs : list (string * string)) : list (string * string) :=
  List.filter (fun h => negb (bool_decide (fst h = name))) hs ++ [(name, value)].

(** The bytes [HeaderValue::to_str] reads, and those [HeaderValue::from_str] takes. *)
Definition visible (b : byte) : bool := ((32 <=? u8 b) && (u8 b <? 127)) || (u8 b =? 9).
Definition header_safe (b : byte) : bool := ((32 <=? u8 b) && negb (u8 b =? 127)) || (u8 b =? 9).

Inductive Payload := PanicStr (message : string) | PanicString (message : string) | PanicOther.

Inductive Outcome :=
| Answers (after : Z) (response : Response)
| Panics (after : Z) (payload : Payload)
| NeverReturns.

(** The state of the process: what the application keeps, the handle on the registry, and how often
    the random source was read. *)
Record Serving (X : Type) := mkServing { app : X; metrics : option Registry; draws : nat }.
Arguments mkServing {X}.
Arguments app {X}.
Arguments metrics {X}.
Arguments draws {X}.

Definition Service (X : Type) : Type := Request -> Serving X -> Outcome * Serving X.

(** ** The name of a request *)

Definition HEADER : string := "x-request-id".
Definition MAXIMUM : Z := 64.

Definition is_ascii_alphanumeric (b : byte) : bool := between 48 57 b || between 65 90 b || between 97 122 b.
Definition name_byte (b : byte) : bool := is_ascii_alphanumeric b || (u8 b =? 45) || (u8 b =? 95).

(** [RequestId::from_client]. *)
Definition from_client (value : string) : option string :=
  if negb (forallb visible (bytes_of value)) then None
  else if is_empty value || (MAXIMUM <? str_len value) then None
  else if negb (forallb name_byte (bytes_of value)) then None
  else Some value.

(** [RequestId::generated], from the eight bytes the random source filled, or its failure. *)
Definition generated (material : option (list byte)) : string :=
  match material with
  | None => "unnamed"
  | Some bytes => hex bytes
  end.

Definition named (id : string) (r : Request) : Request :=
  mkRequest (method r) (uri r) (headers r) (Some id) (peer r) (body r).

Definition with_header (name value : string) (r : Response) : Response :=
  mkResponse (response_status r) (insert_header name value (response_headers r)) (response_body r).

(** The answer with the name on it, when it can be a header at all. *)
Definition told (id : string) (r : Response) : Response :=
  if forallb header_safe (bytes_of id) then with_header HEADER id r else r.

Section Named.
Context {X : Type} (random : nat -> option (list byte)).

Definition draw (w : Serving X) : option (list byte) * Serving X :=
  (random (draws w), mkServing (app w) (metrics w) (S (draws w))).

(** The name a request gets. *)
Definition identity_of_request (r : Request) (w : Serving X) : string * Serving X :=
  match (match get_header HEADER (headers r) with Some value => from_client value | None => None end) with
  | Some id => (id, w)
  | None => let '(material, w') := draw w in (generated material, w')
  end.

(** [Identified::call]. *)
Definition identified_call (inner : Service X) : Service X := fun r w =>
  let '(id, w1) := identity_of_request r w in
  match inner (named id r) w1 with
  | (Answers after response, w2) => (Answers after (told id response), w2)
  | ended => ended
  end.
End Named.

(** ** Measuring a request *)

Definition REQUESTS : Metric := counter "picx_surface_requests_total" "Requests answered, by surface, method and status.".
Definition LATENCY : Metric := histogram "picx_surface_request_seconds" "How long requests took, by surface and method." SECONDS.

(** [method_of]. *)
Definition STANDARD_METHODS : list string := ["GET"; "POST"; "PUT"; "DELETE"; "HEAD"; "OPTIONS"; "PATCH"; "TRACE"].
Definition method_of (r : Request) : string := if bool_decide (method r ∈ STANDARD_METHODS) then method r else "other".

(** [StatusCode::as_str]: three digits. *)
Definition status_text (status : Z) : string := string_of (pad 3 status).

Definition latency_labels (surface : string) (m : string) : list (string * string) := [("surface", surface); ("method", m)].
Definition request_labels (surface m : string) (status : Z) : list (string * string) :=
  [("surface", surface); ("method", m); ("status", status_text status)].

Definition with_metrics {X} (f : option Registry -> option Registry) (w : Serving X) : Serving X :=
  mkServing (app w) (f (metrics w)) (draws w).

(** [Duration::as_secs_f64], of a duration in nanoseconds. *)
Definition NANOS : Z := 1000000000.
Definition f64_of (z : Z) : f64 := binary_normalize 53 1024 z 0 false.
Definition as_secs_f64 (d : Z) : f64 := f64_add (f64_of (d / NANOS)) (SFdiv 53 1024 (f64_of (d mod NANOS)) (f64_of NANOS)).

Section Measured.
Context {X : Type}.

(** [Measured::call]; a duration is in nanoseconds. *)
Definition measured_call (surface : string) (inner : Service X) : Service X := fun r w =>
  let m := method_of r in
  match inner r w with
  | (Answers after response, w1) =>
    (Answers after response,
     with_metrics (fun h => metrics_count REQUESTS (request_labels surface m (response_status response))
                              (metrics_record LATENCY (latency_labels surface m) (as_secs_f64 after) h)) w1)
  | ended => ended
  end.
End Measured.

(** ** Names are safe *)

(** What a name may be: one to sixty-four letters, digits, dashes and underscores. *)
Definition safe_name (id : string) : Prop :=
  id <> "" /\ str_len id <= MAXIMUM /\ Forall (fun b => name_byte b = true) (bytes_of id).

Lemma byte_property (P Q : byte -> bool) :
  forallb (fun z => implb (P (byte_of_Z z)) (Q (byte_of_Z z))) (map Z.of_nat (seq 0 256)) = true ->
  forall b, P b = true -> Q b = true.
Proof.
  intros H b Hb. pose proof (forallb_range _ _ H (u8 b) (u8_range b)) as Hx. simpl in Hx.
  rewrite byte_of_Z_u8, Hb in Hx. exact Hx.
Qed.

Lemma name_byte_header b : name_byte b = true -> header_safe b = true.
Proof. apply byte_property. vm_compute. reflexivity. Qed.

Lemma name_byte_visible b : name_byte b = true -> visible b = true.
Proof. apply byte_property. vm_compute. reflexivity. Qed.

Lemma hex_digit_name d : 0 <= d < 16 -> name_byte (hex_digit d) = true.
Proof.
  assert (H : forallb (fun d => name_byte (hex_digit d)) (map Z.of_nat (seq 0 16)) = true) by (vm_compute; reflexivity).
  apply (forallb_range _ _ H).
Qed.

Lemma hex_names bs : Forall (fun b => name_byte b = true) (bytes_of (hex bs)).
Proof.
  unfold hex. rewrite bytes_of_string_of. induction bs as [|b bs IH]; [constructor|]. cbn [map concat hex_byte app].
  pose proof (u8_range b). repeat constructor; try done; apply hex_digit_name; [split; [apply Z.div_pos; lia|apply Z.div_lt_upper_bound; lia]|].
  apply Z.mod_pos_bound; lia.
Qed.

Lemma safe_from_client value id : from_client value = Some id <-> id = value /\ safe_name value.
Proof.
  unfold from_client, safe_name, is_empty. split.
  - repeat case_match; try done. intros [= <-]. bool_to_prop. destruct_and?. split_and!; try done; try lia.
    apply Forall_forall. intros b Hb. rewrite forallb_forall in *. by apply H1, list_elem_of_In.
  - intros [-> (Hn & Hl & Hf)]. rewrite Forall_forall in Hf.
    rewrite (proj2 (forallb_forall _ _)); [|intros b Hb; by apply name_byte_visible, Hf, list_elem_of_In].
    rewrite bool_decide_false by done. rewrite (proj2 (Z.ltb_ge _ _)) by done.
    rewrite (proj2 (forallb_forall _ _)); [done|]. intros b Hb. by apply Hf, list_elem_of_In.
Qed.

Definition well_filled (random : nat -> option (list byte)) : Prop := forall n bs, random n = Some bs -> length bs = 8%nat.

Lemma safe_generated material : (forall bs, material = Some bs -> length bs = 8%nat) -> safe_name (generated material).
Proof.
  intros Hl. destruct material as [bs|]; simpl.
  - specialize (Hl bs eq_refl). pose proof (hex_length bs) as Hh. split_and!.
    + intros E. rewrite E in Hh. simpl in Hh. lia.
    + unfold str_len, MAXIMUM. lia.
    + apply hex_names.
  - split_and!; [done|by vm_compute|]. repeat constructor.
Qed.

Lemma told_safe id r : safe_name id -> told id r = with_header HEADER id r.
Proof.
  intros (_ & _ & Hf). unfold told. rewrite (proj2 (forallb_forall _ _)); [done|].
  intros b Hb. rewrite Forall_forall in Hf. by apply name_byte_header, Hf, list_elem_of_In.
Qed.

(** The values under a name, and that an inserted header is the only one of its name. *)
Definition header_values (name : string) (hs : list (string * string)) : list string :=
  map snd (List.filter (fun h => bool_decide (fst h = name)) hs).

Lemma insert_header_only name value hs : header_values name (insert_header name value hs) = [value].
Proof.
  unfold header_values, insert_header. rewrite List.filter_app, map_app. simpl. rewrite bool_decide_true by done. simpl.
  induction hs as [|h hs IH]; simpl; [done|]. case_bool_decide; simpl; [done|]. by rewrite bool_decide_false.
Qed.

Lemma insert_header_others name value hs other :
  other <> name -> header_values other (insert_header name value hs) = header_values other hs.
Proof.
  intros Ho. unfold header_values, insert_header. rewrite List.filter_app, map_app. simpl. rewrite (bool_decide_false (name = other)) by done.
  rewrite app_nil_r. induction hs as [|h hs IH]; simpl; [done|]. case_bool_decide as E; simpl.
  - rewrite (bool_decide_false (h.1 = other)) by congruence. done.
  - case_bool_decide; simpl; [by f_equal|done].
Qed.

(** The name the client is entitled to: its own, when it can be one. *)
Definition client_name (r : Request) : option string :=
  match get_header HEADER (headers r) with Some value => from_client value | None => None end.

Lemma identity_is_safe {X} random r (w : Serving X) :
  well_filled random -> safe_name (fst (identity_of_request random r w)).
Proof.
  intros Hr. unfold identity_of_request. destruct (get_header HEADER (headers r)) as [value|]; simpl; [|by apply safe_generated, Hr].
  destruct (from_client value) as [id|] eqn:E; simpl; [|by apply safe_generated, Hr].
  apply safe_from_client in E as [-> ?]. done.
Qed.

Lemma identity_of_client {X} random r (w : Serving X) :
  identity_of_request random r w =
  match client_name r with Some id => (id, w) | None => (generated (random (draws w)), snd (draw random w)) end.
Proof. unfold identity_of_request, client_name. by destruct (get_header _ _) as [value|]; [destruct (from_client value)|]. Qed.

(** ** Measuring is bounded *)

Definition METHODS : list string := STANDARD_METHODS ++ ["other"].

Lemma method_of_bounded r : method_of r ∈ METHODS.
Proof. unfold method_of, METHODS. case_bool_decide; set_solver. Qed.

(** What an answered request measures. *)
Definition measurements_of (surface : string) (e : Request * Outcome) : list Measurement :=
  match snd e with
  | Answers after response =>
    [mkMeasurement LATENCY (latency_labels surface (method_of (fst e))) (as_secs_f64 after);
     mkMeasurement REQUESTS (request_labels surface (method_of (fst e)) (response_status response)) f64_one]
  | _ => []
  end.

Definition measurements (surface : string) (es : list (Request * Outcome)) : list Measurement := flat_map (measurements_of surface) es.

(** Requests served one after the other. *)
Fixpoint serve_all {X} (service : Service X) (rs : list Request) (w : Serving X) : list (Request * Outcome) * Serving X :=
  match rs with
  | [] => ([], w)
  | r :: rest =>
    let '(o, w1) := service r w in
    let '(es, w2) := serve_all service rest w1 in
    ((r, o) :: es, w2)
  end.

(** Handlers record nothing themselves. *)
Definition leaves_metrics {X} (s : Service X) : Prop := forall r w, metrics (snd (s r w)) = metrics w.

Definition statuses (es : list (Request * Outcome)) : list Z :=
  flat_map (fun e => match snd e with Answers _ response => [response_status response] | _ => [] end) es.

(** How many requests of a method were answered with a status. *)
Definition answered_with (m : string) (status : Z) (es : list (Request * Outcome)) : nat :=
  length (List.filter (fun e => match snd e with
                                | Answers _ response => bool_decide (method_of (fst e) = m) && (response_status response =? status)
                                | _ => false
                                end) es).

Definition record_more (history : list Measurement) (r : Registry) : Registry :=
  fold_left (fun r e => registry_record (measured e) (measured_labels e) (measured_value e) r) history r.

Lemma measured_call_records {X} surface (inner : Service X) r w reg :
  leaves_metrics inner -> metrics w = Some reg ->
  metrics (snd (measured_call surface inner r w)) = Some (record_more (measurements_of surface (r, fst (measured_call surface inner r w))) reg).
Proof.
  intros Hi Hm. specialize (Hi r w). unfold measured_call. destruct (inner r w) as [[after response|after p|] w1]; simpl in *; rewrite Hi, Hm; done.
Qed.

Lemma serve_all_records {X} surface (inner : Service X) rs w reg :
  leaves_metrics inner -> metrics w = Some reg ->
  let '(es, w') := serve_all (measured_call surface inner) rs w in
  map fst es = rs /\ metrics w' = Some (record_more (measurements surface es) reg).
Proof.
  intros Hi. revert w reg. induction rs as [|r rs IH]; intros w reg Hm; simpl; [done|].
  pose proof (measured_call_records surface inner r w reg Hi Hm) as H1. destruct (measured_call _ _ r w) as [o w1] eqn:E. simpl in H1.
  specialize (IH w1 _ H1). destruct (serve_all _ rs w1) as [es w2]. destruct IH as [<- Hw]. simpl. split; [done|].
  rewrite Hw. unfold record_more. simpl. by rewrite fold_left_app.
Qed.

Lemma measurements_elem surface es e :
  e ∈ measurements surface es -> measured e = LATENCY \/ measured e = REQUESTS.
Proof.
  unfold measurements. rewrite list_elem_of_In, in_flat_map. intros ([r o] & _ & H). destruct o; simpl in H; [|done..].
  destruct H as [<-|[<-|[]]]; simpl; auto.
Qed.

Lemma measurements_declared surface es : declared_once (measurements surface es).
Proof. intros e e' [-> | ->]%measurements_elem [-> | ->]%measurements_elem; done. Qed.

Lemma request_labels_inj surface m status m' status' :
  keyed (request_labels surface m status) = keyed (request_labels surface m' status') -> m = m' /\ status_text status = status_text status'.
Proof.
  intros H. assert (Hp : request_labels surface m status ≡ₚ request_labels surface m' status').
  { rewrite <- (sort_by_perm cmp_label id (request_labels surface m status)), <- (sort_by_perm cmp_label id (request_labels surface m' status')). unfold keyed in H. by rewrite H. }
  assert (H1 : ("method", m) ∈ request_labels surface m' status') by (rewrite <- Hp; set_solver).
  assert (H2 : ("status", status_text status) ∈ request_labels surface m' status') by (rewrite <- Hp; set_solver).
  unfold request_labels in H1, H2. rewrite !elem_of_cons, elem_of_nil in H1, H2. destruct_or!; simplify_eq. done.
Qed.

Lemma status_text_inj s s' : 0 <= s -> 0 <= s' -> status_text s = status_text s' -> s = s'.
Proof.
  intros H H' E. apply (f_equal bytes_of) in E. unfold status_text in E. rewrite !bytes_of_string_of in E.
  destruct (pad_nonneg 3 s H) as (_ & P & _), (pad_nonneg 3 s' H') as (_ & P' & _). rewrite E in P. congruence.
Qed.

Lemma request_observations surface m status es :
  0 <= status -> Forall (fun s => 0 <= s) (statuses es) ->
  observations (metric_name REQUESTS, keyed (request_labels surface m status)) (measurements surface es) = repeat f64_one (answered_with m status es).
Proof.
  intros Hs. unfold observations, measurements, answered_with, statuses.
  induction es as [|[r o] es IH]; intros Hf; [done|]. cbn [flat_map] in *. rewrite Forall_app in Hf. destruct Hf as [Ho Hf].
  rewrite List.filter_app, map_app, List.filter_app, IH by done. destruct o as [after response|after p|]; [|done..].
  cbn [measurements_of snd fst List.filter]. apply Forall_cons in Ho as [Ho _].
  case_bool_decide as E0; [discriminate E0|]. case_bool_decide as E.
  - apply (f_equal snd) in E. unfold key_of, snd, measured_labels in E. apply request_labels_inj in E as [<- E]. apply status_text_inj in E as ->; [|done..].
    rewrite bool_decide_true, Z.eqb_refl by done. done.
  - replace (bool_decide (method_of r = m) && (response_status response =? status)) with false; [done|].
    symmetry. apply andb_false_iff. destruct (decide (method_of r = m)) as [<-|]; [|left; by apply bool_decide_false].
    right. apply Z.eqb_neq. intros <-. by apply E.
Qed.

(** The series measuring can open. *)
Definition possible_series (surface : string) (ss : list Z) : list Series :=
  map (fun m => (metric_name LATENCY, keyed (latency_labels surface m))) METHODS ++
  flat_map (fun s => map (fun m => (metric_name REQUESTS, keyed (request_labels surface m s))) METHODS) ss.

Lemma possible_series_length surface ss : length (possible_series surface ss) = (9 * (1 + length ss))%nat.
Proof.
  unfold possible_series. rewrite length_app, length_map, length_flat_map.
  rewrite (map_ext _ (fun _ => 9%nat)) by (intros; by rewrite length_map).
  induction ss as [|s ss IH]; simpl in *; lia.
Qed.

Lemma measured_series surface es e :
  e ∈ measurements surface es -> key_of e ∈ possible_series surface (remove_dups (statuses es)).
Proof.
  unfold measurements. rewrite list_elem_of_In, in_flat_map. intros ([r o] & Hr & H).
  destruct o as [after response|after p|]; simpl in H; [|done..]. unfold possible_series. rewrite elem_of_app, !list_elem_of_In.
  destruct H as [<-|[<-|[]]]; [left|right].
  - apply in_map_iff. exists (method_of r). split; [done|]. apply list_elem_of_In, method_of_bounded.
  - apply in_flat_map. exists (response_status response). split.
    + apply list_elem_of_In, elem_of_remove_dups, list_elem_of_In. apply in_flat_map. exists (r, Answers after response). simpl. auto.
    + apply in_map_iff. exists (method_of r). split; [done|]. apply list_elem_of_In, method_of_bounded.
Qed.

Lemma observed_measurement k history : observations k history <> [] -> exists e, e ∈ history /\ key_of e = k.
Proof.
  unfold observations. intros H. destruct (List.filter (fun e => bool_decide (key_of e = k)) history) as [|e l] eqn:E; [done|].
  assert (In e (List.filter (fun e => bool_decide (key_of e = k)) history)) as [Hi He]%filter_In by (rewrite E; by left).
  exists e. split; [by apply list_elem_of_In|]. by apply bool_decide_eq_true in He.
Qed.

(** A registry holds at most the series its history names. *)
Lemma series_bounded history (possible : list Series) :
  declared_once history -> (forall e, e ∈ history -> key_of e ∈ possible) -> (size (series (record_all history)) <= length possible)%nat.
Proof.
  intros Hd Hp. destruct (history_described history Hd) as [_ Hk].
  rewrite <- length_map_to_list, <- (length_map fst). apply submseteq_length, NoDup_submseteq; [apply NoDup_fst_map_to_list|].
  intros k. rewrite list_elem_of_fmap. intros ([k' [m h]] & -> & Hin%elem_of_map_to_list). simpl.
  specialize (Hk k'). rewrite Hin in Hk. destruct Hk as [_ Ho]. destruct (observed_measurement _ _ Ho) as (e & He & <-). by apply Hp.
Qed.

(** what clients send does not decide what measuring costs. When the requests of a surface are
    served one after the other by handlers that record nothing themselves, the registry is the
    record of one latency and one count per answered request; the series it holds are at most nine
    for the surface and nine more for each distinct status answered, whatever methods, paths and
    headers were sent; and the counter of a method and a status was incremented by one exactly once
    for each request so answered. *)
Theorem measuring_is_bounded {X} (surface : string) (inner : Service X) (rs : list Request) (w : Serving X) :
  leaves_metrics inner -> metrics w = Some registry_new ->
  let '(es, w') := serve_all (measured_call surface inner) rs w in
  map fst es = rs /\
  metrics w' = Some (record_all (measurements surface es)) /\
  (size (series (record_all (measurements surface es))) <= 9 * (1 + length (remove_dups (statuses es))))%nat /\
  (Forall (fun s => 0 <= s) (statuses es) -> forall m status, 0 <= status ->
     observations (metric_name REQUESTS, keyed (request_labels surface m status)) (measurements surface es) = repeat f64_one (answered_with m status es)).
Proof.
  intros Hi Hm. pose proof (serve_all_records surface inner rs w _ Hi Hm) as H. destruct (serve_all _ rs w) as [es w'].
  destruct H as [Hr Hw]. split_and!; [done|exact Hw| |].
  - rewrite <- (possible_series_length surface). apply series_bounded; [apply measurements_declared|apply measured_series].
  - intros Hf m status Hs. by apply request_observations.
Qed.

(** A handler of pages, asked three times, once with a method nobody defined. *)
Definition page_handler : Service unit := fun r w =>
  (Answers 2000000 (mkResponse (if bool_decide (method r = "GET") then 200 else 405) [] ""), w).
Definition sampled_requests : list Request :=
  [mkRequest "GET" "/a" [] None None []; mkRequest "WHATEVER" "/b" [("x-request-id", "7")] None None []; mkRequest "GET" "/c" [] None None []].

Lemma measuring_is_bounded_witness :
  leaves_metrics page_handler /\
  let '(es, w') := serve_all (measured_call "public" page_handler) sampled_requests (mkServing tt (Some registry_new) 0) in
  (size (series (record_all (measurements "public" es))) <= 9 * (1 + length (remove_dups (statuses es))))%nat /\
  map (fun m => answered_with m 200 es) METHODS = [2%nat; 0%nat; 0%nat; 0%nat; 0%nat; 0%nat; 0%nat; 0%nat; 0%nat] /\
  answered_with "other" 405 es = 1%nat.
Proof.
  split; [intros r w; reflexivity|].
  pose proof (measuring_is_bounded "public" page_handler sampled_requests (mkServing tt (Some registry_new) 0) (fun r w => eq_refl) eq_refl) as H.
  destruct (serve_all _ _ _) as [es w'] eqn:E. destruct H as (_ & _ & H & _). split; [exact H|].
  assert (es = fst (serve_all (measured_call "public" page_handler) sampled_requests (mkServing tt (Some registry_new) 0))) as -> by (by rewrite E).
  split; vm_compute; reflexivity.
Defined.
