(* ===== verification/Surface.v ===== *)
(** * What a surface puts around its handlers ([crates/pic-x-transport/src/surface.rs])

    [Listener::start] wraps the router of a surface in layers: the gate, the catching of panics, two
    body limits, the timeout, the shedding of overload, the measuring and the naming of requests.
    The layers of the [tower], [tower-http] and [axum] crates are operations of [TowerLayers], with
    what their documentation promises in [LayerLaws]; the others are [gate_call], [measured_call] and
    [identified_call]. Durations of services are in nanoseconds, those of [Limits] in seconds. *)
From S2P Require Import Prelude Rust Access Settings Limits Metrics Requests.
Local Open Scope Z_scope.

(** ** The answers of the surface itself *)

Definition text_plain : list (string * string) := [("content-type", "text/plain; charset=utf-8")].

(** [panicked]: what the client is told, and what the log is told. *)
Definition panic_response : Response := mkResponse 500 text_plain ("internal error" +:+ string_of [LF]).
Definition panic_report (p : Payload) : string :=
  match p with
  | PanicStr message => message
  | PanicString message => message
  | PanicOther => "a panic carrying something unprintable"
  end.
Definition panicked (p : Payload) : string * Response := (panic_report p, panic_response).

(** [overloaded]. *)
Definition overloaded : Response :=
  mkResponse 503 text_plain "the surface is serving as many requests as it is allowed to".

(** ** The bounds of a connection *)

(** What is set on the HTTP/1 and HTTP/2 builders, in seconds, bytes and streams. *)
Record HttpOptions := mkHttp {
  http1_timer : bool;
  http1_header_read_timeout : Z;
  http1_max_buf_size : Z;
  http2_timer : bool;
  http2_max_concurrent_streams : Z;
  http2_max_header_list_size : Z;
  http2_keep_alive_interval : option Z;
  http2_keep_alive_timeout : Z }.

Definition KEEP_ALIVE_INTERVAL : Z := 30.

(** [bound_connections]: [None] is the panic of [max_buf_size] below the minimum it documents. *)
Definition bound_connections (minimum_buffer : Z) (limits : Limits) : option HttpOptions :=
  if header_bytes limits <? minimum_buffer then None
  else Some (mkHttp true (header_timeout limits) (header_bytes limits) true (concurrent_requests limits)
               (as_u32 (header_bytes limits)) (Some KEEP_ALIVE_INTERVAL) (header_timeout limits)).

(** Within the minimum and the width of the setting, both protocols are held to the same bounds. *)
Lemma connections_are_bounded minimum_buffer limits :
  minimum_buffer <= header_bytes limits <= U32_MAX -> 0 <= minimum_buffer ->
  exists o, bound_connections minimum_buffer limits = Some o /\
    http1_max_buf_size o = header_bytes limits /\ http2_max_header_list_size o = header_bytes limits /\
    http1_header_read_timeout o = header_timeout limits /\ http2_max_concurrent_streams o = concurrent_requests limits /\
    http1_timer o = true /\ http2_timer o = true.
Proof.
  intros [H1 H2] H0. unfold bound_connections. rewrite (proj2 (Z.ltb_ge _ _)) by done. eexists. split; [done|]. simpl.
  unfold as_u32, U32_MAX in *. rewrite Z.mod_small by lia. done.
Qed.

Definition with_head (bytes : Z) : Limits :=
  mkLimits 1024 256 [] 256 30 10 10 1048576 bytes None 30.

(** Outside of them the configuration is accepted all the same: a head of 4 KiB, with the minimum of
    8 KiB that [hyper] documents, panics in the task that was to serve, and one of 4 GiB becomes a
    header list of nothing for HTTP/2. *)
Lemma head_bounds_are_not_validated :
  parse_bytes "4k" = Ok 4096 /\ bound_connections 8192 (with_head 4096) = None /\
  parse_bytes "4g" = Ok (2 ^ 32) /\ http2_max_header_list_size <$> bound_connections 8192 (with_head (2 ^ 32)) = Some 0.
Proof. split_and!; vm_compute; reflexivity. Qed.

(** ** The layers *)

(** The layers of other crates, over the state of the process: [catch_panic] is
    [CatchPanicLayer::custom] ([report] is the answer made of a panic); [request_body_limit] is
    [RequestBodyLimitLayer]; [default_body_limit] is [DefaultBodyLimit]; [timeout] is
    [TimeoutLayer::with_status_code]; [shedding] is [HandleErrorLayer], [LoadShedLayer] and
    [ConcurrencyLimitLayer] together ([handled] is the answer made of the error). *)
Record TowerLayers (X : Type) := mkTowerLayers {
  catch_panic : (Payload -> Response) -> Service X -> Service X;
  default_body_limit : Z -> Service X -> Service X;
  request_body_limit : Z -> Service X -> Service X;
  timeout : Z -> Z -> Service X -> Service X;
  shedding : Response -> Z -> Service X -> Service X }.
Arguments catch_panic {X}.
Arguments default_body_limit {X}.
Arguments request_body_limit {X}.
Arguments timeout {X}.
Arguments shedding {X}.

(** Only what a body limit may change of a request differs. *)
Definition same_request (r r' : Request) : Prop :=
  method r' = method r /\ uri r' = uri r /\ headers r' = headers r /\ request_id r' = request_id r /\ peer r' = peer r.

Definition ends_within (t : Z) (o : Outcome) : bool :=
  match o with Answers d _ | Panics d _ => d <=? t | NeverReturns => false end.

(** What the documentation of the layers promises. A panic becomes the given answer. The default limit
    is a mark handlers' extractors read. A declared body over the limit is refused with 413 at once,
    another is handed on with its reading bounded. What has not ended in time is dropped wherever it
    was, and answered with the status. A request over the ceiling is answered at
    once, without the service being called. *)
Class LayerLaws {X : Type} (L : TowerLayers X) (in_flight : Serving X -> Z) (declared : Request -> Z) (marked bounded : Z -> Request -> Request) : Prop := {
  catch_panic_law f s r w :
    catch_panic L f s r w = match s r w with (Panics d p, w') => (Answers d (f p), w') | o => o end;
  marked_same n r : same_request r (marked n r);
  default_body_limit_law n s r w : default_body_limit L n s r w = s (marked n r) w;
  bounded_same n r : same_request r (bounded n r);
  body_limit_refuses n s r w :
    n < declared r -> exists response, response_status response = 413 /\ request_body_limit L n s r w = (Answers 0 response, w);
  body_limit_passes n s r w : declared r <= n -> request_body_limit L n s r w = s (bounded n r) w;
  timeout_in_time code t s r w : ends_within t (fst (s r w)) = true -> timeout L code t s r w = s r w;
  timeout_late code t s r w :
    ends_within t (fst (s r w)) = false -> exists response w', response_status response = code /\ timeout L code t s r w = (Answers t response, w');
  shedding_law e n s r w :
    shedding L e n s r w = if in_flight w <? n then s r w else (Answers 0 e, w) }.

Section Surface.
Context {X : Type} (L : TowerLayers X) (random : nat -> option (list byte)).

(** The gate, in the time of the service it guards. *)
Definition gated (allow : list AllowedPeer) (inner : Service X) : Service X := fun r w =>
  match peer r with
  | Some p => if is_allowed_by p allow then inner r w else (Answers 0 refused, w)
  | None => (Answers 0 refused, w)
  end.

(** The service of [Listener::start]. *)
Definition surface_service (surface : string) (allow : list AllowedPeer) (limits : Limits) (router : Service X) : Service X :=
  let router := match allow with [] => router | _ => gated allow router end in
  identified_call random
    (measured_call surface
      (shedding L overloaded (concurrent_requests limits)
        (timeout L 408 (request_timeout limits * NANOS)
          (request_body_limit L (body_bytes limits)
            (default_body_limit L (body_bytes limits)
              (catch_panic L (fun p => snd (panicked p)) router)))))).
End Surface.

(** ** What becomes of a request *)

Section Disposition.
Context {X : Type} {L : TowerLayers X} {in_flight : Serving X -> Z} {declared : Request -> Z} {marked bounded : Z -> Request -> Request}
  {laws : LayerLaws L in_flight declared marked bounded}
  (allow : list AllowedPeer) (limits : Limits) (router : Service X).

Definition admitted_peer (r : Request) : Prop :=
  allow = [] \/ exists p, peer r = Some p /\ is_allowed_by p allow = true.

Definition budget : Z := request_timeout limits * NANOS.

(** How a request ends: one rule for each layer that may answer it, and one for its handler. The
    state is the one the handlers left; only a handler that was cut off leaves it open. *)
Inductive disposed (r : Request) (w : Serving X) : Z -> Response -> Serving X -> Prop :=
| Shed : concurrent_requests limits <= in_flight w -> disposed r w 0 overloaded w
| TooLarge response :
    in_flight w < concurrent_requests limits -> body_bytes limits < declared r -> response_status response = 413 ->
    disposed r w 0 response w
| NotNamed :
    in_flight w < concurrent_requests limits -> declared r <= body_bytes limits -> ~ admitted_peer r -> disposed r w 0 refused w
| Handled r' after response w' :
    in_flight w < concurrent_requests limits -> declared r <= body_bytes limits -> admitted_peer r -> same_request r r' ->
    router r' w = (Answers after response, w') -> after <= budget -> disposed r w after response w'
| HandlerPanicked r' after p w' :
    in_flight w < concurrent_requests limits -> declared r <= body_bytes limits -> admitted_peer r -> same_request r r' ->
    router r' w = (Panics after p, w') -> after <= budget -> disposed r w after panic_response w'
| CutOff r' response w' :
    in_flight w < concurrent_requests limits -> declared r <= body_bytes limits -> admitted_peer r -> same_request r r' ->
    ends_within budget (fst (router r' w)) = false -> response_status response = 408 -> disposed r w budget response w'.

(** The service under the timeout. *)
Definition inner_service : Service X :=
  request_body_limit L (body_bytes limits)
    (default_body_limit L (body_bytes limits)
      (catch_panic L (fun p => snd (panicked p)) (match allow with [] => router | _ => gated allow router end))).

Lemma same_request_trans r r' r'' : same_request r r' -> same_request r' r'' -> same_request r r''.
Proof. unfold same_request. intuition congruence. Qed.

Lemma gate_admits r : admitted_peer r -> forall w, (match allow with [] => router | _ => gated allow router end) r w = router r w.
Proof.
  unfold admitted_peer. intros [->|(p & Hp & Ha)] w; [done|]. destruct allow as [|e l]; [done|]. unfold gated. by rewrite Hp, Ha.
Qed.

Lemma gate_refuses r : ~ admitted_peer r -> forall w, (match allow with [] => router | _ => gated allow router end) r w = (Answers 0 refused, w).
Proof.
  unfold admitted_peer. intros H w. destruct allow as [|e l]; [exfalso; auto|]. unfold gated. destruct (peer r) as [p|]; [|done].
  destruct (is_allowed_by p (e :: l)) eqn:E; [|done]. exfalso. apply H. right. eauto.
Qed.

Lemma admitted_dec r : admitted_peer r \/ ~ admitted_peer r.
Proof.
  unfold admitted_peer. destruct allow as [|e l]; [by left; left|]. destruct (peer r) as [p|]; [|right; intros [?|(? & ? & ?)]; congruence].
  destruct (is_allowed_by p (e :: l)) eqn:E; [left; right; eauto|]. right. intros [?|(q & [= <-] & ?)]; congruence.
Qed.

Lemma admitted_same r r' : same_request r r' -> admitted_peer r' <-> admitted_peer r.
Proof. intros (_ & _ & _ & _ & Hp). unfold admitted_peer. by rewrite Hp. Qed.

(** The layers under the timeout, by cases. *)
Lemma inner_service_cases r w :
  (exists response, body_bytes limits < declared r /\ response_status response = 413 /\ inner_service r w = (Answers 0 response, w)) \/
  (declared r <= body_bytes limits /\ ~ admitted_peer r /\ inner_service r w = (Answers 0 refused, w)) \/
  (declared r <= body_bytes limits /\ admitted_peer r /\ exists r', same_request r r' /\
     inner_service r w = match router r' w with (Panics d _, w') => (Answers d panic_response, w') | o => o end).
Proof.
  unfold inner_service. destruct (Z_lt_le_dec (body_bytes limits) (declared r)) as [Hd|Hd].
  - left. destruct (body_limit_refuses (body_bytes limits)
      (default_body_limit L (body_bytes limits) (catch_panic L (fun p => snd (panicked p)) (match allow with [] => router | _ => gated allow router end))) r w Hd) as (response & Hs & ->). eauto.
  - right. rewrite body_limit_passes by done. rewrite default_body_limit_law, catch_panic_law.
    set (r' := marked (body_bytes limits) (bounded (body_bytes limits) r)).
    assert (Hs : same_request r r') by (eapply same_request_trans; [apply bounded_same|apply marked_same]).
    destruct (admitted_dec r) as [Ha|Ha]; [right|left].
    + split_and!; [done|done|]. exists r'. split; [done|]. rewrite gate_admits; [done|]. by rewrite (admitted_same _ _ Hs).
    + split_and!; [done|done|]. rewrite gate_refuses; [done|]. by rewrite (admitted_same _ _ Hs).
Qed.

Lemma shed_service_disposes r w :
  0 <= budget ->
  exists after response w',
    shedding L overloaded (concurrent_requests limits) (timeout L 408 budget inner_service) r w = (Answers after response, w') /\
    disposed r w after response w'.
Proof.
  intros Hb. rewrite shedding_law. destruct (in_flight w <? concurrent_requests limits) eqn:Ef; bool_to_prop; [|do 3 eexists; split; [done|by apply Shed]].
  destruct (ends_within budget (fst (inner_service r w))) eqn:Ee.
  - rewrite timeout_in_time by done.
    destruct (inner_service_cases r w) as [(response & Hd & Hs & E)|[(Hd & Ha & E)|(Hd & Ha & r' & Hs & E)]]; rewrite E in *.
    + do 3 eexists. split; [done|]. by apply TooLarge.
    + do 3 eexists. split; [done|]. by apply NotNamed.
    + destruct (router r' w) as [[d response|d p|] w'] eqn:Er; simpl in Ee; [| |done]; bool_to_prop.
      * do 3 eexists. split; [done|]. by eapply Handled.
      * do 3 eexists. split; [done|]. by eapply HandlerPanicked.
  - destruct (timeout_late 408 budget inner_service r w Ee) as (response & w' & Hs & ->). do 3 eexists. split; [done|].
    destruct (inner_service_cases r w) as [(response' & Hd & _ & E)|[(Hd & Ha & E)|(Hd & Ha & r' & Hr & E)]]; rewrite E in Ee; simpl in Ee; bool_to_prop; [lia|lia|].
    eapply CutOff; try done. destruct (router r' w) as [[d response'|d p|] w'']; exact Ee.
Qed.
End Disposition.

Section Answered.
Context {X : Type} {L : TowerLayers X} {in_flight : Serving X -> Z} {declared : Request -> Z} {marked bounded : Z -> Request -> Request}
  {laws : LayerLaws L in_flight declared marked bounded} (random : nat -> option (list byte)).

Lemma disposed_in_time allow limits router r w after response w' :
  0 <= budget limits -> disposed (in_flight := in_flight) (declared := declared) allow limits router r w after response w' -> after <= budget limits.
Proof. by intros Hb []. Qed.

End Answered.

(** ** An instance of the laws *)

Module Reference.
(** The layers as their documentation describes them, over an application that counts the requests
    in flight. *)
Definition layers : TowerLayers Z :=
  mkTowerLayers Z
    (fun f s r w => match s r w with (Panics d p, w') => (Answers d (f p), w') | o => o end)
    (fun _ s r w => s r w)
    (fun n s r w => if n <? Z.of_nat (length (body r)) then (Answers 0 (mkResponse 413 text_plain "length limit exceeded"), w) else s r w)
    (fun code t s r w => if ends_within t (fst (s r w)) then s r w else (Answers t (mkResponse code [] ""), w))
    (fun e n s r w => if app w <? n then s r w else (Answers 0 e, w)).

#[export] Instance layers_laws : LayerLaws layers app (fun r => Z.of_nat (length (body r))) (fun _ r => r) (fun _ r => r).
Proof.
  split; intros; simpl; try done.
  - eexists. split; [|by rewrite (proj2 (Z.ltb_lt _ _))]. done.
  - by rewrite (proj2 (Z.ltb_ge _ _)).
  - by rewrite H.
  - do 2 eexists. split; [|by rewrite H]. done.
Qed.

(** A router with a page, one that panics, and one that never answers. *)
Definition pages : Service Z := fun r w =>
  if bool_decide (uri r = "/boom") then (Panics 5 (PanicStr "index out of range"), w)
  else if bool_decide (uri r = "/slow") then (NeverReturns, w)
  else (Answers 7 (mkResponse 200 text_plain (default "" (request_id r))), w).

Definition ask (path : string) : Request := mkRequest "GET" path [(HEADER, "trace-1")] None None [].
Definition service : Service Z := surface_service layers (fun _ => None) "public" [] default_limits pages.
End Reference.

