(* ===== verification/Material.v ===== *)
(** * Transport material ([crates/pic-x-transport/src/material.rs], [digest.rs], [identity.rs], and
    the expiry gauges of [measure.rs])

    Reading certificates, keys and revocation lists and building the configuration a listener
    serves with; the identity a certificate asserts; when the material expires. What the [rustls],
    [x509-parser] and [sha2] crates make of bytes is a record of functions, [Pki]; no property
    needs to know more of them. Files are read one after the other while other processes write
    them, so each read has a disk of its own. *)
From Stdlib Require Import SpecFloat.
From S2P Require Import Prelude Rust Access Settings Metrics.
Local Open Scope Z_scope.
Local Open Scope rust_scope.

Definition Der : Type := list byte.

(** A parsed certificate: its subject as it prints, its common names (those that are not text are
    [None]), its serial number and when it stops being valid. *)
Record Certificate := mkCertificate {
  subject : string;
  common_names : list (option string);
  raw_serial : list byte;
  not_after : Z }.

(** What a client has to prove: the authorities, and when there is a list, that its own certificate
    is not on it, a list past its date counting against it. *)
Record Revocation := mkRevocation { revoked : list Der; end_entity_only : bool; expiry_enforced : bool }.
Record ClientVerifier := mkVerifier { roots : list Der; revocation : option Revocation }.

Record ServerConfig := mkServerConfig {
  versions : list TlsVersion;
  client_verifier : option ClientVerifier;
  chain : list Der;
  private_key : Der;
  alpn_protocols : list string }.

(** [pem_certificates], [pem_key] and [pem_revocations] read PEM text; [add_root], [build_verifier]
    and [single_cert] are the refusals of [RootCertStore::add], [ClientCertVerifierBuilder::build]
    and [with_single_cert]. *)
Record Pki := mkPki {
  pem_certificates : list byte -> result (list Der) string;
  pem_key : list byte -> result Der string;
  pem_revocations : list byte -> result (list Der) string;
  add_root : Der -> result unit string;
  build_verifier : ClientVerifier -> result unit string;
  single_cert : list TlsVersion -> list Der -> Der -> result unit string;
  parse_certificate : Der -> option Certificate;
  next_update : Der -> option (option Z);
  sha256 : list byte -> list byte }.

(** A disk: what reading a path yields. *)
Definition Disk : Type := string -> result (list byte) string.

Section Material.
Context (pki : Pki).

(** [digest]. *)
Definition digest (bytes : list byte) : string := hex (sha256 pki bytes).

Definition as_error {A} (r : result A string) : result A Error := map_err (fun e => [e]) r.

(** [load_certificates]. *)
Definition load_certificates (disk : Disk) (path : string) : result (list Der) Error :=
  let? bytes := with_context ("opening " +:+ path) (as_error (disk path)) in
  let? certificates := with_context ("reading certificates from " +:+ path) (as_error (pem_certificates pki bytes)) in
  match certificates with
  | [] => bail (path +:+ " contains no certificate")
  | _ => Ok certificates
  end.

(** [load_key]. *)
Definition load_key (disk : Disk) (path : string) : result Der Error :=
  with_context ("reading a private key from " +:+ path)
    (let? bytes := as_error (disk path) in as_error (pem_key pki bytes)).

(** [load_revocations]. *)
Definition load_revocations (disk : Disk) (path : string) : result (list Der) Error :=
  let? bytes := with_context ("opening " +:+ path) (as_error (disk path)) in
  let? revocations := with_context ("reading revocation lists from " +:+ path) (as_error (pem_revocations pki bytes)) in
  match revocations with
  | [] => bail (path +:+ " contains no revocation list: an empty file and a file that revokes nothing are "
                +:+ "indistinguishable here, and only one of them is safe to assume")
  | _ => Ok revocations
  end.

Fixpoint add_roots (path : string) (certificates : list Der) : result unit Error :=
  match certificates with
  | [] => Ok tt
  | c :: rest =>
    let? _ := with_context ("adding " +:+ path +:+ " to the client authorities") (as_error (add_root pki c)) in
    add_roots path rest
  end.

Definition supported (minimum : TlsVersion) : list TlsVersion :=
  match minimum with V1_2 => [V1_2; V1_3] | V1_3 => [V1_3] end.

(** The client verifier of [build]. *)
Definition verifier_of (disk : nat -> Disk) (settings : TlsSettings) : result (option ClientVerifier) Error :=
  match client_ca settings with
  | None => Ok None
  | Some path =>
    let? authorities := load_certificates (disk 2%nat) path in
    let? _ := add_roots path authorities in
    let? revocation := match crl settings with
                       | Some list => let? lists := load_revocations (disk 3%nat) list in Ok (Some (mkRevocation lists true true))
                       | None => Ok None
                       end in
    let v := mkVerifier authorities revocation in
    let? _ := with_context ("building the client verifier from " +:+ path) (as_error (build_verifier pki v)) in
    Ok (Some v)
  end.

(** [build]: the files are read in this order, each from the disk of its moment. *)
Definition build (disk : nat -> Disk) (settings : TlsSettings) : result (ServerConfig * string) Error :=
  let? certificates := load_certificates (disk 0%nat) (certificate settings) in
  let? key := load_key (disk 1%nat) (tls_key settings) in
  let leaf := match certificates with c :: _ => digest c | [] => "" end in
  let vs := supported (min_version settings) in
  let? verifier := verifier_of disk settings in
  let? _ := with_context ("using the certificate " +:+ certificate settings +:+ " with the key " +:+ tls_key settings)
              (as_error (single_cert pki vs certificates key)) in
  Ok (mkServerConfig vs verifier certificates key ["h2"; "http/1.1"], leaf).

(** [server_config]. *)
Definition server_config (disk : nat -> Disk) (settings : TlsSettings) : result ServerConfig Error :=
  let? built := build disk settings in Ok (fst built).

(** ** Who a certificate says its holder is *)

(** [fingerprint]. *)
Definition fingerprint (c : Der) : string := digest c.

(** [identity_of]. *)
Definition identity_of (c : Der) : option PeerIdentity :=
  match parse_certificate pki c with
  | None => None
  | Some parsed =>
    Some (mkPeer (subject parsed) (match common_names parsed with name :: _ => name | [] => None end)
            (fingerprint c) (hex (raw_serial parsed)))
  end.

(** [PeerAcceptor::accept]: the identity of a connection, from the certificates of the handshake. *)
Definition peer_of (presented : option (list Der)) : option PeerIdentity :=
  match presented with
  | Some (c :: _) => identity_of c
  | _ => None
  end.

(** ** When the material expires *)

Definition CERTIFICATE_EXPIRY : Metric :=
  gauge "picx_tls_certificate_expiry_timestamp_seconds"
    "When the certificate a surface presents stops being valid, in seconds since the epoch.".
Definition CRL_EXPIRY : Metric :=
  gauge "picx_tls_crl_expiry_timestamp_seconds" "When the revocation list stops being usable, in seconds since the epoch.".
Definition NOTICE : Z := 30 * 24 * 60 * 60.

(** [as f64] of an integer. *)
Definition i64_as_f64 (z : Z) : f64 := binary_normalize 53 1024 z 0 false.

(** [expiry_of]. *)
Definition expiry_of (certificates : list Der) : option Z :=
  match certificates with
  | leaf :: _ => not_after <$> parse_certificate pki leaf
  | [] => None
  end.

(** [Iterator::min]. *)
Fixpoint minimum (l : list Z) : option Z :=
  match l with
  | [] => None
  | x :: rest => Some (match minimum rest with Some y => Z.min x y | None => x end)
  end.

Definition earliest_update (lists : list Der) : option Z :=
  minimum (omap (fun der => match next_update pki der with Some at_ => at_ | None => None end) lists).

(** [record_crl_expiry]. *)
Definition record_crl_expiry (disk : Disk) (surface : string) (settings : TlsSettings) (m : option Registry) : option Registry :=
  match crl settings with
  | None => m
  | Some path =>
    match load_revocations disk path with
    | Ok lists =>
      match earliest_update lists with
      | Some expiry => metrics_record CRL_EXPIRY [("surface", surface)] (i64_as_f64 expiry) m
      | None => m
      end
    | Err _ => m
    end
  end.

Inductive Notice := CertificateUnreadable | CertificateExpired (days_ago : Z) | CertificateExpiring (days : Z).

(** [record_certificate_expiry]: the gauges, and what is said of the certificate. Rust's division
    of integers drops the remainder. *)
Definition record_certificate_expiry (disk : nat -> Disk) (now : Z) (surface : string) (settings : TlsSettings) (m : option Registry)
  : option Registry * option Notice :=
  match load_certificates (disk 0%nat) (certificate settings) with
  | Err _ => (m, Some CertificateUnreadable)
  | Ok certificates =>
    match expiry_of certificates with
    | None => (m, Some CertificateUnreadable)
    | Some expiry =>
      let m1 := metrics_record CERTIFICATE_EXPIRY [("surface", surface)] (i64_as_f64 expiry) m in
      let m2 := record_crl_expiry (disk 1%nat) surface settings m1 in
      let remaining := expiry - now in
      (m2, if remaining <=? 0 then Some (CertificateExpired (Z.quot (- remaining) 86400))
           else if remaining <? NOTICE then Some (CertificateExpiring (Z.quot remaining 86400))
           else None)
    end
  end.
End Material.

(** ** Properties *)

Section MaterialProperties.
Context (pki : Pki).

Lemma as_error_Ok {A} (r : result A string) a : as_error r = Ok a <-> r = Ok a.
Proof. apply map_err_Ok. Qed.

(** What a file holds, to the reader of the material. *)
Definition holds_certificates (disk : Disk) (path : string) (certificates : list Der) : Prop :=
  exists bytes, disk path = Ok bytes /\ pem_certificates pki bytes = Ok certificates /\ certificates <> [].
Definition holds_key (disk : Disk) (path : string) (key : Der) : Prop :=
  exists bytes, disk path = Ok bytes /\ pem_key pki bytes = Ok key.
Definition holds_revocations (disk : Disk) (path : string) (lists : list Der) : Prop :=
  exists bytes, disk path = Ok bytes /\ pem_revocations pki bytes = Ok lists /\ lists <> [].

Lemma load_certificates_Ok disk path certificates :
  load_certificates pki disk path = Ok certificates <-> holds_certificates disk path certificates.
Proof.
  unfold load_certificates, holds_certificates. rewrite bind_result_Ok. setoid_rewrite bind_result_Ok.
  setoid_rewrite with_context_Ok. setoid_rewrite as_error_Ok. split.
  - intros (bytes & Hd & cs & Hp & H). destruct cs as [|c cs]; [done|]. injection H as <-. eauto.
  - intros (bytes & Hd & Hp & Hn). exists bytes. split; [done|]. exists certificates. split; [done|]. by destruct certificates.
Qed.

Lemma load_key_Ok disk path key : load_key pki disk path = Ok key <-> holds_key disk path key.
Proof.
  unfold load_key, holds_key. rewrite with_context_Ok, bind_result_Ok. setoid_rewrite as_error_Ok. done.
Qed.

Lemma load_revocations_Ok disk path lists :
  load_revocations pki disk path = Ok lists <-> holds_revocations disk path lists.
Proof.
  unfold load_revocations, holds_revocations. rewrite bind_result_Ok. setoid_rewrite bind_result_Ok.
  setoid_rewrite with_context_Ok. setoid_rewrite as_error_Ok. split.
  - intros (bytes & Hd & cs & Hp & H). destruct cs as [|c cs]; [done|]. injection H as <-. eauto.
  - intros (bytes & Hd & Hp & Hn). exists bytes. split; [done|]. exists lists. split; [done|]. by destruct lists.
Qed.

Lemma add_roots_Ok path certificates : add_roots pki path certificates = Ok tt <-> Forall (fun c => add_root pki c = Ok tt) certificates.
Proof.
  induction certificates as [|c rest IH]; simpl; [split; [constructor|done]|].
  rewrite bind_result_Ok, Forall_cons. split.
  - intros ([] & H%with_context_Ok%as_error_Ok & HF%IH). done.
  - intros [H HF%IH]. exists tt. by rewrite with_context_Ok, as_error_Ok.
Qed.

(** What a listener demands of its clients, read off the settings and the files. *)
Definition demands_of_clients (disk : nat -> Disk) (settings : TlsSettings) (v : option ClientVerifier) : Prop :=
  match client_ca settings, v with
  | None, None => True
  | Some path, Some v =>
    holds_certificates (disk 2%nat) path (roots v) /\
    Forall (fun c => add_root pki c = Ok tt) (roots v) /\
    build_verifier pki v = Ok tt /\
    match crl settings, revocation v with
    | None, None => True
    | Some list, Some r => holds_revocations (disk 3%nat) list (revoked r) /\ end_entity_only r = true /\ expiry_enforced r = true
    | _, _ => False
    end
  | _, _ => False
  end.

Lemma verifier_of_Ok disk settings v : verifier_of pki disk settings = Ok v <-> demands_of_clients disk settings v.
Proof.
  unfold verifier_of, demands_of_clients. destruct (client_ca settings) as [path|].
  2: { destruct v; split; try done. }
  rewrite bind_result_Ok. setoid_rewrite load_certificates_Ok. split.
  - intros (authorities & Hc & ([] & Ha%add_roots_Ok & (rev & Hr & ([] & Hb%with_context_Ok%as_error_Ok & [= <-])%bind_result_Ok)%bind_result_Ok)%bind_result_Ok).
    simpl. split_and!; try done. destruct (crl settings) as [list|]; [|by injection Hr as <-].
    apply bind_result_Ok in Hr as (lists & Hl%load_revocations_Ok & [= <-]). done.
  - destruct v as [v|]; [|done]. intros (Hc & Ha & Hb & Hr). exists (roots v). split; [done|].
    apply bind_result_Ok. exists tt. rewrite add_roots_Ok. split; [done|]. apply bind_result_Ok. exists (revocation v). split.
    + destruct (crl settings) as [list|], (revocation v) as [[lists e x]|]; simpl in *; try done.
      destruct Hr as (Hl & -> & ->). apply bind_result_Ok. exists lists. by rewrite load_revocations_Ok.
    + replace (mkVerifier (roots v) (revocation v)) with v by (by destruct v). apply bind_result_Ok. exists tt.
      rewrite with_context_Ok, as_error_Ok. done.
Qed.

Lemma build_demands disk settings c leaf :
  build pki disk settings = Ok (c, leaf) -> demands_of_clients disk settings (client_verifier c).
Proof.
  intros (certificates & _ & (key & _ & (v & Hd%verifier_of_Ok & ([] & _ & [= <- _])%bind_result_Ok)%bind_result_Ok)%bind_result_Ok)%bind_result_Ok.
  exact Hd.
Qed.

(** C35: a listener is exactly what its settings and files say. A configuration is built if and only if
    the certificate file holds at least one certificate, the key file a key, and the two are
    accepted together; and, when an authority is named, its file holds at least one certificate and
    all of them are accepted, and, when a list is named too, its file holds at least one. What is
    built presents those certificates, accepts the versions from the configured one up and no other,
    demands a client certificate exactly when an authority is named, of exactly its certificates, and
    checks it against exactly the lists of the file, refusing when they are out of date; and it is
    reported under the digest of the certificate it presents. *)
Theorem listener_is_what_the_settings_say (disk : nat -> Disk) (settings : TlsSettings) (c : ServerConfig) (leaf : string) :
  build pki disk settings = Ok (c, leaf) <->
  holds_certificates (disk 0%nat) (certificate settings) (chain c) /\
  holds_key (disk 1%nat) (tls_key settings) (private_key c) /\
  single_cert pki (versions c) (chain c) (private_key c) = Ok tt /\
  versions c = List.filter (fun v => match min_version settings, v with V1_3, V1_2 => false | _, _ => true end) TLS_VERSIONS /\
  demands_of_clients disk settings (client_verifier c) /\
  alpn_protocols c = ["h2"; "http/1.1"] /\
  exists first rest, chain c = first :: rest /\ leaf = fingerprint pki first.
Proof.
  assert (Hv : forall m, supported m = List.filter (fun v => match m, v with V1_3, V1_2 => false | _, _ => true end) TLS_VERSIONS) by (by intros []).
  rewrite <- (Hv (min_version settings)). unfold build. split.
  - intros (certificates & Hc%load_certificates_Ok & (key & Hk%load_key_Ok & (v & Hd%verifier_of_Ok & ([] & Hs%with_context_Ok%as_error_Ok & [= <- <-])%bind_result_Ok)%bind_result_Ok)%bind_result_Ok)%bind_result_Ok.
    simpl. split_and!; try done. destruct Hc as (bytes & _ & _ & Hn). destruct certificates as [|first rest]; [done|]. eauto.
  - intros (Hc & Hk & Hs & Ev & Hd & Ea & first & rest & Ec & ->). apply bind_result_Ok. exists (chain c). rewrite load_certificates_Ok. split; [done|].
    apply bind_result_Ok. exists (private_key c). rewrite load_key_Ok. split; [done|].
    apply bind_result_Ok. exists (client_verifier c). rewrite verifier_of_Ok. split; [done|].
    apply bind_result_Ok. exists tt. rewrite with_context_Ok, as_error_Ok, <- Ev. split; [done|]. rewrite Ec. destruct c; simpl in *. by subst.
Qed.
End MaterialProperties.
