(* ===== verification/Reload.v ===== *)
(** * Starting a listener and re-reading its material ([crates/pic-x-transport/src/reload.rs], and
    [Listener::start] and [Surface::stop] of [surface.rs])

    The process is a state: the surfaces whose material is alive, the registry a signal walks, the
    watchers, the metrics and the records of what happened. [disk] is the history of the disk:
    what a path yields at each moment. A read takes a moment, so other processes may write between
    any two reads, and [Pass] lets any number of moments go by. A registry entry is the number of
    a surface: the weak reference is dead when the surface is gone. *)
From S2P Require Import Prelude Rust Text Access Settings Limits Metrics Material.
Local Open Scope Z_scope.
Local Open Scope rust_scope.

(** One live surface, in the form a reload needs it. [config] is what the listener serves with. *)
Record Reloadable := mkReloadable {
  address : string;
  settings : TlsSettings;
  config : ServerConfig;
  seen : list (option string);
  surface : string;
  recording : bool }.

Inductive Reason := BySignal | ByChange.

(** The records of a reload. *)
Inductive LogRecord :=
| TlsReloaded (surface : nat) (reason : Reason) (fingerprint : string)
| TlsReloadFailed (surface : nat) (reason : Reason) (error : Error).

(** Where the task of [watch] is: asleep for the interval, or letting a change settle. *)
Inductive Phase := Sleeping | Settling.

Record Process := mkProcess {
  moment : nat;
  surfaces : gmap nat Reloadable;
  registered : list nat;
  watchers : gmap nat Phase;
  recorded : option Registry;
  records : list LogRecord;
  next_surface : nat }.

Definition process_new (m : option Registry) : Process := mkProcess 0 ∅ [] ∅ m [] 0.

Definition set_surfaces (f : gmap nat Reloadable -> gmap nat Reloadable) (p : Process) : Process :=
  mkProcess (moment p) (f (surfaces p)) (registered p) (watchers p) (recorded p) (records p) (next_surface p).
Definition set_registered (l : list nat) (p : Process) : Process :=
  mkProcess (moment p) (surfaces p) l (watchers p) (recorded p) (records p) (next_surface p).
Definition set_watchers (f : gmap nat Phase -> gmap nat Phase) (p : Process) : Process :=
  mkProcess (moment p) (surfaces p) (registered p) (f (watchers p)) (recorded p) (records p) (next_surface p).
Definition pass (n : nat) (p : Process) : Process :=
  mkProcess (moment p + n) (surfaces p) (registered p) (watchers p) (recorded p) (records p) (next_surface p).
Definition set_recorded (m : option Registry) (p : Process) : Process :=
  mkProcess (moment p) (surfaces p) (registered p) (watchers p) m (records p) (next_surface p).
Definition add_record (r : LogRecord) (p : Process) : Process :=
  mkProcess (moment p) (surfaces p) (registered p) (watchers p) (recorded p) (records p ++ [r]) (next_surface p).

(** The outcome of a pass over every surface. *)
Record Reloaded := mkReloaded { reloaded : nat; failed : nat }.

(** [SETTLE] and the settling time of [watch], in milliseconds. *)
Definition SETTLE : Z := 1000.
Definition settle (interval : Z) : Z := Z.max (Z.min SETTLE (interval / 2)) 1.

(** What the sockets answer. *)
Record Net := mkNet {
  parse_address : string -> result string string;
  bind : string -> result unit string;
  set_nonblocking : string -> result unit string;
  local_addr : string -> result string string }.

(** [Listener], without its router. *)
Record Listener := mkListener {
  listener_surface : string;
  listener_address : string;
  listener_tls : option TlsSettings;
  listener_limits : Limits;
  listener_metrics : bool }.

(** [Surface::listener]. *)
Definition listener_new (name addr : string) : Listener := mkListener name addr None default_limits false.

(** A started surface. *)
Record Started := mkStarted { bound : string; material : option nat; watched : bool; allowed_peers : list AllowedPeer }.

Section Reload.
Context (pki : Pki) (disk : nat -> Disk) (clock : nat -> Z) (net : Net).

(** The disk from a moment on. *)
Definition from (t : nat) : nat -> Disk := fun i => disk (t + i)%nat.

(** [fingerprint_of] and [fingerprints]. *)
Definition fingerprint_of (d : Disk) (path : string) : option string :=
  match d path with Ok bytes => Some (digest pki bytes) | Err _ => None end.
Definition fingerprints (t : nat) (s : TlsSettings) : list (option string) :=
  imap (fun i path => fingerprint_of (disk (t + i)%nat) path) (tls_files s).
Definition fingerprinting (s : TlsSettings) : nat := length (tls_files s).

(** [Reloadable::new] and [measured]. *)
Definition reloadable_new (t : nat) (addr : string) (s : TlsSettings) (c : ServerConfig) : Reloadable :=
  mkReloadable addr s c (fingerprints t s) "surface" false.
Definition measured (name : string) (m : bool) (r : Reloadable) : Reloadable :=
  mkReloadable (address r) (settings r) (config r) (seen r) name m.

Definition install (c : ServerConfig) (r : Reloadable) : Reloadable :=
  mkReloadable (address r) (settings r) c (seen r) (surface r) (recording r).
Definition account (l : list (option string)) (r : Reloadable) : Reloadable :=
  mkReloadable (address r) (settings r) (config r) l (surface r) (recording r).

(** [changed]. *)
Definition changed (t : nat) (r : Reloadable) : bool := negb (bool_decide (fingerprints t (settings r) = seen r)).

(** [remember]. *)
Definition remember (id : nat) (r : Reloadable) (p : Process) : Process :=
  pass (fingerprinting (settings r)) (set_surfaces <[id := account (fingerprints (moment p) (settings r)) r]> p).

(** The measuring of the material, into the registry of a surface that has one. *)
Definition measure (r : Reloadable) (p : Process) : Process :=
  pass 2 (if recording r
          then set_recorded (fst (record_certificate_expiry pki (from (moment p)) (clock (moment p)) (surface r) (settings r) (recorded p))) p
          else p).

(** [reload]: four reads, then the swap, then the measuring. *)
Definition reload (id : nat) (r : Reloadable) (p : Process) : result string Error * Process :=
  match build pki (from (moment p)) (settings r) with
  | Ok (c, leaf) => (Ok leaf, measure r (set_surfaces <[id := install c r]> (pass 4 p)))
  | Err e => (Err e, pass 4 p)
  end.

(** [remember], [reload] and the record of it, as [reload_all] and [watch] do them. *)
Definition refresh (id : nat) (reason : Reason) (r : Reloadable) (p : Process) : bool * Process :=
  let p1 := remember id r p in
  match reload id (account (fingerprints (moment p) (settings r)) r) p1 with
  | (Ok leaf, p2) => (true, add_record (TlsReloaded id reason leaf) p2)
  | (Err e, p2) => (false, add_record (TlsReloadFailed id reason e) p2)
  end.

(** The entries whose surface is alive. *)
Definition living (p : Process) : list nat := List.filter (fun id => bool_decide (is_Some (surfaces p !! id))) (registered p).

(** [register]. *)
Definition register (id : nat) (p : Process) : Process := set_registered (living p ++ [id]) p.

(** The loop of [reload_all]. *)
Fixpoint reload_each (ids : list nat) (p : Process) : Reloaded * Process :=
  match ids with
  | [] => (mkReloaded 0 0, p)
  | id :: rest =>
    match surfaces p !! id with
    | None => reload_each rest p
    | Some r =>
      let '(ok, p1) := refresh id BySignal r p in
      let '(o, p2) := reload_each rest p1 in
      (if ok then mkReloaded (S (reloaded o)) (failed o) else mkReloaded (reloaded o) (S (failed o)), p2)
    end
  end.

(** [reload_all]. *)
Definition reload_all (p : Process) : Reloaded * Process :=
  reload_each (living p) (set_registered (living p) p).

(** [watch], at the end of its first sleep and at the end of its second. *)
Definition watch_tick (id : nat) (p : Process) : Process :=
  match surfaces p !! id with
  | None => set_watchers (delete id) p
  | Some r =>
    let p1 := pass (fingerprinting (settings r)) p in
    if changed (moment p) r then set_watchers <[id := Settling]> p1 else p1
  end.

Definition watch_settled (id : nat) (p : Process) : Process :=
  match surfaces p !! id with
  | None => set_watchers (delete id) p
  | Some r => set_watchers <[id := Sleeping]> (snd (refresh id ByChange r p))
  end.

(** The sockets of [Listener::start]. *)
Definition bind_socket (addr : string) : result string Error :=
  let? parsed := with_context ("reading the listen address `" +:+ addr +:+ "`") (as_error (parse_address net addr)) in
  let? _ := with_context ("binding " +:+ parsed) (as_error (bind net parsed)) in
  let? _ := with_context ("preparing the listener on " +:+ parsed) (as_error (set_nonblocking net parsed)) in
  with_context ("reading back the address of " +:+ parsed) (as_error (local_addr net parsed)).

(** The end of [Listener::start] for a listener with TLS: measured, recorded, registered, watched. *)
Definition keep_material (l : Listener) (addr : string) (s : TlsSettings) (c : ServerConfig) (p : Process) : Started * Process :=
  let id := next_surface p in
  let p1 := measure (mkReloadable addr s c [] (listener_surface l) (listener_metrics l)) p in
  let r := measured (listener_surface l) (listener_metrics l) (reloadable_new (moment p1) addr s c) in
  let p2 := pass (fingerprinting s) (set_surfaces <[id := r]> p1) in
  let p3 := register id p2 in
  let p4 := if bool_decide (is_Some (Settings.reload s)) then set_watchers <[id := Sleeping]> p3 else p3 in
  (mkStarted addr (Some id) (bool_decide (is_Some (Settings.reload s))) (tls_allow s),
   mkProcess (moment p4) (surfaces p4) (registered p4) (watchers p4) (recorded p4) (records p4) (S id)).

(** [Listener::start]. *)
Definition listener_start (l : Listener) (p : Process) : result Started Error * Process :=
  match bind_socket (listener_address l) with
  | Err e => (Err e, p)
  | Ok addr =>
    match listener_tls l with
    | None => (Ok (mkStarted addr None false []), p)
    | Some s =>
      match server_config pki (from (moment p)) s with
      | Err e => (Err e, pass 4 p)
      | Ok c => let '(started, p') := keep_material l addr s c (pass 4 p) in (Ok started, p')
      end
    end
  end.

(** [Surface::stop]: the watcher is aborted, and the last strong reference dropped. *)
Definition surface_stop (s : Started) (p : Process) : Process :=
  match material s with
  | Some id => set_surfaces (delete id) (set_watchers (delete id) p)
  | None => p
  end.

(** ** Histories *)

Inductive Event :=
| Pass (n : nat)
| Start (l : Listener)
| Stop (s : Started)
| Signal
| Woken (id : nat).

(** A watcher that wakes does what its phase says. *)
Definition step (e : Event) (p : Process) : Process :=
  match e with
  | Pass n => pass n p
  | Start l => snd (listener_start l p)
  | Stop s => surface_stop s p
  | Signal => snd (reload_all p)
  | Woken id =>
    match watchers p !! id with
    | Some Sleeping => watch_tick id p
    | Some Settling => watch_settled id p
    | None => p
    end
  end.

Definition run (es : list Event) (p : Process) : Process := fold_left (fun p e => step e p) es p.
End Reload.
