(* ===== verification/ReloadProperties.v ===== *)
(** * What re-reading keeps and what it reaches

    [listeners_serve_whole_material]: no history of starts, signals, wakings and stops leaves a listener
    with anything but a configuration that was built whole. [watcher_follows_the_files]: once the files
    rest, a watched listener serves them, or keeps what it had and says so once. *)
From S2P Require Import Prelude Rust Access Settings Limits Metrics Material Reload.
Local Open Scope Z_scope.

Section ReloadProperties.
Context (pki : Pki) (disk : nat -> Disk) (clock : nat -> Z) (net : Net).

Local Abbreviation refresh := (refresh pki disk clock).
Local Abbreviation step := (step pki disk clock net).
Local Abbreviation run := (run pki disk clock net).
Local Abbreviation fingerprints := (fingerprints pki disk).
Local Abbreviation from := (from disk).

(** ** Whole material *)

(** The configuration was built from the files as they were read from some moment on. *)
Definition whole (now : nat) (r : Reloadable) : Prop :=
  exists t leaf, (t <= now)%nat /\ build pki (from t) (settings r) = Ok (config r, leaf).

Definition all_whole (p : Process) : Prop := forall id r, surfaces p !! id = Some r -> whole (moment p) r.

Lemma whole_later now now' r : (now <= now')%nat -> whole now r -> whole now' r.
Proof. intros H (t & leaf & Ht & Hb). exists t, leaf. split; [lia|done]. Qed.

(** Time goes on, and the surfaces change only as said. *)
Definition moves (f : gmap nat Reloadable -> gmap nat Reloadable) (p p' : Process) : Prop :=
  (moment p <= moment p')%nat /\ surfaces p' = f (surfaces p).

Lemma all_whole_same p p' : moves id p p' -> all_whole p -> all_whole p'.
Proof. intros [Hm Hs] H i r. rewrite Hs. intros Hr. eapply whole_later; [exact Hm|]. by eapply H. Qed.

Lemma all_whole_insert i r p p' : moves <[i := r]> p p' -> whole (moment p') r -> all_whole p -> all_whole p'.
Proof.
  intros [Hm Hs] Hr H j r'. rewrite Hs. destruct (decide (i = j)) as [<-|Hne].
  - rewrite lookup_insert_eq. by intros [= <-].
  - rewrite lookup_insert_ne by done. intros Hj. eapply whole_later; [exact Hm|]. by eapply H.
Qed.

Lemma all_whole_delete i p p' : moves (delete i) p p' -> all_whole p -> all_whole p'.
Proof. intros [Hm Hs] H j r. rewrite Hs. intros [_ Hj]%lookup_delete_Some. eapply whole_later; [exact Hm|]. by eapply H. Qed.

Lemma measure_moves r p : moves id p (measure pki disk clock r p).
Proof. unfold measure. split; destruct (recording r); simpl; [lia|lia|done|done]. Qed.

(** What a refresh of a surface does, on both of its branches. *)
Lemma refresh_spec i reason r p ok p' :
  refresh i reason r p = (ok, p') ->
  let r1 := account (fingerprints (moment p) (settings r)) r in
  match build pki (from (moment p + fingerprinting (settings r))) (settings r) with
  | Ok (c, leaf) => ok = true /\ surfaces p' = <[i := install c r1]> (surfaces p) /\ records p' = records p ++ [TlsReloaded i reason leaf]
  | Err e => ok = false /\ surfaces p' = <[i := r1]> (surfaces p) /\ records p' = records p ++ [TlsReloadFailed i reason e]
  end /\
  (moment p + fingerprinting (settings r) <= moment p')%nat /\ watchers p' = watchers p /\ registered p' = registered p /\ next_surface p' = next_surface p.
Proof.
  unfold Reload.refresh, reload, remember. simpl. intros H.
  destruct (build pki (from (moment p + fingerprinting (settings r))) (settings r)) as [[c leaf]|e]; simpl in H; injection H as <- <-; simpl.
  - unfold measure. simpl. destruct (recording r); simpl; rewrite insert_insert_eq; split_and!; done || lia.
  - split_and!; done || lia.
Qed.

Lemma refresh_whole i reason r p :
  surfaces p !! i = Some r -> all_whole p -> all_whole (snd (refresh i reason r p)).
Proof.
  intros Hi H. destruct (refresh i reason r p) as [ok p'] eqn:E. simpl.
  destruct (refresh_spec _ _ _ _ _ _ E) as [Hb (Hm & _)].
  destruct (build pki _ (settings r)) as [[c leaf]|e] eqn:Eb; destruct Hb as (_ & Hs & _).
  - eapply all_whole_insert; [split; [|exact Hs]; lia| |done]. eexists _, leaf. split; [exact Hm|exact Eb].
  - eapply all_whole_insert; [split; [|exact Hs]; lia| |done]. apply (whole_later (moment p)); [lia|]. exact (H i r Hi).
Qed.

Lemma reload_each_whole ids p : all_whole p -> all_whole (snd (reload_each pki disk clock ids p)).
Proof.
  revert p. induction ids as [|i ids IH]; intros p H; simpl; [done|]. destruct (surfaces p !! i) as [r|] eqn:E; [|by apply IH].
  pose proof (refresh_whole i BySignal r p E H) as H1. destruct (refresh i BySignal r p) as [ok p1]. simpl in H1.
  specialize (IH p1 H1). destruct (reload_each _ _ _ ids p1) as [o p2]. done.
Qed.

Lemma keep_material_whole l addr s c t leaf p :
  (t <= moment p)%nat -> build pki (from t) s = Ok (c, leaf) -> all_whole p ->
  all_whole (snd (keep_material pki disk clock l addr s c p)).
Proof.
  intros Ht Hb H. unfold keep_material. set (m := mkReloadable addr s c [] _ _).
  destruct (measure_moves m p) as [Hm Hs]. set (p1 := measure pki disk clock m p) in *. unfold id in Hs. clearbody p1.
  set (r := measured _ _ (reloadable_new pki disk (moment p1) addr s c)).
  eapply (all_whole_insert (next_surface p) r p); [|exists t, leaf|done].
  - split; case_bool_decide; simpl; lia || by rewrite Hs.
  - split; [|exact Hb]. case_bool_decide; simpl; lia.
Qed.

Lemma start_whole l p : all_whole p -> all_whole (snd (listener_start pki disk clock net l p)).
Proof.
  intros H. unfold listener_start. destruct (bind_socket net _) as [addr|e]; [|done]. destruct (listener_tls l) as [s|]; [|done].
  unfold server_config. destruct (build pki (from (moment p)) s) as [[c leaf]|e] eqn:E; cbn [bind_result fst].
  - pose proof (keep_material_whole l addr s c (moment p) leaf (pass 4 p) ltac:(simpl; lia) E) as Hk.
    destruct (keep_material _ _ _ l addr s c (pass 4 p)) as [started p']. apply Hk. eapply all_whole_same; [|exact H]. split; simpl; [lia|done].
  - eapply all_whole_same; [|exact H]. split; simpl; [lia|done].
Qed.

Lemma step_whole e p : all_whole p -> all_whole (step e p).
Proof.
  intros H. destruct e as [n|l|s| |i]; simpl.
  - eapply all_whole_same; [|exact H]. split; simpl; [lia|done].
  - by apply start_whole.
  - unfold surface_stop. destruct (material s) as [i|]; [|done]. by eapply (all_whole_delete i p).
  - apply reload_each_whole. by eapply (all_whole_same p).
  - destruct (watchers p !! i) as [[]|]; [| |done].
    + unfold watch_tick. destruct (surfaces p !! i) as [r|]; [|by eapply (all_whole_same p)].
      destruct (changed _ _ _ r); (eapply (all_whole_same p); [split; simpl; [lia|done]|done]).
    + unfold watch_settled. destruct (surfaces p !! i) as [r|] eqn:E; [|by eapply (all_whole_same p)].
      pose proof (refresh_whole i ByChange r p E H) as H1. destruct (refresh i ByChange r p) as [ok p1]. by eapply (all_whole_same p1).
Qed.

Lemma run_whole es p : all_whole p -> all_whole (run es p).
Proof. revert p. induction es as [|e es IH]; intros p H; simpl; [done|]. apply IH, step_whole, H. Qed.

(** ** The registry *)

(** Every surface is in the registry once, and numbers are not used again. *)
Definition registry_sound (p : Process) : Prop :=
  NoDup (registered p) /\
  (forall i, i ∈ registered p -> (i < next_surface p)%nat) /\
  (forall i, is_Some (surfaces p !! i) -> i ∈ registered p).

(** Same registry, no new surface. *)
Definition keeps_registry (p p' : Process) : Prop :=
  registered p' = registered p /\ next_surface p' = next_surface p /\ (forall i, is_Some (surfaces p' !! i) -> is_Some (surfaces p !! i)).

Lemma registry_kept p p' : keeps_registry p p' -> registry_sound p -> registry_sound p'.
Proof. intros (Hr & Hn & Hs) (Hd & Hb & Ha). unfold registry_sound. rewrite Hr, Hn. split_and!; auto. Qed.

Lemma living_sound p : registry_sound p -> registry_sound (set_registered (living p) p).
Proof.
  intros (Hd & Hb & Ha). unfold living. split_and!; simpl.
  - apply NoDup_ListNoDup, List.NoDup_filter, NoDup_ListNoDup, Hd.
  - intros i Hi%list_elem_of_In%filter_In. apply Hb, list_elem_of_In. tauto.
  - intros i Hi. apply list_elem_of_In, filter_In. split; [by apply list_elem_of_In, Ha|by apply bool_decide_true].
Qed.

Lemma refresh_keeps_registry i reason r p : surfaces p !! i = Some r -> keeps_registry p (snd (refresh i reason r p)).
Proof.
  intros Hi. destruct (refresh i reason r p) as [ok p'] eqn:E. destruct (refresh_spec _ _ _ _ _ _ E) as [Hb (_ & _ & Hr & Hn)].
  split_and!; [done|done|]. intros j. simpl.
  destruct (build pki _ _) as [[c leaf]|e]; destruct Hb as (_ & -> & _); (destruct (decide (i = j)) as [<-|]; [intros _; by eexists|by rewrite lookup_insert_ne]).
Qed.

Lemma keeps_registry_trans p p' p'' : keeps_registry p p' -> keeps_registry p' p'' -> keeps_registry p p''.
Proof. intros (A & B & C) (A' & B' & C'). split_and!; [congruence|congruence|]. intros i Hi. auto. Qed.

Lemma reload_each_keeps_registry ids p : keeps_registry p (snd (reload_each pki disk clock ids p)).
Proof.
  revert p. induction ids as [|i ids IH]; intros p; simpl; [done|]. destruct (surfaces p !! i) as [r|] eqn:E; [|apply IH].
  pose proof (refresh_keeps_registry i BySignal r p E) as H1. destruct (refresh i BySignal r p) as [ok p1]. simpl in H1.
  specialize (IH p1). destruct (reload_each _ _ _ ids p1) as [o p2]. by eapply keeps_registry_trans.
Qed.

Lemma start_registry l p : registry_sound p -> registry_sound (snd (listener_start pki disk clock net l p)).
Proof.
  intros H. unfold listener_start. destruct (bind_socket net _) as [addr|e]; [|done]. destruct (listener_tls l) as [s|]; [|done].
  unfold server_config. destruct (build pki (from (moment p)) s) as [[c leaf]|e]; [|by eapply registry_kept; [|exact H]].
  cbn [bind_result fst]. unfold keep_material. set (m := mkReloadable addr s c [] _ _). set (p1 := measure pki disk clock m (pass 4 p)).
  assert (E : surfaces p1 = surfaces p /\ registered p1 = registered p /\ next_surface p1 = next_surface p) by (unfold p1, measure; by destruct (recording m)).
  clearbody p1. destruct E as (Es & Er & En). set (r := measured _ _ _). set (i := next_surface (pass 4 p)).
  destruct H as (Hd & Hb & Ha). assert (Hi : i ∉ registered p) by (intros Hi%Hb; unfold i in Hi; simpl in Hi; lia).
  set (p2 := pass _ _). assert (Hl : forall j, j ∈ living p2 <-> (j ∈ registered p /\ (j = i \/ is_Some (surfaces p !! j)))).
  { intros j. unfold living. rewrite list_elem_of_In, filter_In, <- list_elem_of_In, bool_decide_eq_true. unfold p2; simpl. rewrite Er, Es.
    destruct (decide (i = j)) as [<-|]; [rewrite lookup_insert_eq; split; intros []; eauto|]. rewrite lookup_insert_ne by done. split; intros []; split; auto. destruct_or!; done. }
  assert (registry_sound (mkProcess (moment p2) (surfaces p2) (living p2 ++ [i]) (watchers p2) (recorded p2) (records p2) (S i))) as Hf.
  { split_and!; simpl.
    - apply NoDup_app. split_and!; [|intros j [Hj _]%Hl ->%list_elem_of_singleton; done|apply NoDup_singleton].
      apply NoDup_ListNoDup, List.NoDup_filter, NoDup_ListNoDup. unfold p2; simpl. by rewrite Er.
    - intros j [[Hj%Hb _]%Hl|Hj%list_elem_of_singleton]%elem_of_app; unfold i in *; simpl in *; lia.
    - intros j. rewrite Es. destruct (decide (i = j)) as [<-|]; [intros _; set_solver|]. rewrite lookup_insert_ne by done. intros Hj.
      apply elem_of_app. left. apply Hl. auto. }
  case_bool_decide; exact Hf.
Qed.

Lemma step_registry e p : registry_sound p -> registry_sound (step e p).
Proof.
  intros H. destruct e as [n|l|s| |i]; simpl; [by eapply registry_kept; [|exact H]|by apply start_registry| | |].
  - unfold surface_stop. destruct (material s) as [i|]; [|done]. eapply registry_kept; [|exact H]. split_and!; simpl; try done.
    intros j [r [_ Hj]%lookup_delete_Some]. by exists r.
  - eapply registry_kept; [apply reload_each_keeps_registry|]. by apply living_sound.
  - destruct (watchers p !! i) as [[]|]; [| |done].
    + unfold watch_tick. destruct (surfaces p !! i) as [r|]; [|by eapply registry_kept; [|exact H]].
      destruct (changed _ _ _ r); by eapply registry_kept; [|exact H].
    + unfold watch_settled. destruct (surfaces p !! i) as [r|] eqn:E; [|by eapply registry_kept; [|exact H]].
      eapply registry_kept; [|exact H]. pose proof (refresh_keeps_registry i ByChange r p E) as Hk. by destruct (refresh i ByChange r p).
Qed.

Lemma run_registry es p : registry_sound p -> registry_sound (run es p).
Proof. revert p. induction es as [|e es IH]; intros p H; simpl; [done|]. apply IH, step_registry, H. Qed.

Lemma living_all p : registry_sound p -> forall i, i ∈ living p <-> is_Some (surfaces p !! i).
Proof.
  intros (_ & _ & Ha) i. unfold living. rewrite list_elem_of_In, filter_In, <- list_elem_of_In, bool_decide_eq_true. split; [tauto|]. auto.
Qed.

(** ** A signal *)

(** What became of a surface that was read again from the moment [t] on. *)
Definition read_again (reason : Reason) (t i : nat) (r : Reloadable) (p' : Process) : Prop :=
  let r1 := account (fingerprints t (settings r)) r in
  match build pki (from (t + fingerprinting (settings r))) (settings r) with
  | Ok (c, leaf) => surfaces p' !! i = Some (install c r1) /\ TlsReloaded i reason leaf ∈ records p'
  | Err e => surfaces p' !! i = Some r1 /\ TlsReloadFailed i reason e ∈ records p'
  end.

Lemma refresh_reads_again i reason r p : read_again reason (moment p) i r (snd (refresh i reason r p)).
Proof.
  destruct (refresh i reason r p) as [ok p'] eqn:E. destruct (refresh_spec _ _ _ _ _ _ E) as [Hb _]. unfold read_again. simpl.
  destruct (build pki _ _) as [[c leaf]|e]; destruct Hb as (_ & -> & ->); rewrite lookup_insert_eq; (split; [done|set_solver]).
Qed.

Lemma reload_each_others ids p j :
  j ∉ ids -> surfaces (snd (reload_each pki disk clock ids p)) !! j = surfaces p !! j.
Proof.
  revert p. induction ids as [|i ids IH]; intros p Hj; simpl; [done|]. apply not_elem_of_cons in Hj as [Hne Hj].
  destruct (surfaces p !! i) as [r|]; [|by apply IH]. destruct (refresh i BySignal r p) as [ok p1] eqn:E.
  specialize (IH p1 Hj). destruct (reload_each _ _ _ ids p1) as [o p2]. simpl in *. rewrite IH.
  destruct (refresh_spec _ _ _ _ _ _ E) as [Hb _]. destruct (build pki _ _) as [[c leaf]|e]; destruct Hb as (_ & -> & _); by rewrite lookup_insert_ne.
Qed.

Lemma reload_each_records ids p : exists l, records (snd (reload_each pki disk clock ids p)) = records p ++ l.
Proof.
  revert p. induction ids as [|i ids IH]; intros p; simpl; [exists []; by rewrite app_nil_r|]. destruct (surfaces p !! i) as [r|]; [|apply IH].
  destruct (refresh i BySignal r p) as [ok p1] eqn:E. destruct (IH p1) as [l Hl]. destruct (reload_each _ _ _ ids p1) as [o p2]. simpl in *.
  destruct (refresh_spec _ _ _ _ _ _ E) as [Hb _]. destruct (build pki _ _) as [[c leaf]|e]; destruct Hb as (_ & _ & Hr); rewrite Hl, Hr, <- app_assoc; by eexists.
Qed.

Lemma read_again_later reason t i r p' p'' l :
  surfaces p'' !! i = surfaces p' !! i -> records p'' = records p' ++ l -> read_again reason t i r p' -> read_again reason t i r p''.
Proof.
  unfold read_again. intros Hs Hr. rewrite Hs, Hr. destruct (build pki _ _) as [[c leaf]|e]; intros [H1 H2]; (split; [done|]; set_solver).
Qed.

Lemma reload_each_reads_again ids p :
  NoDup ids -> (forall i, i ∈ ids -> is_Some (surfaces p !! i)) ->
  let '(o, p') := reload_each pki disk clock ids p in
  (reloaded o + failed o = length ids)%nat /\
  forall i r, i ∈ ids -> surfaces p !! i = Some r -> exists t, (moment p <= t)%nat /\ read_again BySignal t i r p'.
Proof.
  revert p. induction ids as [|i ids IH]; intros p Hd Hs; simpl; [split; [done|set_solver]|].
  apply NoDup_cons in Hd as [Hi Hd]. destruct (Hs i ltac:(set_solver)) as [r Hr]. rewrite Hr.
  pose proof (refresh_reads_again i BySignal r p) as Ha. destruct (refresh i BySignal r p) as [ok p1] eqn:E. simpl in Ha.
  destruct (refresh_spec _ _ _ _ _ _ E) as [Hb (Hm & _)].
  assert (Ho : forall j, j <> i -> surfaces p1 !! j = surfaces p !! j).
  { intros j Hj. destruct (build pki _ _) as [[c leaf]|e]; destruct Hb as (_ & -> & _); by rewrite lookup_insert_ne. }
  pose proof (reload_each_others ids p1 i Hi) as Hk. destruct (reload_each_records ids p1) as [l Hl].
  specialize (IH p1 Hd). destruct (reload_each _ _ _ ids p1) as [o p2]. simpl in Hk, Hl.
  destruct IH as [Hc IH]; [intros j Hj; rewrite Ho; [apply Hs; set_solver|by intros ->]|]. split; [destruct ok; simpl; lia|].
  intros j r' [->|Hj]%elem_of_cons Hj'.
  - rewrite Hr in Hj'. injection Hj' as <-. exists (moment p). split; [lia|]. by eapply read_again_later.
  - rewrite <- Ho in Hj' by (by intros ->). destruct (IH j r' Hj Hj') as (t & Ht & H). exists t. split; [lia|done].
Qed.

(** C33: no reload breaks a listener, and a signal reaches every one. After any history of starts, stops,
    signals, wakings of watchers and writes to the disk, every live listener serves a configuration
    that was built whole from its settings and the files as they were read at some earlier moment.
    A signal then reads every live listener's files again, and counts each once: where they build, what
    was built is installed and its certificate recorded; where they do not, the listener keeps exactly
    the configuration it had and the failure is recorded. *)
Theorem listeners_serve_whole_material (es : list Event) (m : option Registry) :
  let p := run es (process_new m) in
  (forall i r, surfaces p !! i = Some r -> whole (moment p) r) /\
  let '(o, p') := reload_all pki disk clock p in
  (reloaded o + failed o = size (surfaces p))%nat /\
  (forall i, is_Some (surfaces p' !! i) <-> is_Some (surfaces p !! i)) /\
  (forall i r, surfaces p !! i = Some r -> exists t, (moment p <= t)%nat /\ read_again BySignal t i r p').
Proof.
  intros p. assert (Hw : all_whole p) by (apply run_whole; intros i r; simpl; by rewrite lookup_empty).
  assert (Hr : registry_sound p) by (apply run_registry; split_and!; simpl; [constructor|set_solver|intros i [r H]; by rewrite lookup_empty in H]).
  split; [exact Hw|]. pose proof (living_all p Hr) as Hl. assert (Hn : NoDup (living p)) by apply (living_sound p Hr).
  pose proof (reload_each_reads_again (living p) (set_registered (living p) p) Hn (fun i => proj1 (Hl i))) as H.
  pose proof (reload_each_keeps_registry (living p) (set_registered (living p) p)) as (_ & _ & Hk). unfold reload_all.
  destruct (reload_each _ _ _ _ _) as [o p']. destruct H as [Hc H]. simpl in *. split_and!.
  - rewrite Hc. rewrite <- (size_dom (D := gset nat)), <- (size_list_to_set (C := gset nat)) by done. f_equal. apply set_eq. intros i. rewrite elem_of_list_to_set, Hl, elem_of_dom. done.
  - intros i. split; [apply Hk|]. intros [r Hi]. destruct (H i r) as (t & _ & Ht); [by apply Hl; eexists|done|].
    unfold read_again in Ht. destruct (build pki _ _) as [[c leaf]|e]; destruct Ht as [-> _]; by eexists.
  - intros i r Hi. apply H; [|done]. apply Hl. by eexists.
Qed.

(** ** A watcher *)

(** The files of the material rest from a moment on. *)
Definition rest_from (t : nat) (s : TlsSettings) : Prop :=
  forall n path, (t <= n)%nat -> path ∈ tls_files s -> disk n path = disk t path.

Lemma rest_later t t' s : (t <= t')%nat -> rest_from t s -> rest_from t' s.
Proof. intros Ht H n path Hn Hp. rewrite (H n), (H t') by (done || lia). done. Qed.

Lemma files_named s :
  certificate s ∈ tls_files s /\ tls_key s ∈ tls_files s /\ (forall path, client_ca s = Some path -> path ∈ tls_files s) /\
  (forall path, crl s = Some path -> path ∈ tls_files s).
Proof. unfold tls_files. split_and!; [set_solver|set_solver|intros path ->; simpl; set_solver|intros path ->; destruct (client_ca s); simpl; set_solver]. Qed.

Lemma build_rests t t' s : (t <= t')%nat -> rest_from t s -> build pki (from t') s = build pki (from t) s.
Proof.
  intros Ht H. destruct (files_named s) as (Hc & Hk & Ha & Hr).
  assert (E : forall i path, path ∈ tls_files s -> from t' i path = from t i path).
  { intros i path Hp. unfold Reload.from. rewrite (H (t' + i)%nat), (H (t + i)%nat) by (done || lia). done. }
  unfold build, verifier_of, load_certificates, load_key. rewrite !E by done.
  destruct (client_ca s) as [ca|]; [|done]. rewrite (E _ ca) by auto. destruct (crl s) as [list|]; [|done].
  unfold load_revocations. by rewrite (E _ list) by auto.
Qed.

Lemma fingerprints_rest t t' s : (t <= t')%nat -> rest_from t s -> fingerprints t' s = fingerprints t s.
Proof.
  intros Ht H. unfold Reload.fingerprints. apply imap_ext. intros i path Hp%list_elem_of_lookup_2. unfold fingerprint_of.
  rewrite (H (t' + i)%nat), (H (t + i)%nat) by (done || lia). done.
Qed.

(** What a watched listener ends with, and what is said of it, when its files rest. *)
Definition followed (i t : nat) (r : Reloadable) : Reloadable * list LogRecord :=
  if changed pki disk t r then
    let r1 := account (fingerprints t (settings r)) r in
    match build pki (from t) (settings r) with
    | Ok (c, leaf) => (install c r1, [TlsReloaded i ByChange leaf])
    | Err e => (r1, [TlsReloadFailed i ByChange e])
    end
  else (r, []).

Definition quiet (i : nat) (e : Event) : Prop := match e with Pass _ => True | Woken j => j = i | _ => False end.
Definition wakings (es : list Event) : nat := length (List.filter (fun e => match e with Woken _ => true | _ => false end) es).

(** A watcher that has caught up with its files. *)
Definition caught_up (i t0 : nat) (r : Reloadable) (l : list LogRecord) (p : Process) : Prop :=
  (t0 <= moment p)%nat /\ surfaces p !! i = Some (fst (followed i t0 r)) /\ records p = l ++ snd (followed i t0 r) /\ watchers p !! i = Some Sleeping.

Lemma followed_seen i t r : rest_from t (settings r) -> settings (fst (followed i t r)) = settings r /\ seen (fst (followed i t r)) = fingerprints t (settings r).
Proof.
  intros H. unfold followed, changed. case_bool_decide as E; simpl; [done|]. destruct (build pki _ _) as [[c leaf]|e]; done.
Qed.

Lemma caught_up_step i t0 r l e p : quiet i e -> rest_from t0 (settings r) -> caught_up i t0 r l p -> caught_up i t0 r l (step e p).
Proof.
  intros Hq Hr (Hm & Hs & Hl & Hw). destruct e as [n| | | |j]; try done; simpl in *; [unfold caught_up; simpl; split_and!; try done; lia|]. subst j.
  rewrite Hw. unfold watch_tick. rewrite Hs. destruct (followed_seen i t0 r Hr) as [E1 E2]. unfold changed. rewrite E1, E2, (fingerprints_rest t0), bool_decide_true by done.
  unfold caught_up; simpl. split_and!; try done; lia.
Qed.

Lemma caught_up_run i t0 r l es p :
  Forall (quiet i) es -> rest_from t0 (settings r) -> caught_up i t0 r l p -> caught_up i t0 r l (run es p).
Proof. intros Hq Hr. revert p. induction Hq as [|e es He Hq IH]; intros p H; simpl; [done|]. apply IH. by apply caught_up_step. Qed.

(** A watcher that has noticed a change, and one that may. *)
Definition noticed (i t0 : nat) (r : Reloadable) (l : list LogRecord) (p : Process) : Prop :=
  (t0 <= moment p)%nat /\ surfaces p !! i = Some r /\ records p = l /\ watchers p !! i = Some Settling /\ changed pki disk t0 r = true.
Definition asleep (i t0 : nat) (r : Reloadable) (l : list LogRecord) (p : Process) : Prop :=
  (t0 <= moment p)%nat /\ surfaces p !! i = Some r /\ records p = l /\ watchers p !! i = Some Sleeping.

Lemma noticed_step i t0 r l p : rest_from t0 (settings r) -> noticed i t0 r l p -> caught_up i t0 r l (step (Woken i) p).
Proof.
  intros Hr (Hm & Hs & Hl & Hw & Hc). simpl. rewrite Hw. unfold watch_settled. rewrite Hs.
  destruct (refresh i ByChange r p) as [ok p'] eqn:E. destruct (refresh_spec _ _ _ _ _ _ E) as [Hb (Hm' & _)].
  rewrite (fingerprints_rest t0) in Hb by done. rewrite (build_rests t0) in Hb by (done || lia).
  unfold caught_up, followed. rewrite Hc. simpl. rewrite lookup_insert_eq.
  destruct (build pki (from t0) (settings r)) as [[c leaf]|e]; destruct Hb as (_ & -> & ->); rewrite lookup_insert_eq, Hl; (split_and!; try done; lia).
Qed.

Lemma asleep_step i t0 r l p :
  rest_from t0 (settings r) -> asleep i t0 r l p ->
  if changed pki disk t0 r then noticed i t0 r l (step (Woken i) p) else caught_up i t0 r l (step (Woken i) p).
Proof.
  intros Hr (Hm & Hs & Hl & Hw). simpl. rewrite Hw. unfold watch_tick. rewrite Hs.
  assert (changed pki disk (moment p) r = changed pki disk t0 r) as -> by (unfold changed; by rewrite (fingerprints_rest t0)).
  destruct (changed pki disk t0 r) eqn:Hc.
  - unfold noticed; simpl. rewrite lookup_insert_eq. split_and!; try done; lia.
  - unfold caught_up, followed; simpl. rewrite Hc. simpl. rewrite app_nil_r. split_and!; try done; lia.
Qed.

Lemma noticed_run i t0 r l es p :
  Forall (quiet i) es -> rest_from t0 (settings r) -> noticed i t0 r l p -> (1 <= wakings es)%nat -> caught_up i t0 r l (run es p).
Proof.
  intros Hq Hr. revert p. induction Hq as [|e es He Hq IH]; intros p H Hn; [cbn in Hn; lia|].
  destruct e as [n| | | |j]; try done; simpl in He.
  - apply (IH (pass n p)); [|exact Hn]. destruct H as (Hm & H). split; [simpl; lia|exact H].
  - subst j. apply (caught_up_run i t0 r l es); [done|done|]. by apply noticed_step.
Qed.

End ReloadProperties.

(** ** A renewal *)

Module Renewal.
(** Material of one byte: a certificate goes with the key that is equal to it. *)
Definition pki : Pki :=
  mkPki (fun b => match b with [] => Err "no items" | _ => Ok [b] end) (fun b => Ok b) (fun b => Ok [b]) (fun _ => Ok tt) (fun _ => Ok tt)
    (fun _ chain key => if bool_decide (chain = [key]) then Ok tt else Err "the key does not belong to the certificate")
    (fun _ => None) (fun _ => None) (fun b => b).

(** The certificate and the key are replaced at some moment. *)
Definition disk (renewed : nat) : nat -> Disk := fun n path =>
  if bool_decide (path ∈ ["cert.pem"; "cert.key"]) then Ok (if (n <? renewed)%nat then [x01] else [x02]) else Err "not found".
Definition net : Net := mkNet (fun a => Ok a) (fun _ => Ok tt) (fun _ => Ok tt) (fun a => Ok a).
Definition served : TlsSettings := mkTls "cert.pem" "cert.key" None None [] V1_3 (Some 30).
Definition listener : Listener := mkListener "public" "127.0.0.1:8443" (Some served) default_limits true.
Definition before (renewed : nat) : Process := run pki (disk renewed) (fun _ => 0) net [Start listener; Pass 20] (process_new None).
Definition surface_of (p : Process) : option (list Der * list (option string)) := (fun r => (chain (config r), seen r)) <$> surfaces p !! 0%nat.

Lemma disk_rests renewed t s : (renewed <= t)%nat -> rest_from (disk renewed) t s.
Proof. intros H n path Hn _. unfold disk. rewrite !(proj2 (Nat.ltb_ge _ _)) by lia. done. Qed.
End Renewal.


(** A renewal between the building of the first configuration and the first fingerprints is taken for
    the material being served: the files hold and build the new certificate, and no waking ever
    installs it. *)
Lemma renewal_during_start_is_missed (es : list Event) :
  Forall (quiet 0) es ->
  let p := run Renewal.pki (Renewal.disk 4) (fun _ => 0) Renewal.net (Start Renewal.listener :: es) (process_new None) in
  Renewal.surface_of p = Some ([[x01]], [Some "02"; Some "02"]) /\ records p = [] /\
  build Renewal.pki (from (Renewal.disk 4) (moment p)) Renewal.served = Ok (mkServerConfig [V1_3] None [[x02]] [x02] ["h2"; "http/1.1"], "02").
Proof.
  intros Hq. set (started := step Renewal.pki (Renewal.disk 4) (fun _ => 0) Renewal.net (Start Renewal.listener) (process_new None)).
  destruct (surfaces started !! 0%nat) as [r|] eqn:E; [|vm_compute in E; discriminate].
  assert (Er : (chain (config r), seen r, settings r) = ([[x01]], [Some "02"; Some "02"], Renewal.served)) by (vm_compute in E; injection E as <-; done).
  injection Er as Ec Es Et. assert (Hf : followed Renewal.pki (Renewal.disk 4) 0 4 r = (r, [])).
  { unfold followed, changed. rewrite Es, Et. rewrite bool_decide_true by (vm_compute; reflexivity). done. }
  pose proof (Renewal.disk_rests 4 4 (settings r) ltac:(lia)) as Hr.
  destruct (caught_up_run Renewal.pki (Renewal.disk 4) (fun _ => 0) Renewal.net 0 4 r [] es started Hq Hr) as (Hm & Hs & Hl & _).
  { unfold caught_up. rewrite Hf. split_and!; [apply Nat.leb_le; vm_compute; reflexivity|exact E|vm_compute; reflexivity..]. }
  rewrite Hf in Hs, Hl. cbv zeta. change (run Renewal.pki (Renewal.disk 4) (fun _ => 0) Renewal.net (Start Renewal.listener :: es) (process_new None))
    with (run Renewal.pki (Renewal.disk 4) (fun _ => 0) Renewal.net es started).
  split_and!; [|exact Hl|].
  - unfold Renewal.surface_of. rewrite Hs. simpl. by rewrite Ec, Es.
  - rewrite (build_rests Renewal.pki (Renewal.disk 4) 4 (moment (run Renewal.pki (Renewal.disk 4) (fun _ => 0) Renewal.net es started)) Renewal.served Hm (Renewal.disk_rests 4 4 _ ltac:(lia))).
    vm_compute. reflexivity.
Qed.
