(* ===== verification/Storage.v ===== *)
(** * The record store ([crates/pic-x-core/src/storage.rs], [crates/pic-x-std/src/storage.rs])

    The contract the server and its services write records against, as a class with its laws, and the
    store in memory, which is an instance. [store_answers_the_last_write] is proved against the class:
    it holds of any store that keeps the contract. *)
From S2P Require Import Prelude Rust Errors.
Local Open Scope Z_scope.
Local Open Scope rust_scope.

(** ** The contract *)

(** [Storage]: its methods over the state of a store. A store that answers is one whose [usable] holds;
    what it then holds under a key is [held]. *)
Class RecordStore (S : Type) := {
  store_name : string;
  store_put : string -> list byte -> M S StorageError unit;
  store_get : string -> M S StorageError (option (list byte));
  store_shutdown : M S StorageError unit;
  usable : S -> Prop;
  held : S -> string -> option (list byte) }.

(** What the contract promises: a write replaces the value of its key and no other, a read changes nothing
    and tells what is held. *)
Class RecordStoreLaws (S : Type) `{!RecordStore S} : Prop := {
  put_law s key value : usable s ->
    exists s', store_put key value s = (Ok tt, s') /\ usable s' /\
      forall k, held s' k = if bool_decide (k = key) then Some value else held s k;
  get_law s key : usable s -> store_get key s = (Ok (held s key), s) }.

(** The default of [Storage::shutdown]. *)
Definition default_shutdown {S} : M S StorageError unit := mret tt.

(** ** The store in memory *)

(** The records, and whether a thread panicked while it held the lock. *)
Record MemoryStorage := mkMemory { records : gmap string (list byte); poisoned : bool }.

Definition memory_new : MemoryStorage := mkMemory ∅ false.

(** [MemoryStorage::records]. *)
Definition lock_records : M MemoryStorage StorageError (gmap string (list byte)) := fun s =>
  if poisoned s then (Err (StorageBackend "the in-memory store lock is poisoned"), s) else (Ok (records s), s).

Definition memory_len : M MemoryStorage StorageError Z := let! r := lock_records in mret (Z.of_nat (size r)).
Definition memory_is_empty : M MemoryStorage StorageError bool := let! n := memory_len in mret (n =? 0).

Definition memory_put (key : string) (value : list byte) : M MemoryStorage StorageError unit :=
  let! r := lock_records in mmodify (fun s => mkMemory (<[key := value]> r) (poisoned s)).
Definition memory_get (key : string) : M MemoryStorage StorageError (option (list byte)) :=
  let! r := lock_records in mret (r !! key).
Definition memory_shutdown : M MemoryStorage StorageError unit :=
  let! _ := lock_records in mmodify (fun s => mkMemory ∅ (poisoned s)).

#[export] Instance memory_store : RecordStore MemoryStorage := {|
  store_name := "memory";
  store_put := memory_put;
  store_get := memory_get;
  store_shutdown := memory_shutdown;
  usable := fun s => poisoned s = false;
  held := fun s k => records s !! k |}.

#[export] Instance memory_store_laws : RecordStoreLaws MemoryStorage.
Proof.
  split.
  - intros [r p] key value H. simpl in H. subst p. exists (mkMemory (<[key := value]> r) false). split_and!; [done|done|]. intros k. case_bool_decide as E.
    + subst k. apply lookup_insert_eq.
    + apply lookup_insert_ne. by intros ->.
  - intros s key H. simpl in *. unfold memory_get, mbind_st, lock_records, mret. by rewrite H.
Qed.

(** ** Properties *)

Section Contract.
Context {S : Type} `{!RecordStore S} `{!RecordStoreLaws S}.

Fixpoint put_all (writes : list (string * list byte)) (s : S) : result unit StorageError * S :=
  match writes with
  | [] => (Ok tt, s)
  | (key, value) :: rest =>
    match store_put key value s with
    | (Ok _, s') => put_all rest s'
    | (Err e, s') => (Err e, s')
    end
  end.

(** The last value written under a key. *)
Definition last_written (key : string) (writes : list (string * list byte)) : option (list byte) :=
  last (map snd (List.filter (fun w => bool_decide (fst w = key)) writes)).

(** A store that keeps the contract answers every write, and then reads back the last value written under
    a key, or what it held before when none was; reading does not change it. *)
Theorem store_answers_the_last_write (writes : list (string * list byte)) (s : S) :
  usable s ->
  exists s', put_all writes s = (Ok tt, s') /\
    forall key, store_get key s' = (Ok (match last_written key writes with Some v => Some v | None => held s key end), s').
Proof.
  revert s. induction writes as [|[key value] writes IH]; intros s Hu.
  - exists s. split; [done|]. intros key. by rewrite get_law.
  - destruct (put_law s key value Hu) as (s1 & Hp & Hu1 & Hh). destruct (IH s1 Hu1) as (s' & Ha & Hg). exists s'. cbn [put_all]. rewrite Hp.
    split; [done|]. intros k. rewrite Hg, Hh. f_equal. f_equal. unfold last_written. cbn [List.filter fst].
    destruct (decide (k = key)) as [->|Hne].
    + rewrite !bool_decide_true by done. cbn [map snd]. rewrite last_cons. by destruct (last _).
    + by rewrite !bool_decide_false.
Qed.
End Contract.

(** What a shutdown drops is gone, and a poisoned lock is an error of the backend for every method. *)
Lemma memory_shutdown_drops s : poisoned s = false -> memory_shutdown s = (Ok tt, memory_new).
Proof. destruct s as [r p]. simpl. by intros ->. Qed.

Lemma poisoned_store_fails s key value :
  poisoned s = true ->
  let e := StorageBackend "the in-memory store lock is poisoned" in
  memory_put key value s = (Err e, s) /\ memory_get key s = (Err e, s) /\ memory_len s = (Err e, s) /\ memory_shutdown s = (Err e, s).
Proof.
  intros H. unfold memory_put, memory_get, memory_len, memory_shutdown, mbind_st, lock_records. by rewrite H.
Qed.
