(* ===== verification/Command.v ===== *)
(** * The command line ([crates/pic-x-server/src/command.rs], [banner.rs], and [App::execute] of [app.rs])

    What an invocation resolved to, the layer of settings its flags are, what each command writes, and
    that a flag decides what the server runs with. The parser of arguments is that of the [clap] crate:
    what it made of them is a [Cli]. What a server does once it is composed is a parameter, as are
    the verifier of trails and the exporter of rings a build may have. *)
From S2P Require Import Prelude Rust Text Order Settings Realms Config ConfigRules ConfigLayers ConfigProperties ConfigFile ConfigFileProperties.
Local Open Scope Z_scope.
Local Open Scope rust_scope.

(** ** What was asked *)

Record ServeArgs := mkServeArgs {
  config_file : string;
  public_http_addr : option string;
  telemetry_addr : option string;
  admin_addr : option string;
  log_level : option LogLevel;
  log_format : option LogFormat }.

Inductive KeysCommand := Export (directory : string).
Inductive AuditCommand := Verify (directory : string) (keys : option string).
Inductive Command := Version | Audit (what : AuditCommand) | Keys (what : KeysCommand).

Inductive Action := ServeAction (args : ServeArgs) | NamedAction (command : Command).

Record Cli := mkCli { cli_serve : option ServeArgs; cli_command : option Command }.

(** [Cli::action]. *)
Definition cli_action (cli : Cli) : option Action :=
  match cli_command cli, cli_serve cli with
  | Some command, _ => Some (NamedAction command)
  | None, Some args => Some (ServeAction args)
  | None, None => None
  end.

(** [ServeArgs::setting_inputs]. *)
Definition flags (args : ServeArgs) : list (string * option string) :=
  [(SETTING_PUBLIC_HTTP_ADDR, public_http_addr args); (SETTING_TELEMETRY_ADDR, telemetry_addr args); (SETTING_ADMIN_ADDR, admin_addr args);
   (SETTING_LOG_LEVEL, log_level_as_str <$> log_level args); (SETTING_LOG_FORMAT, log_format_as_str <$> log_format args)].
Definition flag_inputs (args : ServeArgs) : list (string * string) := defined (flags args).

(** [Action::setting_inputs], and the invocation an action is to [config_for]. *)
Definition action_inputs (a : Action) : list (string * string) :=
  match a with ServeAction args => flag_inputs args | NamedAction _ => [] end.
Definition invocation_of (a : Action) : Invocation :=
  match a with ServeAction args => Serve (config_file args) (flag_inputs args) | NamedAction _ => Named [] end.

(** ** The banner *)

Record ProductIdentity := mkIdentity {
  binary_name : string; product_name : string; tagline : string; about : string; art : string; logo : string }.

(** [Banner::new], [render_full] and [render_short]. *)
Record Banner := mkBanner {
  banner_art : string; banner_product : string; banner_tagline : string;
  banner_version : string; banner_commit : string; banner_year : string; banner_holder : string }.

Definition banner_new (i : ProductIdentity) (c : Config) : Banner :=
  mkBanner (art i) (product_name i) (tagline i) (cfg_version c) (cfg_commit c) (cfg_copyright_year c) (cfg_copyright_holder c).

Definition NL : string := string_of [LF].

Definition render_full (b : Banner) : string :=
  banner_art b +:+ NL +:+ NL +:+ banner_product b +:+ NL +:+ banner_tagline b +:+ NL +:+ NL
  +:+ "Version " +:+ banner_version b +:+ " (build " +:+ banner_commit b +:+ ")" +:+ NL +:+ NL
  +:+ "© " +:+ banner_year b +:+ " " +:+ banner_holder b +:+ ". All rights reserved." +:+ NL.

Definition render_short (b : Banner) : string :=
  banner_product b +:+ NL +:+ banner_tagline b +:+ NL
  +:+ "Version " +:+ banner_version b +:+ " (build " +:+ banner_commit b +:+ ")" +:+ NL
  +:+ "© " +:+ banner_year b +:+ " " +:+ banner_holder b +:+ "." +:+ NL.

(** ** Running it *)

(** What was written before the command ended. *)
Definition Out (A : Type) : Type := result A Error * string.

Record Commands := mkCommands {
  app_identity : ProductIdentity;
  audit_verifier : option (string -> option string -> result string Error);
  keys_exporter : option (string -> result string Error) }.

Section Execute.
Context (app : Commands) (serve : Config -> string -> Out unit).

(** [App::verify_audit]. *)
Definition verify_audit (directory : string) (keys : option string) : Out unit :=
  match audit_verifier app with
  | None => (bail "this build cannot check an audit trail", "")
  | Some verifier =>
    match with_context ("checking the audit trail in " +:+ directory) (verifier directory keys) with
    | Ok summary => (Ok tt, summary +:+ NL)
    | Err e => (Err e, "")
    end
  end.

(** [App::export_keys]. *)
Definition export_keys (directory : string) : Out unit :=
  match keys_exporter app with
  | None => (bail "this build cannot export a key ring", "")
  | Some exporter =>
    match with_context ("exporting the key ring in " +:+ directory) (exporter directory) with
    | Ok document => (Ok tt, document +:+ NL)
    | Err e => (Err e, "")
    end
  end.

(** [App::version]. *)
Definition version (c : Config) : Out unit := (Ok tt, render_short (banner_new (app_identity app) c) +:+ cfg_version c +:+ NL).

(** [App::execute]. *)
Definition execute (a : Action) (c : Config) : Out unit :=
  match a with
  | ServeAction args => serve c (config_file args)
  | NamedAction Version => version c
  | NamedAction (Audit (Verify directory keys)) => verify_audit directory keys
  | NamedAction (Keys (Export directory)) => export_keys directory
  end.

(** [App::dispatch_to]. *)
Definition dispatch_to (config_of : Invocation -> result Config Error) (a : Action) : Out unit :=
  match config_of (invocation_of a) with
  | Err e => (Err e, "")
  | Ok c => execute a c
  end.
End Execute.

(** [App::run]: the exit code, and what goes to the error stream. *)
Definition exit_of (app : Commands) (o : Out unit) : Z * string :=
  match fst o with
  | Ok _ => (0, "")
  | Err e => (1, binary_name (app_identity app) +:+ ": " +:+ join ": " e +:+ NL)
  end.

(** ** A flag decides *)

(** The value of a flag, as the layer of the command line gives it. *)
Lemma flag_given args key value : (key, Some value) ∈ flags args -> value <> "" -> last_given key (flag_inputs args) = Some value.
Proof. intros H Hv. apply last_given_once; [|by apply elem_of_defined|done]. apply defined_keys. apply (bool_decide_unpack _). vm_compute. exact I. Qed.

Lemma log_level_reads_back l : parse_log_level (log_level_as_str l) = Ok l.
Proof. destruct l; vm_compute; reflexivity. Qed.
Lemma log_format_reads_back f : parse_log_format (log_format_as_str f) = Ok f.
Proof. destruct f; vm_compute; reflexivity. Qed.

Section FlagsDecide.
Context {Value : Type} (unicode_uppercase : Z -> list Z)
  (from_str : string -> result (ConfigFile Value) Error) (realm_from_str : string -> result RealmSection Error)
  (disk : Disk) (app : AppSections Value) (b : BuildSettings) (declared : gset string) (environment : list (string * string)).

(** A flag decides: in a build that adds no sections of its own, whatever the file and the environment say, an address, a
    level or a format given on the command line is the one the server runs with. *)
Theorem flags_decide args c :
  section_readers app = [] -> section_parsers app = [] ->
  config_for unicode_uppercase from_str realm_from_str disk app b declared environment (invocation_of (ServeAction args)) = Ok c ->
  (forall a, public_http_addr args = Some a -> a <> "" -> cfg_public_http_addr c = Some a) /\
  (forall a, telemetry_addr args = Some a -> a <> "" -> cfg_telemetry_addr c = Some a) /\
  (forall a, admin_addr args = Some a -> a <> "" -> cfg_admin_addr c = Some a) /\
  (forall l, log_level args = Some l -> cfg_log_level c = l) /\
  (forall f, log_format args = Some f -> cfg_log_format c = f).
Proof.
  intros Hr Hp (f & _ & _ & _ & Ha)%served_layers; [|done..].
  assert (Hf : forall p v, p ∈ PLAIN_SETTINGS -> (plain_key p, Some v) ∈ flags args -> v <> "" -> plain_read p v = Ok (plain_field p c)).
  { intros p v Hin Hg Hv. specialize (Ha p Hin). rewrite last_given_app, (flag_given _ _ v) in Ha by done. exact Ha. }
  split_and!.
  - intros a E Hv. assert (H := Hf (optional_text SETTING_PUBLIC_HTTP_ADDR cfg_public_http_addr) a ltac:(unfold PLAIN_SETTINGS; set_solver) ltac:(unfold flags; rewrite E; set_solver) Hv). by injection H as <-.
  - intros a E Hv. assert (H := Hf (optional_text SETTING_TELEMETRY_ADDR cfg_telemetry_addr) a ltac:(unfold PLAIN_SETTINGS; set_solver) ltac:(unfold flags; rewrite E; set_solver) Hv). by injection H as <-.
  - intros a E Hv. assert (H := Hf (optional_text SETTING_ADMIN_ADDR cfg_admin_addr) a ltac:(unfold PLAIN_SETTINGS; set_solver) ltac:(unfold flags; rewrite E; set_solver) Hv). by injection H as <-.
  - intros l E. assert (H := Hf (mkPlain SETTING_LOG_LEVEL (reading SETTING_LOG_LEVEL parse_log_level) cfg_log_level) (log_level_as_str l)
      ltac:(unfold PLAIN_SETTINGS; set_solver) ltac:(unfold flags; rewrite E; set_solver) ltac:(by destruct l)).
    apply with_context_Ok in H. rewrite log_level_reads_back in H. by injection H as <-.
  - intros l E. assert (H := Hf (mkPlain SETTING_LOG_FORMAT (reading SETTING_LOG_FORMAT parse_log_format) cfg_log_format) (log_format_as_str l)
      ltac:(unfold PLAIN_SETTINGS; set_solver) ltac:(unfold flags; rewrite E; set_solver) ltac:(by destruct l)).
    apply with_context_Ok in H. rewrite log_format_reads_back in H. by injection H as <-.
Qed.
End FlagsDecide.
