(* ===== verification/PublicService.v ===== *)
(** * The public surface as a service ([WellKnownService] of [crates/pic-x-realm/src/service.rs])

    The caches of key sets that a token endpoint reads and a background task refreshes, and how the surface
    starts and stops. A cache is shared: endpoint and task hold the same one, found under the name of
    its realm, so here both name it by that name and the service holds the caches themselves. A
    sweep of the task is given what the network answers and when. *)
From S2P Require Import Prelude Rust Text Order Access Settings Limits Json KeyCache ExchangeMap Realms Config ConfigProperties Metrics Material Reload ReloadProperties Operations.
Local Open Scope Z_scope.

(** [REFRESH_EVERY] and [RETRY_UNTIL_READY], in seconds. *)
Definition REFRESH_EVERY : Z := 300.
Definition RETRY_UNTIL_READY : Z := 3.

(** The state of [WellKnownService]: [refreshing] is the task, with the caches it was given. *)
Record WellKnown := mkWellKnown {
  attester_caches : gmap string AttesterKeyCache;
  idp_caches : gmap string IdpKeyCache;
  refreshing : option (list string * list string) }.

Definition wellknown_new : WellKnown := mkWellKnown ∅ ∅ None.

Section Service.
Context {Ring Sink Policy : Type} (from_slice : list byte -> option Value).

Local Abbreviation Realm := (Realm Ring Sink Policy).

(** The cache a realm begins with. *)
Definition fresh_attesters (r : Realm) : AttesterKeyCache := mkAttesterKeyCache (realm_trusted_attesters r) (realm_key_cache_stale_for r) ∅.
Definition fresh_providers (r : Realm) : IdpKeyCache := mkIdpKeyCache (map profile_source (realm_exchange_profiles r)) (realm_key_cache_stale_for r) ∅.

(** [WellKnownService::attester_keys] and [idp_keys]: the entry of the realm, made on first use. *)
Definition attester_keys (r : Realm) (s : WellKnown) : WellKnown :=
  match attester_caches s !! realm_name r with
  | Some _ => s
  | None => mkWellKnown (<[realm_name r := fresh_attesters r]> (attester_caches s)) (idp_caches s) (refreshing s)
  end.
Definition idp_keys (r : Realm) (s : WellKnown) : WellKnown :=
  match idp_caches s !! realm_name r with
  | Some _ => s
  | None => mkWellKnown (attester_caches s) (<[realm_name r := fresh_providers r]> (idp_caches s)) (refreshing s)
  end.

(** What [WellKnownService::router] does to the caches: both of every realm, for its token endpoint. *)
Fixpoint router_caches (realms : list Realm) (s : WellKnown) : WellKnown :=
  match realms with
  | [] => s
  | r :: rest => router_caches rest (idp_keys r (attester_keys r s))
  end.

(** The values of an ordered map, by their keys. *)
Definition cache_names {A} (m : gmap string A) : list string := sort_by String.compare id (map fst (map_to_list m)).

(** [WellKnownService::start_key_refresh]. *)
Definition nothing_to_fetch (s : WellKnown) : bool :=
  forallb (fun e => bool_decide (cache_attesters (snd e) = [])) (map_to_list (attester_caches s)) &&
  forallb (fun e => bool_decide (idp_profiles (snd e) = [])) (map_to_list (idp_caches s)).
Definition start_key_refresh (s : WellKnown) : WellKnown :=
  if nothing_to_fetch s then s
  else mkWellKnown (attester_caches s) (idp_caches s) (Some (cache_names (attester_caches s), cache_names (idp_caches s))).

(** One turn of the task: every cache it was given is refreshed, one after the other. *)
Fixpoint sweep_attesters (round : Round) (names : list string) (m : gmap string AttesterKeyCache) : gmap string AttesterKeyCache :=
  match names with
  | [] => m
  | n :: rest => sweep_attesters round rest (alter (attester_refresh from_slice (fst round) (snd round)) n m)
  end.
Fixpoint sweep_providers (round : Round) (names : list string) (m : gmap string IdpKeyCache) : gmap string IdpKeyCache :=
  match names with
  | [] => m
  | n :: rest => sweep_providers round rest (alter (idp_refresh from_slice (fst round) (snd round)) n m)
  end.

Definition all_ready {A} (ready : A -> bool) (names : list string) (m : gmap string A) : bool :=
  forallb (fun n => match m !! n with Some c => ready c | None => true end) names.

(** The turn, and how long the task sleeps after it; a task that was aborted does neither. *)
Definition sweep (round : Round) (s : WellKnown) : WellKnown * option Z :=
  match refreshing s with
  | None => (s, None)
  | Some (attesters, providers) =>
    let s' := mkWellKnown (sweep_attesters round attesters (attester_caches s)) (sweep_providers round providers (idp_caches s)) (refreshing s) in
    (s', Some (if all_ready attester_is_ready attesters (attester_caches s') && all_ready idp_is_ready providers (idp_caches s')
               then REFRESH_EVERY else RETRY_UNTIL_READY))
  end.

(** [WellKnownService::refresh_attester_keys]: every cache, now, whether or not a task is running. *)
Definition refresh_now (round : Round) (s : WellKnown) : WellKnown :=
  mkWellKnown (sweep_attesters round (cache_names (attester_caches s)) (attester_caches s))
    (sweep_providers round (cache_names (idp_caches s)) (idp_caches s)) (refreshing s).

Section Lifecycle.
Context (pki : Pki) (disk : nat -> Disk) (clock : nat -> Z) (net : Net) (joined : Started -> result unit string).

(** [WellKnownService::start]: the caches, the task, then the listener. *)
Definition public_start (c : Config) (realms : list Realm) (s : WellKnown * (Running * Process)) : result unit Error * (WellKnown * (Running * Process)) :=
  match cfg_public_http_addr c with
  | None => (Ok tt, s)
  | Some _ =>
    let w := start_key_refresh (router_caches realms (fst s)) in
    let '(r, rest) := start_surface pki disk clock net "wellknown" "public" (cfg_public_http_addr c) (resolved_tls c (cfg_public_tls c)) (cfg_limits c) (snd s) in
    (r, (w, rest))
  end.

(** [WellKnownService::stop]: the task first. *)
Definition public_stop (s : WellKnown * (Running * Process)) : result unit Error * (WellKnown * (Running * Process)) :=
  let w := mkWellKnown (attester_caches (fst s)) (idp_caches (fst s)) None in
  let '(r, rest) := stop_surface joined "public" (snd s) in
  (r, (w, rest)).
End Lifecycle.
End Service.

(** ** Properties *)

Section Shared.
Context {Ring Sink Policy : Type} (from_slice : list byte -> option Value).
Local Abbreviation Realm := (Realm Ring Sink Policy).

Definition named_realm (n : string) (realms : list Realm) : option Realm := List.find (fun r => bool_decide (realm_name r = n)) realms.

Lemma router_caches_spec realms s n :
  attester_caches (router_caches realms s) !! n =
    match attester_caches s !! n with Some c => Some c | None => fresh_attesters <$> named_realm n realms end /\
  idp_caches (router_caches realms s) !! n =
    match idp_caches s !! n with Some c => Some c | None => fresh_providers <$> named_realm n realms end.
Proof.
  revert s. induction realms as [|r realms IH]; intros s; simpl.
  - by destruct (attester_caches s !! n), (idp_caches s !! n).
  - destruct (IH (idp_keys r (attester_keys r s))) as [-> ->]. unfold idp_keys, attester_keys, named_realm; simpl.
    destruct (attester_caches s !! realm_name r) as [c|] eqn:Ea; simpl; destruct (idp_caches s !! realm_name r) as [c'|] eqn:Ei; simpl;
      (case_bool_decide as E; [subst n; rewrite ?Ea, ?Ei, ?lookup_insert_eq; done|by rewrite ?lookup_insert_ne]).
Qed.

Lemma cache_names_spec {A} (m : gmap string A) : NoDup (cache_names m) /\ forall n, n ∈ cache_names m <-> is_Some (m !! n).
Proof.
  unfold cache_names. split.
  - rewrite sort_by_perm. apply NoDup_fst_map_to_list.
  - intros n. rewrite sort_by_perm, list_elem_of_fmap. split.
    + intros ([k a] & -> & H%elem_of_map_to_list). by exists a.
    + intros [a H]. exists (n, a). split; [done|by apply elem_of_map_to_list].
Qed.

(** A sweep over distinct names. *)
Fixpoint sweep_with {A} (f : A -> A) (names : list string) (m : gmap string A) : gmap string A :=
  match names with [] => m | n :: rest => sweep_with f rest (alter f n m) end.

Lemma sweep_with_spec {A} (f : A -> A) names m n :
  NoDup names -> sweep_with f names m !! n = if bool_decide (n ∈ names) then f <$> m !! n else m !! n.
Proof.
  revert m. induction names as [|k names IH]; intros m Hn; simpl; [done|]. apply NoDup_cons in Hn as [Hk Hn]. rewrite IH by done.
  destruct (decide (n = k)) as [->|Hne].
  - rewrite (bool_decide_false (k ∈ names)), bool_decide_true by set_solver. apply lookup_alter_eq.
  - rewrite lookup_alter_ne by done. case_bool_decide; [rewrite bool_decide_true by set_solver|rewrite bool_decide_false by set_solver]; done.
Qed.

Lemma sweep_attesters_with round names m : sweep_attesters from_slice round names m = sweep_with (attester_refresh from_slice (fst round) (snd round)) names m.
Proof. revert m. induction names as [|n names IH]; intros m; simpl; [done|apply IH]. Qed.
Lemma sweep_providers_with round names m : sweep_providers from_slice round names m = sweep_with (idp_refresh from_slice (fst round) (snd round)) names m.
Proof. revert m. induction names as [|n names IH]; intros m; simpl; [done|apply IH]. Qed.

Definition sweeps (rounds : list Round) (s : WellKnown) : WellKnown := fold_left (fun s r => fst (sweep from_slice r s)) rounds s.

Fixpoint idp_refreshes (rounds : list Round) (c : IdpKeyCache) : IdpKeyCache :=
  match rounds with [] => c | (fetch, now) :: r => idp_refreshes r (idp_refresh from_slice fetch now c) end.

(** The task holds every cache of the service. *)
Definition holds_every_cache (s : WellKnown) : Prop :=
  exists attesters providers, refreshing s = Some (attesters, providers) /\ NoDup attesters /\ NoDup providers /\
    (forall n, n ∈ attesters <-> is_Some (attester_caches s !! n)) /\ (forall n, n ∈ providers <-> is_Some (idp_caches s !! n)).

Lemma sweep_holds round s :
  holds_every_cache s ->
  holds_every_cache (fst (sweep from_slice round s)) /\
  (forall n, attester_caches (fst (sweep from_slice round s)) !! n = attester_refresh from_slice (fst round) (snd round) <$> attester_caches s !! n) /\
  (forall n, idp_caches (fst (sweep from_slice round s)) !! n = idp_refresh from_slice (fst round) (snd round) <$> idp_caches s !! n).
Proof.
  intros (attesters & providers & Hr & Ha & Hp & Da & Dp). unfold sweep. rewrite Hr. simpl.
  assert (Ea : forall n, sweep_attesters from_slice round attesters (attester_caches s) !! n = attester_refresh from_slice (fst round) (snd round) <$> attester_caches s !! n).
  { intros n. rewrite sweep_attesters_with, sweep_with_spec by done. case_bool_decide as E; [done|]. rewrite Da in E. by destruct (attester_caches s !! n); [destruct E|]. }
  assert (Ep : forall n, sweep_providers from_slice round providers (idp_caches s) !! n = idp_refresh from_slice (fst round) (snd round) <$> idp_caches s !! n).
  { intros n. rewrite sweep_providers_with, sweep_with_spec by done. case_bool_decide as E; [done|]. rewrite Dp in E. by destruct (idp_caches s !! n); [destruct E|]. }
  split_and!; [|exact Ea|exact Ep]. exists attesters, providers. simpl.
  split_and!; [done|done|done|intros n; by rewrite Ea, fmap_is_Some|intros n; by rewrite Ep, fmap_is_Some].
Qed.

Lemma sweeps_refresh rounds s :
  holds_every_cache s ->
  holds_every_cache (sweeps rounds s) /\
  (forall n, attester_caches (sweeps rounds s) !! n = refreshes from_slice rounds <$> attester_caches s !! n) /\
  (forall n, idp_caches (sweeps rounds s) !! n = idp_refreshes rounds <$> idp_caches s !! n).
Proof.
  revert s. induction rounds as [|[fetch now] rounds IH]; intros s H; simpl.
  - split_and!; [done|intros n; by destruct (attester_caches s !! n)|intros n; by destruct (idp_caches s !! n)].
  - destruct (sweep_holds (fetch, now) s H) as (H1 & Ha & Hp). destruct (IH _ H1) as (H2 & Ha2 & Hp2). split_and!; [exact H2| |]; intros n.
    + unfold sweeps in Ha2. rewrite Ha2, Ha. by destruct (attester_caches s !! n).
    + unfold sweeps in Hp2. rewrite Hp2, Hp. by destruct (idp_caches s !! n).
Qed.

Lemma named_realm_in r realms : NoDup (map realm_name realms) -> r ∈ realms -> named_realm (realm_name r) realms = Some r.
Proof.
  induction realms as [|r' realms IH]; intros Hn Hr; [by apply elem_of_nil in Hr|]. simpl in Hn. apply NoDup_cons in Hn as [Hk Hn]. unfold named_realm. simpl.
  case_bool_decide as E.
  - apply elem_of_cons in Hr as [->|Hr]; [done|]. exfalso. apply Hk. rewrite E. apply list_elem_of_fmap. by exists r.
  - apply elem_of_cons in Hr as [->|Hr]; [done|]. by apply IH.
Qed.

Lemma start_holds (realms : list Realm) (r : Realm) :
  NoDup (map realm_name realms) -> r ∈ realms -> realm_trusted_attesters r <> [] \/ realm_exchange_profiles r <> [] ->
  let s := start_key_refresh (router_caches realms wellknown_new) in
  holds_every_cache s /\ attester_caches s !! realm_name r = Some (fresh_attesters r) /\ idp_caches s !! realm_name r = Some (fresh_providers r).
Proof.
  intros Hn Hr Hs. destruct (router_caches_spec realms wellknown_new (realm_name r)) as [Ha Hi]. 
  unfold wellknown_new in Ha at 2, Hi at 2. cbn [attester_caches idp_caches] in Ha, Hi. rewrite lookup_empty, (named_realm_in r realms Hn Hr) in Ha. rewrite lookup_empty, (named_realm_in r realms Hn Hr) in Hi.
  set (s := router_caches realms wellknown_new) in *. unfold start_key_refresh. assert (nothing_to_fetch s = false) as ->.
  { apply not_true_iff_false. unfold nothing_to_fetch. rewrite andb_true_iff, !forallb_forall. intros [Fa Fi]. destruct Hs as [Hs|Hs]; apply Hs.
    - specialize (Fa (realm_name r, fresh_attesters r)). rewrite <- list_elem_of_In, elem_of_map_to_list in Fa. by apply Fa, bool_decide_eq_true in Ha.
    - specialize (Fi (realm_name r, fresh_providers r)). rewrite <- list_elem_of_In, elem_of_map_to_list in Fi. apply Fi, bool_decide_eq_true in Hi.
      simpl in Hi. by apply map_eq_nil in Hi. }
  split_and!; [|exact Ha|exact Hi]. destruct (cache_names_spec (attester_caches s)) as [Na Da], (cache_names_spec (idp_caches s)) as [Np Dp].
  exists (cache_names (attester_caches s)), (cache_names (idp_caches s)). split_and!; done.
Qed.
End Shared.

Section Fetched.
Context {Ring Sink Policy : Type} (from_slice : list byte -> option Value)
  (pki : Pki) (disk : nat -> Disk) (clock : nat -> Z) (net : Net) (joined : Started -> result unit string).
Local Abbreviation Realm := (Realm Ring Sink Policy).

End Fetched.

(** A realm with one attester, whose answer comes with the second sweep. *)
Module Sweeping.
Definition realm : Realm unit unit unit :=
  mkRealm "a" "/realms/a" None true None None tt None [] [ToyCache.attester] 600 Later 3600 "EdDSA".
Definition started : WellKnown := start_key_refresh (router_caches [realm] wellknown_new).
Definition config : Config := Deployment.server.
End Sweeping.

