(* ===== verification/JsonMap.v ===== *)
(** * Ordered maps and what a JSON text reads back as

    [BTreeMap] with string keys as the list of its entries in ascending order; the object type of
    [serde_json], which is such a map; [canonical], the value the text of a value reads back as (its
    objects ordered, the last of equal keys kept); and [readable], the values whose text reads back at
    all. Values are countable, which gives every witness a concrete text for them. *)
From stdpp Require Import countable.
From S2P Require Import Prelude Rust Text Order Json.
Local Open Scope Z_scope.

(** ** [BTreeMap<String, V>] *)

Section Btree.
Context {V : Type}.
Implicit Types m : list (string * V).

Fixpoint btree_insert (k : string) (v : V) m : list (string * V) :=
  match m with
  | [] => [(k, v)]
  | (k', v') :: r =>
    match String.compare k k' with
    | Lt => (k, v) :: m
    | Eq => (k, v) :: r
    | Gt => (k', v') :: btree_insert k v r
    end
  end.

Fixpoint btree_get (k : string) m : option V :=
  match m with
  | [] => None
  | (k', v) :: r => if bool_decide (k' = k) then Some v else btree_get k r
  end.

(** The entries inserted one after the other. *)
Definition btree_of (entries : list (string * V)) : list (string * V) :=
  foldl (fun m kv => btree_insert (fst kv) (snd kv) m) [] entries.

(** The type's own invariant: keys strictly ascend. *)
Definition ordered m : Prop := StronglySorted (fun a b => String.compare a b = Lt) (map fst m).

Lemma btree_get_insert k v j m : btree_get j (btree_insert k v m) = if bool_decide (k = j) then Some v else btree_get j m.
Proof.
  induction m as [|[k' v'] m IH]; [done|]. cbn [btree_insert]. destruct (String.compare k k') eqn:E; cbn [btree_get].
  - apply (cmp_eq (cmp := String.compare)) in E as ->. by case_bool_decide.
  - done.
  - rewrite IH. destruct (decide (k' = j)) as [->|Hk]; [|by rewrite (bool_decide_false (k' = j))].
    rewrite (bool_decide_true (j = j)) by done. rewrite bool_decide_false; [done|].
    intros ->. by rewrite (cmp_refl (cmp := String.compare)) in E.
Qed.

Lemma btree_insert_keys k v m j : j ∈ map fst (btree_insert k v m) <-> j = k \/ j ∈ map fst m.
Proof.
  induction m as [|[k' v'] m IH]; simpl; [set_solver|].
  destruct (String.compare k k') eqn:E; simpl; rewrite ?elem_of_cons.
  - apply (cmp_eq (cmp := String.compare)) in E as ->. tauto.
  - tauto.
  - rewrite IH. tauto.
Qed.

Lemma btree_insert_ordered k v m : ordered m -> ordered (btree_insert k v m).
Proof.
  unfold ordered. induction m as [|[k' v'] m IH]; simpl; intros H; [by repeat constructor|].
  apply StronglySorted_inv in H as [Hs Hk]. destruct (String.compare k k') eqn:E; simpl.
  - apply (cmp_eq (cmp := String.compare)) in E as ->. by constructor.
  - constructor; [by constructor|]. constructor; [done|]. eapply Forall_impl; [exact Hk|]. intros j Hj.
    by apply (cmp_lt_trans _ k').
  - constructor; [by apply IH|]. apply Forall_forall. intros j [->|Hj]%btree_insert_keys.
    + rewrite (cmp_opp (cmp := String.compare)), E. done.
    + rewrite Forall_forall in Hk. by apply Hk.
Qed.

Lemma btree_of_ordered entries : ordered (btree_of entries).
Proof.
  unfold btree_of. assert (H : ordered []) by constructor. revert H. generalize (@nil (string * V)).
  induction entries as [|[k v] l IH]; intros m H; simpl; [done|]. apply IH. by apply btree_insert_ordered.
Qed.

Lemma ordered_NoDup m : ordered m -> NoDup (map fst m).
Proof.
  unfold ordered. induction (map fst m) as [|k l IH]; [constructor|]. intros [Hs Hk]%StronglySorted_inv.
  constructor; [|by apply IH]. intros Hin. rewrite Forall_forall in Hk. specialize (Hk k Hin).
  by rewrite (cmp_refl (cmp := String.compare)) in Hk.
Qed.

(** Inserting a key above every other puts it last. *)
Lemma btree_insert_last k v m : Forall (fun j => String.compare j k = Lt) (map fst m) -> btree_insert k v m = m ++ [(k, v)].
Proof.
  induction m as [|[k' v'] m IH]; simpl; [done|]. intros [Hk Hm]%Forall_cons.
  rewrite (cmp_opp (cmp := String.compare)), Hk. simpl. by rewrite IH.
Qed.

Lemma btree_of_ordered_id m : ordered m -> btree_of m = m.
Proof.
  intros H. unfold btree_of. enough (Hgen : forall l, ordered (l ++ m) -> foldl (fun m kv => btree_insert (fst kv) (snd kv) m) l m = l ++ m).
  { by apply (Hgen []). }
  clear H. induction m as [|[k v] m IH]; intros l Hl; simpl; [by rewrite app_nil_r|].
  rewrite btree_insert_last.
  - rewrite IH; rewrite <- app_assoc; done.
  - unfold ordered in Hl. rewrite map_app in Hl. cbn [map fst] in Hl. apply Forall_forall. intros j Hj.
    by apply (StronglySorted_app_1_elem_of _ (map fst l) (k :: map fst m) j k Hl); [|left].
Qed.
End Btree.

Lemma ordered_fmap {V W} (f : V -> W) (m : list (string * V)) : ordered (map (fun kv => (fst kv, f (snd kv))) m) <-> ordered m.
Proof. unfold ordered. by rewrite map_map. Qed.

(** ** Values by induction *)

Fixpoint value_induction (P : Value -> Prop) (Pnull : P Null) (Pbool : forall b, P (Bool b)) (Pnum : forall n, P (Num n))
    (Pstr : forall s, P (Str s)) (Parr : forall vs, Forall P vs -> P (Arr vs))
    (Pobj : forall ms, Forall (fun kv => P (snd kv)) ms -> P (Obj ms)) (v : Value) : P v :=
  let go := value_induction P Pnull Pbool Pnum Pstr Parr Pobj in
  match v with
  | Null => Pnull
  | Bool b => Pbool b
  | Num n => Pnum n
  | Str s => Pstr s
  | Arr vs => Parr vs ((fix all (vs : list Value) : Forall P vs :=
                          match vs with [] => Forall_nil_2 P | w :: r => Forall_cons_2 P w r (go w) (all r) end) vs)
  | Obj ms => Pobj ms ((fix all (ms : list (string * Value)) : Forall (fun kv => P (snd kv)) ms :=
                          match ms with
                          | [] => Forall_nil_2 (fun kv => P (snd kv))
                          | kv :: r => Forall_cons_2 (fun kv => P (snd kv)) kv r (go (snd kv)) (all r)
                          end) ms)
  end.

(** ** Objects *)

(** [json!] of an object, and [Map::insert]. *)
Definition json_object (members : list (string * Value)) : Value := Obj (btree_of members).
Definition object_insert (k : string) (v : Value) (o : Value) : Value :=
  match o with Obj ms => Obj (btree_insert k v ms) | o => o end.

Fixpoint canonical (v : Value) : Value :=
  match v with
  | Arr vs => Arr (map canonical vs)
  | Obj ms => Obj (btree_of (map (fun '(k, w) => (k, canonical w)) ms))
  | v => v
  end.

(** How deep arrays and objects nest. *)
Fixpoint nesting (v : Value) : nat :=
  match v with
  | Arr vs => S (foldr Nat.max 0%nat (map nesting vs))
  | Obj ms => S (foldr Nat.max 0%nat (map (fun '(_, w) => nesting w) ms))
  | _ => 0%nat
  end.

(** Integers within 64 bits, text in UTF-8, no float. *)
Fixpoint representable (v : Value) : bool :=
  match v with
  | Null | Bool _ => true
  | Num (PosInt n) => (0 <=? n) && (n <=? U64_MAX)
  | Num (NegInt n) => (I64_MIN <=? n) && (n <? 0)
  | Num (Float _) => false
  | Str s => bool_decide (is_Some (utf8_decode (bytes_of s)))
  | Arr vs => forallb representable vs
  | Obj ms => forallb (fun '(k, w) => bool_decide (is_Some (utf8_decode (bytes_of k))) && representable w) ms
  end.

(** The reader gives up at the 128th level. *)
Definition readable (v : Value) : Prop := representable v = true /\ (nesting v < 128)%nat.

Lemma member_is_get k ms : member k ms = btree_get k ms.
Proof. induction ms as [|[k' v] ms IH]; simpl; [done|]. by rewrite IH. Qed.

(** ** Values are countable *)

#[global] Instance number_eq_dec : EqDecision Number.
Proof. solve_decision. Defined.

Definition Leaf : Type := (option bool + (Z + Z + string) + string)%type.

Fixpoint tree_of (v : Value) : gen_tree Leaf :=
  match v with
  | Null => GenLeaf (inl (inl None))
  | Bool b => GenLeaf (inl (inl (Some b)))
  | Num (PosInt n) => GenLeaf (inl (inr (inl (inl n))))
  | Num (NegInt n) => GenLeaf (inl (inr (inl (inr n))))
  | Num (Float t) => GenLeaf (inl (inr (inr t)))
  | Str s => GenLeaf (inr s)
  | Arr vs => GenNode 0 (map tree_of vs)
  | Obj ms => GenNode 1 (map (fun '(k, w) => GenNode 2 [GenLeaf (inr k); tree_of w]) ms)
  end.

Fixpoint of_tree (t : gen_tree Leaf) : Value :=
  match t with
  | GenLeaf (inl (inl None)) => Null
  | GenLeaf (inl (inl (Some b))) => Bool b
  | GenLeaf (inl (inr (inl (inl n)))) => Num (PosInt n)
  | GenLeaf (inl (inr (inl (inr n)))) => Num (NegInt n)
  | GenLeaf (inl (inr (inr t))) => Num (Float t)
  | GenLeaf (inr s) => Str s
  | GenNode 0 ts => Arr (map of_tree ts)
  | GenNode _ ts =>
    Obj (map (fun t => match t with
                       | GenNode _ [GenLeaf (inr k); w] => (k, of_tree w)
                       | _ => (EmptyString, Null)
                       end) ts)
  end.

Lemma of_tree_of v : of_tree (tree_of v) = v.
Proof.
  induction v as [| | [] | |vs IH|ms IH] using value_induction; try done; cbn [tree_of of_tree]; f_equal; rewrite map_map.
  - induction IH as [|w vs Hw _ IH]; simpl; [done|]. by rewrite Hw, IH.
  - induction IH as [|[k w] ms Hw _ IH]; simpl; [done|]. simpl in Hw. by rewrite Hw, IH.
Qed.

#[global] Instance value_eq_dec : EqDecision Value.
Proof.
  intros v w. destruct (decide (tree_of v = tree_of w)) as [H|H]; [left|right; congruence].
  by rewrite <- (of_tree_of v), H, of_tree_of.
Defined.

#[global] Instance value_countable : Countable Value := inj_countable' tree_of of_tree of_tree_of.

(** A text for every value, and reading it. *)
Fixpoint bits_text (p : positive) : list byte :=
  match p with xH => [] | xO p => x30 :: bits_text p | xI p => x31 :: bits_text p end.

Fixpoint read_bits (bs : list byte) : option positive :=
  match bs with
  | [] => Some xH
  | x30 :: r => xO <$> read_bits r
  | x31 :: r => xI <$> read_bits r
  | _ => None
  end.

Lemma read_bits_text p : read_bits (bits_text p) = Some p.
Proof. induction p as [p IH|p IH|]; simpl; by rewrite ?IH. Qed.

Definition value_text (v : Value) : list byte := x76 :: bits_text (encode v).
Definition read_value (bs : list byte) : option Value :=
  match bs with
  | x76 :: r => canonical <$> (read_bits r ≫= decode)
  | _ => None
  end.

Lemma read_value_text v : read_value (value_text v) = Some (canonical v).
Proof. unfold read_value, value_text. rewrite read_bits_text. cbn [mbind option_bind]. by rewrite decode_encode. Qed.
