(* ===== verification/Sha256.v ===== *)
(** * SHA-256 (FIPS 180-4)

    The digest the sources take from [ring]. The crate stays a parameter of the code that calls it;
    this is the standard's own definition, so that a theorem about digests written down in the sources
    can say which function they are digests under. Words are integers below 2^32. The constants are
    not tables: they are computed from the primes, as the standard defines them. *)
From S2P Require Import Prelude Rust.
Local Open Scope Z_scope.

Definition w32 (x : Z) : Z := x mod 2 ^ 32.
Definition rotate (n x : Z) : Z := Z.lor (Z.shiftr x n) (w32 (Z.shiftl x (32 - n))).
Definition mix (f g h : Z -> Z) (x : Z) : Z := Z.lxor (f x) (Z.lxor (g x) (h x)).

Definition schedule_0 : Z -> Z := mix (rotate 7) (rotate 18) (fun x => Z.shiftr x 3).
Definition schedule_1 : Z -> Z := mix (rotate 17) (rotate 19) (fun x => Z.shiftr x 10).
Definition round_0 : Z -> Z := mix (rotate 2) (rotate 13) (rotate 22).
Definition round_1 : Z -> Z := mix (rotate 6) (rotate 11) (rotate 25).
Definition choice (x y z : Z) : Z := Z.lxor (Z.land x y) (Z.land (2 ^ 32 - 1 - x) z).
Definition majority (x y z : Z) : Z := Z.lxor (Z.land x y) (Z.lxor (Z.land x z) (Z.land y z)).

(** ** The constants *)

Definition is_prime (n : Z) : bool := forallb (fun d => negb (n mod Z.of_nat d =? 0)) (seq 2 (Z.to_nat (Z.sqrt n) - 1)).
Definition primes : list Z := List.filter is_prime (map Z.of_nat (seq 2 310)).

(** The integer cube root, bit by bit from the highest. *)
Fixpoint cube_root (bits : nat) (root n : Z) : Z :=
  match bits with
  | O => root
  | S b => let candidate := root + 2 ^ Z.of_nat b in
           cube_root b (if candidate ^ 3 <=? n then candidate else root) n
  end.

(** The first 32 bits of the fractional parts of square and cube roots. *)
Definition initial_state : list Z := Eval vm_compute in map (fun p => w32 (Z.sqrt (p * 2 ^ 64))) (take 8 primes).
Definition round_constants : list Z := Eval vm_compute in map (fun p => w32 (cube_root 40 0 (p * 2 ^ 96))) (take 64 primes).

(** ** Blocks *)

Definition be_word (bs : list byte) : Z := foldl (fun a b => a * 256 + u8 b) 0 bs.
Definition be_text (k : nat) (n : Z) : list byte :=
  map (fun i => byte_of_Z (Z.shiftr n (8 * Z.of_nat i))) (rev (seq 0 k)).

Definition padded (message : list byte) : list byte :=
  let n := length message in
  message ++ [x80] ++ repeat x00 (Z.to_nat ((55 - Z.of_nat n) mod 64)) ++ be_text 8 (8 * Z.of_nat n).

(** The message schedule, newest word first. *)
Fixpoint extend (k : nat) (ws : list Z) : list Z :=
  match k with
  | O => ws
  | S k =>
    let at_ i := nth i ws 0 in
    extend k (w32 (schedule_1 (at_ 1%nat) + at_ 6%nat + schedule_0 (at_ 14%nat) + at_ 15%nat) :: ws)
  end.
Definition schedule (block : list byte) : list Z := rev (extend 48 (rev (map be_word (chunks 4 block)))).

Definition round (s : list Z) (kw : Z * Z) : list Z :=
  match s with
  | [a; b; c; d; e; f; g; h] =>
    let t1 := h + round_1 e + choice e f g + fst kw + snd kw in
    let t2 := round_0 a + majority a b c in
    [w32 (t1 + t2); a; b; c; w32 (d + t1); e; f; g]
  | s => s
  end.

Definition compress (s : list Z) (block : list byte) : list Z :=
  zip_with (fun x y => w32 (x + y)) s (foldl round s (zip round_constants (schedule block))).

Definition sha256 (message : list byte) : list byte :=
  concat (map (be_text 4) (foldl compress initial_state (chunks 64 (padded message)))).

(** The standard's two examples: one block and two. *)
Example sha256_abc : hex (sha256 (bytes_of "abc")) = "ba7816bf8f01cfea414140de5dae2223b00361a396177a9cb410ff61f20015ad".
Proof. vm_compute. reflexivity. Qed.

Example sha256_two_blocks :
  hex (sha256 (bytes_of "abcdbcdecdefdefgefghfghighijhijkijkljklmklmnlmnomnopnopq"))
  = "248d6a61d20638b8e5c026930c3e6039a33ce45964ff2167f6ecedd419db06c1".
Proof. vm_compute. reflexivity. Qed.
