(* ===== verification/TrustLab.v ===== *)
(** * The trust lab ([trust-lab/src/main.rs])

    A service beside the workspace that plays the attester of a deployment: it keeps an Ed25519 key
    per attester on disk, signs the two credentials of the walkthrough when it starts, and issues a
    credential for any key and any claims it is asked for. The file system is [Volume]'s; text in JSON,
    SHA-256, Ed25519, the reader of the configuration and the random source are parameters. *)
From S2P Require Import Prelude Rust Text Order Encoding Settings Json JsonMap KeyCache Volume.
Local Open Scope Z_scope.
Local Open Scope rust_scope.

Definition SERVICE : string := "trust-lab".
Definition DEFAULT_PUBLIC_URL : string := "http://localhost:17080".
Definition DEFAULT_ARTIFACT_DIR : string := ".volume/trust-lab/artifacts".
Definition DEFAULT_CONFIG_PATH : string := "trust-lab/config.lab.json".
Definition DEFAULT_ATTESTER_ID : string := "acme-por-attester".
Definition DEFAULT_KEY_ID : string := "lab-attester-ed25519-1".
Definition PROOF_TYPE_SD_JWT : string := "sd-jwt".
Definition FORMAT_SD_JWT : string := "sd-jwt".
Definition PROFILE : string := "https://pic-protocol.org/profiles/0.2".
Definition SALT_BYTES : nat := 16.
Definition MAX_CLAIMS : nat := 64.
Definition MAX_CLAIM_LENGTH : Z := 512.
Definition DEFAULT_VALIDITY_SECONDS : Z := 3600.
Definition MAX_VALIDITY_SECONDS : Z := 86400.
Definition FIXTURE_WARNING : string := "local fixture for the PIC-X lab; not a production attestation issuer".

(** ** Configuration and documents *)

Record LabAttester := mkLabAttester { la_id : string; la_path : option string; la_key_id : option string }.
Record LabConfig := mkLabConfig {
  lc_public_url : option string; lc_artifact_dir : option string; lc_attesters : list LabAttester }.

Definition the_default_attester : LabAttester := mkLabAttester DEFAULT_ATTESTER_ID None (Some DEFAULT_KEY_ID).

(** [LabConfig::default]. *)
Definition lab_config_default : LabConfig :=
  mkLabConfig (Some DEFAULT_PUBLIC_URL) (Some DEFAULT_ARTIFACT_DIR) [the_default_attester].

(** [Jwk], and the object it serialises to. *)
Record LabJwk := mkLabJwk { lj_kid : string; lj_x : string }.
Definition lab_jwk_value (j : LabJwk) : Value :=
  Obj [("kid", Str (lj_kid j)); ("kty", Str "OKP"); ("crv", Str "Ed25519"); ("alg", Str "EdDSA");
       ("use", Str "sig"); ("x", Str (lj_x j))].

(** [JwkSet]. *)
Definition jwk_set_value (keys : list LabJwk) : Value := Obj [("keys", Arr (map lab_jwk_value keys))].

Record CredentialRequest := mkCredentialRequest {
  cnf_jwk_of : Value; requested : list (string * string); validity_seconds : option Z }.

Record IssuedDisclosure := mkIssued { claim : string; claim_value : string; disclosure : string; digest : string }.

Record CredentialResponse := mkCredentialResponse {
  cr_issuer : string; cr_proof_type : string; cr_format : string;
  cr_issuer_signed_jwt : string; cr_disclosures : list IssuedDisclosure;
  presentation_all_disclosed : string; cr_expires_at : Z; cr_fixture : bool; cr_fixture_warning : string }.

Record ErrorResponse := mkErrorResponse { error_code : string; error_description : string }.
Definition ApiResult (A : Type) : Type := result A (Z * ErrorResponse).

(** ** The workers of the walkthrough *)

Record WorkloadKey := mkWorkloadKey { wk_kid : string; wk_x : string; wk_y : string }.
Record Disclosure := mkDisclosure { d_claim : string; d_value : string; d_encoded : string }.

Record WorkerDefinition := mkWorker {
  w_id : string; w_role : string; w_iat : Z; w_exp : Z; w_key : WorkloadKey; sd_digests : list string;
  selected_disclosures : list Disclosure; undisclosed_disclosures : list string }.

Definition worker_1 : WorkerDefinition :=
  mkWorker "worker-1" "document-reader" 1786700500 1786704100
    (mkWorkloadKey "worker-1-key" "AbZzIerBJYtaxamji_Z4jT3oAuhAw_p-IPnIHFQ_YsM" "LxUSbSzHe7-a3WbnZqMTfpRo_2VdTY_ugsn5xW9OWtU")
    ["3CNTPr87PwmN0oW4tNoyswYdsgSUCc6R2B1JSC7I6pI"; "62rjCYviAli2R9bOU8etQ2DWjOGJETL4L2_Vewqzl8I";
     "6g3ffib_cNuBmTs4R3AyvyGK8dcZIteeRtw8yPAmDCU"; "POtp4eFO4TReywR0yahpwryzSO_dLgiK6Y8lbmdb7SA";
     "P_9_ewlbKJ-ddpy7LivbSPPCYO219Si_0pAj-iElZJQ"; "Xn7kw6_wekrrpvjPLcrMOQWwVzvVgSsMla6892-qlx8";
     "cmQs8BFsB9ejZrCaaXNbiq0iZW19oG0bTx-N5wLGm24"; "mzeyOGQIao4tTM8WvLC-qG2hQa1oxmCYl-wjz7GS0yo";
     "vh7enFAhHilhjEs409goqcE44UWGuIgzcMNhDih_Cgc"; "yjForVdxBM3AP4GqLrN715bZbnrJ9XqzanJ4WeW5Ru4"]
    [mkDisclosure "corporation" "ACME" "WyJmMFVVQ3ZNU3ljU1VYYVZmdWlEV0FBIiwiY29ycG9yYXRpb24iLCJBQ01FIl0";
     mkDisclosure "department" "sensitive-documents"
       "WyJFNTRtMDNicERUU2VXZlpPUS0xd1Z3IiwiZGVwYXJ0bWVudCIsInNlbnNpdGl2ZS1kb2N1bWVudHMiXQ"]
    ["workload_role"; "service"; "clearance"; "reader_region"; "deployment_environment"; "build_id"; "host_class"; "internal_cluster"].

Definition worker_2 : WorkerDefinition :=
  mkWorker "worker-2" "storage-writer" 1786700600 1786704200
    (mkWorkloadKey "worker-2-key" "qVrnRMgFK2zqdeguigyDOcX9p3PzUXTzey5VRIdSKgw" "BHCfKNUuGjvLYow1uxoz43CpyKKeM1_fXxrnNC3GMqE")
    ["3n0NhmZG6-aCGQ4rmfAzwDSHjdVXK93gl23p0DrE2NE"; "5jS4X8__1_bsn9BIGOHMFaaSAcrFC4QapluetUD3q9Y";
     "7LZcdUaO9sx9SPw6HOLKucCgsLzgU1lXRUH-cyPMgZA"; "HLCCyUiFz4hWQc9UEs3CxJ0jJs3aWQsEKCDyu1WDSHk";
     "Q0uqe1mYb0FWc8HHwxrXTAhvDF9r8yHiU68uB5ZhfvI"; "Qe7z-9SG7SSc4V4XQFsYtAVbBKKma-DkGf2VpVrXf9w";
     "WZL2Zh1LPIk4_CKq8XS8cifzcn9Acflj2kbA-j56R8E"; "YdzFXlL-LbeoTudnQMtMmjI8jHe6GNQbLDqkXI1SoxA";
     "xjMzpQA6cwywHrkPgKYcSEZ0wiP0WgvPRmElTrAXQfE"; "yOK0mbTnJYzeTizNrQU683ZcK6C5GtjsHnw_3hwop5E"]
    [mkDisclosure "corporation" "ACME" "WyJMZllXSWN6VG9MSXNqV3JHZjNCU1d3IiwiY29ycG9yYXRpb24iLCJBQ01FIl0";
     mkDisclosure "department" "sensitive-documents"
       "WyJQakN5bHRGalhidDViN3NyX09IbEhBIiwiZGVwYXJ0bWVudCIsInNlbnNpdGl2ZS1kb2N1bWVudHMiXQ"]
    ["workload_role"; "service"; "storage_class"; "storage_region"; "storage_namespace"; "retention_profile"; "replication_mode"; "internal_cluster"].

Definition workers : list WorkerDefinition := [worker_1; worker_2].

Definition workload_key (k : WorkloadKey) : Value :=
  json_object [("kty", Str "EC"); ("crv", Str "P-256"); ("kid", Str (wk_kid k)); ("x", Str (wk_x k)); ("y", Str (wk_y k))].

Definition processed_payload (issuer : string) (w : WorkerDefinition) : Value :=
  foldl (fun payload d => object_insert (d_claim d) (Str (d_value d)) payload)
    (json_object [("iss", Str issuer); ("iat", Num (PosInt (w_iat w))); ("exp", Num (PosInt (w_exp w)));
                  ("cnf", json_object [("jwk", workload_key (w_key w))])])
    (selected_disclosures w).

(** ** Base64url *)

(** [TABLE[i]]. *)
Definition TABLE : list byte := bytes_of "ABCDEFGHIJKLMNOPQRSTUVWXYZabcdefghijklmnopqrstuvwxyz0123456789-_".
Definition table_at (i : Z) : byte := default x00 (TABLE !! Z.to_nat i).

Definition b64url_chunk (chunk : list byte) : list byte :=
  let first := nth_byte chunk 0 in
  let second := nth_byte chunk 1 in
  let third := nth_byte chunk 2 in
  let combined := Z.lor (Z.lor (Z.shiftl first 16) (Z.shiftl second 8)) third in
  [table_at (Z.land (Z.shiftr combined 18) 63); table_at (Z.land (Z.shiftr combined 12) 63)]
  ++ (if (1 <? length chunk)%nat then [table_at (Z.land (Z.shiftr combined 6) 63)] else [])
  ++ (if (2 <? length chunk)%nat then [table_at (Z.land combined 63)] else []).

Definition b64url (input : list byte) : string := string_of (concat (map b64url_chunk (chunks 3 input))).

(** ** The crates, the disk and the random source *)

Record LabCrates := mkLabCrates {
  to_string : Value -> result string string;
  to_vec_pretty : Value -> result (list byte) string;
  config_from_str : string -> result LabConfig string;
  lab_sha256 : list byte -> list byte;
  Ed25519KeyPair : Type;
  generate_pkcs8 : nat -> option (list byte);
  from_pkcs8 : list byte -> option Ed25519KeyPair;
  public_key_of : Ed25519KeyPair -> list byte;
  pair_sign : Ed25519KeyPair -> list byte -> list byte;
  fill : nat -> nat -> option (list byte) }.

(** [Box<dyn Error>]: a failing call of the system, or a text; and a panic, of an index out of range. *)
Inductive BoxError := IoError (kind : IoKind) | Message (text : string) | Panicked.

Record ArtifactFiles := mkArtifactFiles {
  af_issuer_signed_jwt : string; af_presentation : string; af_processed_payload : string; af_manifest : string }.

Record WorkerManifest := mkManifest {
  wm_worker_id : string; wm_role : string; wm_issuer : string; wm_proof_type : string; wm_format : string;
  wm_issued : Z; wm_presented : list string; wm_undisclosed : list string; wm_files : ArtifactFiles; wm_note : string }.

Record WorkerArtifact := mkArtifact { wa_manifest : WorkerManifest; wa_presentation : string; wa_processed : Value }.

(** What the structures serialise to. *)
Definition files_value (f : ArtifactFiles) : Value :=
  Obj [("issuer_signed_jwt", Str (af_issuer_signed_jwt f)); ("presentation", Str (af_presentation f));
       ("processed_payload", Str (af_processed_payload f)); ("manifest", Str (af_manifest f))].

Definition manifest_value (m : WorkerManifest) : Value :=
  Obj [("worker_id", Str (wm_worker_id m)); ("role", Str (wm_role m)); ("issuer", Str (wm_issuer m));
       ("proof_of_relationship_type", Str (wm_proof_type m)); ("format", Str (wm_format m));
       ("issued_selectively_disclosable_attributes", Num (PosInt (wm_issued m)));
       ("presented_disclosures", Arr (map Str (wm_presented m)));
       ("undisclosed_disclosures", Arr (map Str (wm_undisclosed m)));
       ("files", files_value (wm_files m)); ("note", Str (wm_note m))].

(** ** Paths *)

(** [Path::strip_prefix], component by component: repeated separators and [.] count for nothing,
    except a [.] in front; the rest of the path is kept as it is written. *)
Definition blank (piece : string) : bool := bool_decide (piece = "" \/ piece = ".").

Fixpoint strip_pieces (root pieces : list string) : option (list string) :=
  match pieces with
  | [] => match root with [] => Some [] | _ => None end
  | p :: r =>
    if blank p then strip_pieces root r
    else match root with
         | [] => Some pieces
         | c :: root => if bool_decide (c = p) then strip_pieces root r else None
         end
  end.

Definition path_body (path : string) : list string := List.filter (fun p => negb (blank p)) (split SLASH path).
Definition path_front (path : string) : option string :=
  match split SLASH path with
  | "" :: _ => if is_absolute path then Some "/" else None
  | "." :: _ => Some "."
  | _ => None
  end.

Definition path_strip_prefix (root path : string) : option string :=
  match path_front root, path_body root with
  | None, [] => Some path
  | front, body => if bool_decide (path_front path = front) then join "/" <$> strip_pieces body (split SLASH path) else None
  end.

Definition BACKSLASH : byte := x5c.

Definition relative_artifact_path (root path : string) : string :=
  string_of (map (fun b => if bool_decide (b = BACKSLASH) then SLASH else b)
               (bytes_of (default path (path_strip_prefix root path)))).

(** ** Signing *)

Section Lab.
Context (L : LabCrates).
Abbreviation KeyPair := (Ed25519KeyPair L).

Definition compact_json (v : Value) : result string string := to_string L v.

Definition jws_header (key_id : string) : Value :=
  json_object [("alg", Str "EdDSA"); ("kid", Str key_id); ("typ", Str "vc+sd-jwt")].

Definition sign_compact_jws (key_id : string) (pair : KeyPair) (payload : Value) : result string string :=
  let? header := compact_json (jws_header key_id) in
  let? payload := compact_json payload in
  let signing_input := b64url (bytes_of header) +:+ "." +:+ b64url (bytes_of payload) in
  let signature := pair_sign L pair (bytes_of signing_input) in
  Ok (signing_input +:+ "." +:+ b64url signature).

Definition worker_payload (issuer : string) (w : WorkerDefinition) : Value :=
  json_object [("iss", Str issuer); ("iat", Num (PosInt (w_iat w))); ("exp", Num (PosInt (w_exp w)));
               ("_sd_alg", Str "sha-256"); ("_sd", Arr (map Str (sd_digests w)));
               ("cnf", json_object [("jwk", workload_key (w_key w))])].

Definition sign_sd_jwt_credential (issuer key_id : string) (pair : KeyPair) (w : WorkerDefinition) : result string string :=
  let header := json_object [("alg", Str "EdDSA"); ("kid", Str key_id); ("typ", Str "vc+sd-jwt")] in
  let payload := worker_payload issuer w in
  let? header := compact_json header in
  let? payload := compact_json payload in
  let signing_input := b64url (bytes_of header) +:+ "." +:+ b64url (bytes_of payload) in
  let signature := pair_sign L pair (bytes_of signing_input) in
  Ok (signing_input +:+ "." +:+ b64url signature).

(** ** Issuing a credential *)

(** One claim, with the salt drawn for it. *)
Definition issue_one (salt : list byte) (name value : string) : result IssuedDisclosure string :=
  let? contents := to_string L (Arr [Str (b64url salt); Str name; Str value]) in
  let disclosure := b64url (bytes_of contents) in
  let digest_value := b64url (lab_sha256 L (bytes_of disclosure)) in
  Ok (mkIssued name value disclosure digest_value).

(** [SystemRandom::fill]: the state counts the draws. *)
Definition draw_salt : M nat string (list byte) := fun n =>
  (ok_or (fill L n SALT_BYTES) "generating a disclosure salt", S n).

Fixpoint issue_disclosures (claims : list (string * string)) : M nat string (list IssuedDisclosure) :=
  match claims with
  | [] => mret []
  | (name, value) :: rest =>
    let! salt := draw_salt in
    let! issued := mlift (issue_one salt name value) in
    let! others := issue_disclosures rest in
    mret (issued :: others)
  end.

Definition reject_request (description : string) : Z * ErrorResponse := (400, mkErrorResponse "invalid_request" description).
Definition issuance_failed (error : string) : Z * ErrorResponse := (500, mkErrorResponse "issuance_failed" error).

Definition has (k : string) (members : list (string * Value)) : bool := bool_decide (is_Some (member k members)).

(** The loop over the claims. *)
Fixpoint validate_claims (claims : list (string * string)) : ApiResult unit :=
  match claims with
  | [] => Ok tt
  | (name, value) :: rest =>
    if is_empty name || is_empty value then Err (reject_request "claim names and values must be non-empty strings")
    else if (MAX_CLAIM_LENGTH <? str_len name) || (MAX_CLAIM_LENGTH <? str_len value)
    then Err (reject_request ("claim `" +:+ name +:+ "` exceeds " +:+ string_of (dec MAX_CLAIM_LENGTH) +:+ " characters"))
    else validate_claims rest
  end.

Definition validate_credential_request (r : CredentialRequest) : ApiResult unit :=
  let? jwk := ok_or (as_object (cnf_jwk_of r)) (reject_request "`cnf_jwk` must be a JWK object") in
  let? _ := match member "kty" jwk ≫= as_str with
            | Some kty => if bool_decide (kty = "EC" \/ kty = "OKP") then Ok tt
                          else Err (reject_request ("unsupported `cnf_jwk.kty` `" +:+ kty +:+ "`"))
            | None => Err (reject_request "`cnf_jwk` has no `kty`")
            end in
  if negb (has "crv" jwk) then Err (reject_request "`cnf_jwk` has no `crv`")
  else if negb (has "x" jwk) then Err (reject_request "`cnf_jwk` has no `x`")
  else if bool_decide (member "kty" jwk ≫= as_str = Some "EC") && negb (has "y" jwk)
  then Err (reject_request "an EC `cnf_jwk` has no `y`")
  else if has "d" jwk
  then Err (reject_request "`cnf_jwk` carries a private key component `d`; send the public key only")
  else if bool_decide (requested r = []) then Err (reject_request "`claims` must carry at least one attribute")
  else if (MAX_CLAIMS <? length (requested r))%nat
  then Err (reject_request ("`claims` carries more than " +:+ string_of (dec (Z.of_nat MAX_CLAIMS)) +:+ " attributes"))
  else validate_claims (requested r).

(** ** The attesters it runs *)

Record AttesterRuntime := mkRuntime {
  ar_id : string; ar_issuer : string; ar_jwks_uri : string; ar_presentation_endpoint : string;
  ar_credentials_endpoint : string; ar_configuration_endpoint : string; ar_key : LabJwk; ar_key_id : string;
  ar_signing_key : KeyPair; ar_workers : list (string * WorkerArtifact) }.

Record LabState := mkLabState { ls_artifact_dir : string; ls_attesters : list (string * AttesterRuntime) }.

Definition require_attester (s : LabState) (id : string) : ApiResult AttesterRuntime :=
  ok_or (btree_get id (ls_attesters s)) (404, mkErrorResponse "unknown_attester" ("trust-lab has no attester `" +:+ id +:+ "`")).

(** [unix_now]: a clock before 1970 is an error, with the text of [SystemTimeError]. *)
Definition lab_unix_now (clock : option Z) : result Z string := ok_or clock "second time provided was later than self".

Definition credential_payload (issuer : string) (issued_at expires_at : Z) (digests : list string) (jwk : Value) : Value :=
  json_object [("iss", Str issuer); ("iat", Num (PosInt issued_at)); ("exp", Num (PosInt expires_at));
               ("_sd_alg", Str "sha-256"); ("_sd", Arr (map Str digests)); ("cnf", json_object [("jwk", jwk)])].

(** The issuer-signed JWT, each disclosure after a tilde, and the last tilde. *)
Definition push_disclosures (jws : string) (disclosures : list string) : string :=
  foldl (fun p d => p +:+ "~" +:+ d) jws disclosures +:+ "~".

Definition create_credential (s : LabState) (clock : option Z) (attester_id : string) (r : CredentialRequest)
  : M nat (Z * ErrorResponse) CredentialResponse :=
  let! attester := mlift (require_attester s attester_id) in
  let! _ := mlift (validate_credential_request r) in
  let! issued := fun n => let '(x, n') := issue_disclosures (requested r) n in (map_err issuance_failed x, n') in
  let! issued_at := mlift (map_err issuance_failed (lab_unix_now clock)) in
  let expires_at := issued_at + Z.min (default DEFAULT_VALIDITY_SECONDS (validity_seconds r)) MAX_VALIDITY_SECONDS in
  let digests := sort_by String.compare (fun d => d) (map digest issued) in
  let payload := credential_payload (ar_issuer attester) issued_at expires_at digests (cnf_jwk_of r) in
  let! issuer_signed_jwt := mlift (map_err issuance_failed (sign_compact_jws (ar_key_id attester) (ar_signing_key attester) payload)) in
  let presentation := push_disclosures issuer_signed_jwt (map disclosure issued) in
  mret (mkCredentialResponse (ar_issuer attester) PROOF_TYPE_SD_JWT FORMAT_SD_JWT issuer_signed_jwt issued presentation
          expires_at true FIXTURE_WARNING).

(** ** The other handlers *)

Record BaseResponse := mkBaseResponse {
  br_service : string; br_status : string; br_message : string; br_attesters_endpoint : string; br_artifact_dir : string }.

Definition index (s : LabState) : BaseResponse :=
  mkBaseResponse SERVICE "ok" "public trust lab API" "/attesters" (ls_artifact_dir s).

Record AttesterSummary := mkSummary {
  as_id : string; as_issuer : string; as_configuration_endpoint : string; as_jwks_uri : string;
  as_presentation_endpoint : string; as_credentials_endpoint : string }.

Definition attester_summary (a : AttesterRuntime) : AttesterSummary :=
  mkSummary (ar_id a) (ar_issuer a) (ar_configuration_endpoint a) (ar_jwks_uri a) (ar_presentation_endpoint a)
    (ar_credentials_endpoint a).

(** [attesters]: the name of the service and a summary of each. *)
Definition lab_attesters (s : LabState) : string * list AttesterSummary :=
  (SERVICE, map (fun e => attester_summary (snd e)) (ls_attesters s)).

Record AttesterConfiguration := mkAttesterConfiguration {
  ac_issuer : string; ac_jwks_uri : string; ac_presentation_endpoint : string; ac_credentials_endpoint : string;
  ac_proof_types : list string; ac_formats : list string; ac_profile : string; ac_fixture : bool;
  ac_fixture_warning : string; ac_artifacts : list WorkerManifest }.

Definition attester_configuration (s : LabState) (attester_id : string) : ApiResult AttesterConfiguration :=
  let? a := require_attester s attester_id in
  Ok (mkAttesterConfiguration (ar_issuer a) (ar_jwks_uri a) (ar_presentation_endpoint a) (ar_credentials_endpoint a)
        [PROOF_TYPE_SD_JWT] [FORMAT_SD_JWT] PROFILE true FIXTURE_WARNING (map (fun e => wa_manifest (snd e)) (ar_workers a))).

Definition attester_jwks (s : LabState) (attester_id : string) : ApiResult (list LabJwk) :=
  let? a := require_attester s attester_id in Ok [ar_key a].

Record PresentationResponse := mkPresentationResponse {
  pr_issuer : string; pr_subject : string; pr_proof_type : string; pr_format : string; pr_presentation : string;
  pr_processed_payload : Value; pr_artifact : WorkerManifest; pr_note : string }.

Definition PRESENTATION_NOTE : string :=
  "The presentation is executor-profile and key evidence. Profile 0.2 carries its exact UTF-8 value in the legacy proof_of_relationship.evidence field; it does not by itself prove an observed handoff.".

Definition presentation_for (s : LabState) (attester_id worker_id : string) : ApiResult PresentationResponse :=
  let? a := require_attester s attester_id in
  match btree_get worker_id (ar_workers a) with
  | None => Err (404, mkErrorResponse "unknown_worker"
                        ("attester `" +:+ attester_id +:+ "` has no worker `" +:+ worker_id +:+ "`"))
  | Some artifact =>
    Ok (mkPresentationResponse (ar_issuer a) (wm_worker_id (wa_manifest artifact)) PROOF_TYPE_SD_JWT FORMAT_SD_JWT
          (wa_presentation artifact) (wa_processed artifact) (wa_manifest artifact) PRESENTATION_NOTE)
  end.

Definition worker_presentation (s : LabState) (attester_id worker_id : string) : ApiResult PresentationResponse :=
  presentation_for s attester_id worker_id.

Definition create_presentation (s : LabState) (attester_id : string) (subject : option string) : ApiResult PresentationResponse :=
  presentation_for s attester_id (default "worker-1" subject).

(** ** The table of routes *)

Inductive Segment := Lit (text : string) | Param.
Inductive Method := GET | POST.
Inductive Handler := Index | Attesters | Configuration | Jwks | WorkerPresentation | CreatePresentation | CreateCredential.

Definition app_routes : list (list Segment * (Method * Handler)) :=
  [([Lit ""], (GET, Index));
   ([Lit "attesters"], (GET, Attesters));
   ([Lit "attesters"; Param; Lit ".well-known"; Lit "attester-configuration"], (GET, Configuration));
   ([Lit "attesters"; Param; Lit "jwks.json"], (GET, Jwks));
   ([Lit "attesters"; Param; Lit "presentations"; Param], (GET, WorkerPresentation));
   ([Lit "attesters"; Param; Lit "presentations"], (POST, CreatePresentation));
   ([Lit "attesters"; Param; Lit "credentials"], (POST, CreateCredential))].

(** A parameter takes one segment that is not empty. *)
Fixpoint match_segments (pattern : list Segment) (segments : list string) : option (list string) :=
  match pattern, segments with
  | [], [] => Some []
  | Lit text :: p, s :: r => if bool_decide (text = s) then match_segments p r else None
  | Param :: p, s :: r => if is_empty s then None else cons s <$> match_segments p r
  | _, _ => None
  end.

Fixpoint route_in (routes : list (list Segment * (Method * Handler))) (segments : list string)
  : option (Method * Handler * list string) :=
  match routes with
  | [] => None
  | (pattern, h) :: r =>
    match match_segments pattern segments with
    | Some params => Some (h, params)
    | None => route_in r segments
    end
  end.

(** What a path is served by; [None] is 404, another method is 405. *)
Definition lab_route (path : string) : option (Method * Handler * list string) := route_in app_routes (tail (split SLASH path)).

(** ** Preparing the volume *)

Section Prepare.
Context (io : nat -> option Failure) (default_mode : Z) (unseen : string -> bool).

Definition fs {A} (m : M Fs IoKind A) : M Fs BoxError A := fun s => let '(r, s') := m s in (map_err IoError r, s').

Definition create_parent (path : string) : M Fs BoxError unit :=
  match parent path with
  | Some dir => fs (create_dir_all io dir)
  | None => mret tt
  end.

Definition write_json (path : string) (v : Value) : M Fs BoxError unit :=
  let! _ := create_parent path in
  let! bytes := mlift (map_err Message (to_vec_pretty L v)) in
  fs (write io default_mode path bytes).

(** [restrict_owner_only], on Unix. *)
Definition restrict_owner_only (path : string) : M Fs BoxError unit := fs (set_permissions io path 384).

(** The random source of a new key is asked with the number of calls made so far. *)
Definition new_pkcs8 : M Fs BoxError (list byte) := fun s =>
  (ok_or (generate_pkcs8 L (fs_calls s)) (Message "generating the lab attester signing key"), s).

Definition load_or_create_key (path : string) : M Fs BoxError KeyPair :=
  let! _ := fun s =>
    if exists_ unseen path s then (Ok tt, s)
    else (let! pkcs8 := new_pkcs8 in
          let! _ := create_parent path in
          let! _ := fs (write io default_mode path pkcs8) in
          restrict_owner_only path) s in
  let! bytes := fs (read_bytes io path) in
  mlift (ok_or (from_pkcs8 L bytes) (Message "reading the lab attester signing key")).

Definition MANIFEST_NOTE : string :=
  "Only the selected disclosure strings are present in presentation.sd-jwt; omitted disclosures are not written into the presentation.".

(** [issued-disclosures-summary.json]. *)
Definition issued_summary (w : WorkerDefinition) : Value :=
  json_object [("issued_selectively_disclosable_attributes", Num (PosInt (Z.of_nat (length (sd_digests w)))));
               ("presented", Arr (map (fun d => Str (d_claim d)) (selected_disclosures w)));
               ("not_presented", Arr (map Str (undisclosed_disclosures w)));
               ("selected_disclosure_strings",
                Arr (map (fun d => json_object [("claim", Str (d_claim d)); ("value", Str (d_value d)); ("disclosure", Str (d_encoded d))])
                       (selected_disclosures w)))].

Definition worker_manifest (artifact_dir worker_dir issuer : string) (w : WorkerDefinition) : WorkerManifest :=
  let file name := relative_artifact_path artifact_dir (path_join worker_dir name) in
  mkManifest (w_id w) (w_role w) issuer PROOF_TYPE_SD_JWT FORMAT_SD_JWT (Z.of_nat (length (sd_digests w)))
    (map d_claim (selected_disclosures w)) (undisclosed_disclosures w)
    (mkArtifactFiles (file "issuer-signed.jwt") (file "presentation.sd-jwt") (file "processed-payload.json") (file "manifest.json"))
    MANIFEST_NOTE.

Definition prepare_worker_artifact (artifact_dir attester_dir issuer key_id : string) (pair : KeyPair) (w : WorkerDefinition)
  : M Fs BoxError WorkerArtifact :=
  let worker_dir := path_join (path_join attester_dir "workers") (w_id w) in
  let! _ := fs (create_dir_all io worker_dir) in
  let! issuer_signed_jwt := mlift (map_err Message (sign_sd_jwt_credential issuer key_id pair w)) in
  match selected_disclosures w with
  | first :: second :: _ =>
    let presentation := issuer_signed_jwt +:+ "~" +:+ d_encoded first +:+ "~" +:+ d_encoded second +:+ "~" in
    let processed := processed_payload issuer w in
    let manifest := worker_manifest artifact_dir worker_dir issuer w in
    let! _ := fs (write io default_mode (path_join worker_dir "issuer-signed.jwt") (bytes_of issuer_signed_jwt)) in
    let! _ := fs (write io default_mode (path_join worker_dir "presentation.sd-jwt") (bytes_of presentation)) in
    let! _ := write_json (path_join worker_dir "processed-payload.json") processed in
    let! _ := write_json (path_join worker_dir "manifest.json") (manifest_value manifest) in
    let! _ := write_json (path_join worker_dir "issued-disclosures-summary.json") (issued_summary w) in
    mret (mkArtifact manifest presentation processed)
  | _ => mfail Panicked
  end.

Fixpoint prepare_workers (artifact_dir attester_dir issuer key_id : string) (pair : KeyPair) (ws : list WorkerDefinition)
    (prepared : list (string * WorkerArtifact)) : M Fs BoxError (list (string * WorkerArtifact)) :=
  match ws with
  | [] => mret prepared
  | w :: rest =>
    let! artifact := prepare_worker_artifact artifact_dir attester_dir issuer key_id pair w in
    prepare_workers artifact_dir attester_dir issuer key_id pair rest (btree_insert (w_id w) artifact prepared)
  end.

Definition jwk_of_pair (key_id : string) (pair : KeyPair) : LabJwk := mkLabJwk key_id (b64url (public_key_of L pair)).

Definition prepare_attester (public_url artifact_dir : string) (configured : LabAttester) : M Fs BoxError AttesterRuntime :=
  let id := la_id configured in
  let key_id := default DEFAULT_KEY_ID (la_key_id configured) in
  let path := default ("/attesters/" +:+ id) (la_path configured) in
  let issuer := public_url +:+ trim_end_slashes path in
  let attester_dir := path_join (path_join artifact_dir "attesters") id in
  let! _ := fs (create_dir_all io attester_dir) in
  let! keys := load_or_create_key (path_join attester_dir "issuer-ed25519.pkcs8") in
  let key := jwk_of_pair key_id keys in
  let! _ := write_json (path_join attester_dir "jwks.json") (jwk_set_value [key]) in
  let! worker_artifacts := prepare_workers artifact_dir attester_dir issuer key_id keys workers [] in
  mret (mkRuntime id issuer (issuer +:+ "/jwks.json") (issuer +:+ "/presentations") (issuer +:+ "/credentials")
          (issuer +:+ "/.well-known/attester-configuration") key key_id keys worker_artifacts).

Fixpoint prepare_attesters (public_url artifact_dir : string) (configured : list LabAttester)
    (prepared : list (string * AttesterRuntime)) : M Fs BoxError (list (string * AttesterRuntime)) :=
  match configured with
  | [] => mret prepared
  | c :: rest =>
    let! runtime := prepare_attester public_url artifact_dir c in
    prepare_attesters public_url artifact_dir rest (btree_insert (ar_id runtime) runtime prepared)
  end.

Definition prepare_state (c : LabConfig) : M Fs BoxError LabState :=
  let public_url := trim_end_slashes (default DEFAULT_PUBLIC_URL (lc_public_url c)) in
  let artifact_dir := default DEFAULT_ARTIFACT_DIR (lc_artifact_dir c) in
  let! attesters := prepare_attesters public_url artifact_dir (lc_attesters c) [] in
  mret (mkLabState artifact_dir attesters).

(** [env::var]: a variable that is not set, or not UTF-8, is [None]. *)
Definition load_config (var : string -> option string) : M Fs BoxError LabConfig :=
  let path := default DEFAULT_CONFIG_PATH (var "TRUST_LAB_CONFIG") in
  let! config := fun s =>
    match read_to_string io path s with
    | (Ok text, s') => (map_err Message (config_from_str L text), s')
    | (Err IoNotFound, s') => (Ok lab_config_default, s')
    | (Err kind, s') => (Err (IoError kind), s')
    end in
  let config := match var "TRUST_LAB_PUBLIC_URL" with
                | Some url => mkLabConfig (Some url) (lc_artifact_dir config) (lc_attesters config)
                | None => config
                end in
  let config := match var "TRUST_LAB_ARTIFACT_DIR" with
                | Some dir => mkLabConfig (lc_public_url config) (Some dir) (lc_attesters config)
                | None => config
                end in
  mret (if bool_decide (length (lc_attesters config) = 0%nat)
        then mkLabConfig (lc_public_url config) (lc_artifact_dir config) [the_default_attester]
        else config).
End Prepare.
End Lab.
