(* ===== verification/TrustLabProperties.v ===== *)
(** * The properties of the trust lab

    What the lab issues is what the realm's evidence check accepts: its base64url is the codec of the
    key ring, its requests are checked against stated rules, any choice of the disclosures it issued
    makes a presentation that [Por] accepts with exactly the chosen claims, and the two credentials
    of the walkthrough, digests and all, are accepted with the payload the lab publishes for them. *)
From S2P Require Import Prelude Rust Text Order Encoding Settings Json JsonMap KeyCache Por PorProperties Volume Sha256 TrustLab.
Local Open Scope Z_scope.
Local Open Scope rust_scope.

(** ** The codec *)

Lemma table_at_sextet bits i : (i < 4)%nat -> table_at (Z.land (Z.shiftr bits (18 - 6 * Z.of_nat i)) 63) = encode_sextet URL_SAFE bits i.
Proof.
  intros Hi. unfold table_at, encode_sextet. change TABLE with URL_SAFE.
  assert (Hr : 0 <= Z.land (Z.shiftr bits (18 - 6 * Z.of_nat i)) 63 < 64).
  { change 63 with (Z.ones 6). rewrite Z.land_ones by lia. apply Z.mod_pos_bound. lia. }
  destruct (alphabet_lookup URL_SAFE _ url_safe_ok Hr) as (e & -> & _). done.
Qed.

Lemma b64url_chunk_is chunk : (1 <= length chunk <= 3)%nat -> b64url_chunk chunk = encode_chunk URL_SAFE false chunk.
Proof.
  intros Hl. unfold b64url_chunk, encode_chunk. rewrite app_nil_r.
  set (bits := Z.lor _ _). rewrite <- (Z.shiftr_0_r bits) at 4.
  pose proof (table_at_sextet bits 0) as H0. pose proof (table_at_sextet bits 1) as H1.
  pose proof (table_at_sextet bits 2) as H2. pose proof (table_at_sextet bits 3) as H3.
  change (18 - 6 * Z.of_nat 0) with 18 in H0. change (18 - 6 * Z.of_nat 1) with 12 in H1.
  change (18 - 6 * Z.of_nat 2) with 6 in H2. change (18 - 6 * Z.of_nat 3) with 0 in H3. rewrite H0, H1, H2, H3 by lia.
  destruct chunk as [|a [|b [|c [|]]]]; simpl in *; (lia || done).
Qed.

Lemma chunk_lengths {A} (l : list A) : Forall (fun c => (1 <= length c <= 3)%nat) (chunks 3 l).
Proof.
  unfold chunks. generalize (length l) as f. intros f. revert l.
  induction f as [|f IH]; intros [|x l]; simpl; constructor; auto. destruct l as [|? [|? ?]]; simpl; lia.
Qed.

(** The lab's hand-written base64url is the codec the key ring writes its keys with. *)
Lemma b64url_is_base64url input : b64url input = base64url input.
Proof.
  unfold b64url, base64url, Encoding.encode. do 2 f_equal. apply map_ext_Forall.
  eapply Forall_impl; [apply chunk_lengths|]. intros c. apply b64url_chunk_is.
Qed.

Definition url_byte (b : byte) : bool := is_ascii_byte b && negb (bool_decide (b = TILDE)) && negb (bool_decide (b = DOT)).

Lemma base64url_bytes input : Forall (fun b => url_byte b = true) (bytes_of (base64url input)).
Proof.
  unfold base64url. rewrite bytes_of_string_of. eapply Forall_impl; [apply encode_bytes, url_safe_ok|].
  intros b (_ & _ & [->|Hb]); [reflexivity|]. revert b Hb. apply Forall_forall.
  by apply (bool_decide_unpack (Forall (fun b => url_byte b = true) URL_SAFE)).
Qed.

Lemma base64url_utf8 input : is_utf8 (base64url input).
Proof.
  unfold is_utf8. rewrite utf8_decode_ascii; [done|]. eapply Forall_impl; [apply base64url_bytes|].
  intros b H. unfold url_byte in H. by bool_to_prop.
Qed.

Lemma utf8_representable s : is_utf8 s -> representable (Str s) = true.
Proof. intros H. by apply bool_decide_eq_true_2. Qed.

Lemma representable_obj ms :
  Forall (fun kv => is_utf8 (fst kv) /\ representable (snd kv) = true) ms -> representable (Obj ms) = true.
Proof.
  intros H. cbn [representable]. apply forallb_forall. intros [k v] Hin%list_elem_of_In. rewrite Forall_forall in H.
  destruct (H _ Hin) as [Hk Hv]. simpl in *. by rewrite (bool_decide_eq_true_2 _ Hk), Hv.
Qed.

(** The members of an object whose names are literals. *)
Ltac members := apply representable_obj; repeat (apply Forall_cons; split; [split; [by eexists|simpl fst; simpl snd]|]); [..|by apply Forall_nil].

Lemma base64url_nonempty input : input <> [] -> base64url input <> "".
Proof.
  intros Hi He. pose proof (from_base64url_encode input) as H. rewrite He in H. by injection H as <-.
Qed.

(** ** The text of a presentation *)

(** Pieces with a separator after each but the last. *)
Lemma split_join c (ps : list string) last :
  Forall (fun p => Forall (fun b => b <> c) (bytes_of p)) (ps ++ [last]) ->
  split c (foldr (fun p rest => p +:+ string_of [c] +:+ rest) last ps) = ps ++ [last].
Proof.
  unfold split. induction ps as [|p ps IH]; simpl; intros H; apply Forall_cons in H as [Hp H].
  - rewrite split_list_none; [simpl; by rewrite string_of_bytes_of|].
    eapply Forall_impl; [exact Hp|]. intros b Hb. by apply bool_decide_eq_false.
  - rewrite !bytes_of_app, bytes_of_string_of. simpl.
    rewrite split_list_app; [|eapply Forall_impl; [exact Hp|]; intros b Hb; by apply bool_decide_eq_false|by apply bool_decide_eq_true].
    simpl. by rewrite string_of_bytes_of, IH.
Qed.

Lemma string_app_assoc (a b c : string) : (a +:+ b) +:+ c = a +:+ (b +:+ c).
Proof. apply bytes_of_inj. rewrite !bytes_of_app. by rewrite app_assoc. Qed.

Lemma push_disclosures_is jws ds :
  push_disclosures jws ds = foldr (fun p rest => p +:+ string_of [TILDE] +:+ rest) "" (jws :: ds).
Proof.
  unfold push_disclosures. revert jws. induction ds as [|d ds IH]; intros jws; [done|].
  cbn [foldl]. rewrite IH. cbn [foldr]. by rewrite !string_app_assoc.
Qed.

Lemma ends_with_app s t : ends_with t (s +:+ t) = true.
Proof.
  unfold ends_with, strip_suffix. rewrite bytes_of_app, rev_app_distr. apply bool_decide_eq_true.
  rewrite (proj2 (strip_prefix_list_Some _ _ (rev (bytes_of s)))) by done. done.
Qed.

Lemma url_text_without c s : c = TILDE \/ c = DOT -> Forall (fun b => url_byte b = true) (bytes_of s) -> Forall (fun b => b <> c) (bytes_of s).
Proof. intros Hc H. eapply Forall_impl; [exact H|]. unfold url_byte. intros b Hb. bool_to_prop. destruct Hc as [-> | ->]; done. Qed.

(** A compact JWS of three base64url segments. *)
Definition jws_of (h p s : list byte) : string := base64url h +:+ "." +:+ base64url p +:+ "." +:+ base64url s.

Lemma jws_of_split h p s : split DOT (jws_of h p s) = [base64url h; base64url p; base64url s].
Proof.
  apply (split_join DOT [base64url h; base64url p] (base64url s)).
  repeat constructor; apply (url_text_without DOT); auto using base64url_bytes.
Qed.

Lemma jws_of_bytes h p s : Forall (fun b => is_ascii_byte b = true /\ b <> TILDE) (bytes_of (jws_of h p s)).
Proof.
  assert (Hu : forall i, Forall (fun b => is_ascii_byte b = true /\ b <> TILDE) (bytes_of (base64url i))).
  { intros i. eapply Forall_impl; [apply base64url_bytes|]. unfold url_byte. intros b Hb. by bool_to_prop. }
  unfold jws_of. rewrite !bytes_of_app. repeat (apply Forall_app; split); auto; by repeat constructor.
Qed.

(** Splitting undoes the pushing. *)
Lemma split_pushed jws ds :
  jws <> "" -> Forall (fun b => b <> TILDE) (bytes_of jws) -> Forall (fun d => d <> "") ds ->
  Forall (fun d => Forall (fun b => b <> TILDE) (bytes_of d)) ds -> (length ds <= MAX_DISCLOSURES)%nat ->
  split_presentation (push_disclosures jws ds) = Ok (jws, ds).
Proof.
  intros Hj Hjt Hd Hdt Hl. unfold split_presentation.
  assert (Hend : ends_with "~" (push_disclosures jws ds) = true) by apply ends_with_app.
  rewrite Hend, push_disclosures_is, (split_join TILDE (jws :: ds) "").
  2:{ cbn [app]. constructor; [done|]. apply Forall_app. split; [done|by repeat constructor]. }
  cbn [app]. rewrite (bool_decide_eq_false_2 _ Hj : is_empty jws = false). cbn [negb].
  rewrite List.filter_app. rewrite (filter_all _ ds). 2:{ eapply Forall_impl; [exact Hd|]. intros d Hne. unfold is_empty. by rewrite bool_decide_eq_false_2. }
  change (List.filter (fun v => negb (is_empty v)) [""]) with (@nil string). rewrite app_nil_r.
  by rewrite (proj2 (Nat.ltb_ge _ _) Hl).
Qed.

(** ** Issuing *)

Section Issuing.
Context (X : PorCrates) (L : LabCrates).

(** What the crates of the two programs have in common. Text in JSON can be written for every value,
    is never empty, and reads back as the value; both sides' base64url is the URL-safe alphabet
    without padding; both digests are the same function; a signature verifies under the key published
    for it, whose algorithm is EdDSA. *)
Record agree : Prop := {
  json_total : forall v, exists s, to_string L v = Ok s;
  json_some : forall v s, to_string L v = Ok s -> s <> "";
  json_reads : forall v s, readable v -> to_string L v = Ok s -> from_slice X (bytes_of s) = Some (canonical v);
  base64_writes : forall bs, b64_encode X bs = base64url bs;
  base64_reads : forall bs, b64_decode X (base64url bs) = Some bs;
  digests_agree : forall bs, sha256_of X bs = lab_sha256 L bs;
  keys_agree : forall kid pair, exists k,
    public_key_from_jwk X (canonical (lab_jwk_value (jwk_of_pair L kid pair))) = Ok k /\
    expected_jose X (canonical (lab_jwk_value (jwk_of_pair L kid pair))) = Some "EdDSA" /\
    forall data, public_key_verify X k data (pair_sign L pair data) = true }.
Context (A : agree).

Lemma sign_compact_jws_is key_id pair payload :
  exists h p, to_string L (jws_header key_id) = Ok h /\ to_string L payload = Ok p /\
    sign_compact_jws L key_id pair payload
    = Ok (jws_of (bytes_of h) (bytes_of p)
            (pair_sign L pair (bytes_of (base64url (bytes_of h) +:+ "." +:+ base64url (bytes_of p))))).
Proof using A.
  destruct (json_total A (jws_header key_id)) as [h Hh], (json_total A payload) as [p Hp]. exists h, p. split_and!; [done..|].
  unfold sign_compact_jws, compact_json. rewrite Hh, Hp. cbn [bind_result]. rewrite !b64url_is_base64url. unfold jws_of.
  by rewrite !string_app_assoc.
Qed.

(** One claim, issued. *)
Definition issued_for (c : string * string) (d : IssuedDisclosure) : Prop :=
  exists salt, issue_one L salt (fst c) (snd c) = Ok d.

Lemma issue_disclosures_total claims n :
  (forall k, is_Some (fill L k SALT_BYTES)) ->
  exists issued, issue_disclosures L claims n = (Ok issued, (n + length claims)%nat) /\ Forall2 issued_for claims issued.
Proof using A.
  intros Hfill. revert n. induction claims as [|[name value] claims IH]; intros n.
  { exists []. split; [by rewrite Nat.add_0_r|constructor]. }
  destruct (Hfill n) as [salt Hs], (IH (S n)) as (issued & Hi & Hf).
  assert (Ho : exists d, issue_one L salt name value = Ok d).
  { unfold issue_one. destruct (json_total A (Arr [Str (b64url salt); Str name; Str value])) as [c ->]. eauto. }
  destruct Ho as [d Ho]. exists (d :: issued). split; [|constructor; [by exists salt|done]].
  cbn [issue_disclosures]. unfold mbind_st at 1, draw_salt. rewrite Hs. cbn [ok_or].
  unfold mbind_st at 1, mlift. rewrite Ho. unfold mbind_st. rewrite Hi. unfold mret. f_equal. simpl. lia.
Qed.

Definition utf8_pair (c : string * string) : Prop := is_utf8 (fst c) /\ is_utf8 (snd c).

(** What an issued disclosure is: it carries its claim, commits to its own text, and reads back. *)
Lemma issued_for_is c d :
  issued_for c d -> utf8_pair c ->
  claim d = fst c /\ claim_value d = snd c /\ digest d = disclosure_digest X (disclosure d) /\ disclosure d <> "" /\
  Forall (fun b => url_byte b = true) (bytes_of (disclosure d)) /\
  exists salt, (b64_decode X (disclosure d) ≫= from_slice X) = Some (Arr [Str salt; Str (claim d); Str (claim_value d)]).
Proof using A.
  intros [salt Hd] [Hn Hv]. unfold issue_one in Hd. run_inv.
  match goal with Hc : to_string L _ = Ok ?c |- _ => rename c into contents; rename Hc into Hcont end.
  simpl. rewrite !b64url_is_base64url in *. split_and!; [done..| | | |].
  - unfold disclosure_digest. by rewrite (base64_writes A), (digests_agree A).
  - apply base64url_nonempty. intros He. apply (json_some A _ _ Hcont). by rewrite <- (string_of_bytes_of contents), He.
  - apply base64url_bytes.
  - exists (base64url salt). rewrite (base64_reads A). cbn [mbind option_bind].
    rewrite (fun H => json_reads A _ _ H Hcont); [done|]. split; [|simpl; lia]. simpl.
    rewrite !bool_decide_eq_true_2 by (done || apply base64url_utf8). done.
Qed.

Lemma decode_issued c d :
  issued_for c d -> utf8_pair c ->
  decode_disclosure X (disclosure d) = if is_reserved (claim d) then Err (reject "a disclosure uses a reserved claim name")
                                       else Ok (claim d, Str (claim_value d)).
Proof using A.
  intros Hd Hc. destruct (issued_for_is _ _ Hd Hc) as (_ & _ & _ & _ & _ & salt & Hr). unfold decode_disclosure.
  destruct (b64_decode X (disclosure d)) as [bs|]; [|done]. cbn [mbind option_bind] in Hr. cbn [ok_or bind_result].
  rewrite Hr. done.
Qed.

(** ** The credential *)

(** A name a disclosure may carry: not of the SD-JWT machinery and not a claim every credential has. *)
Definition presentable (name : string) : bool :=
  negb (is_reserved name) && negb (bool_decide (name ∈ ["iss"; "iat"; "exp"; "cnf"])).

(** What a credential says in the clear. *)
Definition in_the_clear (issuer : string) (issued_at expires_at : Z) (jwk : Value) : gmap string Value :=
  list_to_map [("iss", Str issuer); ("iat", Num (PosInt issued_at)); ("exp", Num (PosInt expires_at)); ("cnf", Obj [("jwk", jwk)])].

Lemma credential_payload_is issuer iat exp ds jwk :
  credential_payload issuer iat exp ds jwk
  = Obj [("_sd", Arr (map Str ds)); ("_sd_alg", Str "sha-256"); ("cnf", Obj [("jwk", jwk)]);
         ("exp", Num (PosInt exp)); ("iat", Num (PosInt iat)); ("iss", Str issuer)].
Proof. reflexivity. Qed.

Lemma map_canonical_strings ds : map canonical (map Str ds) = map Str ds.
Proof. rewrite map_map. by apply map_ext. Qed.

Lemma credential_canonical issuer iat exp ds jwk :
  canonical jwk = jwk -> canonical (credential_payload issuer iat exp ds jwk) = credential_payload issuer iat exp ds jwk.
Proof. intros Hj. rewrite credential_payload_is. cbn. rewrite map_canonical_strings, Hj. reflexivity. Qed.

Lemma nesting_strings ds : foldr Nat.max 0%nat (map nesting (map Str ds)) = 0%nat.
Proof. induction ds; simpl; [done|]. by rewrite IHds. Qed.

Lemma credential_readable issuer iat exp ds jwk :
  is_utf8 issuer -> 0 <= iat <= U64_MAX -> 0 <= exp <= U64_MAX -> Forall is_utf8 ds ->
  representable jwk = true -> (nesting jwk < 126)%nat -> readable (credential_payload issuer iat exp ds jwk).
Proof.
  intros Hi Hiat Hexp Hds Hj Hn. rewrite credential_payload_is. split.
  - cbn. rewrite Hj. rewrite (bool_decide_eq_true_2 _ Hi).
    assert (Hs : forallb representable (map Str ds) = true).
    { apply forallb_forall. intros v (d & <- & Hd)%in_map_iff. simpl. apply bool_decide_eq_true_2.
      rewrite Forall_forall in Hds. by apply Hds, list_elem_of_In. }
    rewrite Hs. rewrite !(proj2 (Z.leb_le _ _)) by lia. done.
  - cbn. rewrite nesting_strings. lia.
Qed.

Lemma omap_strings ds : omap as_str (map Str ds) = ds.
Proof. induction ds as [|d ds IH]; [done|]. change (d :: omap as_str (map Str ds) = d :: ds). by rewrite IH. Qed.

Lemma committed_is issuer iat exp ds jwk : committed_digests (credential_payload issuer iat exp ds jwk) = ds.
Proof.
  rewrite credential_payload_is. change (omap as_str (map Str ds) = ds). apply omap_strings.
Qed.

Lemma always_disclosed_is issuer iat exp ds jwk :
  always_disclosed (credential_payload issuer iat exp ds jwk) = in_the_clear issuer iat exp jwk.
Proof. rewrite credential_payload_is. reflexivity. Qed.

Lemma in_the_clear_None issuer iat exp jwk n :
  in_the_clear issuer iat exp jwk !! n = None <-> n ∉ ["iss"; "iat"; "exp"; "cnf"].
Proof. unfold in_the_clear. by rewrite <- not_elem_of_list_to_map. Qed.

(** A signed credential decodes to its header and its payload, and its signature verifies. *)
Lemma signed_decodes key_id pair payload jws :
  is_utf8 key_id -> readable payload -> sign_compact_jws L key_id pair payload = Ok jws ->
  decode_jws_segments X jws = Ok (canonical (jws_header key_id), canonical payload) /\
  jws <> "" /\ Forall (fun b => is_ascii_byte b = true /\ b <> TILDE) (bytes_of jws) /\
  exists input, jws_signature_parts X jws = Ok (input, pair_sign L pair input).
Proof using A.
  intros Hk Hr Hs. destruct (sign_compact_jws_is key_id pair payload) as (h & p & Hh & Hp & He). rewrite He in Hs.
  injection Hs as <-. unfold decode_jws_segments, jws_signature_parts. rewrite jws_of_split.
  assert (Hhr : readable (jws_header key_id)).
  { split; [|by apply Nat.ltb_lt].
    change (jws_header key_id) with (Obj [("alg", Str "EdDSA"); ("kid", Str key_id); ("typ", Str "vc+sd-jwt")]).
    members; apply utf8_representable; first [exact Hk|by eexists]. }
  unfold decode_json. rewrite !(base64_reads A). cbn [ok_or bind_result].
  rewrite (json_reads A _ _ Hhr Hh), (json_reads A _ _ Hr Hp). split_and!; [done| |apply jws_of_bytes|by eexists].
  unfold jws_of. intros E. apply (f_equal bytes_of) in E. rewrite !bytes_of_app in E.
  apply (f_equal length) in E. rewrite !length_app in E. simpl in E. lia.
Qed.

(** ** Choosing among the issued disclosures *)

Definition no_collision (issued : list IssuedDisclosure) : Prop :=
  forall d d', d ∈ issued -> d' ∈ issued -> digest d = digest d' -> disclosure d = disclosure d'.

Definition claim_of (d : IssuedDisclosure) : string * Value := (claim d, Str (claim_value d)).

Section Chosen.
Context (claims : list (string * string)) (issued : list IssuedDisclosure)
  (Hissued : Forall2 issued_for claims issued) (Hutf8 : Forall utf8_pair claims) (Hnames : NoDup (map fst claims)).

Lemma issued_origin d : d ∈ issued -> exists c, issued_for c d /\ utf8_pair c.
Proof using Hissued Hutf8.
  intros [i Hd]%list_elem_of_lookup. destruct (Forall2_lookup_r _ _ _ _ _ Hissued Hd) as (c & Hc & Hi).
  exists c. split; [done|]. by eapply Forall_lookup_1.
Qed.

Lemma issued_claims : map (fun d => (claim d, claim_value d)) issued = claims.
Proof using Hissued Hutf8 A.
  clear Hnames. revert Hutf8. induction Hissued as [|[n v] d cs ds Hd Hds IH]; [done|]. intros Hu.
  apply Forall_cons in Hu as [Hc Hu]. destruct (issued_for_is _ _ Hd Hc) as (Hn & Hv & _). cbn [map]. by rewrite Hn, Hv, (IH Hds Hu).
Qed.

Lemma issued_by_name d d' : d ∈ issued -> d' ∈ issued -> claim d = claim d' -> d = d'.
Proof using Hissued Hutf8 Hnames A.
  intros Hd Hd' He. assert (Hn : NoDup (map claim issued)).
  { rewrite <- issued_claims, map_map in Hnames. done. }
  clear -Hn Hd Hd' He. induction issued as [|x l IH]; [by apply not_elem_of_nil in Hd|].
  cbn [map] in Hn. apply NoDup_cons in Hn as [Hx Hn].
  apply elem_of_cons in Hd as [->|Hd], Hd' as [->|Hd']; [done| | |by apply IH].
  - destruct Hx. rewrite He. by apply list_elem_of_fmap_2.
  - destruct Hx. rewrite <- He. by apply list_elem_of_fmap_2.
Qed.

(** One text carries one claim, so with no collision of digests one digest is one disclosure. *)
Lemma issued_by_digest d d' : no_collision issued -> d ∈ issued -> d' ∈ issued -> digest d = digest d' -> d = d'.
Proof using Hissued Hutf8 Hnames A.
  intros Hnc Hd Hd' He. apply issued_by_name; [done..|]. apply Hnc in He; [|done..].
  destruct (issued_origin d Hd) as (c & Hc & Hu), (issued_origin d' Hd') as (c' & Hc' & Hu').
  destruct (issued_for_is _ _ Hc Hu) as (_ & _ & _ & _ & _ & s & Hs).
  destruct (issued_for_is _ _ Hc' Hu') as (_ & _ & _ & _ & _ & s' & Hs'). rewrite He in Hs. congruence.
Qed.

Lemma chosen_named chosen : chosen ⊆ issued -> Forall (fun d => is_reserved (claim d) = false) chosen ->
  discloses X (map disclosure chosen) (map claim_of chosen).
Proof using Hissued Hutf8 A.
  clear Hnames. intros Hsub Hr. induction Hr as [|d l Hd _ IH]; [constructor|]. constructor; [|apply IH; set_solver].
  destruct (issued_origin d) as (c & Hc & Hu); [set_solver|]. rewrite (decode_issued _ _ Hc Hu), Hd. done.
Qed.

Lemma named_chosen chosen named : chosen ⊆ issued -> discloses X (map disclosure chosen) named ->
  named = map claim_of chosen /\ Forall (fun d => is_reserved (claim d) = false) chosen.
Proof using Hissued Hutf8 A.
  clear Hnames. unfold discloses. revert named. induction chosen as [|d l IH]; intros named Hsub H; inversion H as [|? nv ? rest Hd Hl]; subst; [done|].
  destruct (IH rest) as [-> Hr]; [set_solver|done|]. destruct (issued_origin d) as (c & Hc & Hu); [set_solver|].
  rewrite (decode_issued _ _ Hc Hu) in Hd. destruct (is_reserved (claim d)) eqn:E; [done|]. injection Hd as <-. by split; [|constructor].
Qed.

Lemma chosen_disclosed digests chosen issuer iat exp jwk cs :
  no_collision issued -> digests ≡ₚ map digest issued -> NoDup chosen -> chosen ⊆ issued ->
  disclose X digests [] (in_the_clear issuer iat exp jwk) (map disclosure chosen) = Ok cs <->
  Forall (fun d => presentable (claim d) = true) chosen /\ cs = list_to_map (map claim_of chosen) ∪ in_the_clear issuer iat exp jwk.
Proof using Hissued Hutf8 Hnames A.
  intros Hnc Hdig Hnd Hsub. rewrite disclose_iff.
  assert (Hdd : forall d, d ∈ chosen -> disclosure_digest X (disclosure d) = digest d).
  { intros d Hd. destruct (issued_origin d) as (c & Hc & Hu); [set_solver|]. symmetry. apply (issued_for_is _ _ Hc Hu). }
  split.
  - intros (named & Hn & _ & _ & _ & Hfree & ->). destruct (named_chosen _ _ Hsub Hn) as [-> Hr]. split; [|done].
    rewrite Forall_forall in Hr |- *. intros d Hd. unfold presentable. rewrite Hr by done. apply negb_true_iff, bool_decide_eq_false_2.
    apply (in_the_clear_None issuer iat exp jwk), Hfree. rewrite map_map. by apply list_elem_of_fmap_2.
  - intros [Hp ->]. rewrite Forall_forall in Hp. exists (map claim_of chosen). split_and!.
    + apply chosen_named; [done|]. apply Forall_forall. intros d Hd. specialize (Hp d Hd). unfold presentable in Hp. by bool_to_prop.
    + rewrite map_map. apply NoDup_fmap_2_strong; [|done]. intros d d' Hd Hd' He. rewrite !Hdd in He by done.
      apply issued_by_digest; set_solver.
    + intros x (d & -> & Hd)%list_elem_of_fmap. rewrite Hdd by done. split; [|apply not_elem_of_nil]. rewrite Hdig.
      apply list_elem_of_fmap_2. set_solver.
    + rewrite map_map. apply NoDup_fmap_2_strong; [|done]. intros d d' Hd Hd' He. apply issued_by_name; set_solver.
    + rewrite map_map. intros n (d & -> & Hd)%list_elem_of_fmap. apply in_the_clear_None. specialize (Hp d Hd).
      unfold presentable in Hp. by bool_to_prop.
    + done.
Qed.
End Chosen.

(** ** The server *)

Context {S : Type} `{!AttesterKeySource S}.

(** The key set the lab serves, as the server reads it. *)
Lemma served_set_reads key_id pair text :
  is_utf8 key_id -> to_string L (jwk_set_value [jwk_of_pair L key_id pair]) = Ok text ->
  parse_key_set (from_slice X) (bytes_of text) = Ok [canonical (lab_jwk_value (jwk_of_pair L key_id pair))].
Proof using A.
  intros Hk Ht. unfold parse_key_set. rewrite (fun H => json_reads A _ _ H Ht); [reflexivity|].
  split; [|by apply Nat.ltb_lt]. unfold jwk_of_pair, jwk_set_value. rewrite b64url_is_base64url. members.
  cbn [map lab_jwk_value representable forallb]. rewrite andb_true_r. change (representable (lab_jwk_value (mkLabJwk key_id (base64url (public_key_of L pair)))) = true).
  unfold lab_jwk_value. cbn [lj_kid lj_x]. members; apply utf8_representable; first [exact Hk|apply base64url_utf8|by eexists].
Qed.

Lemma lab_signature_verifies key_id pair payload jws server (ks : S) :
  is_utf8 key_id -> readable payload -> sign_compact_jws L key_id pair payload = Ok jws ->
  keys_for ks (attester_id server) = Ok [canonical (lab_jwk_value (jwk_of_pair L key_id pair))] ->
  verify_issuer_signature X jws (canonical (jws_header key_id)) server ks = Ok tt.
Proof using A.
  intros Hk Hr Hs Hkeys. destruct (signed_decodes _ _ _ _ Hk Hr Hs) as (_ & _ & _ & input & Hsig).
  destruct (keys_agree A key_id pair) as (k & Hpk & Hjose & Hver).
  unfold verify_issuer_signature. change (get_str "alg" (canonical (jws_header key_id))) with (Some "EdDSA").
  change (get_str "kid" (canonical (jws_header key_id))) with (Some key_id). cbn [ok_or bind_result].
  rewrite bool_decide_eq_false_2 by done. rewrite Hsig. cbn [bind_result]. rewrite Hkeys. cbn [map_err bind_result length].
  rewrite bool_decide_eq_false_2 by done.
  assert (Hsel : kid_selects (Some key_id) (canonical (lab_jwk_value (jwk_of_pair L key_id pair))) = true).
  { unfold kid_selects. apply bool_decide_eq_true_2. reflexivity. }
  cbn [List.filter]. rewrite Hsel. cbn [length]. rewrite bool_decide_eq_false_2 by done. cbn [existsb].
  assert (Hrsa : is_rsa (canonical (lab_jwk_value (jwk_of_pair L key_id pair))) = false) by reflexivity.
  unfold key_accepts, algorithm_matches, expected_jose_algorithm, verification_key_from_jwk.
  rewrite Hrsa, Hjose, Hpk. change (get "d" (canonical (lab_jwk_value (jwk_of_pair L key_id pair)))) with (@None Value).
  rewrite bool_decide_eq_true_2 by done. cbn [andb artifact_verify]. by rewrite Hver.
Qed.

Lemma pushed_is_utf8 jws ds :
  Forall (fun b => is_ascii_byte b = true) (bytes_of jws) -> Forall (fun d => Forall (fun b => url_byte b = true) (bytes_of d)) ds ->
  from_utf8 (bytes_of (push_disclosures jws ds)) = Some (push_disclosures jws ds).
Proof.
  intros Hj Hd. unfold from_utf8. rewrite utf8_decode_ascii; [by rewrite string_of_bytes_of|].
  rewrite push_disclosures_is. cbn [foldr]. rewrite !bytes_of_app, bytes_of_string_of. apply Forall_app. split; [done|].
  cbn [app]. constructor; [done|]. induction Hd as [|d ds Hd _ IH]; [constructor|]. cbn [foldr].
  rewrite !bytes_of_app, bytes_of_string_of. apply Forall_app. split.
  - eapply Forall_impl; [exact Hd|]. unfold url_byte. intros b Hb. by bool_to_prop.
  - cbn [app]. by constructor.
Qed.

Lemma credential_valid issuer iat exp ds jwk now :
  exp <= I64_MAX -> iat <= now + CLOCK_SKEW_SECONDS -> now < exp + CLOCK_SKEW_SECONDS -> iat <= exp ->
  validate_validity_claims (credential_payload issuer iat exp ds jwk) now = Ok tt.
Proof.
  intros Hmax Hiat Hexp Hle. rewrite credential_payload_is. unfold validate_validity_claims, get_i64. cbv beta zeta.
  change (get "exp" _) with (Some (Num (PosInt exp))). change (get "nbf" _) with (@None Value).
  change (get "iat" _) with (Some (Num (PosInt iat))). cbn [mbind option_bind Json.as_i64].
  rewrite (proj2 (Z.leb_le exp I64_MAX)), (proj2 (Z.leb_le iat I64_MAX)) by lia.
  by rewrite (proj2 (Z.leb_gt _ _)), (proj2 (Z.ltb_ge _ _)) by lia.
Qed.

(** The server trusts the lab: it is configured as an attester for SD-JWT evidence, and the keys held for
    it are the set the lab serves. *)
Definition trusts (cfg : Por.Settings (S := S)) (issuer key_id : string) (pair : Ed25519KeyPair L) (server : TrustedAttesterConfig) : Prop :=
  find_attester_for cfg issuer = Some server /\ "sd-jwt" ∈ proof_types server /\
  exists text, to_string L (jwk_set_value [jwk_of_pair L key_id pair]) = Ok text /\
    keys_for (keys cfg) (attester_id server) = parse_key_set (from_slice X) (bytes_of text).

(** Evidence of a credential the lab signed: only the disclosures are left to decide. *)
Lemma credential_evidence cfg issuer iat exp digests jwk key_id pair jws ds server k kind :
  is_utf8 key_id -> readable (credential_payload issuer iat exp digests jwk) -> canonical jwk = jwk ->
  sign_compact_jws L key_id pair (credential_payload issuer iat exp digests jwk) = Ok jws ->
  trusts cfg issuer key_id pair server ->
  exp <= I64_MAX -> iat <= exp -> iat <= now cfg + CLOCK_SKEW_SECONDS -> now cfg < exp + CLOCK_SKEW_SECONDS ->
  Forall (fun d => d <> "") ds -> Forall (fun d => Forall (fun b => url_byte b = true) (bytes_of d)) ds ->
  (length ds <= MAX_DISCLOSURES)%nat -> (length (bytes_of (push_disclosures jws ds)) <= MAX_EVIDENCE_BYTES)%nat ->
  public_key_from_jwk X jwk = Ok k ->
  validate_evidence_with_key X cfg (mkPor kind (bytes_of (push_disclosures jws ds)))
  = (let? cs := disclose X digests [] (in_the_clear issuer iat exp jwk) ds in
     Ok (CurveVerifier X k, mkProcessed (attester_id server) issuer cs, jwk)).
Proof using A.
  intros Hkid Hr Hc Hs (Hf & Hp & text & Htext & Hkeys) Hmax Hle Hiat Hexp Hne Hurl Hlen Hsize Hk.
  destruct (signed_decodes _ _ _ _ Hkid Hr Hs) as (Hdec & Hj & Hjb & _).
  rewrite (served_set_reads _ _ _ Hkid Htext) in Hkeys.
  pose proof (lab_signature_verifies _ _ _ _ _ _ Hkid Hr Hs Hkeys) as Hsig. rewrite credential_canonical in Hdec by done.
  unfold validate_evidence_with_key. cbn [evidence]. rewrite (proj2 (Nat.ltb_ge _ _) Hsize).
  rewrite pushed_is_utf8; [|eapply Forall_impl; [exact Hjb|]; naive_solver|done]. cbn [ok_or bind_result].
  rewrite split_pushed; [|done|eapply Forall_impl; [exact Hjb|]; naive_solver|done| |done].
  2:{ eapply Forall_impl; [exact Hurl|]. intros d Hd. by apply url_text_without; [left|]. }
  cbn [bind_result]. rewrite Hdec. cbn [bind_result].
  change (get_str "iss" (credential_payload issuer iat exp digests jwk)) with (Some issuer). cbn [ok_or bind_result].
  rewrite Hf. cbn [ok_or bind_result].
  assert (Hpt : existsb (fun v => bool_decide (v = "sd-jwt")) (proof_types server) = true).
  { apply existsb_exists. exists "sd-jwt". split; [by apply list_elem_of_In|by apply bool_decide_eq_true_2]. }
  rewrite Hpt. cbn [negb]. rewrite Hsig. cbn [bind_result].
  change (check_sd_alg (credential_payload issuer iat exp digests jwk)) with (@Ok unit RejectReason tt). cbn [bind_result].
  rewrite credential_valid by done. cbn [bind_result]. unfold process_disclosures. rewrite committed_is, always_disclosed_is.
  destruct (disclose X digests [] _ ds) as [cs|e]; [|done]. cbn [bind_result].
  unfold workload_key_from_cnf. change (cnf_jwk (credential_payload issuer iat exp digests jwk)) with (Some jwk).
  cbn [ok_or bind_result]. unfold rebuild_workload_key. by rewrite Hk.
Qed.

(** An attester as [prepare_attester] makes it: the key it publishes is the one it signs with. *)
Definition well_prepared (a : AttesterRuntime L) : Prop :=
  is_utf8 (ar_issuer L a) /\ is_utf8 (ar_key_id L a) /\ ar_key L a = jwk_of_pair L (ar_key_id L a) (ar_signing_key L a).

(** A request as the extractor hands it over: a map of strings, and a value that was read from text. *)
Definition well_typed (r : CredentialRequest) : Prop :=
  ordered (requested r) /\ Forall utf8_pair (requested r) /\
  representable (cnf_jwk_of r) = true /\ (nesting (cnf_jwk_of r) < 126)%nat /\ canonical (cnf_jwk_of r) = cnf_jwk_of r /\
  (forall v, validity_seconds r = Some v -> 0 <= v).

Lemma validate_request_count r : validate_credential_request r = Ok tt -> (length (requested r) <= MAX_CLAIMS)%nat.
Proof.
  unfold validate_credential_request. intros H. run_inv.
  repeat match goal with Hc : (if ?b then Err _ else _) = Ok _ |- _ => destruct b eqn:?; [done|] end.
  by apply Nat.ltb_ge.
Qed.

(** What the lab answers to a request it accepts. *)
Lemma create_credential_total (st : LabState L) aid attester r t n :
  btree_get aid (ls_attesters L st) = Some attester -> validate_credential_request r = Ok tt ->
  (forall k, is_Some (fill L k SALT_BYTES)) ->
  let expires_at := t + Z.min (default DEFAULT_VALIDITY_SECONDS (validity_seconds r)) MAX_VALIDITY_SECONDS in
  exists issued jws,
    Forall2 issued_for (requested r) issued /\
    sign_compact_jws L (ar_key_id L attester) (ar_signing_key L attester)
      (credential_payload (ar_issuer L attester) t expires_at (sort_by String.compare (fun d => d) (map digest issued)) (cnf_jwk_of r))
    = Ok jws /\
    create_credential L st (Some t) aid r n
    = (Ok (mkCredentialResponse (ar_issuer L attester) PROOF_TYPE_SD_JWT FORMAT_SD_JWT jws issued
             (push_disclosures jws (map disclosure issued)) expires_at true FIXTURE_WARNING),
       (n + length (requested r))%nat).
Proof using A.
  intros Ha Hv Hfill expires_at. destruct (issue_disclosures_total (requested r) n Hfill) as (issued & Hi & Hf).
  destruct (sign_compact_jws_is (ar_key_id L attester) (ar_signing_key L attester)
    (credential_payload (ar_issuer L attester) t expires_at (sort_by String.compare (fun d => d) (map digest issued)) (cnf_jwk_of r)))
    as (h & p & _ & _ & Hs).
  eexists issued, _. split_and!; [done|exact Hs|].
  unfold create_credential, require_attester, lab_unix_now. rewrite Ha. cbn [ok_or].
  unfold mbind_st, mlift. cbn [map_err]. rewrite Hv, Hi. cbn [map_err ok_or]. fold expires_at. rewrite Hs. done.
Qed.

End Issuing.

(** ** The credentials of the walkthrough *)

(** A string that is its own JSON text: printable ASCII without quotes and backslashes. *)
Definition unescaped (s : string) : bool :=
  forallb (fun b => between 32 126 b && negb (u8 b =? 34) && negb (u8 b =? 92)) (bytes_of s).

Definition json_quoted (s : string) : list byte := [x22] ++ bytes_of s ++ [x22].

(** The text of an array of three such strings. *)
Definition triple_text (a b c : string) : list byte :=
  [x5b] ++ json_quoted a ++ [x2c] ++ json_quoted b ++ [x2c] ++ json_quoted c ++ [x5d].

(** The members of an object, as a map. *)
Definition object_map (v : Value) : gmap string Value := match v with Obj ms => list_to_map ms | _ => ∅ end.

(** The salts the walkthrough was written with. *)
Definition walkthrough_salts : list string :=
  ["f0UUCvMSycSUXaVfuiDWAA"; "E54m03bpDTSeWfZOQ-1wVw"; "LfYWIczToLIsjWrGf3BSWw"; "PjCyltFjXbt5b7sr_OHlHA"].

Definition fixture_ok (w : WorkerDefinition) (d : Disclosure) (salt : string) : bool :=
  bool_decide (base64url (sha256 (bytes_of (d_encoded d))) ∈ sd_digests w)
  && bool_decide (base64url (triple_text salt (d_claim d) (d_value d)) = d_encoded d)
  && unescaped salt && unescaped (d_claim d) && unescaped (d_value d) && presentable (d_claim d).

Lemma fixtures_computed :
  forallb (fun w => forallb (fun d => existsb (fixture_ok w d) walkthrough_salts) (selected_disclosures w)) workers = true.
Proof. vm_compute. reflexivity. Qed.

Lemma fixture_is w d : w ∈ workers -> d ∈ selected_disclosures w -> exists salt, fixture_ok w d salt = true.
Proof.
  pose proof fixtures_computed as H. rewrite forallb_forall in H. intros Hw%list_elem_of_In Hd%list_elem_of_In.
  specialize (H w Hw). rewrite forallb_forall in H. specialize (H d Hd). apply existsb_exists in H as (salt & _ & H). by exists salt.
Qed.

(** The digests of a worker's disclosures differ, and so do their claims; what is presented and what is
    processed are the same two claims. *)
Lemma fixture_distinct w : w ∈ workers ->
  NoDup (map (fun d => base64url (sha256 (bytes_of (d_encoded d)))) (selected_disclosures w)) /\
  NoDup (map d_claim (selected_disclosures w)) /\ Forall (fun d => d_encoded d <> "") (selected_disclosures w).
Proof.
  intros Hw. revert w Hw. apply Forall_forall. apply (bool_decide_unpack _). vm_compute. exact I.
Qed.

Lemma fixture_processed issuer w : w ∈ workers ->
  object_map (processed_payload issuer w)
  = list_to_map (map (fun d => (d_claim d, Str (d_value d))) (selected_disclosures w))
    ∪ in_the_clear issuer (w_iat w) (w_exp w) (workload_key (w_key w)).
Proof.
  intros Hw. unfold workers in Hw. rewrite !elem_of_cons, elem_of_nil in Hw. destruct Hw as [-> | [-> | []]]; apply map_eq; intros n; reflexivity.
Qed.

Section Walkthrough.
Context (X : PorCrates) (L : LabCrates) (A : agree X L) {S : Type} `{!AttesterKeySource S}.
(** The digest is SHA-256, and an array of plain strings is read as JSON says. *)
Context (Hsha : forall bs, sha256_of X bs = sha256 bs)
  (Htriple : forall a b c, unescaped a = true -> unescaped b = true -> unescaped c = true ->
     from_slice X (triple_text a b c) = Some (Arr [Str a; Str b; Str c])).

Lemma fixture_decodes w d : w ∈ workers -> d ∈ selected_disclosures w ->
  decode_disclosure X (d_encoded d) = Ok (d_claim d, Str (d_value d)) /\
  disclosure_digest X (d_encoded d) ∈ sd_digests w /\ presentable (d_claim d) = true.
Proof using A Hsha Htriple.
  intros Hw Hd. destruct (fixture_is w d Hw Hd) as [salt H]. unfold fixture_ok in H. bool_to_prop.
  match goal with He : base64url (triple_text _ _ _) = _ |- _ => rename He into Henc end.
  match goal with Hp : presentable _ = true |- _ => rename Hp into Hpres end. split_and!; [|unfold disclosure_digest; by rewrite (base64_writes X L A), Hsha|done].
  unfold decode_disclosure. rewrite <- Henc, (base64_reads X L A). cbn [ok_or bind_result]. rewrite Htriple by done.
  cbn [mbind option_bind as_array ok_or bind_result as_str]. unfold presentable in Hpres. bool_to_prop.
  by match goal with Hr : is_reserved _ = false |- _ => rewrite Hr end.
Qed.

Lemma fixture_disclosed issuer w : w ∈ workers ->
  disclose X (sd_digests w) [] (in_the_clear issuer (w_iat w) (w_exp w) (workload_key (w_key w))) (map d_encoded (selected_disclosures w))
  = Ok (object_map (processed_payload issuer w)).
Proof using A Hsha Htriple.
  intros Hw. destruct (fixture_distinct w Hw) as (Hdig & Hclaims & _). apply disclose_iff.
  exists (map (fun d => (d_claim d, Str (d_value d))) (selected_disclosures w)). split_and!.
  - apply Forall2_fmap_l, Forall2_fmap_r, Forall_Forall2_diag, Forall_forall. intros d Hd. by apply (fixture_decodes w d).
  - rewrite map_map. replace (map (fun d => disclosure_digest X (d_encoded d)) (selected_disclosures w))
      with (map (fun d => base64url (sha256 (bytes_of (d_encoded d)))) (selected_disclosures w)); [done|].
    apply map_ext. intros d. unfold disclosure_digest. by rewrite (base64_writes X L A), Hsha.
  - intros x (d & -> & Hd)%list_elem_of_fmap. split; [by apply (fixture_decodes w d)|apply not_elem_of_nil].
  - by rewrite map_map.
  - rewrite map_map. intros n (d & -> & Hd)%list_elem_of_fmap. apply in_the_clear_None.
    destruct (fixture_decodes w d Hw Hd) as (_ & _ & Hp). unfold presentable in Hp. by bool_to_prop.
  - by apply fixture_processed.
Qed.

Lemma fixture_readable issuer w : w ∈ workers -> is_utf8 issuer -> readable (worker_payload issuer w).
Proof.
  intros Hw Hi. assert (Hall : Forall (fun w => Forall is_utf8 (sd_digests w) /\ representable (workload_key (w_key w)) = true
    /\ (0 <= w_iat w <= U64_MAX /\ 0 <= w_exp w <= U64_MAX) /\ (nesting (workload_key (w_key w)) < 126)%nat) workers).
  { apply (bool_decide_unpack _). vm_compute. exact I. }
  rewrite Forall_forall in Hall. destruct (Hall w Hw) as (Hd & Hk & [Hiat Hexp] & Hn).
  by apply (credential_readable issuer (w_iat w) (w_exp w) (sd_digests w) (workload_key (w_key w))).
Qed.

Lemma fixture_times w : w ∈ workers -> w_exp w <= I64_MAX /\ w_iat w <= w_exp w /\ canonical (workload_key (w_key w)) = workload_key (w_key w).
Proof.
  intros Hw. unfold workers in Hw. rewrite !elem_of_cons, elem_of_nil in Hw. destruct Hw as [-> | [-> | []]]; split_and!; done.
Qed.

Lemma fixture_texts w : w ∈ workers -> Forall (fun d => Forall (fun b => url_byte b = true) (bytes_of (d_encoded d))) (selected_disclosures w) /\
  length (selected_disclosures w) = 2%nat.
Proof. intros Hw. revert w Hw. apply Forall_forall. apply (bool_decide_unpack _). vm_compute. exact I. Qed.

(** ** What is on disk *)

Context (io : nat -> option Failure) (default_mode : Z).

Lemma fs_preserves {B} (R : Fs -> Fs -> Prop) (m : M Fs IoKind B) : preserves R m -> preserves R (fs m).
Proof. intros H s r s'. unfold fs. destruct (m s) as [r0 s0] eqn:E. intros [= _ <-]. by eapply H. Qed.

Lemma write_json_only path v : preserves (only_files {[path]}) (write_json L io default_mode path v).
Proof.
  unfold write_json, create_parent. preserve_steps; try (destruct (parent path); [|apply preserves_ret; exact _]);
    try (apply fs_preserves); auto with picx.
Qed.

(** Names in one directory are different files. *)
Lemma joined_name_inj dir a b : is_absolute a = false -> is_absolute b = false -> path_join dir a = path_join dir b -> a = b.
Proof.
  unfold path_join. intros -> -> H. destruct (is_empty dir); [done|]. apply (f_equal bytes_of) in H. apply bytes_of_inj.
  destruct (ends_with "/" dir); rewrite !bytes_of_app in H; by repeat apply app_inv_head in H.
Qed.

Lemma other_file s s' dir a b : only_files {[path_join dir a]} s s' -> is_absolute a = false -> is_absolute b = false -> a <> b ->
  fs_files s' !! path_join dir b = fs_files s !! path_join dir b.
Proof. intros H Ha Hb Hne. apply H. intros Hin%elem_of_singleton. apply Hne. symmetry in Hin. by apply (joined_name_inj dir). Qed.

Lemma fs_Ok {B} (m : M Fs IoKind B) s x s' : fs m s = (Ok x, s') -> m s = (Ok x, s').
Proof. unfold fs. destruct (m s) as [[y|e] s0]; simpl; by intros [= -> ->]. Qed.

(** C39: The walkthrough is what it says. When the lab has prepared one of its two workers, the file it
    left holds the presentation it serves, and a server that trusts the lab's key accepts the
    bytes of that file while the credential is valid: the digests written down in the source are those
    of the disclosures written down beside them, and the claims the server processes are the members of
    the payload the lab publishes, no more and no fewer. *)
Theorem walkthrough_is_accepted artifact_dir attester_dir issuer key_id pair w s artifact s' :
  w ∈ workers -> is_utf8 issuer -> is_utf8 key_id ->
  prepare_worker_artifact L io default_mode artifact_dir attester_dir issuer key_id pair w s = (Ok artifact, s') ->
  exists file,
    fs_files s' !! path_join (path_join (path_join attester_dir "workers") (w_id w)) "presentation.sd-jwt" = Some file /\
    contents file = bytes_of (wa_presentation artifact) /\
    forall (cfg : Por.Settings (S := S)) server k kind,
      trusts X L cfg issuer key_id pair server ->
      w_iat w <= now cfg + CLOCK_SKEW_SECONDS -> now cfg < w_exp w + CLOCK_SKEW_SECONDS ->
      public_key_from_jwk X (workload_key (w_key w)) = Ok k -> (length (contents file) <= MAX_EVIDENCE_BYTES)%nat ->
      validate_evidence_with_key X cfg (mkPor kind (contents file))
      = Ok (CurveVerifier X k, mkProcessed (attester_id server) issuer (object_map (wa_processed artifact)), workload_key (w_key w)).
Proof using A Hsha Htriple.
  intros Hw Hi Hk H. unfold prepare_worker_artifact in H. set (dir := path_join (path_join attester_dir "workers") (w_id w)) in *.
  destruct (fixture_texts w Hw) as [Hurl Hlen]. run_inv.
  match goal with Hs : map_err Message (sign_sd_jwt_credential _ _ _ _ _) = Ok ?j |- _ => apply map_err_Ok in Hs; rename j into jws; rename Hs into Hsign end.
  destruct (selected_disclosures w) as [|first [|second [|]]] eqn:Esel; try done. run_inv.
  repeat match goal with Hf : fs _ _ = (Ok _, _) |- _ => apply fs_Ok in Hf end.
  repeat match goal with Hj : write_json _ _ _ _ _ _ = _ |- _ => apply write_json_only in Hj end.
  match goal with Hp : write _ _ (path_join dir "presentation.sd-jwt") _ ?s0 = (Ok _, ?s1) |- _ => pose proof (write_Ok _ _ _ _ _ _ _ Hp) as Hfile end.
  eexists. split; [|split; [|]].
  - repeat match goal with Ho : only_files {[path_join dir ?a]} _ _ |- _ =>
      pose proof (other_file _ _ dir a "presentation.sd-jwt" Ho eq_refl eq_refl ltac:(done)); clear Ho end.
    repeat match goal with He : ?x !! _ = ?y !! _ |- ?x !! _ = _ => rewrite He; clear He end. exact Hfile.
  - simpl. done.
  - simpl. intros cfg server k kind Htr Hiat Hexp Hpk Hsize. destruct (fixture_times w Hw) as (Hmax & Hle & Hcan).
    replace (jws +:+ "~" +:+ d_encoded first +:+ "~" +:+ d_encoded second +:+ "~")
      with (push_disclosures jws (map d_encoded (selected_disclosures w))) in * by (rewrite Esel; unfold push_disclosures; cbn [map foldl]; by rewrite !string_app_assoc).
    rewrite (credential_evidence X L A cfg issuer (w_iat w) (w_exp w) (sd_digests w) (workload_key (w_key w)) key_id pair jws
      (map d_encoded (selected_disclosures w)) server k kind Hk (fixture_readable issuer w Hw Hi) Hcan Hsign Htr Hmax Hle Hiat Hexp).
    + by rewrite fixture_disclosed.
    + apply Forall_map. by apply fixture_distinct.
    + apply Forall_map. by apply fixture_texts.
    + rewrite length_map. destruct (fixture_texts w Hw) as [_ ->]. by apply Nat.leb_le.
    + exact Hsize.
    + exact Hpk.
Qed.
End Walkthrough.
