(* ===== verification/TrustLabService.v ===== *)
(** * The trust lab as a service

    Which requests it issues for, that the attesters it prepares publish the keys they sign with, that a
    restart keeps those keys, and which of the addresses it advertises it also serves; and an instance
    of everything the lab's theorems assume. *)
From S2P Require Import Prelude Rust Text Order Encoding Settings Json JsonMap KeyCache Por PorProperties Volume Sha256 TrustLab TrustLabProperties.
Local Open Scope Z_scope.
Local Open Scope rust_scope.

(** ** Which requests are accepted *)

(** The rules: a public key of a supported type with the members that type needs, and between one and
    64 claims of between one and 512 bytes each. *)
Record acceptable (r : CredentialRequest) (jwk : list (string * Value)) : Prop := {
  acceptable_object : cnf_jwk_of r = Obj jwk;
  acceptable_type : exists kty, member "kty" jwk = Some (Str kty) /\ (kty = "EC" \/ kty = "OKP") /\ (kty = "EC" -> is_Some (member "y" jwk));
  acceptable_members : is_Some (member "crv" jwk) /\ is_Some (member "x" jwk);
  acceptable_public : member "d" jwk = None;
  acceptable_count : (1 <= length (requested r) <= MAX_CLAIMS)%nat;
  acceptable_claims : Forall (fun c => 1 <= str_len (fst c) <= MAX_CLAIM_LENGTH /\ 1 <= str_len (snd c) <= MAX_CLAIM_LENGTH) (requested r) }.

Lemma str_len_pos s : is_empty s = false <-> 1 <= str_len s.
Proof.
  unfold is_empty, str_len. rewrite bool_decide_eq_false. rewrite <- (string_of_bytes_of s) at 1.
  destruct (bytes_of s) as [|b l]; simpl; split; intros H; try done; lia.
Qed.

Lemma validate_claims_iff claims :
  validate_claims claims = Ok tt <->
  Forall (fun c => 1 <= str_len (fst c) <= MAX_CLAIM_LENGTH /\ 1 <= str_len (snd c) <= MAX_CLAIM_LENGTH) claims.
Proof.
  induction claims as [|[n v] claims IH]; [by split; [constructor|]|]. cbn [validate_claims]. rewrite Forall_cons, <- IH. simpl.
  rewrite <- !str_len_pos. destruct (is_empty n), (is_empty v); simpl; try naive_solver.
  destruct (MAX_CLAIM_LENGTH <? str_len n) eqn:E, (MAX_CLAIM_LENGTH <? str_len v) eqn:E'; simpl; bool_to_prop; naive_solver (lia || done).
Qed.

Lemma has_true k ms : has k ms = true <-> is_Some (member k ms).
Proof. apply bool_decide_eq_true. Qed.

Lemma has_false k ms : has k ms = false <-> member k ms = None.
Proof. unfold has. rewrite bool_decide_eq_false. destruct (member k ms); naive_solver. Qed.

(** The lab's check decides its rules. *)
Lemma validate_request_iff r : validate_credential_request r = Ok tt <-> exists jwk, acceptable r jwk.
Proof.
  unfold validate_credential_request. split.
  - intros H. run_inv. repeat match goal with Hc : (if ?b then Err _ else _) = Ok _ |- _ => destruct b eqn:?; [done|] end.
    destruct (cnf_jwk_of r) as [| | | | |jwk] eqn:Ej; try done. simpl in *. simplify_eq.
    destruct (member "kty" x ≫= as_str) as [kty|] eqn:Ek; [|done].
    destruct (bool_decide (kty = "EC" \/ kty = "OKP")) eqn:Hk; [|done].
    apply bind_Some in Ek as (v & Hv & Hs). destruct v; try done. injection Hs as ->.
    exists x. bool_to_prop. split; try done.
    + exists kty. split_and!; [done..|]. intros ->. match goal with Hy : _ \/ _ |- _ => destruct Hy as [Hy|Hy]; bool_to_prop end; [done|by apply has_true].
    + by split; apply has_true.
    + by apply has_false.
    + split; [|by apply Nat.ltb_ge]. destruct (requested r); [done|simpl; lia].
    + by apply validate_claims_iff.
  - intros (jwk & [Ho (kty & Hk & Ht & Hy) [Hc Hx] Hd Hn Hcl]). rewrite Ho. simpl. rewrite Hk. simpl.
    rewrite (bool_decide_eq_true_2 _ Ht). simpl. apply has_true in Hc as ->, Hx as ->. apply has_false in Hd as ->. simpl.
    rewrite (bool_decide_eq_false_2 (requested r = [])) by (intros E; rewrite E in Hn; simpl in Hn; lia).
    rewrite (proj2 (Nat.ltb_ge _ _)) by lia. apply validate_claims_iff in Hcl as ->.
    case_bool_decide as He; [|done]. injection He as ->. specialize (Hy eq_refl). apply has_true in Hy as ->. done.
Qed.

(** ** Preparing *)

Section Prepared.
Context (L : LabCrates) (io : nat -> option Failure) (default_mode : Z) (unseen : string -> bool).

(** An attester of the state is stored under its own name, publishes the key it signs with, advertises its
    addresses under its issuer, and has the two workers. *)
Definition runtime_ok (id : string) (a : AttesterRuntime L) : Prop :=
  ar_id L a = id /\ ar_key L a = jwk_of_pair L (ar_key_id L a) (ar_signing_key L a) /\
  ar_jwks_uri L a = ar_issuer L a +:+ "/jwks.json" /\ ar_credentials_endpoint L a = ar_issuer L a +:+ "/credentials" /\
  ar_presentation_endpoint L a = ar_issuer L a +:+ "/presentations" /\
  ar_configuration_endpoint L a = ar_issuer L a +:+ "/.well-known/attester-configuration" /\
  map fst (ar_workers L a) = map w_id workers.

Lemma prepare_workers_names adir dir issuer key_id pair ws prepared s result s' :
  prepare_workers L io default_mode adir dir issuer key_id pair ws prepared s = (Ok result, s') ->
  map fst result = map fst (foldl (fun m w => btree_insert (w_id w) tt m) (map (fun e => (fst e, tt)) prepared) ws).
Proof.
  revert prepared s. induction ws as [|w ws IH]; intros prepared s H; cbn [prepare_workers] in H; run_inv.
  - simpl. by rewrite map_map.
  - match goal with Hp : prepare_workers _ _ _ _ _ _ _ _ _ _ _ = _ |- _ => apply IH in Hp; rewrite Hp end. cbn [foldl]. do 2 f_equal.
    match goal with |- context [btree_insert (w_id w) ?a prepared] => generalize a end. intros a. clear.
    induction prepared as [|[k v] m IHm]; simpl; [done|]. destruct (String.compare (w_id w) k); simpl; [done..|]. by rewrite IHm.
Qed.

Lemma prepare_attester_ok url adir c s a s' :
  prepare_attester L io default_mode unseen url adir c s = (Ok a, s') -> runtime_ok (la_id c) a.
Proof.
  intros H. unfold prepare_attester in H. run_inv.
  match goal with Hp : prepare_workers _ _ _ _ _ _ _ _ _ _ _ = _ |- _ => apply prepare_workers_names in Hp; rename Hp into Hn end.
  split_and!; done.
Qed.

Lemma prepare_attesters_ok url adir cs prepared s result s' :
  (forall id a, btree_get id prepared = Some a -> runtime_ok id a) ->
  prepare_attesters L io default_mode unseen url adir cs prepared s = (Ok result, s') ->
  (forall id a, btree_get id result = Some a -> runtime_ok id a) /\
  (forall c, c ∈ cs -> is_Some (btree_get (la_id c) result)) /\
  (forall id, is_Some (btree_get id prepared) -> is_Some (btree_get id result)).
Proof.
  revert prepared s. induction cs as [|c cs IH]; intros prepared s Hp H; cbn [prepare_attesters] in H; run_inv.
  { split_and!; try done. intros c Hc. by apply not_elem_of_nil in Hc. }
  match goal with Ha : prepare_attester _ _ _ _ _ _ _ _ = (Ok ?x, _) |- _ => rename x into a; apply prepare_attester_ok in Ha; rename Ha into Hok end.
  match goal with Hr : prepare_attesters _ _ _ _ _ _ _ _ _ = _ |- _ => apply IH in Hr as (H1 & H2 & H3) end.
  - split_and!; [done| |].
    + intros c' [->|Hc]%elem_of_cons; [|by apply H2]. apply H3. rewrite btree_get_insert.
      destruct Hok as [-> _]. by rewrite bool_decide_eq_true_2.
    + intros id Hid. apply H3. rewrite btree_get_insert. by case_bool_decide.
  - intros id x. rewrite btree_get_insert. case_bool_decide as E; [|apply Hp]. intros [= <-].
    destruct Hok as [Hid Hrest]. subst id. by split.
Qed.

(** The state is well formed, and holds every configured attester. *)
Lemma prepare_state_ok c s st s' :
  prepare_state L io default_mode unseen c s = (Ok st, s') ->
  (forall id a, btree_get id (ls_attesters L st) = Some a -> runtime_ok id a) /\
  forall x, x ∈ lc_attesters c -> is_Some (btree_get (la_id x) (ls_attesters L st)).
Proof.
  intros H. unfold prepare_state in H. run_inv.
  match goal with Hp : prepare_attesters _ _ _ _ _ _ _ _ _ = _ |- _ => apply prepare_attesters_ok in Hp as (H1 & H2 & _); [done|] end.
  intros id a. done.
Qed.

(** ** Keys survive restarts *)

Lemma exists_file path s : unseen path = false -> is_Some (fs_files s !! path) -> exists_ unseen path s = true.
Proof. intros Hu H. unfold exists_. rewrite Hu. apply bool_decide_eq_true_2. by left. Qed.

Lemma set_permissions_Ok path m s u s' file :
  set_permissions io path m s = (Ok u, s') -> fs_files s !! path = Some file -> fs_files s' !! path = Some (mkFile (contents file) m).
Proof. unfold set_permissions. destruct (io _); [done|]. intros H Hf. rewrite Hf in H. injection H as _ <-. simpl. by rewrite lookup_insert_eq. Qed.

Lemma read_bytes_Ok path s bs s' :
  read_bytes io path s = (Ok bs, s') -> exists file, fs_files s !! path = Some file /\ contents file = bs /\ s' = tick s.
Proof. unfold read_bytes. destruct (io _); [done|]. destruct (fs_files s !! path) as [f|]; [|done]. intros [= <- <-]. by exists f. Qed.

(** A key is created once. What is used is what the file holds; a file that was there is left as it was, one
    that was not is written with a mode for its owner alone and nothing else is; and every later start
    that can read the file, under whatever failures of other calls, signs with the same key. *)
Theorem lab_keys_survive_restarts path s keys s' :
  unseen path = false -> load_or_create_key L io default_mode unseen path s = (Ok keys, s') ->
  exists file,
    fs_files s' !! path = Some file /\ from_pkcs8 L (contents file) = Some keys /\
    (exists_ unseen path s = true -> fs_files s' = fs_files s) /\
    (exists_ unseen path s = false -> mode file = 384 /\ only_files {[path]} s s') /\
    forall io' default_mode' later file', fs_files later !! path = Some file' -> contents file' = contents file ->
      io' (fs_calls later) = None -> fst (load_or_create_key L io' default_mode' unseen path later) = Ok keys.
Proof.
  intros Hu H. unfold load_or_create_key in H. run_inv.
  repeat match goal with Hf : fs _ _ = (Ok _, _) |- _ => apply fs_Ok in Hf end.
  match goal with Hr : read_bytes _ _ ?s1 = _ |- _ => apply read_bytes_Ok in Hr as (file & Hfile & Hc & ->); rename s1 into s1 end.
  exists file. split_and!; [done|by rewrite Hc| | |].
  - intros He. rewrite He in *. by match goal with Hk : (Ok _, s) = (Ok _, _) |- _ => injection Hk as _ <- end.
  - intros He. rewrite He in *. run_inv. repeat match goal with Hf : fs _ _ = (Ok _, _) |- _ => apply fs_Ok in Hf end. unfold restrict_owner_only in *.
    repeat match goal with Hf : fs _ _ = (Ok _, _) |- _ => apply fs_Ok in Hf end.
    match goal with Hn : new_pkcs8 _ _ = (Ok _, _) |- _ => unfold new_pkcs8 in Hn; injection Hn as _ <- end.
    match goal with Hw : write _ _ _ _ _ = (Ok _, _) |- _ => pose proof (write_Ok _ _ _ _ _ _ _ Hw) as Hwritten; apply write_only in Hw end.
    match goal with Hp : set_permissions _ _ _ _ = (Ok _, _) |- _ => pose proof (set_permissions_Ok _ _ _ _ _ _ Hp Hwritten) as Hmode; apply set_permissions_only in Hp end.
    split; [rewrite Hmode in Hfile; by injection Hfile as <-|].
    match goal with Hp : create_parent _ _ s = _ |- _ =>
      assert (Hcp : preserves (only_files {[path]}) (create_parent io path)) by (unfold create_parent; destruct (parent path); [apply fs_preserves; auto with picx|apply preserves_ret; exact _]);
      apply Hcp in Hp end.
    intros p Hp. simpl. repeat match goal with Ho : only_files {[path]} _ ?x |- fs_files ?x !! p = _ => rewrite (Ho p Hp); clear Ho end. done.
  - intros io' dm' later file' Hl Hcont Hio. unfold load_or_create_key, mbind_st. rewrite exists_file by (done || by rewrite Hl).
    unfold fs, read_bytes. rewrite Hio, Hl. simpl. unfold mlift. rewrite Hcont, Hc. simpl.
    match goal with Hp : ok_or _ _ = Ok _ |- _ => apply ok_or_Ok in Hp; by rewrite Hp | Hp : from_pkcs8 _ _ = Some _ |- _ => by rewrite Hp end.
Qed.
End Prepared.

(** ** Addresses *)

Lemma segments_of parts last :
  Forall (fun p => Forall (fun b => b <> SLASH) (bytes_of p)) (parts ++ [last]) ->
  tail (split SLASH (foldr (fun p rest => p +:+ string_of [SLASH] +:+ rest) last ("" :: parts))) = parts ++ [last].
Proof. intros H. rewrite (split_join SLASH ("" :: parts) last); [done|]. constructor; [by apply Forall_nil|done]. Qed.

(** A name that is one segment. *)
Definition segment (id : string) : Prop := id <> "" /\ Forall (fun b => b <> SLASH) (bytes_of id).

Lemma trim_end_slashes_id s b : b <> SLASH -> trim_end_slashes (s +:+ string_of [b]) = s +:+ string_of [b].
Proof.
  intros Hb. unfold trim_end_slashes. rewrite bytes_of_app, bytes_of_string_of, rev_app_distr. simpl.
  rewrite bool_decide_eq_false_2 by done. simpl. rewrite rev_involutive, string_of_app, string_of_bytes_of. done.
Qed.

Lemma trim_segment id : segment id -> trim_end_slashes ("/attesters/" +:+ id) = "/attesters/" +:+ id.
Proof.
  intros [Hne Hs]. destruct (bytes_of id) as [|b l _] eqn:E using rev_ind; [destruct Hne; by apply bytes_of_inj|].
  assert (Hid : id = string_of l +:+ string_of [b]) by (apply bytes_of_inj; by rewrite bytes_of_app, !bytes_of_string_of).
  rewrite Hid, <- string_app_assoc. apply trim_end_slashes_id. apply Forall_app in Hs as [_ Hs]. by apply Forall_cons in Hs as [Hs _].
Qed.

Lemma attester_segments id rest last : segment id -> Forall (fun p => Forall (fun b => b <> SLASH) (bytes_of p)) (rest ++ [last]) ->
  tail (split SLASH (foldr (fun p r => p +:+ string_of [SLASH] +:+ r) last ("" :: "attesters" :: id :: rest)))
  = "attesters" :: id :: rest ++ [last].
Proof. intros [_ Hid] H. apply (segments_of ("attesters" :: id :: rest) last). constructor; [by apply (bool_decide_unpack _)|]. by constructor. Qed.

Lemma lab_route_of path id rest last : segment id -> Forall (fun p => Forall (fun b => b <> SLASH) (bytes_of p)) (rest ++ [last]) ->
  path = foldr (fun p r => p +:+ string_of [SLASH] +:+ r) last ("" :: "attesters" :: id :: rest) ->
  lab_route path = route_in app_routes ("attesters" :: id :: rest ++ [last]).
Proof. intros Hid H ->. unfold lab_route. by rewrite attester_segments. Qed.

(** An attester whose path is left to the default is served at every address it advertises: the path
    behind the public address routes to its key set, its configuration, its presentations and its
    credentials, each with its name. *)
Theorem advertised_addresses_are_served (L : LabCrates) io default_mode unseen url adir c s a s' :
  la_path c = None -> segment (la_id c) -> prepare_attester L io default_mode unseen url adir c s = (Ok a, s') ->
  let at_ path := "/attesters/" +:+ la_id c +:+ path in
  (ar_jwks_uri L a = url +:+ at_ "/jwks.json" /\ lab_route (at_ "/jwks.json") = Some (GET, Jwks, [la_id c])) /\
  (ar_configuration_endpoint L a = url +:+ at_ "/.well-known/attester-configuration" /\
   lab_route (at_ "/.well-known/attester-configuration") = Some (GET, Configuration, [la_id c])) /\
  (ar_presentation_endpoint L a = url +:+ at_ "/presentations" /\ lab_route (at_ "/presentations") = Some (POST, CreatePresentation, [la_id c])) /\
  (ar_credentials_endpoint L a = url +:+ at_ "/credentials" /\ lab_route (at_ "/credentials") = Some (POST, CreateCredential, [la_id c])).
Proof.
  intros Hpath Hid H at_. unfold prepare_attester in H. rewrite Hpath in H. cbn [default] in H. run_inv.
  rewrite (trim_segment _ Hid). cbn [ar_jwks_uri ar_configuration_endpoint ar_presentation_endpoint ar_credentials_endpoint].
  assert (He : is_empty (la_id c) = false) by (destruct Hid as [Hne _]; by apply bool_decide_eq_false_2).
  unfold at_. split_and!; try by rewrite !string_app_assoc.
  - rewrite (lab_route_of _ (la_id c) [] "jwks.json" Hid); [|by apply (bool_decide_unpack _)|done].
    cbn -[is_empty]. by rewrite He.
  - rewrite (lab_route_of _ (la_id c) [".well-known"] "attester-configuration" Hid); [|by apply (bool_decide_unpack _)|done].
    cbn -[is_empty]. by rewrite He.
  - rewrite (lab_route_of _ (la_id c) [] "presentations" Hid); [|by apply (bool_decide_unpack _)|done].
    cbn -[is_empty]. by rewrite He.
  - rewrite (lab_route_of _ (la_id c) [] "credentials" Hid); [|by apply (bool_decide_unpack _)|done].
    cbn -[is_empty]. by rewrite He.
Qed.

(** A path of its own is advertised and not served: the table of routes does not know it. *)
Theorem configured_path_is_not_served (L : LabCrates) io default_mode unseen adir key s a s' :
  prepare_attester L io default_mode unseen "http://lab" adir (mkLabAttester "acme" (Some "/issuers/acme") key) s = (Ok a, s') ->
  ar_jwks_uri L a = "http://lab" +:+ "/issuers/acme/jwks.json" /\ lab_route "/issuers/acme/jwks.json" = None /\
  lab_route "/issuers/acme/credentials" = None.
Proof. intros H. unfold prepare_attester in H. run_inv. split_and!; reflexivity. Qed.

(** ** An instance *)

Module ToyLab.
(** Text by enumeration of the values, and arrays of three plain strings as JSON has them. *)
Definition read_triple (bs : list byte) : option Value :=
  match split x22 (string_of bs) with
  | ["["; a; ","; b; ","; c; "]"] => Some (Arr [Str a; Str b; Str c])
  | _ => None
  end.

Definition read (bs : list byte) : option Value := match bs with x5b :: _ => read_triple bs | _ => read_value bs end.

(** A scheme whose signatures are the key itself. *)
Definition lab : LabCrates :=
  mkLabCrates (fun v => Ok (string_of (value_text v))) (fun v => Ok (value_text v)) (fun _ => Err "no configuration") sha256
    (list byte) (fun n => Some [x4b; byte_of_Z (Z.of_nat n)]) Some (fun k => k) (fun k _ => k)
    (fun n k => Some (repeat (byte_of_Z (Z.of_nat n)) k)).

Definition server : PorCrates :=
  mkPorCrates read base64url from_base64url sha256 string
    (fun jwk => ok_or (get_str "x" jwk) "no `x`") (fun _ => Some "EdDSA")
    (fun k _ signature => bool_decide (from_base64url k = Some signature)) (fun _ _ _ => false).

Lemma unescaped_no_quote s : unescaped s = true -> Forall (fun b => b <> x22) (bytes_of s).
Proof.
  unfold unescaped. rewrite forallb_forall. intros H. apply Forall_forall. intros b Hb%list_elem_of_In -> .
  specialize (H _ Hb). by vm_compute in H.
Qed.

Lemma reads_triples a b c : unescaped a = true -> unescaped b = true -> unescaped c = true ->
  from_slice server (triple_text a b c) = Some (Arr [Str a; Str b; Str c]).
Proof.
  intros Ha Hb Hc. change (from_slice server (triple_text a b c)) with (read_triple (triple_text a b c)). unfold read_triple.
  replace (string_of (triple_text a b c)) with (foldr (fun p r => p +:+ string_of [x22] +:+ r) "]" ["["; a; ","; b; ","; c]).
  - rewrite (split_join x22); [done|]. cbn [app]. repeat (apply Forall_cons; split); try (by apply unescaped_no_quote);
      try (by apply (bool_decide_unpack _)).
  - apply bytes_of_inj. unfold triple_text, json_quoted. cbn [foldr]. rewrite bytes_of_string_of, !bytes_of_app, !bytes_of_string_of.
    simpl. by rewrite <- !app_assoc.
Qed.

Lemma crates_agree : agree server lab.
Proof.
  split; try done.
  - intros v. by eexists.
  - intros v s [= <-] H. apply (f_equal bytes_of) in H. by rewrite bytes_of_string_of in H.
  - intros v s _ [= <-]. rewrite bytes_of_string_of. apply read_value_text.
  - intros bs. apply from_base64url_encode.
  - intros kid k. exists (base64url k). split_and!; [|done|].
    + rewrite <- b64url_is_base64url. reflexivity.
    + intros data. apply bool_decide_eq_true_2. apply from_base64url_encode.
Qed.

Definition key : list byte := [x4b; x00].
Definition issuer : string := "http://lab/attesters/acme".
Definition runtime : AttesterRuntime lab :=
  mkRuntime lab "acme" issuer (issuer +:+ "/jwks.json") (issuer +:+ "/presentations") (issuer +:+ "/credentials")
    (issuer +:+ "/.well-known/attester-configuration") (jwk_of_pair lab "k1" key) "k1" key [].
Definition state : LabState lab := mkLabState lab "artifacts" [("acme", runtime)].
Definition workload : Value := Obj [("crv", Str "Ed25519"); ("kty", Str "OKP"); ("x", Str "w")].
Definition request : CredentialRequest := mkCredentialRequest workload [("corporation", "ACME")] (Some 900).

Lemma runtime_prepared : well_prepared lab runtime.
Proof. split_and!; [by eexists..|done]. Qed.

Lemma request_typed : well_typed request.
Proof.
  split_and!; try done.
  - repeat constructor.
  - repeat constructor; by eexists.
  - by apply Nat.ltb_lt.
  - intros v [= <-]. done.
Qed.

(** A server that trusts the lab, at a time it is given. *)
Definition keys : list Value := [canonical (lab_jwk_value (jwk_of_pair lab "k1" key))].
Definition trusted : TrustedAttesterConfig := mkAttester "acme" issuer (issuer +:+ "/jwks.json") ["sd-jwt"] [].
Definition at_time (t : Z) : Por.Settings (S := list Value) := Por.mkSettings [trusted] keys t.

Lemma server_trusts t : trusts server lab (at_time t) issuer "k1" key trusted.
Proof.
  split_and!; [reflexivity|by left|]. eexists. split; [reflexivity|]. change (keys_for (Por.keys (at_time t)) "acme") with (@Ok (list Value) string keys).
  symmetry. apply (served_set_reads server lab crates_agree "k1" key); [by eexists|reflexivity].
Qed.

(** The size of what is presented, computed. *)
Definition presented_size (r : result CredentialResponse (Z * ErrorResponse)) : bool :=
  match r with
  | Ok c => Nat.leb (length (bytes_of (push_disclosures (cr_issuer_signed_jwt c) (map disclosure (cr_disclosures c))))) MAX_EVIDENCE_BYTES
  | Err _ => false
  end.

Lemma presented_fits response n : create_credential lab state (Some 1000) "acme" request 0%nat = (Ok response, n) ->
  (length (bytes_of (push_disclosures (cr_issuer_signed_jwt response) (map disclosure (cr_disclosures response)))) <= MAX_EVIDENCE_BYTES)%nat.
Proof.
  intros H. apply Nat.leb_le. change (presented_size (fst (Ok (E := Z * ErrorResponse) response, n)) = true). rewrite <- H.
  vm_compute. reflexivity.
Qed.

Definition artifact_size (r : result WorkerArtifact BoxError) : bool :=
  match r with Ok a => Nat.leb (length (bytes_of (wa_presentation a))) MAX_EVIDENCE_BYTES | Err _ => false end.
End ToyLab.


Lemma walkthrough_is_accepted_witness :
  exists artifact s' file k,
    prepare_worker_artifact ToyLab.lab (fun _ => None) 420 "artifacts" "artifacts/attesters/acme" ToyLab.issuer "k1" ToyLab.key worker_1
      (mkFs ∅ ∅ 0) = (Ok artifact, s') /\
    fs_files s' !! "artifacts/attesters/acme/workers/worker-1/presentation.sd-jwt" = Some file /\
    validate_evidence_with_key ToyLab.server (ToyLab.at_time 1786702000) (mkPor "sd-jwt" (contents file))
    = Ok (CurveVerifier ToyLab.server k, mkProcessed "acme" ToyLab.issuer (object_map (wa_processed artifact)), workload_key (w_key worker_1)).
Proof.
  destruct (prepare_worker_artifact ToyLab.lab (fun _ => None) 420 "artifacts" "artifacts/attesters/acme" ToyLab.issuer "k1" ToyLab.key worker_1
    (mkFs ∅ ∅ 0)) as [[artifact|e] s'] eqn:E.
  - destruct (walkthrough_is_accepted ToyLab.server ToyLab.lab ToyLab.crates_agree (S := list Value) (fun _ => eq_refl) ToyLab.reads_triples
      (fun _ => None) 420 "artifacts" "artifacts/attesters/acme" ToyLab.issuer "k1" ToyLab.key worker_1 (mkFs ∅ ∅ 0) artifact s'
      ltac:(left) ltac:(by eexists) ltac:(by eexists) E) as (file & Hf & Hc & Hacc).
    eexists artifact, s', file, _. split_and!; [done|exact Hf|].
    apply (Hacc (ToyLab.at_time 1786702000) ToyLab.trusted _ "sd-jwt" (ToyLab.server_trusts _)); [done|done|reflexivity|].
    rewrite Hc. apply Nat.leb_le.
    change (ToyLab.artifact_size (fst (Ok (E := BoxError) artifact, s')) = true). rewrite <- E. vm_compute. reflexivity.
  - exfalso. assert (H : ToyLab.artifact_size (fst (Err (A := WorkerArtifact) e, s')) = true); [|discriminate H].
    rewrite <- E. vm_compute. reflexivity.
Defined.
