(* ===== verification/AuditCommand.v ===== *)
(** * The offline commands ([verify_audit_trail], [export_keys], [from_hex] of [src/main.rs])

    What [audit verify] says of a trail, and of its seals when it is given the keys they were signed
    with; the set [keys export] prints is one it reads. A slice at a byte that does not start a character
    panics, which is an outcome of its own. *)
From S2P Require Import Prelude Rust Errors Civil Encoding Keys AuditEvents Settings Trail TrailVerify TrailProperties KeyLifecycle.
Local Open Scope Z_scope.
Local Open Scope rust_scope.

Inductive Stop := Fails (e : Error) | Panics.

(** [with_context] on an error; a panic passes through. *)
Definition stop_context {A} (text : string) (r : result A Stop) : result A Stop :=
  match r with Err (Fails e) => Err (Fails (text :: e)) | r => r end.

(** ** Hexadecimal *)

(** [char::to_digit(16)]. *)
Definition hex_value (b : byte) : option Z :=
  if between 48 57 b then Some (u8 b - 48)
  else if between 97 102 b then Some (u8 b - 87)
  else if between 65 70 b then Some (u8 b - 55)
  else None.

(** [u8::from_str_radix(_, 16)] of two bytes: a plus sign may stand in front of a digit. *)
Definition from_str_radix (a b : byte) : option byte :=
  if bool_decide (a = x2b) then byte_of_Z <$> hex_value b
  else match hex_value a, hex_value b with
       | Some h, Some l => Some (byte_of_Z (16 * h + l))
       | _, _ => None
       end.

(** The pairs of the text from a character on; [str] indexing panics where a pair would cut a
    character, which is where the byte after it continues one. *)
Fixpoint hex_pairs (bs : list byte) : result (list byte) Stop :=
  match bs with
  | a :: b :: rest =>
    if match rest with c :: _ => cont c | [] => false end then Err Panics
    else match from_str_radix a b with
         | None => Err (Fails ["invalid digit found in string"])
         | Some v => let? vs := hex_pairs rest in Ok (v :: vs)
         end
  | _ => Ok []
  end.

Definition main_from_hex (text : string) : result (list byte) Stop :=
  if negb (str_len text mod 2 =? 0) then Err (Fails ["a hexadecimal string has an even number of characters"])
  else hex_pairs (bytes_of text).

(** ** The commands *)

Section Command.
Context (J : Codec) (ed_verify : list byte -> list byte -> list byte -> bool).
(** A trail's directory, the text of an error of the verifier, and the reading of a key set. *)
Context (files_in : string -> gmap string (list byte)) (display : VerifyError -> string)
  (read_text : string -> result string Error) (parse_set : string -> result (list Jwk) Error).

Definition count_text (n : Z) : string := string_of (dec n).

(** One turn of the loop over the seals. *)
Definition check_seal (published : list Jwk) (s : Seal) : result unit Stop :=
  match seal_kid s, seal_signature s with
  | Some kid, Some signature =>
    let day := seal_day (seal_body s) in
    let? key := ok_or (List.find (fun k => bool_decide (jwk_kid k = kid)) published)
                  (Fails ["the key set does not publish `" +:+ kid +:+ "`"]) in
    let? signature := stop_context ("the seal for " +:+ day +:+ " has an unreadable signature") (main_from_hex signature) in
    if negb (verify_signature ed_verify key (seal_body_json J (seal_body s)) signature)
    then Err (Fails ["the seal for " +:+ day +:+ " does not verify against `" +:+ kid
                     +:+ "`: it was not signed by the key it names, or it has been altered since"])
    else Ok tt
  | _, _ => Err (Fails ["the seal for " +:+ seal_day (seal_body s) +:+ " carries no signature"])
  end.

Fixpoint check_seals (published : list Jwk) (seals : list Seal) (signed : Z) : result Z Stop :=
  match seals with
  | [] => Ok signed
  | s :: rest => let? _ := check_seal published s in check_seals published rest (signed + 1)
  end.

Definition verify_audit_trail (directory : string) (keys : option string) : result string Stop :=
  let? verified := map_err (fun e => Fails [display e]) (verify J (files_in directory)) in
  let summary := count_text (v_records verified) +:+ " record(s) over " +:+ count_text (Z.of_nat (v_days verified))
                 +:+ " day(s) verify. Head: " +:+ v_head verified in
  match v_seals verified with
  | [] => Ok summary
  | seals =>
    match keys with
    | None => Ok (summary +:+ string_of [LF] +:+ count_text (Z.of_nat (length seals))
                  +:+ " seal(s) present, signatures unchecked. Pass --keys <JWKS> to check them.")
    | Some path =>
      let? text := map_err Fails (read_text path) in
      let? published := map_err Fails (with_context ("reading the key set from " +:+ path) (parse_set text)) in
      let? signed := check_seals published seals 0 in
      Ok (summary +:+ string_of [LF] +:+ count_text signed +:+ " seal(s) verify against the key set.")
    end
  end.

(** [export_keys] of [main.rs], over the ring of a directory. *)
Definition export_ring (R : RingCrate) (settings_for : string -> Keys.Settings) (ring_in : string -> Manager R) (to_string_pretty : list Jwk -> string) (directory : string)
  : result string Error :=
  with_context ("reading the key ring in " +:+ directory)
    (map_err (fun e => [show_key_error e]) (export R (settings_for directory) to_string_pretty (ring_in directory))).
End Command.

(** ** Hexadecimal reads back *)

Lemma hex_value_digit d : 0 <= d < 16 -> hex_value (hex_digit d) = Some d /\ bool_decide (hex_digit d = x2b) = false /\ cont (hex_digit d) = false.
Proof.
  intros Hd. assert (H : forallb (fun d => bool_decide (hex_value (hex_digit d) = Some d) && negb (bool_decide (hex_digit d = x2b))
    && negb (cont (hex_digit d))) (map Z.of_nat (List.seq 0 16)) = true) by (vm_compute; reflexivity).
  pose proof (forallb_range _ 16 H d Hd) as Hx. simpl in Hx. bool_to_prop. split_and!; try done. by apply bool_decide_eq_false_2.
Qed.

Lemma hex_digits b : 0 <= u8 b / 16 < 16 /\ 0 <= u8 b mod 16 < 16.
Proof. pose proof (u8_range b). split; [split; [apply Z.div_pos; lia|apply Z.div_lt_upper_bound; lia]|apply Z.mod_pos_bound; lia]. Qed.

Lemma hex_pairs_back bs : hex_pairs (concat (map hex_byte bs)) = Ok bs.
Proof.
  induction bs as [|b bs IH]; [done|]. cbn [map concat]. unfold hex_byte at 1. cbn [app hex_pairs].
  destruct (hex_digits b) as [Hh Hl]. destruct (hex_value_digit _ Hh) as (Hv & Hp & _), (hex_value_digit _ Hl) as (Hv' & _ & _).
  assert (Hc : match concat (map hex_byte bs) with c :: _ => cont c | [] => false end = false).
  { destruct bs as [|b' bs]; [done|]. simpl. destruct (hex_digits b') as [Hh' _]. by destruct (hex_value_digit _ Hh') as (_ & _ & ?). }
  rewrite Hc. unfold from_str_radix. rewrite Hp, Hv, Hv', IH. cbn [bind_result]. do 2 f_equal. apply u8_inj.
  rewrite u8_byte_of_Z, <- Z.div_mod by lia. apply Z.mod_small, u8_range.
Qed.

(** What a seal's signature is written as is what the command reads. *)
Theorem from_hex_reads_hex bs : main_from_hex (hex bs) = Ok bs.
Proof.
  unfold main_from_hex. unfold str_len. rewrite hex_length, Nat2Z.inj_mul, Z.mul_comm, Z.mod_mul by lia. simpl.
  unfold hex. by rewrite bytes_of_string_of, hex_pairs_back.
Qed.

(** Not only lowercase hexadecimal is read: a plus sign stands for a zero, and capitals are digits. *)
Theorem from_hex_reads_more : main_from_hex "+AfF" = Ok [x0a; xff].
Proof. reflexivity. Qed.

(** A signature that cuts a character in two stops the command with a panic, not with an error. *)
Theorem from_hex_panics : main_from_hex (string_of [x30; xc3; xa9; x30]) = Err Panics.
Proof. reflexivity. Qed.

(** ** What a successful check with keys proves *)

Section Sound.
Context (J : Codec) (ed_verify : list byte -> list byte -> list byte -> bool).
Context (files_in : string -> gmap string (list byte)) (display : VerifyError -> string)
  (read_text : string -> result string Error) (parse_set : string -> result (list Jwk) Error).

(** A seal whose signature verifies under the key it names. *)
Definition signed_by (published : list Jwk) (s : Seal) : Prop :=
  exists key signature text, seal_kid s = Some (jwk_kid key) /\ key ∈ published /\ seal_signature s = Some text /\
    main_from_hex text = Ok signature /\ verify_signature ed_verify key (seal_body_json J (seal_body s)) signature = true.

Lemma check_seal_Ok published s u : check_seal J ed_verify published s = Ok u -> signed_by published s.
Proof.
  unfold check_seal. destruct (seal_kid s) as [kid|] eqn:Ek; [|done]. destruct (seal_signature s) as [text|] eqn:Es; [|done].
  intros H. run_inv. match goal with Hf : List.find _ _ = Some ?k |- _ => rename k into key; apply find_some in Hf as [Hin Hk] end. bool_to_prop.
  destruct (main_from_hex text) as [signature|[e|]] eqn:Eh; simpl in *; simplify_eq.
  destruct (verify_signature _ _ _ _) eqn:Ev; [|done]. eexists key, _, text. split_and!; try done. by apply list_elem_of_In.
Qed.

Lemma check_seals_iff published seals n m :
  check_seals J ed_verify published seals n = Ok m ->
  m = n + Z.of_nat (length seals) /\ Forall (signed_by published) seals.
Proof.
  revert n. induction seals as [|s seals IH]; intros n H; cbn [check_seals] in H.
  - injection H as <-. split; [simpl; lia|constructor].
  - run_inv. match goal with Hs : check_seal _ _ _ _ = Ok _ |- _ => apply check_seal_Ok in Hs; rename Hs into Hsig end.
    match goal with Hr : check_seals _ _ _ _ _ = Ok _ |- _ => apply IH in Hr as [-> Hr] end. split; [simpl; lia|by constructor].
Qed.

(** With keys and at least one seal, success means that every seal the trail agrees with is signed. *)
Lemma verify_with_keys directory path text published summary v :
  verify J (files_in directory) = Ok v -> v_seals v <> [] -> read_text path = Ok text -> parse_set text = Ok published ->
  verify_audit_trail J ed_verify files_in display read_text parse_set directory (Some path) = Ok summary ->
  Forall (signed_by published) (v_seals v).
Proof.
  intros Hv Hne Ht Hp H. unfold verify_audit_trail in H. rewrite Hv in H. cbn [map_err bind_result] in H.
  destruct (v_seals v) as [|s seals] eqn:Es; [done|]. rewrite Ht in H. cbn [map_err bind_result] in H.
  rewrite Hp in H. cbn [with_context map_err bind_result] in H. run_inv.
  match goal with Hc : check_seals _ _ _ _ _ = Ok _ |- _ => by apply check_seals_iff in Hc as [_ Hc] end.
Qed.

(** The seals the key's holder made: each over the records of a trail of its own. *)
Context (made : SealBody -> list Record_ -> Prop)
  (Hmade : forall b rs, made b rs -> chained J GENESIS 1 rs /\ records b = Z.of_nat (length rs) /\ head b = head_from GENESIS rs).

End Sound.

(** A trail without seals passes whatever keys are named: the set is not even read. *)
Theorem no_seals_nothing_checked J ed_verify files_in display read_text parse_set directory path v :
  verify J (files_in directory) = Ok v -> v_seals v = [] ->
  verify_audit_trail J ed_verify files_in display read_text parse_set directory (Some path)
  = verify_audit_trail J ed_verify files_in display read_text parse_set directory None.
Proof. intros Hv Hs. unfold verify_audit_trail. rewrite Hv. cbn [map_err bind_result]. by rewrite Hs. Qed.

(** ** A trail sealed by a ring on disk, checked with the set that ring exports *)

Module ToyAudit.
Import ToyCodec ToyTrail.

Definition published : list Jwk :=
  match directory_public_keys ToyKeys.crate (ToyKeys.settings Ed25519) ring with Ok l => l | Err _ => [] end.

(** A key that signed one seal and nothing else. *)
Definition ed_verify (public payload signature : list byte) : bool :=
  bool_decide (payload = seal_body_json codec (seal_body the_seal)) && bool_decide (signature = public ++ payload).

Definition made (b : SealBody) (rs : list Record_) : Prop := b = seal_body the_seal /\ rs = records_of shorter.

Lemma made_ok b rs : made b rs -> chained codec GENESIS 1 rs /\ records b = Z.of_nat (length rs) /\ head b = head_from GENESIS rs.
Proof.
  intros [-> ->]. assert (Hok : is_ok (verify codec shorter) = true) by (vm_compute; reflexivity). split_and!.
  - pose proof (records_of_ok _ Hok) as Hr. pose proof (verified_ok _ Hok) as Hv.
    apply verify_iff in Hv as (sl & r & _ & H1 & Hc & _).
    assert (He : r = records_of shorter) by exact (inj Some _ _ (eq_trans (eq_sym H1) Hr)). rewrite <- He. exact Hc.
  - vm_compute. reflexivity.
  - vm_compute. reflexivity.
Qed.

Lemma seal_body_json_inj x y : seal_body_json codec x = seal_body_json codec y -> x = y.
Proof.
  intros H. assert (Hf : seal_fields (mkSeal x None None None) = seal_fields (mkSeal y None None None)).
  { cbn [codec seal_body_json] in H. pose proof (dec_enc [seal_day x; seal_at x; of_Z (records x); head x]) as Hx.
    rewrite H, dec_enc in Hx. unfold seal_fields. cbn. congruence. }
  pose proof (seal_fields_back (mkSeal x None None None)) as Hx. rewrite Hf, seal_fields_back in Hx. congruence.
Qed.

Definition checked_with (keys : option string) : result string Stop :=
  verify_audit_trail codec ed_verify (fun _ => shorter) (fun _ => "refused") (fun _ => Ok "the set") (fun _ => Ok published) "audit" keys.

Definition said (n : string) : string :=
  "1 record(s) over 1 day(s) verify. Head: " +:+ v_head (verified shorter) +:+ string_of [LF] +:+ n.

Lemma check_says : checked_with (Some "keys.json") = Ok (said "1 seal(s) verify against the key set.").
Proof. vm_compute. reflexivity. Qed.
End ToyAudit.

