(* ===== verification/Sections.v ===== *)
(** * Configuration sections a build adds ([crates/pic-x-core/src/config_section.rs],
    [Config::with_section] and [Config::section] of [config.rs], the registration of [App] in [app.rs])

    A section is a type with a name, a reader and a check. Registering one claims its name; a file that
    declares it is parsed into the type, which the configuration keeps without knowing it and hands
    back to whoever asks for that type. Types are told apart by an index, as [Any] tells them by their
    [TypeId]; the values of one index form its [carrier]. *)
From S2P Require Import Prelude Rust Text Order Settings Config ConfigFile JsonMap.
Local Open Scope Z_scope.
Local Open Scope rust_scope.

Section Sections.
Context {Value : Type} {T : Type} `{!EqDecision T} (carrier : T -> Type) (NAME : T -> string).
(** [serde_norway::from_value] into a type, and [ConfigSection::validate] of it. *)
Context (from_value : forall t, Value -> result (carrier t) Error) (validate_section : forall t, carrier t -> result unit Error).

(** [ConfigSection::parse]. *)
Definition parse_section (t : T) (value : Value) : result (carrier t) Error :=
  let? section := with_context ("reading the `" +:+ NAME t +:+ "` section") (from_value t value) in
  let? _ := with_context ("validating the `" +:+ NAME t +:+ "` section") (validate_section t section) in
  Ok section.

(** [AnyConfigSection], and [Any::downcast_ref]. *)
Definition AnyConfigSection : Type := {t : T & carrier t}.

Definition downcast_ref (t : T) (a : AnyConfigSection) : option (carrier t) :=
  match a with
  | existT u v => match decide (u = t) with
                  | left e => Some (eq_rect u carrier v t e)
                  | right _ => None
                  end
  end.

(** A configuration and the sections it carries. *)
Record Sectioned := mkSectioned { settings : Config; sections : list (string * AnyConfigSection) }.

Definition with_section (t : T) (section : carrier t) (c : Sectioned) : Sectioned :=
  mkSectioned (settings c) (btree_insert (NAME t) (existT t section) (sections c)).

Definition section (t : T) (c : Sectioned) : option (carrier t) := btree_get (NAME t) (sections c) ≫= downcast_ref t.

Definition section_names (c : Sectioned) : list string := map fst (sections c).

(** ** Registering *)

Definition Parser : Type := Sectioned -> Value -> result Sectioned Error.
Definition Reader : Type := Value -> result (list (string * string)) Error.

(** The part of [App] that registration fills. *)
Record Registered := mkRegistered {
  reg_declared : list string; reg_claimed : list string; reg_readers : list (string * Reader); reg_parsers : list (string * Parser) }.

Definition registered_new : Registered := mkRegistered [] [] [] [].

(** The parser [with_config_section] registers. *)
Definition section_parser (t : T) : Parser := fun c value => let? s := parse_section t value in Ok (with_section t s c).

(** [App::with_config_section]: [None] is its panic. *)
Definition with_config_section (t : T) (r : Registered) : option Registered :=
  if existsb (fun p => bool_decide (fst p = NAME t)) (reg_parsers r) then None
  else Some (mkRegistered (reg_declared r) (reg_claimed r ++ [NAME t]) (reg_readers r) (reg_parsers r ++ [(NAME t, section_parser t)])).

Definition with_declared_settings (keys : list string) (r : Registered) : Registered :=
  mkRegistered (reg_declared r ++ keys) (reg_claimed r) (reg_readers r) (reg_parsers r).

Definition with_claimed_sections (names : list string) (r : Registered) : Registered :=
  mkRegistered (reg_declared r) (reg_claimed r ++ names) (reg_readers r) (reg_parsers r).

Definition with_section_settings (name : string) (reader : Reader) (r : Registered) : Registered :=
  mkRegistered (reg_declared r) (reg_claimed r ++ [name]) (reg_readers r ++ [(name, reader)]) (reg_parsers r).

(** Registrations one after the other. *)
Inductive Registration := TypedSection (t : T) | DeclaredSettings (keys : list string) | ClaimedSections (names : list string)
  | SectionSettings (name : string) (reader : Reader).

Definition register_one (x : Registration) (r : Registered) : option Registered :=
  match x with
  | TypedSection t => with_config_section t r
  | DeclaredSettings keys => Some (with_declared_settings keys r)
  | ClaimedSections names => Some (with_claimed_sections names r)
  | SectionSettings name reader => Some (with_section_settings name reader r)
  end.

Fixpoint register_all (xs : list Registration) (r : Registered) : option Registered :=
  match xs with
  | [] => Some r
  | x :: rest => r ← register_one x r; register_all rest r
  end.

(** The types among the registrations, and the names they all claim. *)
Definition typed (xs : list Registration) : list T := omap (fun x => match x with TypedSection t => Some t | _ => None end) xs.
Definition claims_of (xs : list Registration) : list string :=
  flat_map (fun x => match x with TypedSection t => [NAME t] | ClaimedSections ns => ns | SectionSettings n _ => [n] | DeclaredSettings _ => [] end) xs.

(** ** Reading back *)

Lemma downcast_same t (v : carrier t) : downcast_ref t (existT t v) = Some v.
Proof. unfold downcast_ref. destruct (decide (t = t)) as [e|]; [|done]. by rewrite (proof_irrel e eq_refl). Qed.

Lemma section_with t s c u :
  section u (with_section t s c) = if bool_decide (NAME t = NAME u) then downcast_ref u (existT t s) else section u c.
Proof. unfold section, with_section. cbn [sections]. rewrite btree_get_insert. by case_bool_decide. Qed.

Lemma register_all_parsers xs r r' :
  register_all xs r = Some r' -> reg_parsers r' = reg_parsers r ++ map (fun t => (NAME t, section_parser t)) (typed xs).
Proof.
  revert r. induction xs as [|x xs IH]; intros r H; cbn [register_all] in H; [injection H as <-; by rewrite app_nil_r|].
  apply bind_Some in H as (r1 & H1 & H). apply IH in H as ->. destruct x as [t| | |]; cbn [register_one] in H1.
  - unfold with_config_section in H1. destruct (existsb _ _); [done|]. injection H1 as <-. cbn [reg_parsers].
    change (typed (TypedSection t :: xs)) with (t :: typed xs). cbn [map]. by rewrite <- app_assoc.
  - by injection H1 as <-.
  - by injection H1 as <-.
  - by injection H1 as <-.
Qed.

Lemma register_all_claims xs r r' : register_all xs r = Some r' -> reg_claimed r' = reg_claimed r ++ claims_of xs.
Proof.
  revert r. induction xs as [|x xs IH]; intros r H; cbn [register_all] in H; [injection H as <-; by rewrite app_nil_r|].
  apply bind_Some in H as (r1 & H1 & H). apply IH in H as ->. cbn [claims_of flat_map]. fold (claims_of xs). rewrite app_assoc. f_equal.
  destruct x as [t| | |]; cbn [register_one] in H1; [unfold with_config_section in H1; destruct (existsb _ _); [done|]|..];
    injection H1 as <-; cbn; by rewrite ?app_nil_r.
Qed.

(** Registration panics exactly when two types claim one name. *)
Lemma register_all_Some xs r :
  is_Some (register_all xs r) <->
  NoDup (map NAME (typed xs)) /\ Forall (fun t => NAME t ∉ map fst (reg_parsers r)) (typed xs).
Proof.
  revert r. induction xs as [|x xs IH]; intros r; cbn [register_all].
  { split; [split; constructor|by eexists]. }
  destruct x as [t|ks|ns|n rd]; cbn [register_one mbind option_bind]; try by rewrite IH.
  unfold with_config_section. change (typed (TypedSection t :: xs)) with (t :: typed xs). cbn [map]. rewrite NoDup_cons, Forall_cons.
  destruct (existsb _ _) eqn:E; cbn [mbind option_bind].
  - split; [intros [? [=]]|]. intros [_ [Hn _]]. apply existsb_exists in E as (p & Hp & Hb). bool_to_prop.
    destruct Hn. rewrite <- Hb. apply list_elem_of_In. by apply in_map.
  - rewrite IH. cbn [reg_parsers]. rewrite map_app. cbn [map fst].
    assert (Hn : NAME t ∉ map fst (reg_parsers r)).
    { intros (p & Hp & Hin)%list_elem_of_fmap. assert (Hx : existsb (fun p => bool_decide (fst p = NAME t)) (reg_parsers r) = true).
      { apply existsb_exists. exists p. split; [by apply list_elem_of_In|by apply bool_decide_eq_true_2]. } congruence. }
    setoid_rewrite not_elem_of_app. setoid_rewrite list_elem_of_singleton. rewrite !Forall_forall. split.
    + intros [Hnd Hf]. split_and!; try done; [|by intros u Hu; apply Hf].
      intros (u & Hu & Hin)%list_elem_of_fmap. by apply (Hf u Hin).
    + intros [[Hnew Hnd] [_ Hf]]. split; [done|]. intros u Hu. split; [by apply Hf|]. intros He. destruct Hnew. rewrite <- He.
      by apply list_elem_of_fmap_2.
Qed.

(** What a file makes of the registered types: each declared section is parsed into its own type. *)
Lemma apply_typed path f ts c c' :
  NoDup (map NAME ts) -> apply_parsers path f (map (fun t => (NAME t, section_parser t)) ts) c = Ok c' ->
  settings c' = settings c /\
  (forall t, t ∈ ts -> match file_section f (NAME t) with
                       | Some value => exists s, parse_section t value = Ok s /\ section t c' = Some s
                       | None => section t c' = section t c
                       end) /\
  (forall u, NAME u ∉ map NAME ts -> section u c' = section u c).
Proof.
  revert c. induction ts as [|t ts IH]; intros c Hnd H; cbn [map apply_parsers] in H.
  { injection H as <-. split_and!; [done| |done]. intros t Ht. by apply not_elem_of_nil in Ht. }
  cbn [map] in Hnd. apply NoDup_cons in Hnd as [Hnew Hnd]. destruct (file_section f (NAME t)) as [value|] eqn:Ef.
  - apply bind_result_Ok in H as (c1 & Hp & H). apply with_context_Ok in Hp. unfold section_parser in Hp. run_inv.
    apply IH in H as (Hs & Hin & Hout); [|done]. split_and!; [by rewrite Hs| |].
    + intros u [->|Hu]%elem_of_cons.
      * rewrite Ef. eexists. split; [done|]. rewrite Hout by done. rewrite section_with, bool_decide_eq_true_2 by done. apply downcast_same.
      * specialize (Hin u Hu). destruct (file_section f (NAME u)); [done|]. rewrite Hin, section_with, bool_decide_eq_false_2; [done|].
        intros He. destruct Hnew. rewrite He. by apply list_elem_of_fmap_2.
    + intros u Hu. cbn [map] in Hu. rewrite not_elem_of_cons in Hu. destruct Hu as [Hne Hu]. rewrite Hout by done. rewrite section_with, bool_decide_eq_false_2; [done|congruence].
  - apply IH in H as (Hs & Hin & Hout); [|done]. split_and!; [done| |].
    + intros u [->|Hu]%elem_of_cons; [|by apply Hin]. rewrite Ef. by apply Hout.
    + intros u Hu. cbn [map] in Hu. rewrite not_elem_of_cons in Hu. apply Hout. tauto.
Qed.

Lemma apply_typed_fails path f ts c e :
  apply_parsers path f (map (fun t => (NAME t, section_parser t)) ts) c = Err e ->
  exists t value e', t ∈ ts /\ file_section f (NAME t) = Some value /\ parse_section t value = Err e' /\
    e = ("in the configuration file " +:+ path) :: e'.
Proof.
  revert c. induction ts as [|t ts IH]; intros c H; cbn [map apply_parsers] in H; [done|].
  destruct (file_section f (NAME t)) as [value|] eqn:Ef.
  - unfold section_parser in H. destruct (parse_section t value) as [s|e'] eqn:Ep; cbn [bind_result with_context map_err] in H.
    + apply IH in H as (u & v & e' & Hu & Hrest). exists u, v, e'. split; [by right|done].
    + injection H as <-. exists t, value, e'. split_and!; try done. left.
  - apply IH in H as (u & v & e' & Hu & Hrest). exists u, v, e'. split; [by right|done].
Qed.

(** A section is what its type reads of the file, or it is not there. Composing a build panics exactly
    when two types claim one name. Otherwise every declared section was read and checked by its own
    type, and asking for a type gives what that type made of its section, or nothing where the file
    does not declare it; the settings are untouched; and the first section that cannot be read or does
    not make sense stops the load with its own words. *)
Theorem registered_sections_read_back xs path f c :
  (register_all xs registered_new = None <-> ~ NoDup (map NAME (typed xs))) /\
  match register_all xs registered_new with
  | None => True
  | Some r =>
    reg_claimed r = claims_of xs /\
    match apply_parsers path f (reg_parsers r) (mkSectioned c []) with
    | Ok c' =>
      settings c' = c /\
      forall t, t ∈ typed xs -> match file_section f (NAME t) with
                               | Some value => exists s, parse_section t value = Ok s /\ section t c' = Some s
                               | None => section t c' = None
                               end
    | Err e => exists t value e', t ∈ typed xs /\ file_section f (NAME t) = Some value /\ parse_section t value = Err e' /\
                 e = ("in the configuration file " +:+ path) :: e'
    end
  end.
Proof.
  pose proof (register_all_Some xs registered_new) as Hiff. cbn [registered_new reg_parsers map] in Hiff.
  assert (Hall : Forall (fun t => NAME t ∉ []) (typed xs)) by (apply Forall_forall; intros t _; apply not_elem_of_nil).
  destruct (register_all xs registered_new) as [r|] eqn:E.
  - assert (Hnd : NoDup (map NAME (typed xs))) by (apply Hiff; by eexists). split; [split; [done|intros Hn; by destruct Hn]|].
    split; [by rewrite (register_all_claims _ _ _ E)|]. rewrite (register_all_parsers _ _ _ E). cbn [registered_new reg_parsers app].
    destruct (apply_parsers path f _ (mkSectioned c [])) as [c'|e] eqn:Ea.
    + apply apply_typed in Ea as (Hs & Hin & _); [|done]. split; [done|]. intros t Ht. specialize (Hin t Ht). by destruct (file_section f (NAME t)).
    + by eapply apply_typed_fails.
  - split; [|done]. split; [|done]. intros _ Hnd. destruct Hiff as [_ Hiff]. destruct Hiff as [? [=]]; done.
Qed.
End Sections.

(** Two sections, of numbers and of texts; one is declared. *)
Module ToySections.
Definition carrier (t : bool) : Type := if t then Z else string.
Definition name (t : bool) : string := if t then "limit" else "signing".
Definition from_value (t : bool) (v : Z) : result (carrier t) Error := if t return result (carrier t) Error then Ok v else Ok "ES256".
Definition check_value (t : bool) : carrier t -> result unit Error :=
  if t return carrier t -> result unit Error then fun n => if n <? 0 then bail "the limit is negative" else Ok tt else fun _ => Ok tt.

Definition both : list (Registration (Value := Z) (T := bool)) := [TypedSection true; TypedSection false].

Example two_types_register : is_Some (register_all carrier name from_value check_value both (registered_new carrier)).
Proof. by eexists. Qed.
Example a_name_is_claimed_once : register_all carrier name from_value check_value (both ++ [TypedSection true]) (registered_new carrier) = None.
Proof. reflexivity. Qed.
Example a_section_is_checked : parse_section carrier name from_value check_value true (-1) = Err ["validating the `limit` section"; "the limit is negative"].
Proof. reflexivity. Qed.
End ToySections.
