(* ===== verification/Landing.v ===== *)
(** * The pages of the public surface ([landing] of [crates/pic-x-realm/src/routes.rs])

    The five holes of the template are filled one after the other, each by replacing its mark in all
    of the text so far. What comes out is the template with every hole filled once, with values that
    cannot open a tag or leave an attribute, as long as no value contains a brace; a value that spells a
    mark is itself filled by a later replacement. The file of the template is a parameter. *)
From S2P Require Import Prelude Rust Documents.
Local Open Scope Z_scope.

(** [str::replace]: [skip] is what is left of a match. *)
Fixpoint replace_from (skip : nat) (pat with_ bs : list byte) : list byte :=
  match bs with
  | [] => []
  | b :: r =>
    match skip with
    | S k => replace_from k pat with_ r
    | O => match strip_prefix_list pat bs with
           | Some _ => with_ ++ replace_from (length pat - 1) pat with_ r
           | None => b :: replace_from 0 pat with_ r
           end
    end
  end.
Definition replace (pat with_ : string) (bs : list byte) : list byte := replace_from 0 (bytes_of pat) (bytes_of with_) bs.

(** Text with quotes in it. *)
Definition QUOTE : string := string_of [x22].
Definition attribute (name value : string) : string := name +:+ "=" +:+ QUOTE +:+ value +:+ QUOTE.

(** The mark above the links: the logo, or the name where there is none. *)
Definition hero_mark (logo name : string) : string :=
  if is_empty logo then "<h1 " +:+ attribute "class" "wordmark" +:+ ">" +:+ escape name +:+ "</h1>"
  else "<img " +:+ attribute "class" "logo" +:+ " " +:+ attribute "src" logo +:+ " " +:+ attribute "alt" (escape name) +:+ " />".

Definition hero (logo name : string) : string :=
  "<a " +:+ attribute "class" "home" +:+ " " +:+ attribute "href" "/" +:+ " " +:+ attribute "aria-label" "Home" +:+ ">"
  +:+ hero_mark logo name +:+ "</a>".

Definition row (l : Link) : string :=
  "<a " +:+ attribute "class" "row" +:+ " " +:+ attribute "href" (escape (href l)) +:+ "><span " +:+ attribute "class" "label" +:+ ">"
  +:+ escape (link_label l) +:+ "</span><span " +:+ attribute "class" "path" +:+ ">" +:+ escape (href l) +:+ "</span></a>".

Definition rows (ls : list Link) : string := string_of (concat (map (fun l => bytes_of (row l)) ls)).

(** [landing]. *)
Definition landing (template : string) (p : Page) : string :=
  string_of (replace "{{FOOT}}" (escape (page_foot p))
    (replace "{{ROWS}}" (rows (links p))
      (replace "{{SUBTITLE}}" (escape (page_subtitle p))
        (replace "{{HERO}}" (hero (page_logo p) (page_name p))
          (replace "{{TITLE}}" (escape (page_title p)) (bytes_of template)))))).

(** ** Templates and their holes *)

Inductive Hole := Title | Hero | Subtitle | Rows | Foot.
#[global] Instance hole_eq_dec : EqDecision Hole.
Proof. solve_decision. Defined.

Definition tag (h : Hole) : string :=
  match h with Title => "{{TITLE}}" | Hero => "{{HERO}}" | Subtitle => "{{SUBTITLE}}" | Rows => "{{ROWS}}" | Foot => "{{FOOT}}" end.

Inductive Piece := Words (bs : list byte) | Gap (h : Hole).
Definition piece_bytes (p : Piece) : list byte := match p with Words bs => bs | Gap h => bytes_of (tag h) end.
Definition template_bytes (ps : list Piece) : list byte := concat (map piece_bytes ps).

Definition BRACE : byte := x7b.

(** No two braces in a row, and none at the end. *)
Fixpoint tidy (bs : list byte) : bool :=
  match bs with
  | [] => true
  | b :: r => (negb (bool_decide (b = BRACE)) || match r with c :: _ => negb (bool_decide (c = BRACE)) | [] => false end) && tidy r
  end.

Definition brace_free (bs : list byte) : Prop := Forall (fun b => b <> BRACE) bs.

Lemma brace_free_tidy bs : brace_free bs -> tidy bs = true.
Proof. induction 1 as [|b bs Hb _ IH]; [done|]. cbn [tidy]. by rewrite bool_decide_eq_false_2, IH. Qed.

Definition fill_hole (h : Hole) (v : list byte) (p : Piece) : Piece :=
  match p with Gap g => if decide (g = h) then Words v else p | p => p end.

(** ** Replacing a mark fills its hole and nothing else *)

Lemma replace_from_skip pat w x r : replace_from (length x) pat w (x ++ r) = replace_from 0 pat w r.
Proof. induction x as [|b x IH]; [done|]. exact IH. Qed.

Lemma tag_at_brace h bs r : strip_prefix_list (bytes_of (tag h)) bs = Some r -> exists s, bs = BRACE :: BRACE :: s.
Proof. intros H%strip_prefix_list_Some. subst bs. destruct h; by eexists. Qed.

Lemma replace_words h w bs s : tidy bs = true -> replace_from 0 (bytes_of (tag h)) w (bs ++ s) = bs ++ replace_from 0 (bytes_of (tag h)) w s.
Proof.
  induction bs as [|b bs IH]; intros Ht; [done|]. cbn [tidy] in Ht. apply andb_true_iff in Ht as [Hb Ht]. specialize (IH Ht).
  change ((b :: bs) ++ s) with (b :: (bs ++ s)). cbn [replace_from].
  destruct (strip_prefix_list (bytes_of (tag h)) (b :: bs ++ s)) as [r|] eqn:E; [|by rewrite IH].
  apply tag_at_brace in E as (t & [= -> E]). rewrite (bool_decide_eq_true_2 (BRACE = BRACE)) in Hb by done.
  destruct bs as [|c bs]; [done|]. injection E as -> _. by rewrite bool_decide_eq_true_2 in Hb.
Qed.

Lemma replace_own h w s : replace_from 0 (bytes_of (tag h)) w (bytes_of (tag h) ++ s) = w ++ replace_from 0 (bytes_of (tag h)) w s.
Proof.
  pose proof (proj2 (strip_prefix_list_Some (bytes_of (tag h)) (bytes_of (tag h) ++ s) s) eq_refl) as E.
  destruct (bytes_of (tag h)) as [|b pat] eqn:Eb; [by destruct h|]. cbn [app replace_from]. cbn [app] in E. rewrite E. f_equal.
  cbn [length]. rewrite Nat.sub_succ, Nat.sub_0_r. apply replace_from_skip.
Qed.

Lemma replace_other h g w s : g <> h -> replace_from 0 (bytes_of (tag h)) w (bytes_of (tag g) ++ s) = bytes_of (tag g) ++ replace_from 0 (bytes_of (tag h)) w s.
Proof. intros Hne. destruct h, g; try done; reflexivity. Qed.

Definition tidy_pieces (ps : list Piece) : Prop := Forall (fun p => match p with Words bs => tidy bs = true | Gap _ => True end) ps.

Lemma replace_fills h w ps : tidy_pieces ps -> replace (tag h) w (template_bytes ps) = template_bytes (map (fill_hole h (bytes_of w)) ps).
Proof.
  unfold replace, template_bytes. induction 1 as [|p ps Hp _ IH]; [done|]. cbn [map concat]. rewrite <- IH.
  destruct p as [bs|g]; cbn [piece_bytes fill_hole]; [by apply replace_words|].
  destruct (decide (g = h)) as [->|Hne]; cbn [piece_bytes]; [apply replace_own|by apply replace_other].
Qed.

Lemma fill_tidy h v ps : tidy v = true -> tidy_pieces ps -> tidy_pieces (map (fill_hole h v) ps).
Proof.
  intros Hv H. apply Forall_map. eapply Forall_impl; [exact H|]. intros [bs|g] Hp; cbn [fill_hole]; [done|]. by destruct (decide (g = h)).
Qed.

(** ** What a page is *)

Lemma escape_brace_free s : brace_free (bytes_of s) -> brace_free (bytes_of (escape s)).
Proof.
  intros H. rewrite escape_is_one_pass, bytes_of_string_of. induction H as [|b bs Hb _ IH]; [constructor|]. cbn [map concat].
  apply Forall_app. split; [|exact IH]. destruct b; repeat constructor; done.
Qed.

Lemma app_brace_free s t : brace_free (bytes_of s) -> brace_free (bytes_of t) -> brace_free (bytes_of (s +:+ t)).
Proof. intros Hs Ht. rewrite bytes_of_app. by apply Forall_app. Qed.

(** Breaks a text up into literals and escaped values. *)
Ltac brace_freedom :=
  lazymatch goal with
  | |- brace_free (bytes_of (_ +:+ _)) => apply app_brace_free; brace_freedom
  | |- brace_free (bytes_of (escape _)) => apply escape_brace_free; assumption
  | |- _ => first [assumption | by apply (bool_decide_unpack _)]
  end.

Definition page_values (p : Page) : list string :=
  [page_title p; page_logo p; page_name p; page_subtitle p; page_foot p] ++ map link_label (links p) ++ map href (links p).
Definition plain_page (p : Page) : Prop := Forall (fun v => brace_free (bytes_of v)) (page_values p).

Lemma hero_brace_free logo name : brace_free (bytes_of logo) -> brace_free (bytes_of name) -> brace_free (bytes_of (hero logo name)).
Proof. intros Hl Hn. unfold hero, hero_mark. destruct (is_empty logo); unfold attribute; brace_freedom. Qed.

Lemma row_brace_free l : brace_free (bytes_of (link_label l)) -> brace_free (bytes_of (href l)) -> brace_free (bytes_of (row l)).
Proof. intros Hl Hh. unfold row, attribute. brace_freedom. Qed.

Lemma rows_brace_free ls : Forall (fun v => brace_free (bytes_of v)) (map link_label ls) -> Forall (fun v => brace_free (bytes_of v)) (map href ls) ->
  brace_free (bytes_of (rows ls)).
Proof.
  unfold rows. rewrite bytes_of_string_of. induction ls as [|l ls IH]; cbn [map]; intros Hl Hh; [constructor|]. cbn [concat].
  apply Forall_cons in Hl as [Hl Hls], Hh as [Hh Hhs]. apply Forall_app. split; [by apply row_brace_free|by apply IH].
Qed.

(** What a hole is filled with. *)
Definition filling (p : Page) (h : Hole) : string :=
  match h with
  | Title => escape (page_title p)
  | Hero => hero (page_logo p) (page_name p)
  | Subtitle => escape (page_subtitle p)
  | Rows => rows (links p)
  | Foot => escape (page_foot p)
  end.

Lemma filling_tidy p h : plain_page p -> tidy (bytes_of (filling p h)) = true.
Proof.
  unfold plain_page, page_values. intros H. apply Forall_app in H as [Hv Hl]. apply Forall_app in Hl as [Hl Hh].
  repeat (apply Forall_cons in Hv as [? Hv]). apply brace_free_tidy.
  destruct h; cbn [filling]; auto using escape_brace_free, hero_brace_free, rows_brace_free.
Qed.

Definition filled (p : Page) (x : Piece) : list byte := match x with Words bs => bs | Gap h => bytes_of (filling p h) end.

(** A page is its template with each hole filled with its own value, everything else left as it is: the
    order of the replacements does not show, as long as no value contains a brace. The fillings but
    for the fixed markup around them are escaped, so they cannot open a tag or leave an attribute. *)
Theorem landing_fills_each_hole template ps p :
  bytes_of template = template_bytes ps -> tidy_pieces ps -> plain_page p ->
  bytes_of (landing template p) = concat (map (filled p) ps).
Proof.
  intros Ht Hps Hp. unfold landing. rewrite bytes_of_string_of, Ht.
  change "{{TITLE}}" with (tag Title). change "{{HERO}}" with (tag Hero). change "{{SUBTITLE}}" with (tag Subtitle).
  change "{{ROWS}}" with (tag Rows). change "{{FOOT}}" with (tag Foot).
  change (escape (page_title p)) with (filling p Title). change (hero (page_logo p) (page_name p)) with (filling p Hero).
  change (escape (page_subtitle p)) with (filling p Subtitle). change (rows (links p)) with (filling p Rows). change (escape (page_foot p)) with (filling p Foot).
  rewrite !replace_fills by (repeat apply fill_tidy; auto using filling_tidy). unfold template_bytes. f_equal. rewrite !map_map.
  apply map_ext. intros [bs|[]]; reflexivity.
Qed.

(** A name that spells a mark is filled by the replacement that comes after it: the rows of the page end
    up inside the attribute that holds the name. *)
Theorem name_can_spell_a_mark :
  let p := mkPage "" "data:logo" "{{ROWS}}" "" "" [mkLink "Keys" "/keys"] in
  landing "{{HERO}}" p
  = "<a " +:+ attribute "class" "home" +:+ " " +:+ attribute "href" "/" +:+ " " +:+ attribute "aria-label" "Home" +:+ "><img "
    +:+ attribute "class" "logo" +:+ " " +:+ attribute "src" "data:logo" +:+ " " +:+ attribute "alt" (row (mkLink "Keys" "/keys")) +:+ " /></a>".
Proof. reflexivity. Qed.
