(* ===== verification/Signals.v ===== *)
(** * Signals ([crates/pic-x-server/src/signal.rs], their use in [App::serve] of [app.rs])

    A process and the three signals it knows. Listening for a signal keeps one mark that it arrived since
    it was last received, however often it did; a signal nobody listens for ends the process. The
    stop signals are listened for when [process_shutdown] is called, and awaited later; the reload
    signal is listened for when the task that [on_hangup] spawns first runs. Whether a listener can be
    installed is a parameter, and so is which of two stop signals is taken when both are there. *)
From S2P Require Import Prelude Rust Settings.
Local Open Scope Z_scope.

Inductive SignalKind := SIGTERM | SIGINT | SIGHUP.
Definition same_signal (a b : SignalKind) : bool :=
  match a, b with SIGTERM, SIGTERM | SIGINT, SIGINT | SIGHUP, SIGHUP => true | _, _ => false end.

Definition signal_name (k : SignalKind) : string := match k with SIGTERM => "SIGTERM" | SIGINT => "SIGINT" | SIGHUP => "SIGHUP" end.

(** [tokio::signal::unix::Signal]: whether the signal arrived since it was last received. *)
Definition Stream : Type := bool.

Inductive Task := NotSpawned | Spawned | Listening (hangup : Stream) | Ended.

Record Process := mkProcess {
  terminate : option Stream; interrupt : option Stream; task : Task;
  awaited : bool; stopped_by : option string; reloads : nat; killed_by : option SignalKind }.

Section Signals.
Context (installs : SignalKind -> bool).

(** [listen]. *)
Definition listen (k : SignalKind) : option Stream := if installs k then Some false else None.

(** [process_shutdown], with [listen_for_shutdown]: both listeners at once, before anything is awaited. *)
Definition process_shutdown : Process := mkProcess (listen SIGTERM) (listen SIGINT) NotSpawned false None 0 None.

Inductive Event :=
| Arrives (k : SignalKind)
| OnHangup
| PollHangup
| Await
| PollStop (interrupt_first : bool)
| Aborted.

(** A signal arrives: it is marked, or it does what the system does. *)
Definition arrives (k : SignalKind) (p : Process) : Process :=
  let kill := mkProcess (terminate p) (interrupt p) (task p) (awaited p) (stopped_by p) (reloads p) (Some k) in
  match k with
  | SIGTERM => match terminate p with
               | Some _ => mkProcess (Some true) (interrupt p) (task p) (awaited p) (stopped_by p) (reloads p) None
               | None => kill
               end
  | SIGINT => match interrupt p with
              | Some _ => mkProcess (terminate p) (Some true) (task p) (awaited p) (stopped_by p) (reloads p) None
              | None => kill
              end
  | SIGHUP => match task p with
              | Listening _ => mkProcess (terminate p) (interrupt p) (Listening true) (awaited p) (stopped_by p) (reloads p) None
              | _ => kill
              end
  end.

(** What the task of [on_hangup] does when it runs: it installs its listener, or gives up; then it hands every
    mark it finds to the handler. *)
Definition poll_hangup (p : Process) : Process :=
  let with_task t n := mkProcess (terminate p) (interrupt p) t (awaited p) (stopped_by p) n (killed_by p) in
  match task p with
  | Spawned => with_task (match listen SIGHUP with Some hangup => Listening hangup | None => Ended end) (reloads p)
  | Listening true => with_task (Listening false) (S (reloads p))
  | _ => p
  end.

(** Which signal the awaited future resolves with, if any; none is left to listen for when neither could be
    installed. *)
Definition received (interrupt_first : bool) (p : Process) : option string :=
  match terminate p, interrupt p with
  | Some true, Some true => Some (signal_name (if interrupt_first then SIGINT else SIGTERM))
  | Some true, _ => Some (signal_name SIGTERM)
  | _, Some true => Some (signal_name SIGINT)
  | _, _ => None
  end.

Definition poll_stop (interrupt_first : bool) (p : Process) : Process :=
  if awaited p then
    mkProcess (terminate p) (interrupt p) (task p) true
      (match stopped_by p with Some s => Some s | None => received interrupt_first p end) (reloads p) (killed_by p)
  else p.

Definition step (e : Event) (p : Process) : Process :=
  match killed_by p with
  | Some _ => p
  | None =>
    match e with
    | Arrives k => arrives k p
    | OnHangup => mkProcess (terminate p) (interrupt p) Spawned (awaited p) (stopped_by p) (reloads p) None
    | PollHangup => poll_hangup p
    | Await => mkProcess (terminate p) (interrupt p) (task p) true (stopped_by p) (reloads p) None
    | PollStop first => poll_stop first p
    | Aborted => mkProcess (terminate p) (interrupt p) Ended (awaited p) (stopped_by p) (reloads p) None
    end
  end.

Definition run (es : list Event) (p : Process) : Process := foldl (fun p e => step e p) p es.

Definition arrivals (k : SignalKind) (es : list Event) : nat := length (List.filter (fun e => match e with Arrives j => same_signal j k | _ => false end) es).

(** ** Nothing is lost between the arrival of a signal and its being received *)

Lemma run_snoc es e p : run (es ++ [e]) p = step e (run es p).
Proof. unfold run. by rewrite foldl_app. Qed.

Lemma arrivals_snoc k es e : arrivals k (es ++ [e]) = (arrivals k es + match e with Arrives j => if same_signal j k then 1 else 0 | _ => 0 end)%nat.
Proof. unfold arrivals. rewrite List.filter_app, length_app. f_equal. destruct e as [j| | | | |]; simpl; [by destruct (same_signal j k)|done..]. Qed.

(** The marks of the stop signals say whether they arrived. *)
Lemma marks_are_arrivals es :
  let p := run es process_shutdown in
  killed_by p = None ->
  terminate p = (if installs SIGTERM then Some (bool_decide (arrivals SIGTERM es <> 0%nat)) else None) /\
  interrupt p = (if installs SIGINT then Some (bool_decide (arrivals SIGINT es <> 0%nat)) else None) /\
  (installs SIGTERM = false -> arrivals SIGTERM es = 0%nat) /\ (installs SIGINT = false -> arrivals SIGINT es = 0%nat).
Proof.
  induction es as [|e es IH] using rev_ind; [unfold process_shutdown, listen; simpl; intros _; by destruct (installs SIGTERM), (installs SIGINT)|].
  rewrite run_snoc, !arrivals_snoc. cbv zeta in *. set (p := run es process_shutdown) in *. unfold step.
  destruct (killed_by p) eqn:Ek; [intros H; congruence|]. specialize (IH eq_refl). destruct IH as (Ht & Hi & Hnt & Hni).
  destruct e as [[]| | | |f|]; cbn [arrives killed_by].
  - rewrite Ht. destruct (installs SIGTERM) eqn:Es; cbn; [|done]. rewrite Hi, Nat.add_0_r. intros _. split_and!; try done.
    rewrite bool_decide_eq_true_2; [done|lia].
  - rewrite Hi. destruct (installs SIGINT) eqn:Es; cbn; [|done]. rewrite Ht, Nat.add_0_r. intros _. split_and!; try done.
    rewrite bool_decide_eq_true_2; [done|lia].
  - destruct (task p); cbn; rewrite ?Nat.add_0_r; done.
  - cbn. by rewrite !Nat.add_0_r.
  - intros _. unfold poll_hangup. destruct (task p) as [| |[]|]; cbn; by rewrite ?Nat.add_0_r.
  - cbn. by rewrite !Nat.add_0_r.
  - intros _. unfold poll_stop. destruct (awaited p); cbn; by rewrite ?Nat.add_0_r.
  - cbn. by rewrite !Nat.add_0_r.
Qed.

(** A request to stop is never lost and never made up. A process whose listeners were installed and that lives
    has stopped, once it waits and looks, exactly when a stop signal arrived at any time since the
    listeners were installed, preparation included; and it names a signal that did arrive. *)
Theorem stop_requests_are_kept es first :
  let p := run es process_shutdown in
  killed_by p = None -> awaited p = true -> stopped_by p = None ->
  let q := step (PollStop first) p in
  (is_Some (stopped_by q) <-> (arrivals SIGTERM es + arrivals SIGINT es <> 0)%nat) /\
  (stopped_by q = Some "SIGTERM" -> arrivals SIGTERM es <> 0%nat) /\ (stopped_by q = Some "SIGINT" -> arrivals SIGINT es <> 0%nat).
Proof.
  intros p Hk Ha Hs q. destruct (marks_are_arrivals es Hk) as (Ht & Hi & Hnt & Hni). unfold q, step. rewrite Hk. unfold poll_stop. rewrite Ha, Hs.
  cbn [stopped_by]. fold p in Ht, Hi. unfold received. rewrite Ht, Hi.
  destruct (arrivals SIGTERM es) as [|a], (arrivals SIGINT es) as [|b], (installs SIGTERM), (installs SIGINT), first;
    try (specialize (Hnt eq_refl); discriminate Hnt); try (specialize (Hni eq_refl); discriminate Hni);
    cbn; (split_and!; [split; [intros Hq; (done || by destruct Hq)|intros Hq; first [exact (ex_intro _ _ eq_refl)|by destruct Hq]]|..]); done.
Qed.

(** With no listener for either, nothing resolves the wait: a server nobody can ask to stop is not stopped. *)
Theorem unheard_is_not_stopped es :
  installs SIGTERM = false -> installs SIGINT = false -> stopped_by (run es process_shutdown) = None.
Proof.
  intros Ht Hi. enough (H : stopped_by (run es process_shutdown) = None /\ terminate (run es process_shutdown) = None /\ interrupt (run es process_shutdown) = None) by apply H.
  induction es as [|e es IH] using rev_ind; [unfold process_shutdown, listen; by rewrite Ht, Hi|].
  rewrite run_snoc. set (p := run es process_shutdown) in *. destruct IH as (Hs & H1 & H2). unfold step. destruct (killed_by p); [done|].
  destruct e as [[]| | | |f|]; cbn [arrives]; rewrite ?H1, ?H2; try done.
  - destruct (task p); done.
  - unfold poll_hangup. destruct (task p) as [| |[]|]; done.
  - unfold poll_stop, received. rewrite H1, H2, Hs. destruct (awaited p); done.
Qed.

(** ** Reloading *)

Definition marked (t : Task) : nat := match t with Listening true => 1%nat | _ => 0%nat end.

(** The handler runs at most once per signal, and signals that arrive together are one. *)
Theorem reloads_are_asked_for es :
  let p := run es process_shutdown in (reloads p + marked (task p) <= arrivals SIGHUP es)%nat.
Proof.
  induction es as [|e es IH] using rev_ind; [done|]. rewrite run_snoc, arrivals_snoc. cbv zeta in *. set (p := run es process_shutdown) in *.
  unfold step. destruct (killed_by p); [lia|]. destruct e as [[]| | | |f|]; cbn [arrives].
  - destruct (terminate p); cbn; lia.
  - destruct (interrupt p); cbn; lia.
  - destruct (task p) as [| |[]|]; cbn in *; lia.
  - cbn. destruct (task p) as [| |[]|]; cbn in *; lia.
  - unfold poll_hangup, listen. destruct (task p) as [| |[]|] eqn:Et; cbn in *; rewrite ?Et; try destruct (installs SIGHUP); cbn; lia.
  - cbn. lia.
  - unfold poll_stop. destruct (awaited p); cbn; lia.
  - cbn. destruct (task p) as [| |[]|]; cbn in *; lia.
Qed.

(** A reload asked for while the task listens is done when the task next runs. *)
Theorem reload_follows_its_signal p :
  killed_by p = None -> (exists h, task p = Listening h) ->
  let q := step PollHangup (step (Arrives SIGHUP) p) in reloads q = S (reloads p) /\ killed_by q = None /\ task q = Listening false.
Proof. intros Hk [h Ht]. unfold step. rewrite Hk. cbn [arrives]. rewrite Ht. done. Qed.

(** The reload signal has no listener before its task has run: one that arrives while the volume is prepared,
    or right after the task was spawned, ends the process, where a stop signal at the same time is kept. *)
Theorem early_hangup_ends_the_process es :
  Forall (fun e => e <> PollHangup) es -> installs SIGTERM = true -> installs SIGINT = true ->
  arrivals SIGHUP es <> 0%nat -> is_Some (killed_by (run es process_shutdown)).
Proof.
  intros Hp Ht Hi Hn. enough (H : let p := run es process_shutdown in
    is_Some (killed_by p) \/ (arrivals SIGHUP es = 0%nat /\ is_Some (terminate p) /\ is_Some (interrupt p) /\ forall h, task p <> Listening h)).
  { destruct H as [H|[H _]]; done. }
  clear Hn. induction es as [|e es IH] using rev_ind; [right; unfold process_shutdown, listen; by rewrite Ht, Hi|].
  apply Forall_app in Hp as [Hp He]. apply Forall_cons in He as [He _]. specialize (IH Hp). rewrite run_snoc, arrivals_snoc. cbv zeta in *.
  set (p := run es process_shutdown) in *. unfold step. destruct (killed_by p) eqn:Ek; [left; rewrite Ek; by eexists|].
  destruct IH as [[? [=]]|(Ha & [t Hst] & [i Hsi] & Hnl)].
  destruct e as [[]| | | |f|]; [| |left|right|done|right|right|right]; cbn [arrives]; rewrite ?Hst, ?Hsi, ?Ha.
  - right. cbn. rewrite ?Hst, ?Hsi. split_and!; [done|by eexists..|done].
  - right. cbn. rewrite ?Hst, ?Hsi. split_and!; [done|by eexists..|done].
  - destruct (task p) as [| |h|] eqn:Etask; try (cbn; by eexists). by destruct (Hnl h).
  - cbn. split_and!; [done|by eexists..|done].
  - cbn. split_and!; [done|by eexists..|done].
  - unfold poll_stop. destruct (awaited p); cbn; rewrite ?Hst, ?Hsi; (split_and!; [done|by eexists..|done]).
  - cbn. split_and!; [done|by eexists..|done].
Qed.
End Signals.

(** ** Levels ([level_of] of [logging.rs]) *)

(** The levels of the subscriber, from the quietest. *)
Inductive Level := ERROR | WARN | INFO | DEBUG | TRACE.
Definition level_of (l : LogLevel) : Level :=
  match l with LevelError => ERROR | LevelWarn => WARN | LevelInfo => INFO | LevelDebug => DEBUG | LevelTrace => TRACE end.
